(* ===== verification/_CoqProject ===== *)
-Q . S2P
Prelude.v
Sorting.v
GoStrings.v
Regexp.v
OS.v
FileUtils.v
Config.v
RoutingTable.v
HAProxyConfig.v
HAProxyReader.v
Marshaller.v
MarshallerCorrect.v
Monitor.v
Configurer.v
ConfigureConc.v
Updater.v
Heap.v
System.v
Csv.v
Metrics.v
PortChecker.v
Concurrency.v
Interleaving.v
DrainConc.v
Locks.v
Watcher.v
Runners.v
Reaper.v
Main.v
Process.v
Group.v
Spies.v
Fakes.v
TestSupport.v
