(* ===== verification/Prelude.v ===== *)
(** Verification of cf-tcp-router, the router that turns TCP routes of the
    Cloud Foundry routing API into an HAProxy configuration.

    * The program

    [main.go] reads flags and a configuration file, builds the parts and runs
    four goroutines: the watcher (an event stream of the routing API, and the
    loop that hands events, syncs and drains to the updater), the syncer (a
    timer that asks the watcher for bulk syncs), the monitor (a timer that
    checks the HAProxy process) and the metrics reporter.  A fifth one prunes
    expired routes.  The updater keeps a routing table and calls the
    configurer when the table changes; the configurer marshals the table into
    HAProxy's file and runs a reload script, with the monitor stopped.

    * The files and the code they model (under src/)

    - Prelude: scopes, hints, tactics, Go errors, results, panics, 64-bit
      integers and [time], and the iteration over Go maps: an operation that
      ranges over a map takes a function that enumerates it in any order.
    - Sorting, GoStrings, Regexp, Csv: the parts of [sort], [strings],
      [strconv], [fmt], [regexp] and [encoding/csv] the code uses.
    - OS: the part of [os] the code uses, on a map of files; every call takes
      the next of a list of faults, and the file system after every call is
      recorded, so that a crash at any moment can be spoken of.
    - FileUtils (utils/fileutils.go), Config (config/config.go).
    - RoutingTable (models/routing_table.go): the table as a value.
    - Heap: the same operations on maps held by reference.
    - HAProxyConfig (models/haproxy_config.go): the configuration of a table.
    - Marshaller (configurer/haproxy/config_marshaller.go), HAProxyReader (how
      HAProxy reads the directives the marshaller writes, by its manual),
      MarshallerCorrect: the proofs that join the two.
    - Monitor (monitor/monitor.go), Configurer (haproxy_configurer.go,
      script_runner.go, configurer.go), ConfigureConc (overlapping calls).
    - Updater (routing_table/updater.go): its operations one at a time, with
      the API client and the configurer as type classes; Concurrency: the same
      cut at the locks, as steps of goroutines, with the copy of the table's
      struct that [Drain] makes.
    - System: the updater on the configurer on the marshaller, one activity at
      a time; Interleaving: the same with its goroutines interleaved;
      DrainConc: the call that [Drain] makes without the updater's lock, cut
      where it has read the table; Locks: the mutex of the updater as a state,
      with the steps that lock and unlock it, the waits for it, for the
      configurer's lock and for the routing API.
    - Metrics (metrics_reporter/), Runners (syncer/syncer.go and the loop of
      the reporter), Watcher (watcher/watcher.go), PortChecker
      (router_group_port_checker/), Reaper (the goroutine of main.go that reaps
      child processes), Main (main.go up to the group of goroutines).
    - Process: the group as a product of the watcher, the syncer, the
      updater's goroutines and the pruner, where a step of one part that
      another sees is a step of both; each locked region is one step there, and
      each call of [Configure].  Group: the timers and the monitor that are
      members of the group as well, with the calls of [Configure] cut.
    - Spies (what the generated test doubles have in common), Fakes (the
      doubles), TestSupport (testrunner/, testutil/).

    * What is shown

    - The table: an update changes its target only, by the rules on tags; its
      flag tells exactly whether the set of backends changed; pruning removes
      what is expired and keeps what is fresh; updates of different backends
      commute; no route is left without backends.  The operations on shared
      maps implement those on values, and a sync that makes the updater's
      table share the fresh table's map does too.
    - The configuration has exactly the valid routes, is well formed, and its
      text, read as HAProxy reads it, sends each connection to exactly the
      servers of its route, whatever the order of the maps.
    - [Configure]: what it leaves on success and on every error; at every
      moment, whatever fails, the file is the old or the complete new one;
      overlapping calls serialize and always return; where none fails the
      monitor is off only while a call is between its two steps on the flag.
    - The updater: what events and syncs do to the table, when they call the
      configurer, and that the table last configured has the backends of the
      current one; events interleaved with a sync are neither lost nor
      reordered.  With the mutex as a state: nobody is blocked for good but by
      the routing API, a sync makes a bounded number of steps, and the accesses
      to the table that are not synchronised are named; that a step touches the
      table is read off the step.
    - The whole.  In a process that starts without faults, on a file system
      without faults and with reloads that succeed, in every interleaving of
      syncs, events, drains and prunes: whenever no sync holds a change back and
      no drain was given a table that a sync had replaced, HAProxy's file serves
      what the table has, and no more unless the table was pruned since the
      last call; a sync brings the listing in; between syncs the events reach
      the table and the file in their order; with one [SIGUSR2], the process is
      interrupted after HAProxy was reloaded with the draining flag; the monitor
      is off duty only during a reload.  Whatever fails, the file is at every
      moment a complete one.  A drain's call of the configurer, during which
      other goroutines go on, is as if made at once.
    - Watcher, syncer, monitor, reporter, port checker: order of events, forced
      tokens, spaced retries, stopping, never blocking, detection, sums, round
      trips, verdict.  The reaper keeps up with exits that do not crowd.
    - The doubles record and answer as they are told, method by method.
    Theorems in the [Sample] modules that are not witnesses show defects: what
    the code does where it departs from what it means to do.

    * Conventions

    A Go error is its text; a pair of a value and an error is a [result] or a
    sum; stateful code is a function on its state or in the monad [M] of OS.
    Widths are kept where the code can overflow ([wrap_i64], [wrap_u64]).
    Readings of the clock are a function from the number of the reading.
    Recursion is structural; where a number of rounds is given it is the
    code's own (two attempts of a sync's fetch, three of the port checker's),
    or the length of the text ([trim_left]).  Code outside the repository is a
    type class or an argument: modification tags, the API client, the token
    fetcher, YAML, PEM and X.509, the process table, the running of programs.

    * Not modelled

    Logging (but for the errors that are part of a result here), dropsonde
    beyond the list of metrics sent, the debug server, the ifrit group (its
    signals are steps of the members; the syncer's first request may or may not
    find the watcher receiving), the time spent sleeping (the retry interval is recorded), and
    Go's scheduler beyond the order of steps.  The statistics reporter is not
    part of the product in Process, with which it shares no state, and the
    monitor only through its flag, which is in the configurer's state.  The
    requests of a sync's fetch are one step, which need not come (Locks).  The
    order of map iterations is one function for all calls of a run, which the
    text does not depend on but for servers with the same address and port.  An
    event that waits for the configurer's lock keeps the updater's (Locks), and
    its region is one step, as is the end of a sync: what an overlapping sync
    merges during the wait comes before or after it.  A drain evaluates both arguments of its call
    in one step; the flag it reads is set by then and never cleared.  A YAML
    document that is null, which makes the configuration a nil pointer, is
    left out.  Files are regular and hold their whole content; [rename] is
    atomic.  The stubs of the test doubles are named, not run, and the tables
    a double records are values (the code's share their maps with the live
    table).  The tests' search for an external address starts from the
    addresses that [net.ParseCIDR] gives. *)
From stdpp Require Export base tactics list gmap strings sorting relations.
From Stdlib Require Export ZArith Lia.

(** * Scope, hint databases and tactics *)

Declare Scope go_scope.
Delimit Scope go_scope with go.
#[local] Open Scope Z_scope.

Create HintDb router.
#[export] Hint Resolve Permutation_refl : router.

(** Case analysis on every [match] and [decide] of the goal and hypotheses,
    followed by the rewriting of map look-ups. *)
Ltac case_all :=
  repeat (case_match || case_decide || case_bool_decide); simplify_map_eq/=.

(** Split boolean connectives of hypotheses into propositions. *)
Ltac bool_simpl :=
  repeat match goal with
    | H : _ && _ = true |- _ => apply andb_true_iff in H as [? ?]
    | H : _ || _ = false |- _ => apply orb_false_iff in H as [? ?]
    | H : negb _ = true |- _ => apply negb_true_iff in H
    | H : negb _ = false |- _ => apply negb_false_iff in H
    | H : bool_decide _ = true |- _ => apply bool_decide_eq_true in H
    | H : bool_decide _ = false |- _ => apply bool_decide_eq_false in H
    | H : (_ <? _) = true |- _ => apply Z.ltb_lt in H
    | H : (_ <? _) = false |- _ => apply Z.ltb_ge in H
    | H : (_ <=? _) = true |- _ => apply Z.leb_le in H
    | H : (_ <=? _) = false |- _ => apply Z.leb_gt in H
    | H : (_ =? _) = true |- _ => apply Z.eqb_eq in H
    | H : (_ =? _) = false |- _ => apply Z.eqb_neq in H
    end.

(** * Go errors and fallible results

    A Go [error] is represented by the text its [Error()] method returns;
    [None] is the [nil] error.  A function returning [(T, error)] becomes a
    [result T]. *)

Abbreviation error := string (only parsing).

Inductive result (A : Type) : Type :=
  | Ok (a : A)
  | Err (e : error).
Arguments Ok {A} _.
Arguments Err {A} _.

#[export] Instance result_ret : MRet result := @Ok.
#[export] Instance result_bind : MBind result := λ A B f m,
  match m with Ok a => f a | Err e => Err e end.

Definition err_of {A} (r : result A) : option error :=
  match r with Ok _ => None | Err e => Some e end.

(** How a call ends: it returns, it panics, or it never returns. *)
Inductive outcome (A : Type) : Type :=
  | Returned (a : A)
  | Panicked (what : string)
  | Blocked.
Arguments Returned {A} _.
Arguments Panicked {A} _.
Arguments Blocked {A}.

(** * Machine integers

    Go's sized integers are integers with the wrap-around written out. *)

Definition wrap_i64 (z : Z) : Z := (z + 2 ^ 63) `mod` 2 ^ 64 - 2 ^ 63.
Definition wrap_u64 (z : Z) : Z := z `mod` 2 ^ 64.

Definition is_i64 (z : Z) : Prop := - 2 ^ 63 ≤ z < 2 ^ 63.
Definition is_u64 (z : Z) : Prop := 0 ≤ z < 2 ^ 64.
Definition is_u16 (z : Z) : Prop := 0 ≤ z < 2 ^ 16.

Lemma wrap_i64_range z : is_i64 (wrap_i64 z).
Proof. unfold is_i64, wrap_i64. pose proof (Z.mod_pos_bound (z + 2 ^ 63) (2 ^ 64)). lia. Qed.
Lemma wrap_i64_small z : is_i64 z → wrap_i64 z = z.
Proof. unfold is_i64, wrap_i64. intros. rewrite Z.mod_small; lia. Qed.
Lemma wrap_u64_range z : is_u64 (wrap_u64 z).
Proof. unfold is_u64, wrap_u64. apply Z.mod_pos_bound. lia. Qed.
Lemma wrap_u64_small z : is_u64 z → wrap_u64 z = z.
Proof. unfold is_u64, wrap_u64. intros. rewrite Z.mod_small; lia. Qed.
Lemma wrap_u64_add_l x y : wrap_u64 (wrap_u64 x + y) = wrap_u64 (x + y).
Proof. unfold wrap_u64. apply Zplus_mod_idemp_l. Qed.
Lemma wrap_u64_add_r x y : wrap_u64 (x + wrap_u64 y) = wrap_u64 (x + y).
Proof. unfold wrap_u64. apply Zplus_mod_idemp_r. Qed.

#[export] Hint Resolve wrap_i64_range wrap_u64_range : router.
Create Rewrite HintDb go_int.
#[export] Hint Rewrite wrap_u64_add_l wrap_u64_add_r : go_int.

(** * Iteration over a Go map

    A [range] over a map produces every key present when the loop starts
    exactly once, in an order the language leaves open and that differs from
    one loop to the next.  A range order is any function that enumerates the
    map; operations that range over a map take one. *)

Definition range_order (K V : Type) `{Countable K} : Type := gmap K V → list (K * V).

Class IsRange `{Countable K} {V} (r : range_order K V) : Prop :=
  range_perm : ∀ m, r m ≡ₚ map_to_list m.

#[export] Instance map_to_list_range `{Countable K} {V} :
  IsRange (map_to_list (M:=gmap K V)).
Proof. by intros m. Qed.
#[export] Instance reverse_range `{Countable K} {V} :
  IsRange (λ m : gmap K V, reverse (map_to_list m)).
Proof. intros m. apply reverse_Permutation. Qed.

Section range.
Context `{Countable K} {V : Type} (r : range_order K V) `{!IsRange r}.

Lemma elem_of_range m k v : (k, v) ∈ r m ↔ m !! k = Some v.
Proof. rewrite (range_perm m). apply elem_of_map_to_list. Qed.
Lemma NoDup_range_keys m : NoDup (r m).*1.
Proof. rewrite (range_perm m). apply NoDup_fst_map_to_list. Qed.
Lemma NoDup_range m : NoDup (r m).
Proof. rewrite (range_perm m). apply NoDup_map_to_list. Qed.
Lemma range_keys_perm m : (r m).*1 ≡ₚ (map_to_list m).*1.
Proof. by rewrite (range_perm m). Qed.
Lemma elem_of_range_keys m k : k ∈ (r m).*1 ↔ is_Some (m !! k).
Proof.
  rewrite list_elem_of_fmap. split.
  - intros ([k' v] & -> & Hin%elem_of_range). by eexists.
  - intros [v Hv]. exists (k, v). by rewrite elem_of_range.
Qed.
Lemma length_range m : length (r m) = size m.
Proof. rewrite (range_perm m). apply length_map_to_list. Qed.
End range.

Lemma range_keys_same `{Countable K} {V W} (r1 : range_order K V) (r2 : range_order K W)
    `{!IsRange r1, !IsRange r2} (m1 : gmap K V) (m2 : gmap K W) :
  dom m1 = dom m2 → (r1 m1).*1 ≡ₚ (r2 m2).*1.
Proof.
  intros Hdom. apply NoDup_Permutation; [apply NoDup_range_keys, _..|].
  intros k. rewrite !elem_of_range_keys by apply _. by rewrite <-!elem_of_dom, Hdom.
Qed.

#[export] Hint Resolve NoDup_range_keys NoDup_range : router.

(** * Lists *)

Lemma filter_all {A} (P : A → Prop) `{∀ x, Decision (P x)} l :
  Forall P l → base.filter P l = l.
Proof. induction 1; [done|]. rewrite filter_cons_True by done. congruence. Qed.
Lemma filter_none {A} (P : A → Prop) `{∀ x, Decision (P x)} l :
  Forall (λ x, ¬ P x) l → base.filter P l = [].
Proof. induction 1; [done|]. by rewrite filter_cons_False. Qed.
Lemma filter_fmap {A B} (f : A → B) (P : B → Prop) `{∀ x, Decision (P x)} (l : list A) :
  base.filter P (f <$> l) = f <$> base.filter (λ x, P (f x)) l.
Proof.
  induction l as [|x l IH]; [done|]. rewrite fmap_cons, !filter_cons, IH.
  by case_decide.
Qed.
Lemma Exists_insert_new {A} (P : A → Prop) l i x y : l !! i = Some x → P y → Exists P (<[i := y]> l).
Proof.
  intros Hi Hy. apply Exists_exists. exists y. split; [|done].
  eapply list_elem_of_lookup_2, list_lookup_insert_eq. by eapply lookup_lt_Some.
Qed.
Lemma Exists_insert_keep {A} (P : A → Prop) l i x y :
  l !! i = Some x → (P x → P y) → Exists P l → Exists P (<[i := y]> l).
Proof.
  intros Hi Hxy (z & [j Hj]%list_elem_of_lookup_1 & Hz)%Exists_exists.
  destruct (decide (i = j)) as [<-|Hne]; [simplify_eq; by eapply Exists_insert_new; [|apply Hxy]|].
  apply Exists_exists. exists z. split; [|done]. eapply list_elem_of_lookup_2. by rewrite list_lookup_insert_ne.
Qed.
Lemma decide_iff {A} (P Q : Prop) `{Decision P, Decision Q} (x y : A) :
  P ↔ Q → (if decide P then x else y) = (if decide Q then x else y).
Proof. intros. repeat case_decide; tauto. Qed.
