(* ===== verification/Sorting.v ===== *)
(** Go's [sort.SliceStable], as a stable insertion sort, and the facts its
    clients rely on: the result is the one sorted list in which elements the
    order does not separate keep their original order. *)
From S2P Require Import Prelude.

(** * Strict weak orders

    The [less] function handed to [sort.SliceStable]. *)

Class StrictWeakOrder {A} (ltb : A → A → bool) : Prop := {
  swo_irrefl a : ltb a a = false;
  swo_trans a b c : ltb a b = true → ltb b c = true → ltb a c = true;
  swo_split a b c : ltb a b = true → ltb a c = true ∨ ltb c b = true
}.
Arguments swo_irrefl {A} ltb {_} a.
Arguments swo_trans {A} ltb {_} a b c.
Arguments swo_split {A} ltb {_} a b c.

Section sorting.
Context {A : Type} (ltb : A → A → bool).

Fixpoint insert_stable (x : A) (l : list A) : list A :=
  match l with
  | [] => [x]
  | y :: l' => if ltb y x then y :: insert_stable x l' else x :: y :: l'
  end.

Definition SliceStable (l : list A) : list A := foldr insert_stable [] l.

(** Two elements the order does not separate. *)
Definition tied (a b : A) : bool := negb (ltb a b) && negb (ltb b a).

Definition not_above (a b : A) : Prop := ltb b a = false.

Lemma StronglySorted_weaken (R R' : A → A → Prop) l :
  (∀ a b, R a b → R' a b) → StronglySorted R l → StronglySorted R' l.
Proof. intros HR. induction 1 as [|a l _ IH Ha]; constructor; [done|]. by eapply List.Forall_impl; [apply HR|]. Qed.

Lemma insert_stable_perm x l : insert_stable x l ≡ₚ x :: l.
Proof.
  induction l as [|y l IH]; simpl; [done|].
  destruct (ltb y x); [|done]. rewrite IH. apply Permutation_swap.
Qed.

Lemma SliceStable_perm l : SliceStable l ≡ₚ l.
Proof. induction l as [|x l IH]; simpl; [done|]. by rewrite insert_stable_perm, IH. Qed.

Lemma elem_of_SliceStable x l : x ∈ SliceStable l ↔ x ∈ l.
Proof. by rewrite SliceStable_perm. Qed.

Lemma length_SliceStable l : length (SliceStable l) = length l.
Proof. by rewrite SliceStable_perm. Qed.

Lemma SliceStable_nil l : SliceStable l = [] ↔ l = [].
Proof. rewrite <-!length_zero_iff_nil. by rewrite length_SliceStable. Qed.

Context `{!StrictWeakOrder ltb}.

Lemma swo_asym a b : ltb a b = true → ltb b a = false.
Proof.
  intros Hab. destruct (ltb b a) eqn:Hba; [|done].
  pose proof (swo_irrefl ltb a). pose proof (swo_trans ltb a b a). naive_solver.
Qed.

#[export] Instance not_above_trans : Transitive not_above.
Proof.
  intros a b c Hab Hbc. unfold not_above in *.
  destruct (ltb c a) eqn:Hca; [|done].
  destruct (swo_split ltb c a b Hca); congruence.
Qed.

Lemma tied_refl a : tied a a = true.
Proof. unfold tied. by rewrite (swo_irrefl ltb). Qed.
Lemma tied_sym a b : tied a b = tied b a.
Proof. unfold tied. by rewrite andb_comm. Qed.
Lemma tied_trans a b c : tied a b = true → tied b c = true → tied a c = true.
Proof.
  unfold tied. intros ??. bool_simpl.
  apply andb_true_iff. rewrite !negb_true_iff.
  split; eapply not_above_trans; unfold not_above; eauto.
Qed.

Lemma insert_stable_sorted x l :
  StronglySorted not_above l → StronglySorted not_above (insert_stable x l).
Proof.
  induction 1 as [|y l Hl IH Hy]; simpl.
  { repeat constructor. }
  destruct (ltb y x) eqn:Hyx.
  - constructor; [done|]. rewrite insert_stable_perm. constructor; [|done].
    by apply swo_asym.
  - constructor; [by constructor|]. constructor; [done|].
    eapply Forall_impl; [done|]. intros z Hz. by eapply not_above_trans.
Qed.

Lemma SliceStable_sorted l : StronglySorted not_above (SliceStable l).
Proof. induction l; simpl; [constructor|]. by apply insert_stable_sorted. Qed.

(** Stability: within one class of ties the original order survives. *)
Lemma insert_stable_filter a x l :
  StronglySorted not_above l →
  base.filter (λ y, tied a y) (insert_stable x l) = base.filter (λ y, tied a y) (x :: l).
Proof.
  induction 1 as [|y l Hl IH Hy]; [done|]. simpl insert_stable.
  destruct (ltb y x) eqn:Hyx; [|done].
  rewrite filter_cons, IH, !filter_cons.
  destruct (decide (tied a y)) as [Hay|]; [|done].
  destruct (decide (tied a x)) as [Hax|]; [exfalso|done].
  apply Is_true_true in Hax, Hay.
  rewrite tied_sym in Hay. pose proof (tied_trans _ _ _ Hay Hax) as Ht.
  unfold tied in Ht. rewrite Hyx in Ht. done.
Qed.

Lemma SliceStable_stable a l :
  base.filter (λ y, tied a y) (SliceStable l) = base.filter (λ y, tied a y) l.
Proof.
  induction l as [|x l IH]; [done|]. simpl SliceStable.
  rewrite insert_stable_filter by apply SliceStable_sorted.
  rewrite !filter_cons. by rewrite IH.
Qed.

(** Sortedness and stability determine the list. *)
Lemma stable_sorted_unique l1 l2 :
  StronglySorted not_above l1 → StronglySorted not_above l2 →
  (∀ a, base.filter (λ y, tied a y) l1 = base.filter (λ y, tied a y) l2) →
  l1 = l2.
Proof.
  intros Hl1. revert l2. induction Hl1 as [|x l1 Hl1 IH Hx]; intros l2 Hl2 Hf.
  { destruct l2 as [|y l2]; [done|]. specialize (Hf y).
    rewrite filter_nil, filter_cons_True in Hf; [done|]. by rewrite tied_refl. }
  destruct l2 as [|y l2].
  { specialize (Hf x). rewrite filter_nil, filter_cons_True in Hf; [done|].
    by rewrite tied_refl. }
  inversion_clear Hl2 as [|?? Hl2' Hy].
  assert (∀ a b l k, StronglySorted not_above (b :: k) →
    base.filter (λ y, tied a y) (a :: l) = base.filter (λ y, tied a y) (b :: k) →
    ltb a b = false) as Hhd.
  { intros a b l k Hk Hab. inversion_clear Hk as [|?? _ Hb].
    assert (a ∈ base.filter (λ y, tied a y) (b :: k)) as Hin.
    { rewrite <-Hab. apply list_elem_of_filter. rewrite tied_refl. split; [done|left]. }
    apply list_elem_of_filter in Hin as [_ [->|Hin]%elem_of_cons]; [apply (swo_irrefl ltb)|].
    rewrite Forall_forall in Hb. by apply Hb. }
  assert (tied x y = true) as Hxy.
  { unfold tied. rewrite (Hhd x y l1 l2), (Hhd y x l2 l1); eauto using SSorted_cons. }
  assert (x = y) as ->.
  { specialize (Hf x). rewrite !filter_cons_True in Hf by (by rewrite ?tied_refl, ?Hxy).
    by simplify_eq. }
  f_equal. apply IH; [done|]. intros a. specialize (Hf a).
  rewrite !filter_cons in Hf. case_decide; by simplify_eq.
Qed.

(** When ties are equal the sort does not see the order of its input. *)
Lemma SliceStable_perm_eq l1 l2 :
  l1 ≡ₚ l2 → (∀ x y, x ∈ l1 → y ∈ l1 → tied x y = true → x = y) →
  SliceStable l1 = SliceStable l2.
Proof.
  intros Hp Htie. eapply (StronglySorted_unique_strong not_above).
  - intros x y Hx Hy Hxy Hyx. apply Htie.
    + by rewrite <-elem_of_SliceStable.
    + by rewrite Hp, <-elem_of_SliceStable.
    + unfold tied, not_above in *. by rewrite Hxy, Hyx.
  - apply SliceStable_sorted.
  - apply SliceStable_sorted.
  - by rewrite !SliceStable_perm.
Qed.
End sorting.

#[export] Hint Resolve SliceStable_perm SliceStable_sorted : router.
