(* ===== verification/GoStrings.v ===== *)
(** The parts of Go's [strings], [strconv] and [fmt] packages the program
    uses, on byte strings: decimal printing and parsing, splitting, joining,
    byte-wise comparison. *)
From stdpp Require Export pretty.
From Stdlib Require Import Ascii.
From S2P Require Import Prelude Sorting.
#[local] Open Scope Z_scope.


(** A line break. *)
Definition nl : string := String (ascii_of_nat 10) "".

(** * [fmt.Sprintf("%d", z)] *)

Definition Sprintf_d (z : Z) : string := pretty z.

(** * [strconv.ParseUint(s, 10, bitSize)] and [strconv.Atoi]

    Both return a value next to the error: [0] on a syntax error, the bound
    that was crossed on a range error. *)

Inductive NumError := ErrSyntax | ErrRange.
#[export] Instance NumError_eq_dec : EqDecision NumError.
Proof. solve_decision. Defined.

Definition digit_of (c : ascii) : option Z :=
  let n := Z.of_N (N_of_ascii c) in
  if (48 <=? n) && (n <=? 57) then Some (n - 48) else None.

Definition uint_cutoff : Z := (2 ^ 64 - 1) `div` 10 + 1.

Fixpoint ParseUint_loop (maxVal n : Z) (s : string) : Z * option NumError :=
  match s with
  | EmptyString => (n, None)
  | String c s' =>
      match digit_of c with
      | None => (0, Some ErrSyntax)
      | Some d =>
          if uint_cutoff <=? n then (maxVal, Some ErrRange)
          else
            let n := n * 10 in
            let n1 := wrap_u64 (n + d) in
            if (n1 <? n) || (maxVal <? n1) then (maxVal, Some ErrRange)
            else ParseUint_loop maxVal n1 s'
      end
  end.

Definition ParseUint (s : string) (bitSize : Z) : Z * option NumError :=
  match s with
  | EmptyString => (0, Some ErrSyntax)
  | _ => ParseUint_loop (2 ^ bitSize - 1) 0 s
  end.

Definition Atoi (s : string) : Z * option NumError :=
  let '(neg, digits) :=
    match s with
    | String "-" s' => (true, s')
    | String "+" s' => (false, s')
    | _ => (false, s)
    end in
  match ParseUint digits 64 with
  | (_, Some ErrSyntax) => (0, Some ErrSyntax)
  | (un, e) =>
      if negb neg && (2 ^ 63 <=? un) then (2 ^ 63 - 1, Some ErrRange)
      else if neg && (2 ^ 63 <? un) then (- 2 ^ 63, Some ErrRange)
      else (if neg then - un else un, e)
  end.

Definition quoted (s : string) : string :=
  String (ascii_of_nat 34) (s +:+ String (ascii_of_nat 34) "").

(** [strconv.Quote], the [%q] of [fmt]: exact on ASCII; bytes from 128 on are
    kept, as the printable characters they belong to in UTF-8 text are. *)
Definition hex_digit (n : nat) : string :=
  String (ascii_of_nat (if (n <? 10)%nat then 48 + n else 87 + n)) "".
Definition quote_char (c : ascii) : string :=
  let n := nat_of_ascii c in
  match n with
  | 7 => "\a" | 8 => "\b" | 9 => "\t" | 10 => "\n" | 11 => "\v" | 12 => "\f" | 13 => "\r"
  | 34 => String "\" (String c "") | 92 => "\\"
  | _ => if (n <? 32)%nat || (n =? 127)%nat
         then "\x" +:+ hex_digit (n / 16) +:+ hex_digit (n mod 16) else String c ""
  end%nat.
Fixpoint quote_chars (s : string) : string :=
  match s with
  | EmptyString => ""
  | String c s' => quote_char c +:+ quote_chars s'
  end.
Definition Quote (s : string) : string := quoted (quote_chars s).

Example quote_escapes :
  Quote ("a" +:+ String (ascii_of_nat 10) (String (ascii_of_nat 31) (String (ascii_of_nat 34) "\b")))
  = quoted ("a\n\x1f\" +:+ String (ascii_of_nat 34) "\\b").
Proof. reflexivity. Qed.

(** The text of a conversion error. *)
Definition NumError_text (fn s : string) (e : NumError) : error :=
  "strconv." +:+ fn +:+ ": parsing " +:+ Quote s +:+ ": " +:+
  match e with ErrSyntax => "invalid syntax" | ErrRange => "value out of range" end.

(** * [strings.Split], [strings.Join], [strings.Replace(s, c, "", -1)] *)

Fixpoint Split (s : string) (sep : ascii) : list string :=
  match s with
  | EmptyString => [""]
  | String c s' =>
      if decide (c = sep) then "" :: Split s' sep
      else match Split s' sep with
           | p :: ps => String c p :: ps
           | [] => [String c ""]
           end
  end.

Fixpoint Join (parts : list string) (sep : string) : string :=
  match parts with
  | [] => ""
  | [p] => p
  | p :: ps => p +:+ sep +:+ Join ps sep
  end.

Fixpoint remove_char (c : ascii) (s : string) : string :=
  match s with
  | EmptyString => ""
  | String c' s' => if decide (c' = c) then remove_char c s' else String c' (remove_char c s')
  end.

(** * [strings.TrimSpace]

    The white space of [unicode.IsSpace], as UTF-8: every encoding the
    function may cut off an end of the string. *)

Definition utf8 (bytes : list nat) : string :=
  foldr (λ b s, String (ascii_of_nat b) s) EmptyString bytes.

Definition space_runes : list string :=
  utf8 <$> [[9]; [10]; [11]; [12]; [13]; [32]; [194; 133]; [194; 160]; [225; 154; 128];
    [226; 128; 128]; [226; 128; 129]; [226; 128; 130]; [226; 128; 131]; [226; 128; 132];
    [226; 128; 133]; [226; 128; 134]; [226; 128; 135]; [226; 128; 136]; [226; 128; 137];
    [226; 128; 138]; [226; 128; 168]; [226; 128; 169]; [226; 128; 175]; [226; 129; 159];
    [227; 128; 128]]%nat.

Fixpoint strip_prefix (p s : string) : option string :=
  match p, s with
  | EmptyString, _ => Some s
  | String a p', String b s' => if decide (a = b) then strip_prefix p' s' else None
  | String _ _, EmptyString => None
  end.

(** Each cut removes a byte at least, so the length of the string is fuel
    enough. *)
Fixpoint trim_left (fuel : nat) (runes : list string) (s : string) : string :=
  match fuel with
  | O => s
  | S fuel' =>
      match omap (λ r, strip_prefix r s) runes with
      | s' :: _ => trim_left fuel' runes s'
      | [] => s
      end
  end.

Fixpoint rev_string (acc s : string) : string :=
  match s with EmptyString => acc | String c s' => rev_string (String c acc) s' end.

Definition TrimSpace (s : string) : string :=
  let s := trim_left (String.length s) space_runes s in
  let r := rev_string "" s in
  rev_string "" (trim_left (String.length r) (rev_string "" <$> space_runes) r).

Fixpoint concat_strings (l : list string) : string :=
  match l with [] => "" | s :: l' => s +:+ concat_strings l' end.

(** * Strings of given characters *)

Fixpoint str_forall (P : ascii → bool) (s : string) : bool :=
  match s with EmptyString => true | String c s' => P c && str_forall P s' end.

Definition is_digit (c : ascii) : bool := bool_decide (is_Some (digit_of c)).
Definition is_dec_char (c : ascii) : bool := is_digit c || bool_decide (c = "-"%char).

(** * Facts *)

#[global] Arguments String.append !s1 s2 / : simpl nomatch.

Lemma app_empty_r s : s +:+ "" = s.
Proof. induction s; simpl; congruence. Qed.
Lemma app_assoc_str s1 s2 s3 : s1 +:+ (s2 +:+ s3) = (s1 +:+ s2) +:+ s3.
Proof. induction s1; simpl; congruence. Qed.
Lemma length_app_str s1 s2 : String.length (s1 +:+ s2) = (String.length s1 + String.length s2)%nat.
Proof. induction s1; simpl; congruence. Qed.
(** Normal form of a concatenation: right-nested, without empty parts. *)
Ltac str_norm := repeat progress (simpl; rewrite <-?app_assoc_str, ?app_empty_r).

Lemma str_forall_app P s1 s2 : str_forall P (s1 +:+ s2) = str_forall P s1 && str_forall P s2.
Proof. induction s1 as [|c s1 IH]; simpl; [done|]. by rewrite IH, andb_assoc. Qed.
Lemma str_forall_impl (P Q : ascii → bool) s :
  (∀ c, P c = true → Q c = true) → str_forall P s = true → str_forall Q s = true.
Proof.
  intros HPQ. induction s as [|c s IH]; simpl; [done|]. intros. bool_simpl.
  apply andb_true_iff. auto.
Qed.

Lemma concat_strings_app l1 l2 :
  concat_strings (l1 ++ l2) = concat_strings l1 +:+ concat_strings l2.
Proof. induction l1 as [|s l1 IH]; simpl; [done|]. by rewrite IH, app_assoc_str. Qed.

(** ** Comparison *)

Lemma string_compare_trans s1 s2 s3 :
  String.compare s1 s2 = Lt → String.compare s2 s3 = Lt → String.compare s1 s3 = Lt.
Proof.
  revert s2 s3. induction s1 as [|c1 s1 IH]; intros [|c2 s2] [|c3 s3]; simpl; try done.
  destruct (Ascii.compare c1 c2) eqn:H12; try done;
  destruct (Ascii.compare c2 c3) eqn:H23; try done; intros.
  - apply Ascii.compare_eq_iff in H12 as ->. rewrite H23. eauto.
  - apply Ascii.compare_eq_iff in H12 as ->. by rewrite H23.
  - apply Ascii.compare_eq_iff in H23 as ->. by rewrite H12.
  - unfold Ascii.compare in *. rewrite N.compare_lt_iff in H12, H23.
    assert (N.compare (N_of_ascii c1) (N_of_ascii c3) = Lt) as ->; [|done].
    apply N.compare_lt_iff. lia.
Qed.

Lemma ltb_lt s1 s2 : String.ltb s1 s2 = true ↔ String.compare s1 s2 = Lt.
Proof. unfold String.ltb. by destruct (String.compare s1 s2). Qed.

Lemma ltb_total s1 s2 : String.ltb s1 s2 = false → String.ltb s2 s1 = false → s1 = s2.
Proof.
  unfold String.ltb. rewrite (String.compare_antisym s1 s2).
  destruct (String.compare s2 s1) eqn:Hc; try done. intros.
  symmetry. by apply String.compare_eq_iff.
Qed.

#[export] Instance string_ltb_swo : StrictWeakOrder String.ltb.
Proof.
  assert (∀ s, String.ltb s s = false) as Hirr.
  { intros s. unfold String.ltb. assert (String.compare s s = Eq) as ->; [|done].
    induction s as [|c s IH]; simpl; [done|]. unfold Ascii.compare.
    by rewrite N.compare_refl. }
  assert (∀ a b c, String.ltb a b = true → String.ltb b c = true → String.ltb a c = true) as Htr.
  { intros a b c. rewrite !ltb_lt. apply string_compare_trans. }
  split; [done|done|].
  intros a b c Hab. destruct (String.ltb a c) eqn:Hac; [by left|right].
  destruct (String.ltb c b) eqn:Hcb; [done|].
  destruct (String.ltb b c) eqn:Hbc; [by rewrite (Htr a b c) in Hac|].
  by rewrite (ltb_total c b) in Hac; [congruence|..].
Qed.

#[export] Instance Z_ltb_swo : StrictWeakOrder Z.ltb.
Proof.
  split; intros *.
  - apply Z.ltb_irrefl.
  - rewrite !Z.ltb_lt. lia.
  - rewrite !Z.ltb_lt. lia.
Qed.

(** ** Printing then parsing a number *)

Definition dec_value (n : Z) (s : string) : option Z :=
  (fix go n s := match s with
    | EmptyString => Some n
    | String c s' => d ← digit_of c; go (n * 10 + d) s'
    end) n s.

Lemma digit_of_range c d : digit_of c = Some d → 0 ≤ d ≤ 9.
Proof. unfold digit_of. case_match; intros; simplify_eq. bool_simpl. lia. Qed.

Lemma dec_value_ge n s v : 0 ≤ n → dec_value n s = Some v → n ≤ v.
Proof.
  revert n. induction s as [|c s IH]; simpl; intros n Hn Hv; [simplify_eq; lia|].
  destruct (digit_of c) as [d|] eqn:Hd; simplify_eq/=.
  apply digit_of_range in Hd. apply IH in Hv; lia.
Qed.

Lemma ParseUint_loop_value maxVal n s v :
  0 ≤ n → maxVal < 2 ^ 64 → v ≤ maxVal → dec_value n s = Some v →
  ParseUint_loop maxVal n s = (v, None).
Proof.
  intros Hn Hm Hv. revert n Hn. induction s as [|c s IH]; simpl; intros n Hn Hval.
  { by simplify_eq. }
  destruct (digit_of c) as [d|] eqn:Hd; simplify_eq/=.
  pose proof (digit_of_range _ _ Hd) as Hdr.
  pose proof (dec_value_ge (n * 10 + d) s v ltac:(lia) Hval).
  assert ((uint_cutoff <=? n) = false) as ->.
  { apply Z.leb_gt. assert (uint_cutoff = 1844674407370955162) as -> by done. lia. }
  rewrite wrap_u64_small by (unfold is_u64; lia).
  assert (((n * 10 + d <? n * 10) || (maxVal <? n * 10 + d)) = false) as ->.
  { apply orb_false_iff. rewrite !Z.ltb_ge. lia. }
  apply IH; [lia|done].
Qed.

Lemma digit_of_pretty_N_char x :
  (x < 10)%N → digit_of (pretty_N_char x) = Some (Z.of_N x).
Proof.
  intros. assert (x = 0 ∨ x = 1 ∨ x = 2 ∨ x = 3 ∨ x = 4 ∨ x = 5 ∨ x = 6 ∨ x = 7
    ∨ x = 8 ∨ x = 9)%N as Hx by lia. by destruct_or! Hx; subst.
Qed.

Lemma dec_value_pretty_N_go x s :
  dec_value 0 (pretty_N_go x s) = dec_value (Z.of_N x) s.
Proof.
  revert s. induction (N.lt_wf_0 x) as [x _ IH]; intros s.
  destruct (decide (x = 0)%N) as [->|Hx]; [done|].
  rewrite pretty_N_go_step by lia.
  rewrite IH by (apply N.div_lt; lia). simpl.
  rewrite digit_of_pretty_N_char by (apply N.mod_lt; lia). simpl.
  f_equal. rewrite (N.div_mod x 10) at 3 by done. lia.
Qed.

Lemma dec_value_pretty x : 0 ≤ x → dec_value 0 (Sprintf_d x) = Some x.
Proof.
  intros Hx. unfold Sprintf_d. destruct x as [|p|p]; [done| |lia].
  change (pretty (Z.pos p)) with (pretty (N.pos p)).
  unfold pretty, pretty_N. rewrite decide_False by done.
  by rewrite dec_value_pretty_N_go.
Qed.

Lemma dec_value_digits n s v : dec_value n s = Some v → str_forall is_digit s = true.
Proof.
  revert n. induction s as [|c s IH]; simpl; intros n Hv; [done|].
  destruct (digit_of c) as [d|] eqn:Hd; simplify_eq/=.
  unfold is_digit at 1. rewrite Hd. eauto.
Qed.

Lemma Sprintf_d_digits x : 0 ≤ x → str_forall is_digit (Sprintf_d x) = true.
Proof. intros. eapply dec_value_digits. by apply dec_value_pretty. Qed.

Lemma Sprintf_d_nonempty x : Sprintf_d x ≠ "".
Proof.
  intros Hx. destruct (decide (0 ≤ x)) as [H0|H0].
  - pose proof (dec_value_pretty x H0) as Hv. rewrite Hx in Hv. by simplify_eq/=.
  - destruct x; [lia..|done].
Qed.

#[export] Instance Sprintf_d_inj : Inj (=) (=) Sprintf_d.
Proof. intros x y. unfold Sprintf_d. apply (inj pretty). Qed.

Lemma Sprintf_d_dec x : str_forall is_dec_char (Sprintf_d x) = true.
Proof.
  assert (∀ y, 0 ≤ y → str_forall is_dec_char (Sprintf_d y) = true) as Hpos.
  { intros. eapply str_forall_impl; [|by apply Sprintf_d_digits].
    intros c Hc. unfold is_dec_char. by rewrite Hc. }
  destruct x as [|p|p]; [by apply Hpos..|].
  change (Sprintf_d (Z.neg p)) with ("-" +:+ Sprintf_d (Z.pos p)).
  rewrite str_forall_app, Hpos by lia. done.
Qed.

Lemma ParseUint_Sprintf_d x bits :
  0 ≤ bits ≤ 64 → 0 ≤ x < 2 ^ bits → ParseUint (Sprintf_d x) bits = (x, None).
Proof.
  intros Hb Hx. unfold ParseUint.
  destruct (Sprintf_d x) as [|c s] eqn:Hs; [by apply Sprintf_d_nonempty in Hs|].
  rewrite <-Hs. assert (2 ^ bits ≤ 2 ^ 64) by (apply Z.pow_le_mono_r; lia).
  apply ParseUint_loop_value; [lia..|]. apply dec_value_pretty; lia.
Qed.

(** ** Splitting *)

Definition no_char (c : ascii) (s : string) : bool := str_forall (λ c', bool_decide (c' ≠ c)) s.

Lemma Split_nonempty s sep : Split s sep ≠ [].
Proof. destruct s; simpl; repeat case_match; done. Qed.

Lemma Split_no_char s sep : no_char sep s = true → Split s sep = [s].
Proof.
  unfold no_char. induction s as [|c s IH]; simpl; intros; [done|]. bool_simpl.
  rewrite decide_False by done. by rewrite IH.
Qed.

Lemma Split_app s1 s2 sep :
  no_char sep s1 = true → Split (s1 +:+ String sep s2) sep = s1 :: Split s2 sep.
Proof.
  unfold no_char. induction s1 as [|c s1 IH]; simpl; intros.
  { by rewrite decide_True. }
  bool_simpl. rewrite decide_False by done. by rewrite IH.
Qed.

Lemma Join_cons p p' ps sep : Join (p :: p' :: ps) sep = p +:+ sep +:+ Join (p' :: ps) sep.
Proof. done. Qed.

Lemma Join_Split s sep : Join (Split s sep) (String sep "") = s.
Proof.
  induction s as [|c s IH]; simpl; [done|].
  pose proof (Split_nonempty s sep) as Hne.
  destruct (decide (c = sep)) as [->|]; simpl.
  - destruct (Split s sep); [done|]. simpl in *. by rewrite IH.
  - destruct (Split s sep) as [|p [|p' ps]]; simpl in *; congruence.
Qed.

(** ** Trimming *)

Lemma rev_string_app acc s1 s2 : rev_string acc (s1 +:+ s2) = rev_string (rev_string acc s1) s2.
Proof. revert acc. induction s1 as [|c s1 IH]; intros acc; simpl; [done|]. apply IH. Qed.
Lemma rev_string_acc acc s : rev_string acc s = rev_string "" s +:+ acc.
Proof.
  revert acc. induction s as [|c s IH]; intros acc; simpl; [done|].
  rewrite (IH (String c acc)), (IH (String c "")), <-app_assoc_str. done.
Qed.
Lemma rev_string_involutive s : rev_string "" (rev_string "" s) = s.
Proof.
  induction s as [|c s IH]; [done|]. simpl. rewrite (rev_string_acc (String c "") s).
  rewrite rev_string_app. simpl. by rewrite IH.
Qed.
Lemma str_forall_rev P s : str_forall P (rev_string "" s) = str_forall P s.
Proof.
  induction s as [|c s IH]; [done|]. simpl. rewrite rev_string_acc, str_forall_app, IH. simpl.
  by rewrite andb_true_r, andb_comm.
Qed.
Lemma rev_string_nonempty s : s ≠ "" → rev_string "" s ≠ "".
Proof. intros Hs Hr. apply Hs. rewrite <-(rev_string_involutive s), Hr. done. Qed.

(** Decimal text starts and ends with no white space. *)
Definition not_dec_rune (r : string) : Prop :=
  match r with String a _ => is_dec_char a = false | EmptyString => False end.
Lemma space_runes_not_dec : Forall not_dec_rune space_runes.
Proof. repeat constructor. Qed.
Lemma rev_space_runes_not_dec : Forall not_dec_rune (rev_string "" <$> space_runes).
Proof. repeat constructor. Qed.

Definition starts_dec (s : string) : Prop :=
  match s with String c _ => is_dec_char c = true | EmptyString => True end.
Lemma str_forall_starts_dec s s' : s ≠ "" → str_forall is_dec_char s = true → starts_dec (s +:+ s').
Proof. destruct s; simpl; intros; [done|]. by bool_simpl. Qed.
Lemma trim_left_dec n runes s :
  Forall not_dec_rune runes → starts_dec s → trim_left n runes s = s.
Proof.
  intros Hr Hs. destruct n as [|n]; [done|]. simpl.
  assert (omap (λ r, strip_prefix r s) runes = []) as ->; [|done].
  induction Hr as [|[|a r] runes Hn _ IH]; [done|done|]. simpl.
  destruct s as [|c s]; simpl in *; [done|].
  rewrite decide_False by (intros ->; congruence). done.
Qed.

Lemma rev_starts_dec s : str_forall is_dec_char s = true → starts_dec (rev_string "" s).
Proof.
  rewrite <-str_forall_rev. destruct (rev_string "" s); simpl; intros; [done|]. by bool_simpl.
Qed.

Lemma TrimSpace_dec s : str_forall is_dec_char s = true → TrimSpace s = s.
Proof.
  intros Hs. unfold TrimSpace.
  rewrite (trim_left_dec _ space_runes s), trim_left_dec; [apply rev_string_involutive|..];
    auto using rev_starts_dec, space_runes_not_dec, rev_space_runes_not_dec.
  destruct s; [done|]. simpl in *. by bool_simpl.
Qed.
Lemma TrimSpace_dec_line s :
  s ≠ "" → str_forall is_dec_char s = true → TrimSpace (s +:+ String (ascii_of_nat 10) "") = s.
Proof.
  intros Hne Hs. unfold TrimSpace.
  rewrite (trim_left_dec _ space_runes) by auto using space_runes_not_dec, str_forall_starts_dec.
  rewrite rev_string_app. cbn [rev_string String.length].
  change (trim_left (S ?n) (rev_string "" <$> space_runes) (String (ascii_of_nat 10) ?r))
    with (trim_left n (rev_string "" <$> space_runes) r).
  rewrite trim_left_dec by auto using rev_starts_dec, rev_space_runes_not_dec.
  apply rev_string_involutive.
Qed.

Lemma Atoi_Sprintf_d x : 0 ≤ x < 2 ^ 63 → Atoi (Sprintf_d x) = (x, None).
Proof.
  intros Hx. pose proof (ParseUint_Sprintf_d x 64) as Hp.
  assert (match Sprintf_d x with
    | String "-" s' => (true, s')
    | String "+" s' => (false, s')
    | _ => (false, Sprintf_d x)
    end = (false, Sprintf_d x)) as Hs.
  { pose proof (Sprintf_d_digits x ltac:(lia)) as Hd. destruct (Sprintf_d x) as [|c s]; [done|].
    simpl in Hd. bool_simpl. by destruct c as [[] [] [] [] [] [] [] []]. }
  unfold Atoi. rewrite Hs, Hp by lia. simpl.
  destruct (2 ^ 63 <=? x) eqn:Hle; bool_simpl; [lia|done].
Qed.
