(* ===== verification/Regexp.v ===== *)
(** Go's [regexp] for anchored patterns: the expressions the program
    compiles, their meaning as languages of byte strings, and an executable
    matcher by derivatives proved equal to that meaning. *)
From Stdlib Require Import Ascii.
From S2P Require Import Prelude GoStrings.
#[local] Open Scope Z_scope.

(** * Expressions and their languages *)

Inductive regexp : Type :=
  | Void
  | Eps
  | Cls (p : ascii → bool)          (* a character class *)
  | Cat (r1 r2 : regexp)
  | Alt (r1 r2 : regexp)
  | Rep (r : regexp).               (* [r*] *)

Inductive matches : regexp → string → Prop :=
  | m_eps : matches Eps ""
  | m_cls p c : p c = true → matches (Cls p) (String c "")
  | m_cat r1 r2 s1 s2 : matches r1 s1 → matches r2 s2 → matches (Cat r1 r2) (s1 +:+ s2)
  | m_alt_l r1 r2 s : matches r1 s → matches (Alt r1 r2) s
  | m_alt_r r1 r2 s : matches r2 s → matches (Alt r1 r2) s
  | m_rep_nil r : matches (Rep r) ""
  | m_rep_app r s1 s2 : matches r s1 → matches (Rep r) s2 → matches (Rep r) (s1 +:+ s2).

#[export] Hint Constructors matches : router.

(** [r?], [r{1}] and [r{0,n}] as [regexp/syntax] expands them. *)
Definition Opt (r : regexp) : regexp := Alt r Eps.

Fixpoint Upto (n : nat) (r : regexp) : regexp :=
  match n with
  | O => Eps
  | S n => Opt (Cat r (Upto n r))
  end.

(** * The matcher *)

Fixpoint nullable (r : regexp) : bool :=
  match r with
  | Void | Cls _ => false
  | Eps | Rep _ => true
  | Cat r1 r2 => nullable r1 && nullable r2
  | Alt r1 r2 => nullable r1 || nullable r2
  end.

(** Concatenation and alternation that drop [Void] and [Eps]. *)
Definition cat (r1 r2 : regexp) : regexp :=
  match r1, r2 with
  | Void, _ | _, Void => Void
  | Eps, r2 => r2
  | r1, r2 => Cat r1 r2
  end.
Definition alt (r1 r2 : regexp) : regexp :=
  match r1, r2 with
  | Void, r => r
  | r, Void => r
  | r1, r2 => Alt r1 r2
  end.

Fixpoint deriv (c : ascii) (r : regexp) : regexp :=
  match r with
  | Void | Eps => Void
  | Cls p => if p c then Eps else Void
  | Cat r1 r2 =>
      if nullable r1 then alt (cat (deriv c r1) r2) (deriv c r2)
      else cat (deriv c r1) r2
  | Alt r1 r2 => alt (deriv c r1) (deriv c r2)
  | Rep r => cat (deriv c r) (Rep r)
  end.

(** [regexp.MatchString] for a pattern [^r$]. *)
Fixpoint MatchString (r : regexp) (s : string) : bool :=
  match s with
  | EmptyString => nullable r
  | String c s' => MatchString (deriv c r) s'
  end.

(** * Correctness of the matcher *)

Lemma matches_void s : ¬ matches Void s.
Proof. inversion 1. Qed.

Lemma matches_cat_inv r1 r2 s :
  matches (Cat r1 r2) s ↔ ∃ s1 s2, s = s1 +:+ s2 ∧ matches r1 s1 ∧ matches r2 s2.
Proof.
  split; [inversion 1; naive_solver|]. intros (s1 & s2 & -> & ? & ?). by constructor.
Qed.

Lemma matches_alt_inv r1 r2 s : matches (Alt r1 r2) s ↔ matches r1 s ∨ matches r2 s.
Proof. split; [inversion 1; auto|]. intros [?|?]; eauto with router. Qed.

Lemma matches_eps_inv s : matches Eps s ↔ s = "".
Proof. split; [by inversion 1|intros ->; constructor]. Qed.

Lemma matches_cat r1 r2 s : matches (cat r1 r2) s ↔ matches (Cat r1 r2) s.
Proof.
  rewrite matches_cat_inv. split.
  - destruct r1, r2; simpl; intros Hm; try (by apply matches_void in Hm);
      try (apply matches_cat_inv in Hm; done); exists "", s; eauto with router.
  - intros (s1 & s2 & -> & H1 & H2).
    destruct r1, r2; simpl; try (by apply matches_void in H1);
      try (by apply matches_void in H2); try (by constructor);
      apply matches_eps_inv in H1 as ->; done.
Qed.

Lemma matches_alt r1 r2 s : matches (alt r1 r2) s ↔ matches (Alt r1 r2) s.
Proof.
  rewrite matches_alt_inv. pose proof (matches_void s).
  destruct r1, r2; simpl; rewrite ?matches_alt_inv; tauto.
Qed.

Lemma nullable_spec r : nullable r = true ↔ matches r "".
Proof.
  induction r; simpl.
  - split; [done|by intros ?%matches_void].
  - split; eauto with router.
  - split; [done|inversion 1].
  - rewrite andb_true_iff, matches_cat_inv, IHr1, IHr2. split.
    + intros [??]. by exists "", "".
    + intros ([] & [] & ? & ? & ?); done.
  - by rewrite orb_true_iff, matches_alt_inv, IHr1, IHr2.
  - split; eauto with router.
Qed.

(** A non-empty match of [r*] starts with a non-empty match of [r]. *)
Lemma matches_rep_cons r c s :
  matches (Rep r) (String c s) →
  ∃ s1 s2, s = s1 +:+ s2 ∧ matches r (String c s1) ∧ matches (Rep r) s2.
Proof.
  intros Hm. remember (Rep r) as r' eqn:Hr. remember (String c s) as s' eqn:Hs.
  revert c s Hs. induction Hm as [| | | | | |r0 s1 s2 H1 _ H2 IH2]; intros c' s' Hs; simplify_eq.
  destruct s1 as [|c1 s1]; simplify_eq/=; [by apply IH2|]. eauto.
Qed.

Lemma deriv_spec c r s : matches (deriv c r) s ↔ matches r (String c s).
Proof.
  revert s. induction r as [| |p|r1 IH1 r2 IH2|r1 IH1 r2 IH2|r IH]; intros s; simpl.
  - split; [by intros ?%matches_void|inversion 1].
  - split; [by intros ?%matches_void|inversion 1].
  - destruct (p c) eqn:Hp.
    + rewrite matches_eps_inv. split; [intros ->; by constructor|by inversion 1].
    + split; [by intros ?%matches_void|inversion 1; congruence].
  - assert (matches (cat (deriv c r1) r2) s ↔
      ∃ s1 s2, s = s1 +:+ s2 ∧ matches r1 (String c s1) ∧ matches r2 s2) as Hcat.
    { rewrite matches_cat, matches_cat_inv. by setoid_rewrite IH1. }
    assert (matches (Cat r1 r2) (String c s) ↔
      matches (cat (deriv c r1) r2) s ∨ nullable r1 = true ∧ matches r2 (String c s)) as ->.
    { rewrite Hcat, matches_cat_inv, nullable_spec. split.
      - intros ([|c1 s1] & s2 & Heq & ? & ?); simplify_eq/=; [auto|left; eauto].
      - intros [(s1 & s2 & -> & ? & ?)|[??]]; [by exists (String c s1), s2|].
        by exists "", (String c s). }
    destruct (nullable r1); [|intuition congruence].
    rewrite matches_alt, matches_alt_inv, IH2. tauto.
  - by rewrite matches_alt, !matches_alt_inv, IH1, IH2.
  - rewrite matches_cat, matches_cat_inv. setoid_rewrite IH. split.
    + intros (s1 & s2 & -> & ? & ?). by apply (m_rep_app r (String c s1)).
    + apply matches_rep_cons.
Qed.

Lemma MatchString_matches r s : MatchString r s = true ↔ matches r s.
Proof.
  revert r. induction s as [|c s IH]; intros r; simpl.
  - apply nullable_spec.
  - by rewrite IH, deriv_spec.
Qed.

(** Every byte of a match belongs to one of the expression's classes. *)
Fixpoint bytes_of (r : regexp) (c : ascii) : bool :=
  match r with
  | Void | Eps => false
  | Cls p => p c
  | Cat r1 r2 | Alt r1 r2 => bytes_of r1 c || bytes_of r2 c
  | Rep r => bytes_of r c
  end.

Lemma matches_bytes r s : matches r s → str_forall (bytes_of r) s = true.
Proof.
  assert (∀ P Q s, str_forall P s = true → (∀ c, P c = true → Q c = true) →
    str_forall Q s = true) as Hmono by eauto using str_forall_impl.
  induction 1; simpl; try done.
  - by rewrite H.
  - rewrite str_forall_app. apply andb_true_iff.
    split; eapply Hmono; eauto; simpl; intros c ->; by rewrite ?orb_true_r.
  - eapply Hmono; eauto; simpl. by intros c ->.
  - eapply Hmono; eauto; simpl. intros c ->. by rewrite orb_true_r.
  - rewrite str_forall_app. by apply andb_true_iff.
Qed.

Lemma bytes_of_Upto n r c : bytes_of (Upto n r) c = true → bytes_of r c = true.
Proof. induction n; simpl; intros; [done|]. rewrite orb_false_r in H. by apply orb_true_iff in H as [?|?]; auto. Qed.
