(* ===== verification/OS.v ===== *)
(** The part of Go's [os] package the program uses, on a file system of
    regular files whose every call may fail, and the monad of the stateful,
    fallible code. *)
From S2P Require Import Prelude GoStrings.
#[local] Open Scope Z_scope.

(** * Stateful code that may return an error *)

Definition M (S A : Type) : Type := S → result A * S.
#[export] Instance M_ret S : MRet (M S) := λ A a s, (Ok a, s).
#[export] Instance M_bind S : MBind (M S) := λ A B f m s,
  match m s with
  | (Ok a, s') => f a s'
  | (Err e, s') => (Err e, s')
  end.
Definition get {S} : M S S := λ s, (Ok s, s).
Definition modify {S} (f : S → S) : M S unit := λ s, (Ok tt, f s).
Definition fail {S A} (e : error) : M S A := λ s, (Err e, s).

(** Run code on a part of the state. *)
Definition on {S T A} (proj : S → T) (upd : T → S → S) (m : M T A) : M S A := λ s,
  let '(r, t) := m (proj s) in (r, upd t s).

Lemma bind_ok {S A B} (m : M S A) (f : A → M S B) s a s' :
  m s = (Ok a, s') → (m ≫= f) s = f a s'.
Proof. intros Hm. unfold mbind, M_bind. by rewrite Hm. Qed.
Lemma bind_err {S A B} (m : M S A) (f : A → M S B) s e s' :
  m s = (Err e, s') → (m ≫= f) s = (Err e, s').
Proof. intros Hm. unfold mbind, M_bind. by rewrite Hm. Qed.
Lemma bind_inv {S A B} (m : M S A) (f : A → M S B) s r s' :
  (m ≫= f) s = (r, s') →
  (∃ a s1, m s = (Ok a, s1) ∧ f a s1 = (r, s')) ∨ (∃ e, m s = (Err e, s') ∧ r = Err e).
Proof. unfold mbind, M_bind. destruct (m s) as [[a|e] s1]; intros; simplify_eq; eauto 10. Qed.

(** * The file system

    [files] maps the paths of the regular files to their contents.  A system
    call takes the next element of [faults]: [None] lets it succeed if the
    file system allows it, [Some f] makes it fail with [f], after [f_written]
    bytes in the case of a write.  No element left means no fault.
    [history] holds the file system after every call so far, the latest
    first: what a crash after that call would leave. *)

Record fault := mkFault { f_error : error; f_is_exist : bool; f_written : nat }.

Record OSState := mkOS {
  files : gmap string string;
  open_files : nat;
  faults : list (option fault);
  history : list (gmap string string)
}.

Definition next_fault : M OSState (option fault) := λ os,
  match faults os with
  | [] => (Ok None, os)
  | f :: rest => (Ok f, mkOS (files os) (open_files os) rest (history os))
  end.

(** The outcome of a call on the file system. *)
Definition commit (fs : gmap string string) : M OSState unit :=
  modify (λ os, mkOS fs (open_files os) (faults os) (fs :: history os)).
Definition set_open (f : nat → nat) : M OSState unit :=
  modify (λ os, mkOS (files os) (f (open_files os)) (faults os) (history os)).

Definition no_such_file (op path : string) : error :=
  op +:+ " " +:+ path +:+ ": no such file or directory".

Definition ReadFile (path : string) : M OSState string :=
  f ← next_fault;
  os ← get;
  match f, files os !! path with
  | Some f, _ => fail (f_error f)
  | None, Some data => mret data
  | None, None => fail (no_such_file "open" path)
  end.

(** [os.Create]: an empty file at [path], open for writing. *)
Definition Create (path : string) : M OSState unit :=
  f ← next_fault;
  match f with
  | Some f => fail (f_error f)
  | None => os ← get; _ ← set_open S; commit (<[path := ""]> (files os))
  end.

(** [file.Write] on the file created at [path]. *)
Definition Write (path data : string) : M OSState unit :=
  f ← next_fault;
  os ← get;
  let old := default "" (files os !! path) in
  match f with
  | Some f =>
      _ ← commit (<[path := old +:+ String.substring 0 (f_written f) data]> (files os));
      fail (f_error f)
  | None => commit (<[path := old +:+ data]> (files os))
  end.

(** [file.Close] gives the descriptor back even when it reports an error. *)
Definition Close : M OSState unit :=
  f ← next_fault;
  _ ← set_open pred;
  match f with
  | Some f => fail (f_error f)
  | None => mret tt
  end.

Definition Rename (oldpath newpath : string) : M OSState unit :=
  f ← next_fault;
  os ← get;
  match f, files os !! oldpath with
  | Some f, _ => fail (f_error f)
  | None, Some data => commit (<[newpath := data]> (delete oldpath (files os)))
  | None, None => fail (no_such_file "rename" oldpath)
  end.

(** [os.Stat] as far as its error: [Some b] where [b] is [os.IsExist] of it. *)
Definition Stat (path : string) : M OSState (option bool) :=
  f ← next_fault;
  os ← get;
  match f, files os !! path with
  | Some f, _ => mret (Some (f_is_exist f))
  | None, Some _ => mret None
  | None, None => mret (Some false)
  end.

(** * What a call can change *)

Definition same_outside (paths : list string) (fs fs' : gmap string string) : Prop :=
  ∀ p, p ∉ paths → fs' !! p = fs !! p.
#[export] Instance same_outside_refl paths : Reflexive (same_outside paths).
Proof. by intros fs p. Qed.
#[export] Instance same_outside_trans paths : Transitive (same_outside paths).
Proof. intros fs1 fs2 fs3 H1 H2 p Hp. by rewrite H2, H1. Qed.
Lemma same_outside_weaken paths paths' fs fs' :
  paths ⊆ paths' → same_outside paths fs fs' → same_outside paths' fs fs'.
Proof. intros Hsub Hs p Hp. apply Hs. set_solver. Qed.

(** [os'] is reached from [os] by calls that touch no path outside [paths],
    now or at any moment on the way. *)
Definition touches (paths : list string) (os os' : OSState) : Prop :=
  (∃ new, history os' = new ++ history os ∧ Forall (same_outside paths (files os)) new) ∧
  same_outside paths (files os) (files os').

#[export] Instance touches_refl paths : Reflexive (touches paths).
Proof. intros os. split; [by exists []|done]. Qed.
#[export] Instance touches_trans paths : Transitive (touches paths).
Proof.
  intros os1 os2 os3 [(n1 & Hh1 & Hn1) Hs1] [(n2 & Hh2 & Hn2) Hs2]. split; [|by etrans].
  exists (n2 ++ n1). rewrite Hh2, Hh1, app_assoc. split; [done|]. apply Forall_app. split; [|done].
  eapply Forall_impl; [exact Hn2|]. intros fs Hfs. by etrans.
Qed.
Lemma touches_weaken paths paths' os os' :
  paths ⊆ paths' → touches paths os os' → touches paths' os os'.
Proof.
  intros Hsub [(n & Hh & Hn) Hs]. split; [|by eapply same_outside_weaken].
  exists n. split; [done|]. eapply Forall_impl; [exact Hn|]. intros fs. by apply same_outside_weaken.
Qed.

Lemma touches_same paths os os' :
  files os' = files os → history os' = history os → touches paths os os'.
Proof. intros Hf Hh. split; [exists []; by rewrite Hh|by rewrite Hf]. Qed.
Lemma touches_commit paths os os' :
  same_outside paths (files os) (files os') → history os' = files os' :: history os →
  touches paths os os'.
Proof. intros Hs Hh. split; [exists [files os']; rewrite Hh; by repeat constructor|done]. Qed.
Lemma same_outside_insert path data fs : same_outside [path] fs (<[path := data]> fs).
Proof. intros p Hp. apply lookup_insert_ne. set_solver. Qed.

(** Code that touches [paths] only, whatever it returns. *)
Definition keeps {A} (paths : list string) (m : M OSState A) : Prop :=
  ∀ os r os', m os = (r, os') → touches paths os os'.
Lemma keeps_bind {A B} paths (m : M OSState A) (f : A → M OSState B) :
  keeps paths m → (∀ a, keeps paths (f a)) → keeps paths (m ≫= f).
Proof.
  intros Hm Hf os r os' [(a & s1 & H1 & H2) | (e & H1 & ->)]%bind_inv; [|by eapply Hm].
  etrans; [by eapply Hm|by eapply Hf].
Qed.
Lemma keeps_ret {A} paths (a : A) : keeps paths (mret a).
Proof. intros os r os'. unfold mret, M_ret. intros; simplify_eq. reflexivity. Qed.
Lemma keeps_fail {A} paths e : keeps paths (fail e : M OSState A).
Proof. intros os r os'. unfold fail. intros; simplify_eq. reflexivity. Qed.
Lemma keeps_weaken {A} paths paths' (m : M OSState A) :
  paths ⊆ paths' → keeps paths m → keeps paths' m.
Proof. intros Hsub Hm os r os' Hr. eapply touches_weaken; [done|by eapply Hm]. Qed.

(** Unfold one system call on a concrete list of faults. *)
Ltac run_call :=
  unfold ReadFile, Create, Write, Close, Rename, Stat, next_fault, commit, set_open, get, modify,
    fail, mbind, M_bind, mret, M_ret in *; simpl in *.

Lemma Create_keeps path : keeps [path] (Create path).
Proof.
  intros [fs o [|[f|] flts] h] r os' Hc; run_call; simplify_eq;
    (by apply touches_same) || (apply touches_commit; [apply same_outside_insert|done]).
Qed.
Lemma Write_keeps path data : keeps [path] (Write path data).
Proof.
  intros [fs o [|[f|] flts] h] r os' Hc; run_call; simplify_eq;
    (by apply touches_same) || (apply touches_commit; [apply same_outside_insert|done]).
Qed.
Lemma Close_keeps : keeps [] Close.
Proof. intros [fs o [|[f|] flts] h] r os' Hc; run_call; simplify_eq; by apply touches_same. Qed.

(** What each call does, whatever the faults. *)
Lemma ReadFile_spec path os r os' :
  ReadFile path os = (r, os') →
  files os' = files os ∧ history os' = history os ∧ open_files os' = open_files os ∧
  faults os' = tail (faults os) ∧
  (∀ data, r = Ok data → files os !! path = Some data).
Proof.
  unfold ReadFile, next_fault, get, fail, mbind, M_bind, mret, M_ret.
  destruct os as [fs o flts h]; destruct flts as [|[f|] flts]; simpl;
    intros; case_all; repeat split; intros; congruence.
Qed.
Lemma ReadFile_touches path os r os' : ReadFile path os = (r, os') → touches [] os os'.
Proof.
  intros (Hf & Hh & _)%ReadFile_spec. split; [by exists []|]. by rewrite Hf.
Qed.
Lemma ReadFile_keeps path : keeps [] (ReadFile path).
Proof. intros os r os'. apply ReadFile_touches. Qed.

Lemma Rename_spec oldp newp os r os' :
  Rename oldp newp os = (r, os') →
  open_files os' = open_files os ∧ faults os' = tail (faults os) ∧
  match r with
  | Ok _ => ∃ data, files os !! oldp = Some data ∧
      files os' = <[newp := data]> (delete oldp (files os)) ∧
      history os' = files os' :: history os
  | Err _ => files os' = files os ∧ history os' = history os
  end.
Proof.
  unfold Rename, next_fault, commit, get, modify, fail, mbind, M_bind.
  destruct os as [fs o flts h]; destruct flts as [|[f|] flts]; simpl;
    intros; case_all; eauto 10.
Qed.

Lemma Stat_spec path os r os' :
  Stat path os = (r, os') →
  files os' = files os ∧ history os' = history os ∧ open_files os' = open_files os ∧
  faults os' = tail (faults os) ∧
  (∃ e, r = Ok e ∧ (head (faults os) = None ∨ head (faults os) = Some None →
    e = if decide (is_Some (files os !! path)) then None else Some false)).
Proof.
  unfold Stat, next_fault, get, mbind, M_bind, mret, M_ret.
  destruct os as [fs o flts h]; destruct flts as [|[f|] flts]; simpl;
    intros; case_all; repeat split; eexists; (split; [done|]); intros; destruct_or?;
    try done; try case_decide as Hd; try done;
    try (by destruct Hd); exfalso; eauto.
Qed.

Lemma Stat_keeps path : keeps [] (Stat path).
Proof. intros os r os' (Hf & Hh & _)%Stat_spec. by apply touches_same. Qed.
Lemma keeps_files {A} (m : M OSState A) os r os' :
  keeps [] m → m os = (r, os') → files os' = files os.
Proof.
  intros Hm [_ Hs]%Hm. apply map_eq. intros p. apply Hs. set_solver.
Qed.

(** Follow code that only reads. *)
Ltac keeps_steps :=
  repeat first [apply keeps_ret | apply keeps_fail | apply ReadFile_keeps | apply Stat_keeps
               | apply keeps_bind; [|intros] | progress cbv zeta | case_match].

(** ** Without faults *)

(** No fault to come, then none afterwards. *)
Definition calm {A} (m : M OSState A) : Prop :=
  ∀ os r os', m os = (r, os') → faults os = [] → faults os' = [].
Lemma calm_bind {A B} (m : M OSState A) (f : A → M OSState B) : calm m → (∀ a, calm (f a)) → calm (m ≫= f).
Proof.
  intros Hm Hf os r os' [(a & s1 & H1 & H2) | (e & H1 & ->)]%bind_inv Hfl; [|by eapply Hm].
  eapply Hf; [exact H2|]. by eapply Hm.
Qed.
Lemma calm_ret {A} (a : A) : calm (mret a).
Proof. intros os r os'. unfold mret, M_ret. by intros; simplify_eq. Qed.
Lemma calm_fail {A} e : calm (fail e : M OSState A).
Proof. intros os r os'. unfold fail. by intros; simplify_eq. Qed.
Lemma ReadFile_calm path : calm (ReadFile path).
Proof. intros os r os' (_ & _ & _ & Hf & _)%ReadFile_spec Hfl. by rewrite Hf, Hfl. Qed.
Lemma Rename_calm oldp newp : calm (Rename oldp newp).
Proof. intros os r os' (_ & Hf & _)%Rename_spec Hfl. by rewrite Hf, Hfl. Qed.
Lemma Stat_calm path : calm (Stat path).
Proof. intros os r os' (_ & _ & _ & Hf & _)%Stat_spec Hfl. by rewrite Hf, Hfl. Qed.
Lemma Create_calm path : calm (Create path).
Proof. intros [fs o [|f flts] h] r os' Hc Hfl; [|done]. run_call. by simplify_eq. Qed.
Lemma Write_calm path data : calm (Write path data).
Proof. intros [fs o [|f flts] h] r os' Hc Hfl; [|done]. run_call. by simplify_eq. Qed.
Lemma Close_calm : calm Close.
Proof. intros [fs o [|f flts] h] r os' Hc Hfl; [|done]. run_call. by simplify_eq. Qed.
Ltac calm_steps :=
  repeat first [apply calm_ret | apply calm_fail | apply ReadFile_calm | apply Rename_calm | apply Stat_calm
               | apply Create_calm | apply Write_calm | apply Close_calm
               | apply calm_bind; [|intros] | progress cbv zeta | case_match].

Lemma ReadFile_ok path os data :
  faults os = [] → files os !! path = Some data → ReadFile path os = (Ok data, os).
Proof.
  destruct os as [fs o flts h]. simpl. intros -> Hd. run_call. by rewrite Hd.
Qed.
Lemma Rename_ok oldp newp os data :
  faults os = [] → files os !! oldp = Some data →
  ∃ os', Rename oldp newp os = (Ok tt, os') ∧ faults os' = [] ∧
    files os' = <[newp := data]> (delete oldp (files os)).
Proof.
  destruct os as [fs o flts h]. simpl. intros -> Hd. run_call. rewrite Hd. eauto.
Qed.
