(* ===== verification/FileUtils.v ===== *)
(** [utils/fileutils.go]: copying and writing whole files. *)
From S2P Require Import Prelude GoStrings OS.
#[local] Open Scope Z_scope.

(** * The functions *)

(** Each call's error is returned at once; a failed [Write] leaves the file
    open. *)
Definition WriteToFile (data fileName : string) : M OSState unit :=
  _ ← Create fileName;
  _ ← Write fileName data;
  Close.

Definition CopyFile (src dest : string) : M OSState unit :=
  data ← ReadFile src;
  WriteToFile data dest.

Definition FileExists (fileName : string) : M OSState bool :=
  err ← Stat fileName;
  match err with
  | None => mret true
  | Some is_exist => mret is_exist
  end.

(** * Facts *)

(** What a call of [WriteToFile] does, by the fate of its three system calls. *)
Definition write_outcome (data path : string) (fs : gmap string string) (n : nat)
    (flts : list (option fault)) : result unit * gmap string string * nat :=
  match nth 0 flts None, nth 1 flts None, nth 2 flts None with
  | Some f, _, _ => (Err (f_error f), fs, n)
  | None, Some f, _ => (Err (f_error f), <[path := String.substring 0 (f_written f) data]> fs, S n)
  | None, None, Some f => (Err (f_error f), <[path := data]> fs, n)
  | None, None, None => (Ok tt, <[path := data]> fs, n)
  end.

Lemma WriteToFile_outcome data path os :
  let '(r, os') := WriteToFile data path os in
  (r, files os', open_files os') = write_outcome data path (files os) (open_files os) (faults os).
Proof.
  unfold WriteToFile, write_outcome.
  destruct os as [fs o [|[f1|] [|[f2|] [|[f3|] flts]]] h]; run_call;
    rewrite ?lookup_insert_eq, ?insert_insert_eq; done.
Qed.

Lemma WriteToFile_keeps data path : keeps [path] (WriteToFile data path).
Proof.
  apply keeps_bind; [apply Create_keeps|intros _].
  apply keeps_bind; [apply Write_keeps|intros _].
  eapply keeps_weaken; [|apply Close_keeps]. set_solver.
Qed.

Lemma WriteToFile_calm data path : calm (WriteToFile data path).
Proof. unfold WriteToFile. calm_steps. Qed.
Lemma FileExists_calm path : calm (FileExists path).
Proof. unfold FileExists. calm_steps. Qed.
Lemma WriteToFile_no_fault data path os :
  faults os = [] →
  ∃ os', WriteToFile data path os = (Ok tt, os') ∧ faults os' = [] ∧
    files os' = <[path := data]> (files os).
Proof.
  destruct os as [fs o flts h]. simpl. intros ->. unfold WriteToFile. run_call.
  eexists. split; [done|]. simpl. split; [done|]. by rewrite lookup_insert_eq, insert_insert_eq.
Qed.

Lemma WriteToFile_ok data path os os' :
  WriteToFile data path os = (Ok tt, os') →
  files os' = <[path := data]> (files os) ∧ open_files os' = open_files os.
Proof.
  intros Hw. pose proof (WriteToFile_outcome data path os) as Ho. rewrite Hw in Ho.
  unfold write_outcome in Ho. case_all. by simplify_eq.
Qed.

Lemma FileExists_keeps path : keeps [] (FileExists path).
Proof. unfold FileExists. keeps_steps. Qed.
Lemma FileExists_spec path os r os' :
  FileExists path os = (r, os') →
  files os' = files os ∧ history os' = history os ∧ open_files os' = open_files os ∧
  faults os' = tail (faults os) ∧
  (∃ b, r = Ok b ∧ (head (faults os) = None ∨ head (faults os) = Some None →
    b = bool_decide (is_Some (files os !! path)))).
Proof.
  unfold FileExists. intros [(e & os1 & Hs & Hr) | (e & Hs & ->)]%bind_inv.
  - apply Stat_spec in Hs as (Hf & Hh & Ho & Hfl & e' & [= ->] & He).
    destruct e' as [b|]; unfold mret, M_ret in Hr; simplify_eq/=; repeat split; try done; eexists; (split; [done|]).
    all: intros Hnf; specialize (He Hnf); case_decide; simplify_eq;
      symmetry; by (apply bool_decide_eq_true || apply bool_decide_eq_false).
  - apply Stat_spec in Hs as (_ & _ & _ & _ & e' & ? & _). done.
Qed.
