(* ===== verification/Config.v ===== *)
(** [config/config.go]: the configuration file of the router. *)
From Stdlib Require Import Ascii.
From S2P Require Import Prelude GoStrings OS.
#[local] Open Scope Z_scope.

(** * Data *)

Record RoutingAPIConfig := mkRoutingAPIConfig {
  api_URI : string;
  api_Port : Z;
  api_AuthDisabled : bool;
  api_ClientCertificatePath : string;
  api_ClientPrivateKeyPath : string;
  api_CACertificatePath : string
}.

Record OAuthConfig := mkOAuthConfig {
  oauth_TokenEndpoint : string;
  oauth_Port : Z;
  oauth_SkipSSLValidation : bool;
  oauth_ClientName : string;
  oauth_ClientSecret : string;
  oauth_CACerts : string
}.

Record BackendTLSConfig := mkBackendTLSConfig {
  tls_Enabled : bool;
  tls_CACertificatePath : string;
  tls_ClientCertAndKeyPath : string
}.

Record Config := mkConfig {
  cfg_OAuth : OAuthConfig;
  cfg_RoutingAPI : RoutingAPIConfig;
  cfg_HaProxyPidFile : string;
  cfg_IsolationSegments : list string;
  cfg_ReservedSystemComponentPorts : list Z;
  cfg_DrainWaitDuration : Z;
  cfg_BackendTLS : BackendTLSConfig
}.

(** * Loading

    The YAML decoder and the parts of [encoding/pem], [crypto/x509] and
    [crypto/tls] the file checks use. *)

Record pem_block := mkPemBlock {
  pem_Type : string;
  pem_Headers : list (string * string);
  pem_Bytes : string
}.

Class ConfigLibraries := {
  yaml_Unmarshal : string → Config → result Config;
  pem_Decode : string → option pem_block * string;
  pem_Encode : pem_block → result string;
  ParseCertificate : string → option error;
  X509KeyPair : string → string → option error;
  show_headers : list (string * string) → string
}.

Definition zero_config : Config :=
  mkConfig (mkOAuthConfig "" 0 false "" "" "") (mkRoutingAPIConfig "" 0 false "" "" "") "" [] [] 0
    (mkBackendTLSConfig false "" "").

(** 20 seconds, in nanoseconds. *)
Definition DrainWaitDefault : Z := 20 * 1000000000.

Definition set_drain_wait (d : Z) (c : Config) : Config :=
  mkConfig (cfg_OAuth c) (cfg_RoutingAPI c) (cfg_HaProxyPidFile c) (cfg_IsolationSegments c)
    (cfg_ReservedSystemComponentPorts c) d (cfg_BackendTLS c).
Definition set_backend_tls (t : BackendTLSConfig) (c : Config) : Config :=
  mkConfig (cfg_OAuth c) (cfg_RoutingAPI c) (cfg_HaProxyPidFile c) (cfg_IsolationSegments c)
    (cfg_ReservedSystemComponentPorts c) (cfg_DrainWaitDuration c) t.

Section loading.
Context `{ConfigLibraries}.

(** The CA certificate: an empty file passes. *)
Definition check_ca (path : string) : M OSState unit :=
  pemData ← ReadFile path;
  let pemData := TrimSpace pemData in
  if (0 <? String.length pemData)%nat then
    let '(block, _) := pem_Decode pemData in
    match block with
    | None => fail ("Invalid PEM block found in file " +:+ Quote path)
    | Some block =>
        if negb (length (pem_Headers block) =? 0)%nat then
          fail ("Unexpected headers in PEM block in file " +:+ Quote path +:+ ": "
                +:+ show_headers (pem_Headers block))
        else if bool_decide (pem_Type block ≠ "CERTIFICATE") then
          fail ("Unexpected PEM block type " +:+ Quote (pem_Type block) +:+ " in file "
                +:+ Quote path +:+ " (wanted CERTIFICATE)")
        else match ParseCertificate (pem_Bytes block) with
          | Some err => fail ("failed to parse certificate in " +:+ Quote path +:+ ": " +:+ err)
          | None => mret tt
          end
    end
  else mret tt.

(** The client certificate and key: two blocks that belong together and
    nothing behind them. *)
Definition check_client (path : string) : M OSState unit :=
  pemData ← ReadFile path;
  let pemData := TrimSpace pemData in
  let '(certBlock, pemData) := pem_Decode pemData in
  match certBlock with
  | None => fail ("Invalid PEM CERTIFICATE found in file " +:+ Quote path)
  | Some certBlock =>
      match pem_Encode certBlock with
      | Err err => fail ("Could not encode cert as PEM data: " +:+ err)
      | Ok certPEM =>
          let pemData := TrimSpace pemData in
          let '(keyBlock, pemData) := pem_Decode pemData in
          match keyBlock with
          | None => fail ("Invalid PEM PRIVATE KEY found in file " +:+ Quote path)
          | Some keyBlock =>
              match pem_Encode keyBlock with
              | Err err => fail ("Could not encode key as PEM data: " +:+ err)
              | Ok keyPEM =>
                  if (0 <? String.length pemData)%nat then
                    fail ("Unexpected data at the end of " +:+ path)
                  else match X509KeyPair certPEM keyPEM with
                    | Some err =>
                        fail ("Unable to validate backend TLS client cert + key in file "
                              +:+ Quote path +:+ ": " +:+ err)
                    | None => mret tt
                    end
              end
          end
      end
  end.

Definition check_backend_tls (c : Config) : M OSState Config :=
  let tls := cfg_BackendTLS c in
  if tls_Enabled tls then
    _ ← (if bool_decide (tls_CACertificatePath tls ≠ "") then check_ca (tls_CACertificatePath tls)
         else fail "Backend TLS was enabled but no CA certificates were specified");
    _ ← (if bool_decide (tls_ClientCertAndKeyPath tls ≠ "") then check_client (tls_ClientCertAndKeyPath tls)
         else mret tt);
    mret c
  else mret (set_backend_tls (mkBackendTLSConfig (tls_Enabled tls) "" "") c).

Definition initConfigFromFile (c : Config) (path : string) : M OSState Config :=
  b ← ReadFile path;
  match yaml_Unmarshal b c with
  | Err e => fail e
  | Ok c =>
      if bool_decide (cfg_HaProxyPidFile c = "") then fail "haproxy_pid_file is required"
      else
        let c := if cfg_DrainWaitDuration c <? 0 then set_drain_wait DrainWaitDefault c else c in
        check_backend_tls c
  end.

Definition NewConfig (path : string) : M OSState Config := initConfigFromFile zero_config path.

(** * Facts *)

(** The loading of a configuration changes no file. *)
Lemma check_ca_keeps path : keeps [] (check_ca path).
Proof. unfold check_ca. keeps_steps. Qed.
Lemma check_client_keeps path : keeps [] (check_client path).
Proof. unfold check_client. keeps_steps. Qed.
Lemma check_backend_tls_keeps c : keeps [] (check_backend_tls c).
Proof.
  unfold check_backend_tls. keeps_steps; (apply check_ca_keeps || apply check_client_keeps).
Qed.
Lemma NewConfig_keeps path : keeps [] (NewConfig path).
Proof.
  unfold NewConfig, initConfigFromFile. keeps_steps; apply check_backend_tls_keeps.
Qed.

Lemma NewConfig_calm path : calm (NewConfig path).
Proof.
  unfold NewConfig, initConfigFromFile, check_backend_tls, check_ca, check_client. calm_steps.
Qed.

(** What the two checks accept: a CA file that is blank or starts with one
    certificate without headers, and a client file that is a certificate and a
    key that belong together, with nothing behind them. *)
Definition ca_accepted (data : string) : Prop :=
  TrimSpace data = "" ∨ ∃ block rest, pem_Decode (TrimSpace data) = (Some block, rest) ∧
    pem_Type block = "CERTIFICATE" ∧ pem_Headers block = [] ∧ ParseCertificate (pem_Bytes block) = None.
Definition client_accepted (data : string) : Prop :=
  ∃ certBlock keyBlock rest certPEM keyPEM, pem_Decode (TrimSpace data) = (Some certBlock, rest) ∧
    pem_Decode (TrimSpace rest) = (Some keyBlock, "") ∧
    pem_Encode certBlock = Ok certPEM ∧ pem_Encode keyBlock = Ok keyPEM ∧
    X509KeyPair certPEM keyPEM = None.

Lemma check_ca_ok path os os' :
  check_ca path os = (Ok tt, os') → ∃ data, files os !! path = Some data ∧ ca_accepted data.
Proof.
  intros [(data & s1 & Hr & Hc) | (e & _ & ?)]%bind_inv; [|done].
  cbv zeta in Hc. exists data. split; [by eapply (ReadFile_spec _ _ _ _ Hr)|].
  destruct (0 <? String.length (TrimSpace data))%nat eqn:Hl.
  - right. destruct (pem_Decode (TrimSpace data)) as [[block|] rest]; [|done].
    destruct (negb _) eqn:Hh; [done|]. case_bool_decide as Ht; [done|].
    destruct (ParseCertificate _) eqn:Hp; [done|]. exists block, rest.
    apply negb_false_iff, Nat.eqb_eq, nil_length_inv in Hh. done.
  - left. apply Nat.ltb_ge in Hl. destruct (TrimSpace data); [done|simpl in Hl; lia].
Qed.

Lemma check_client_ok path os os' :
  check_client path os = (Ok tt, os') → ∃ data, files os !! path = Some data ∧ client_accepted data.
Proof.
  intros [(data & s1 & Hr & Hc) | (e & _ & ?)]%bind_inv; [|done]. cbv zeta in Hc.
  exists data. split; [by eapply (ReadFile_spec _ _ _ _ Hr)|].
  destruct (pem_Decode (TrimSpace data)) as [[certBlock|] rest] eqn:Hd1; [|done].
  destruct (pem_Encode certBlock) as [certPEM|] eqn:He1; [|done].
  destruct (pem_Decode (TrimSpace rest)) as [[keyBlock|] rest2] eqn:Hd2; [|done].
  destruct (pem_Encode keyBlock) as [keyPEM|] eqn:He2; [|done].
  destruct (0 <? String.length rest2)%nat eqn:Hl; [done|]. destruct (X509KeyPair certPEM keyPEM) eqn:Hx; [done|].
  exists certBlock, keyBlock, rest, certPEM, keyPEM. rewrite Hd1, Hd2.
  apply Nat.ltb_ge in Hl. destruct rest2; [done|simpl in Hl; lia].
Qed.

(** With backend TLS both checks were passed by the files as they are. *)
Lemma check_backend_tls_ok c os c' os' :
  check_backend_tls c os = (Ok c', os') →
  let tls := cfg_BackendTLS c in
  c' = (if tls_Enabled tls then c else set_backend_tls (mkBackendTLSConfig (tls_Enabled tls) "" "") c) ∧
  (tls_Enabled tls = true →
   tls_CACertificatePath tls ≠ "" ∧
   (∃ data, files os !! tls_CACertificatePath tls = Some data ∧ ca_accepted data) ∧
   (tls_ClientCertAndKeyPath tls ≠ "" →
    ∃ data, files os !! tls_ClientCertAndKeyPath tls = Some data ∧ client_accepted data)).
Proof.
  unfold check_backend_tls. cbv zeta. destruct (tls_Enabled (cfg_BackendTLS c)) eqn:Htls; [|by intros [= <- <-]].
  intros [([] & s2 & Hca & Hc) | (e & _ & ?)]%bind_inv; [|done].
  apply bind_inv in Hc as [([] & s3 & Hcl & Hc) | (e & _ & ?)]; [|done].
  injection Hc as <- <-. split; [done|]. intros _.
  destruct (bool_decide (tls_CACertificatePath _ ≠ "")) eqn:Hne; [|done]. apply bool_decide_eq_true in Hne.
  pose proof (keeps_files _ _ _ _ (check_ca_keeps _) Hca) as Hfiles.
  apply check_ca_ok in Hca. split; [done|]. split; [done|]. intros Hcl'.
  rewrite bool_decide_true in Hcl by done. apply check_client_ok in Hcl. by rewrite Hfiles in Hcl.
Qed.

(** * Properties *)

(** C31. A configuration that loads is what its file says, but for two fields,
    and its files have passed their checks.  The load changes no file.  The
    configuration is the decoded file with a negative drain wait replaced by
    the default and, without backend TLS, with empty TLS paths; it names a pid
    file.  With backend TLS a CA file is named, and the file of that name
    is blank or starts with a certificate without headers that parses; if a
    client file is named, the file of that name is exactly a certificate and a
    key that belong together. *)
Theorem config_checked (path : string) (os os' : OSState) (c : Config) :
  NewConfig path os = (Ok c, os') →
  files os' = files os ∧
  (∃ text c1, files os !! path = Some text ∧ yaml_Unmarshal text zero_config = Ok c1 ∧
    let wait := if cfg_DrainWaitDuration c1 <? 0 then DrainWaitDefault else cfg_DrainWaitDuration c1 in
    let tls := cfg_BackendTLS c1 in
    c = set_drain_wait wait
          (set_backend_tls (if tls_Enabled tls then tls else mkBackendTLSConfig false "" "") c1)) ∧
  cfg_HaProxyPidFile c ≠ "" ∧ 0 ≤ cfg_DrainWaitDuration c ∧
  let tls := cfg_BackendTLS c in
  if tls_Enabled tls then
    tls_CACertificatePath tls ≠ "" ∧
    (∃ data, files os !! tls_CACertificatePath tls = Some data ∧ ca_accepted data) ∧
    (tls_ClientCertAndKeyPath tls ≠ "" →
     ∃ data, files os !! tls_ClientCertAndKeyPath tls = Some data ∧ client_accepted data)
  else tls_CACertificatePath tls = "" ∧ tls_ClientCertAndKeyPath tls = "".
Proof.
  intros Hn. split; [by eapply keeps_files, Hn; apply NewConfig_keeps|]. revert Hn.
  intros [(b & s1 & Hr & Hc) | (e & _ & ?)]%bind_inv; [|done].
  pose proof (ReadFile_spec _ _ _ _ Hr) as (Hfiles & _ & _ & _ & Hb).
  destruct (yaml_Unmarshal b zero_config) as [c1|e] eqn:Hy; [|done].
  case_bool_decide as Hpid; [done|]. cbv zeta in Hc.
  apply check_backend_tls_ok in Hc as [-> Htls]. rewrite Hfiles in Htls.
  split.
  - exists b, c1. split; [by apply Hb|]. split; [done|]. destruct c1 as [? ? ? ? ? d [en ca cl]].
    cbn. by destruct (d <? 0), en.
  - destruct c1 as [? ? ? ? ? d [en ca cl]]. cbn in *.
    assert (0 ≤ if d <? 0 then DrainWaitDefault else d) as Hwait
      by (unfold DrainWaitDefault; destruct (Z.ltb_spec d 0); lia).
    destruct (d <? 0), en; cbn in *; auto.
Qed.

(** The two file checks accept nothing else. *)
Theorem tls_files_checked (ca client : string) (os os' : OSState) :
  (check_ca ca os = (Ok tt, os') → ∃ data, files os !! ca = Some data ∧ ca_accepted data) ∧
  (check_client client os = (Ok tt, os') → ∃ data, files os !! client = Some data ∧ client_accepted data).
Proof. split; [apply check_ca_ok|apply check_client_ok]. Qed.

End loading.

(** * A concrete instance *)
Module Sample.

(** Libraries for which a text is its own block, certificate when it starts
    with a C. *)
Instance sample_libraries : ConfigLibraries := {|
  yaml_Unmarshal := λ b c,
    if bool_decide (b = "pid") then Ok (mkConfig (cfg_OAuth c) (cfg_RoutingAPI c) "/pid" [] [] (-5)
      (mkBackendTLSConfig true "/ca" ""))
    else Err "yaml: unmarshal error";
  pem_Decode := λ s, match s with
    | EmptyString => (None, "")
    | String "C" s' => (Some (mkPemBlock "CERTIFICATE" [] s'), "")
    | _ => (Some (mkPemBlock "PRIVATE KEY" [] s), "")
    end;
  pem_Encode := λ b, Ok (pem_Bytes b);
  ParseCertificate := λ _, None;
  X509KeyPair := λ _ _, None;
  show_headers := λ _, ""
|}.
Definition sample_os : OSState := mkOS {[ "/cfg" := "pid"; "/ca" := "C..." ]} 0 [] [].
Definition sample_config : Config :=
  mkConfig (cfg_OAuth zero_config) (cfg_RoutingAPI zero_config) "/pid" [] [] DrainWaitDefault
    (mkBackendTLSConfig true "/ca" "").

Lemma config_checked_witness :
  NewConfig "/cfg" sample_os = (Ok sample_config, sample_os) ∧
  ∃ data, files sample_os !! "/ca" = Some data ∧ ca_accepted data.
Proof.
  assert (NewConfig "/cfg" sample_os = (Ok sample_config, sample_os)) as Hn by reflexivity.
  split; [exact Hn|].
  destruct (config_checked "/cfg" sample_os sample_os sample_config Hn) as (_ & _ & _ & _ & _ & Hca & _). exact Hca.
Defined.

Lemma tls_files_checked_witness :
  ∃ data, files sample_os !! "/ca" = Some data.
Proof.
  destruct (tls_files_checked "/ca" "/ca" sample_os sample_os) as [Hca _].
  destruct (Hca eq_refl) as (data & Hd & _). exists data. exact Hd.
Defined.

End Sample.
