(* ===== verification/RoutingTable.v ===== *)
(** [models/routing_table.go]: the routing table, its keys and entries, and
    every operation on it. *)
From S2P Require Import Prelude GoStrings.
#[local] Open Scope Z_scope.

(** * Modification tags

    [ModificationTag] is a type of the routing API's client library: the
    program compares two tags with [==] and asks one whether the other
    succeeds it. *)

Class ModificationTags := {
  ModificationTag : Type;
  #[global] ModificationTag_eq_dec :: EqDecision ModificationTag;
  SucceededBy : ModificationTag → ModificationTag → bool
}.

(** * Time

    A [time.Time] is a number of nanoseconds on one time line, a
    [time.Duration] an [int64] of nanoseconds. *)

Definition Second : Z := 1000000000.

Definition Duration_neg (d : Z) : Z := wrap_i64 (- d).
Definition Duration_mul (d e : Z) : Z := wrap_i64 (d * e).
Definition Time_Add (t d : Z) : Z := t + d.
Definition Time_After (t u : Z) : bool := u <? t.

(** * Data *)

Record RoutingKey := mkRoutingKey {
  rk_Port : Z;
  rk_SniHostname : string
}.

Record BackendServerKey := mkBackendServerKey {
  bk_Address : string;
  bk_Port : Z;
  bk_TLSPort : Z;
  bk_InstanceID : string
}.

#[export] Instance RoutingKey_eq_dec : EqDecision RoutingKey.
Proof. solve_decision. Defined.
#[export] Instance RoutingKey_countable : Countable RoutingKey.
Proof.
  refine (inj_countable' (λ k, (rk_Port k, rk_SniHostname k))
    (λ p, mkRoutingKey p.1 p.2) _). by intros [].
Defined.
#[export] Instance BackendServerKey_eq_dec : EqDecision BackendServerKey.
Proof. solve_decision. Defined.
#[export] Instance BackendServerKey_countable : Countable BackendServerKey.
Proof.
  refine (inj_countable' (λ k, (bk_Address k, bk_Port k, bk_TLSPort k, bk_InstanceID k))
    (λ p, mkBackendServerKey p.1.1.1 p.1.1.2 p.1.2 p.2) _). by intros [].
Defined.

Section routing_table.
Context {tags : ModificationTags}.

Record BackendServerInfo := mkBackendServerInfo {
  bi_Address : string;
  bi_Port : Z;
  bi_TLSPort : Z;
  bi_InstanceID : string;
  bi_ModificationTag : ModificationTag;
  bi_TTL : Z
}.

Record BackendServerDetails := mkBackendServerDetails {
  bd_ModificationTag : ModificationTag;
  bd_TTL : Z;
  bd_UpdatedTime : Z
}.

#[export] Instance BackendServerDetails_eq_dec : EqDecision BackendServerDetails.
Proof. solve_decision. Defined.

Record RoutingTableEntry := mkRoutingTableEntry {
  Backends : gmap BackendServerKey BackendServerDetails
}.

Record RoutingTable := mkRoutingTable {
  Entries : gmap RoutingKey RoutingTableEntry
}.

#[export] Instance RoutingTableEntry_eq_dec : EqDecision RoutingTableEntry.
Proof. solve_decision. Defined.
#[export] Instance RoutingTable_eq_dec : EqDecision RoutingTable.
Proof. solve_decision. Defined.

(** * Operations

    An operation that calls [time.Now()] takes the readings it gets:
    [clk i] is the [i]-th one.  An operation that reads the clock once takes
    that reading. *)

Definition NewRoutingTable : RoutingTable := mkRoutingTable ∅.

Definition serverKeyDetailsFromInfo (info : BackendServerInfo) (now : Z) :
    BackendServerKey * BackendServerDetails :=
  (mkBackendServerKey (bi_Address info) (bi_Port info) (bi_TLSPort info) (bi_InstanceID info),
   mkBackendServerDetails (bi_ModificationTag info) (bi_TTL info) now).

Fixpoint NewRoutingTableEntry_loop (clk : nat → Z) (i : nat) (e : RoutingTableEntry)
    (backends : list BackendServerInfo) : RoutingTableEntry :=
  match backends with
  | [] => e
  | backend :: rest =>
      let backendServerKey :=
        mkBackendServerKey (bi_Address backend) (bi_Port backend)
          (bi_TLSPort backend) (bi_InstanceID backend) in
      let backendServerDetails :=
        mkBackendServerDetails (bi_ModificationTag backend) (bi_TTL backend) (clk i) in
      NewRoutingTableEntry_loop clk (S i)
        (mkRoutingTableEntry (<[backendServerKey := backendServerDetails]> (Backends e))) rest
  end.

Definition NewRoutingTableEntry (clk : nat → Z) (backends : list BackendServerInfo) :
    RoutingTableEntry :=
  NewRoutingTableEntry_loop clk 0 (mkRoutingTableEntry ∅) backends.

Definition UpdateSucceededBy (d other : BackendServerDetails) : bool :=
  SucceededBy (bd_ModificationTag d) (bd_ModificationTag other).

Definition DifferentFrom (d other : BackendServerDetails) : bool :=
  UpdateSucceededBy d other && false.

Definition DeleteSucceededBy (d other : BackendServerDetails) : bool :=
  bool_decide (bd_ModificationTag d = bd_ModificationTag other)
  || SucceededBy (bd_ModificationTag d) (bd_ModificationTag other).

Definition Expired (d : BackendServerDetails) (defaultTTL now : Z) : bool :=
  let ttl := if bd_TTL d =? 0 then defaultTTL else bd_TTL d in
  let expiryTime := Time_Add now (Duration_mul (Duration_neg ttl) Second) in
  Time_After expiryTime (bd_UpdatedTime d).

(** [SetEntry] is the method [Set]. *)
Definition SetEntry (table : RoutingTable) (key : RoutingKey) (newEntry : RoutingTableEntry) :
    RoutingTable * bool :=
  match Entries table !! key with
  | Some existingEntry =>
      if decide (existingEntry = newEntry) then (table, false)
      else (mkRoutingTable (<[key := newEntry]> (Entries table)), true)
  | None => (mkRoutingTable (<[key := newEntry]> (Entries table)), true)
  end.

Definition UpsertBackendServerKey (table : RoutingTable) (key : RoutingKey)
    (info : BackendServerInfo) (now : Z) : RoutingTable * bool :=
  match Entries table !! key with
  | None =>
      let existingEntry := NewRoutingTableEntry (λ _, now) [info] in
      (mkRoutingTable (<[key := existingEntry]> (Entries table)), true)
  | Some existingEntry =>
      let '(newBackendKey, newBackendDetails) := serverKeyDetailsFromInfo info now in
      let current := Backends existingEntry !! newBackendKey in
      let apply :=
        match current with
        | None => true
        | Some currentBackendDetails => UpdateSucceededBy currentBackendDetails newBackendDetails
        end in
      let table' :=
        if apply
        then mkRoutingTable (<[key := mkRoutingTableEntry
               (<[newBackendKey := newBackendDetails]> (Backends existingEntry))]> (Entries table))
        else table in
      let changed :=
        match current with
        | None => true
        | Some currentBackendDetails => DifferentFrom currentBackendDetails newBackendDetails
        end in
      (table', changed)
  end.

Definition DeleteBackendServerKey (table : RoutingTable) (key : RoutingKey)
    (info : BackendServerInfo) (now : Z) : RoutingTable * bool :=
  let '(backendServerKey, newDetails) := serverKeyDetailsFromInfo info now in
  match Entries table !! key with
  | None => (table, false)
  | Some existingEntry =>
      match Backends existingEntry !! backendServerKey with
      | None => (table, false)
      | Some existingDetails =>
          if DeleteSucceededBy existingDetails newDetails then
            let backends := delete backendServerKey (Backends existingEntry) in
            let entries :=
              if decide (size backends = 0%nat) then delete key (Entries table)
              else <[key := mkRoutingTableEntry backends]> (Entries table) in
            (mkRoutingTable entries, true)
          else (table, false)
      end
  end.

Definition Get (table : RoutingTable) (key : RoutingKey) : RoutingTableEntry :=
  default (mkRoutingTableEntry ∅) (Entries table !! key).

Definition Size (table : RoutingTable) : nat := size (Entries table).

(** [RoutingKey.String]; only the port is printed. *)
Definition RoutingKey_String (k : RoutingKey) : string := Sprintf_d (rk_Port k).

(** ** Pruning

    The orders in which one call ranges over the table: the entries, and for
    every routing key the backends of its entry. *)

Record TableRange := mkTableRange {
  range_entries : range_order RoutingKey RoutingTableEntry;
  range_backends : RoutingKey → range_order BackendServerKey BackendServerDetails
}.

Class IsTableRange (tr : TableRange) : Prop := {
  #[global] range_entries_ok :: IsRange (range_entries tr);
  #[global] range_backends_ok k :: IsRange (range_backends tr k)
}.

(** Both loops thread the number of clock readings made so far. *)
Definition PruneBackends_step (defaultTTL : Z) (clk : nat → Z)
    (acc : RoutingTableEntry * nat) (kd : BackendServerKey * BackendServerDetails) :
    RoutingTableEntry * nat :=
  let '(e, i) := acc in
  let '(backendKey, details) := kd in
  (if Expired details defaultTTL (clk i)
   then mkRoutingTableEntry (delete backendKey (Backends e)) else e, S i).

Definition PruneBackends (r : range_order BackendServerKey BackendServerDetails)
    (e : RoutingTableEntry) (defaultTTL : Z) (clk : nat → Z) (i : nat) :
    RoutingTableEntry * nat :=
  foldl (PruneBackends_step defaultTTL clk) (e, i) (r (Backends e)).

Definition PruneEntries_step (tr : TableRange) (defaultTTL : Z) (clk : nat → Z)
    (acc : RoutingTable * nat) (ke : RoutingKey * RoutingTableEntry) : RoutingTable * nat :=
  let '(table, i) := acc in
  let '(routeKey, entry) := ke in
  let '(entry', j) := PruneBackends (range_backends tr routeKey) entry defaultTTL clk i in
  let entries := <[routeKey := entry']> (Entries table) in
  (mkRoutingTable
     (if decide (size (Backends entry') = 0%nat) then delete routeKey entries else entries), j).

Definition PruneEntries (tr : TableRange) (table : RoutingTable) (defaultTTL : Z)
    (clk : nat → Z) : RoutingTable * nat :=
  foldl (PruneEntries_step tr defaultTTL clk) (table, 0%nat) (range_entries tr (Entries table)).

(** * What a table holds: the details of every backend of every route *)

Definition lookup_backend (table : RoutingTable) (rk : RoutingKey) (bk : BackendServerKey) :
    option BackendServerDetails :=
  e ← Entries table !! rk; Backends e !! bk.

(** No route is left without backends. *)
Definition no_empty_entries (table : RoutingTable) : Prop :=
  ∀ rk e, Entries table !! rk = Some e → Backends e ≠ ∅.

Definition info_key (info : BackendServerInfo) : BackendServerKey :=
  (serverKeyDetailsFromInfo info 0).1.
Definition info_details (info : BackendServerInfo) (now : Z) : BackendServerDetails :=
  (serverKeyDetailsFromInfo info now).2.

(** Two tables hold the same backends, whatever their details. *)
Definition same_backends (t1 t2 : RoutingTable) : Prop :=
  ∀ rk bk, is_Some (lookup_backend t1 rk bk) ↔ is_Some (lookup_backend t2 rk bk).

(** An update of one backend, as an event or a bulk sync performs it. *)
Inductive table_op :=
  | OpUpsert (key : RoutingKey) (info : BackendServerInfo) (now : Z)
  | OpDelete (key : RoutingKey) (info : BackendServerInfo) (now : Z).

Definition run_op (t : RoutingTable) (op : table_op) : RoutingTable * bool :=
  match op with
  | OpUpsert key info now => UpsertBackendServerKey t key info now
  | OpDelete key info now => DeleteBackendServerKey t key info now
  end.

(** The backend an operation is about. *)
Definition op_target (op : table_op) : RoutingKey * BackendServerKey :=
  match op with
  | OpUpsert key info _ | OpDelete key info _ => (key, info_key info)
  end.

(** What an operation makes of the details its target has. *)
Definition op_details (op : table_op) (current : option BackendServerDetails) :
    option BackendServerDetails :=
  match op, current with
  | OpUpsert _ info now, None => Some (info_details info now)
  | OpUpsert _ info now, Some d =>
      if UpdateSucceededBy d (info_details info now) then Some (info_details info now) else Some d
  | OpDelete _ _ _, None => None
  | OpDelete _ info now, Some d =>
      if DeleteSucceededBy d (info_details info now) then None else Some d
  end.

(** The tables the program's operations build. *)
Inductive table_reachable : RoutingTable → Prop :=
  | tr_new : table_reachable NewRoutingTable
  | tr_op t op : table_reachable t → table_reachable (run_op t op).1
  | tr_prune t tr ttl clk :
      IsTableRange tr → table_reachable t → table_reachable (PruneEntries tr t ttl clk).1.

#[export] Instance same_backends_equivalence : Equivalence same_backends.
Proof.
  split.
  - by intros t rk bk.
  - intros t1 t2 Ht rk bk. by rewrite (Ht rk bk).
  - intros t1 t2 t3 H12 H23 rk bk. by rewrite (H12 rk bk), (H23 rk bk).
Qed.

Lemma serverKeyDetailsFromInfo_eq info now :
  serverKeyDetailsFromInfo info now = (info_key info, info_details info now).
Proof. done. Qed.

Lemma NewRoutingTableEntry_singleton clk info :
  NewRoutingTableEntry clk [info] =
  mkRoutingTableEntry {[ info_key info := info_details info (clk 0%nat) ]}.
Proof. done. Qed.

Lemma size_zero_empty `{Countable K} {V} (m : gmap K V) : size m = 0%nat ↔ m = ∅.
Proof. split; [apply map_size_empty_inv|intros ->; apply map_size_empty]. Qed.

(** A table without empty entries is determined by what it holds. *)
Lemma table_ext t1 t2 :
  no_empty_entries t1 → no_empty_entries t2 →
  (∀ rk bk, lookup_backend t1 rk bk = lookup_backend t2 rk bk) → t1 = t2.
Proof.
  destruct t1 as [m1], t2 as [m2]. unfold no_empty_entries, lookup_backend; simpl.
  intros H1 H2 Heq. f_equal. apply map_eq. intros rk. specialize (Heq rk).
  assert (∀ m m' : gmap RoutingKey RoutingTableEntry, ∀ e,
    (∀ rk e, m !! rk = Some e → Backends e ≠ ∅) →
    m !! rk = Some e → m' !! rk = None →
    (∀ bk, (e ← m !! rk; Backends e !! bk) = (e ← m' !! rk; Backends e !! bk)) → False) as Habs.
  { intros m m' e Hne Hm Hm' Hbk. apply (Hne rk e Hm), map_empty. intros bk.
    specialize (Hbk bk). rewrite Hm, Hm' in Hbk. done. }
  destruct (m1 !! rk) as [e1|] eqn:Hm1, (m2 !! rk) as [e2|] eqn:Hm2; [| | |done].
  - destruct e1 as [b1], e2 as [b2]. do 2 f_equal. apply map_eq. apply Heq.
  - exfalso. apply (Habs m1 m2 e1); rewrite ?Hm1, ?Hm2; done.
  - exfalso. apply (Habs m2 m1 e2); rewrite ?Hm1, ?Hm2; done.
Qed.

Lemma lookup_backend_insert t rk e rk' bk :
  lookup_backend (mkRoutingTable (<[rk := e]> (Entries t))) rk' bk =
  if decide (rk = rk') then Backends e !! bk else lookup_backend t rk' bk.
Proof. unfold lookup_backend; simpl. rewrite lookup_insert. by case_decide. Qed.

Lemma lookup_backend_delete t rk rk' bk :
  lookup_backend (mkRoutingTable (delete rk (Entries t))) rk' bk =
  if decide (rk = rk') then None else lookup_backend t rk' bk.
Proof. unfold lookup_backend; simpl. rewrite lookup_delete. by case_decide. Qed.

Local Arguments serverKeyDetailsFromInfo : simpl never.
Local Arguments NewRoutingTableEntry : simpl never.

(** ** Upserts and deletes are updates of one backend *)

(** The backends of a route, none when the table lacks the route. *)
Definition route_backends (t : RoutingTable) (rk : RoutingKey) :
    gmap BackendServerKey BackendServerDetails := Backends (Get t rk).

Lemma lookup_route_backends t rk bk : route_backends t rk !! bk = lookup_backend t rk bk.
Proof.
  unfold route_backends, Get, lookup_backend.
  destruct (Entries t !! rk); simpl; [done|apply lookup_empty].
Qed.

Definition put_backend (t : RoutingTable) rk bk d : RoutingTable :=
  mkRoutingTable (<[rk := mkRoutingTableEntry (<[bk := d]> (route_backends t rk))]> (Entries t)).
Definition drop_backend (t : RoutingTable) rk bk : RoutingTable :=
  let bs := delete bk (route_backends t rk) in
  mkRoutingTable (if decide (size bs = 0%nat) then delete rk (Entries t)
                  else <[rk := mkRoutingTableEntry bs]> (Entries t)).

Lemma Upsert_eq t rk info now :
  UpsertBackendServerKey t rk info now =
  match lookup_backend t rk (info_key info) with
  | None => (put_backend t rk (info_key info) (info_details info now), true)
  | Some d =>
      (if UpdateSucceededBy d (info_details info now)
       then put_backend t rk (info_key info) (info_details info now) else t, false)
  end.
Proof.
  unfold UpsertBackendServerKey, put_backend, lookup_backend, route_backends, Get.
  rewrite NewRoutingTableEntry_singleton, serverKeyDetailsFromInfo_eq.
  destruct (Entries t !! rk) as [e|] eqn:He; simpl; [|done].
  destruct (Backends e !! info_key info) as [d|] eqn:Hd; [|done].
  unfold DifferentFrom. by rewrite andb_false_r.
Qed.

Lemma Delete_eq t rk info now :
  DeleteBackendServerKey t rk info now =
  match lookup_backend t rk (info_key info) with
  | None => (t, false)
  | Some d =>
      if DeleteSucceededBy d (info_details info now)
      then (drop_backend t rk (info_key info), true) else (t, false)
  end.
Proof.
  unfold DeleteBackendServerKey, drop_backend, lookup_backend, route_backends, Get.
  rewrite serverKeyDetailsFromInfo_eq.
  destruct (Entries t !! rk) as [e|] eqn:He; simpl; [|done].
  by destruct (Backends e !! info_key info) as [d|] eqn:Hd.
Qed.

Lemma lookup_put_backend t rk bk d rk' bk' :
  lookup_backend (put_backend t rk bk d) rk' bk' =
  if decide ((rk', bk') = (rk, bk)) then Some d else lookup_backend t rk' bk'.
Proof.
  unfold put_backend. rewrite lookup_backend_insert; simpl.
  destruct (decide (rk = rk')) as [<-|Hne]; [|by rewrite decide_False by congruence].
  rewrite lookup_insert, lookup_route_backends.
  repeat case_decide; congruence.
Qed.

Lemma lookup_drop_backend t rk bk rk' bk' :
  lookup_backend (drop_backend t rk bk) rk' bk' =
  if decide ((rk', bk') = (rk, bk)) then None else lookup_backend t rk' bk'.
Proof.
  unfold drop_backend. destruct (decide (size _ = 0%nat)) as [Hsz|Hsz].
  - apply size_zero_empty in Hsz. rewrite lookup_backend_delete.
    destruct (decide (rk = rk')) as [<-|Hne]; [|by rewrite decide_False by congruence].
    case_decide as Hd; [done|]. rewrite <-lookup_route_backends.
    assert (bk ≠ bk') as Hbk by congruence.
    by rewrite <-(lookup_delete_ne _ bk bk' Hbk), Hsz, lookup_empty.
  - rewrite lookup_backend_insert; simpl.
    destruct (decide (rk = rk')) as [<-|Hne]; [|by rewrite decide_False by congruence].
    rewrite lookup_delete, lookup_route_backends. repeat case_decide; congruence.
Qed.

Lemma put_backend_no_empty t rk bk d :
  no_empty_entries t → no_empty_entries (put_backend t rk bk d).
Proof.
  intros Ht rk' e. unfold put_backend; simpl. rewrite lookup_insert.
  case_decide; intros; simplify_eq/=; [apply insert_non_empty|by eapply Ht].
Qed.

Lemma drop_backend_no_empty t rk bk :
  no_empty_entries t → no_empty_entries (drop_backend t rk bk).
Proof.
  intros Ht rk' e. unfold drop_backend; simpl. case_decide as Hsz.
  - rewrite lookup_delete. case_decide; intros; simplify_eq. by eapply Ht.
  - rewrite lookup_insert. case_decide; intros; simplify_eq/=; [|by eapply Ht].
    by rewrite <-size_zero_empty.
Qed.

Lemma run_op_no_empty t op : no_empty_entries t → no_empty_entries (run_op t op).1.
Proof.
  intros Ht. destruct op; simpl; rewrite ?Upsert_eq, ?Delete_eq; repeat case_match;
    simpl; eauto using put_backend_no_empty, drop_backend_no_empty.
Qed.

Lemma run_op_lookup t op rk bk :
  lookup_backend (run_op t op).1 rk bk =
  if decide ((rk, bk) = op_target op)
  then op_details op (lookup_backend t rk bk) else lookup_backend t rk bk.
Proof.
  destruct op as [key info now|key info now]; simpl;
    rewrite ?Upsert_eq, ?Delete_eq.
  all: case_decide as Hk; [simplify_eq|].
  all: destruct (lookup_backend t key (info_key info)) as [d|] eqn:Hd; simpl.
  all: repeat case_match; simpl; rewrite ?lookup_put_backend, ?lookup_drop_backend;
    repeat case_decide; (done || congruence).
Qed.

(** The flag an operation returns says whether its target came or went. *)
Lemma Upsert_dom t rk info now :
  dom (Entries (UpsertBackendServerKey t rk info now).1) = {[rk]} ∪ dom (Entries t).
Proof.
  rewrite Upsert_eq. unfold lookup_backend. destruct (Entries t !! rk) as [e|] eqn:He; simpl.
  - assert ({[rk]} ∪ dom (Entries t) = dom (Entries t)) as ->.
    { apply elem_of_dom_2 in He. set_solver. }
    assert (∀ e', dom (<[rk := e']> (Entries t)) = dom (Entries t)) as Hd.
    { intros e'. rewrite dom_insert_L. apply elem_of_dom_2 in He. set_solver. }
    destruct (Backends e !! _); simpl; [case_match|]; simpl; by rewrite ?Hd.
  - by rewrite dom_insert_L.
Qed.
Lemma Upsert_present t rk info now rk' bk' :
  is_Some (lookup_backend (UpsertBackendServerKey t rk info now).1 rk' bk') ↔
  (rk', bk') = (rk, info_key info) ∨ is_Some (lookup_backend t rk' bk').
Proof.
  rewrite Upsert_eq. destruct (lookup_backend t rk (info_key info)) as [d|] eqn:Hd; simpl;
    [case_match|]; simpl; rewrite ?lookup_put_backend; try case_decide; simplify_eq;
    rewrite ?Hd; naive_solver.
Qed.

Lemma run_op_flag t op :
  (run_op t op).2 = true ↔
  ¬ (is_Some (lookup_backend (run_op t op).1 (op_target op).1 (op_target op).2) ↔
     is_Some (lookup_backend t (op_target op).1 (op_target op).2)).
Proof.
  rewrite run_op_lookup, decide_True by (by destruct (op_target op)).
  destruct op as [key info now|key info now]; simpl; rewrite ?Upsert_eq, ?Delete_eq;
    destruct (lookup_backend t key (info_key info)) as [d|]; simpl;
    repeat case_match; simpl; rewrite <-?not_eq_None_Some; naive_solver.
Qed.

Lemma run_op_same_backends t op :
  (run_op t op).2 = false ↔ same_backends (run_op t op).1 t.
Proof.
  rewrite <-not_true_iff_false, run_op_flag. split.
  - intros Hn rk bk. destruct (decide ((rk, bk) = op_target op)) as [Heq|Hne].
    + destruct (op_target op); simplify_eq/=. by apply dec_stable.
    + by rewrite run_op_lookup, decide_False.
  - intros Hs Hn. apply Hn, Hs.
Qed.

(** ** Pruning *)

Definition monotone_clock (clk : nat → Z) : Prop := ∀ i j, (i ≤ j)%nat → clk i ≤ clk j.

(** A backend that is expired stays so. *)
Lemma Expired_mono d ttl now now' :
  now ≤ now' → Expired d ttl now = true → Expired d ttl now' = true.
Proof. unfold Expired, Time_After, Time_Add. rewrite !Z.ltb_lt. lia. Qed.

Lemma PruneBackends_lookup_gen ttl clk l e i bk :
  NoDup l.*1 →
  Backends (foldl (PruneBackends_step ttl clk) (e, i) l).1 !! bk =
  match list_find (λ kd, kd.1 = bk) l with
  | Some (j, (_, d)) =>
      if Expired d ttl (clk (i + j)%nat) then None else Backends e !! bk
  | None => Backends e !! bk
  end.
Proof.
  revert e i. induction l as [|[k d] l IH]; intros e i Hnd; simpl; [done|].
  inversion_clear Hnd as [|?? Hk Hnd']. rewrite (IH _ _ Hnd').
  destruct (decide (k = bk)) as [->|Hne].
  - assert (list_find (λ kd, kd.1 = bk) l = None) as ->.
    { apply list_find_None. apply Forall_forall. intros [k' d'] Hin ?; simplify_eq/=.
      apply Hk, list_elem_of_fmap. by exists (bk, d'). }
    rewrite Nat.add_0_r. destruct (Expired d ttl (clk i)); simpl; [apply lookup_delete_eq|done].
  - destruct (list_find (λ kd, kd.1 = bk) l) as [[j [k' d']]|]; simpl.
    + rewrite <-Nat.add_succ_comm. destruct (Expired d' _ _); [done|].
      destruct (Expired d _ _); simpl; [by rewrite lookup_delete_ne|done].
    + destruct (Expired d _ _); simpl; [by rewrite lookup_delete_ne|done].
Qed.

Lemma PruneBackends_count ttl clk l e i :
  (foldl (PruneBackends_step ttl clk) (e, i) l).2 = (i + length l)%nat.
Proof.
  revert e i. induction l as [|[k d] l IH]; intros e i; simpl; [lia|]. rewrite IH. lia.
Qed.

Lemma PruneBackends_le r e ttl clk i e' j :
  PruneBackends r e ttl clk i = (e', j) → (i ≤ j)%nat.
Proof.
  intros Hp. pose proof (PruneBackends_count ttl clk (r (Backends e)) e i) as Hj.
  unfold PruneBackends in Hp. rewrite Hp in Hj. simpl in Hj. lia.
Qed.

(** What pruning one entry keeps, in terms of the readings it starts and
    ends with. *)
Lemma PruneBackends_spec r e ttl clk i e' j :
  IsRange r → monotone_clock clk → PruneBackends r e ttl clk i = (e', j) →
  (i ≤ j)%nat ∧ ∀ bk d,
    (Backends e' !! bk = Some d →
     Backends e !! bk = Some d ∧ Expired d ttl (clk i) = false) ∧
    (Backends e !! bk = Some d → Expired d ttl (clk j) = false → Backends e' !! bk = Some d).
Proof.
  intros Hr Hclk Hp. unfold PruneBackends in Hp.
  pose proof (PruneBackends_count ttl clk (r (Backends e)) e i) as Hj.
  rewrite Hp in Hj; simpl in Hj. split; [lia|]. intros bk d.
  pose proof (PruneBackends_lookup_gen ttl clk (r (Backends e)) e i bk
    (NoDup_range_keys r _)) as Hl.
  rewrite Hp in Hl; simpl in Hl. rewrite Hl. clear Hl Hp.
  destruct (list_find _ _) as [[x [k d']]|] eqn:Hf.
  - apply list_find_Some in Hf as (Hx & Hk & _). simpl in Hk; subst k.
    assert (Backends e !! bk = Some d') as Hd'.
    { apply (elem_of_range r). by eapply list_elem_of_lookup_2. }
    apply lookup_lt_Some in Hx.
    rewrite Hd'. destruct (Expired d' ttl (clk (i + x)%nat)) eqn:He;
      (split; [intros Hn|intros Hn Hend]); simplify_eq.
    + exfalso. pose proof (Hclk (i + x)%nat (i + length (r (Backends e)))%nat ltac:(lia)).
      by rewrite (Expired_mono d ttl (clk (i + x)%nat)) in Hend.
    + split; [done|]. apply not_true_iff_false. intros Hi.
      rewrite (Expired_mono d ttl (clk i)) in He; [done|apply Hclk; lia|done].
    + done.
  - apply list_find_None in Hf. rewrite Forall_forall in Hf.
    assert (Backends e !! bk = None) as ->; [|done].
    apply eq_None_not_Some. intros [d' Hd']. apply (elem_of_range r) in Hd'.
    by apply (Hf _ Hd').
Qed.

(** The entry-wise reading of the outer loop: each entry of the range is
    pruned once, starting at some reading between [i] and the last one. *)
Lemma PruneEntries_spec_gen tr ttl clk l t i t' n :
  NoDup l.*1 →
  (∀ rk e, (rk, e) ∈ l → Entries t !! rk = Some e) →
  foldl (PruneEntries_step tr ttl clk) (t, i) l = (t', n) →
  (i ≤ n)%nat ∧ ∀ rk,
    (rk ∉ l.*1 → Entries t' !! rk = Entries t !! rk) ∧
    (∀ e, (rk, e) ∈ l → ∃ a b e', (i ≤ a)%nat ∧ (b ≤ n)%nat ∧
       PruneBackends (range_backends tr rk) e ttl clk a = (e', b) ∧
       Entries t' !! rk = if decide (size (Backends e') = 0%nat) then None else Some e').
Proof.
  revert t i. induction l as [|[k e] l IH]; intros t i Hnd Hl Hf; simpl in *.
  { simplify_eq. split; [lia|]. intros rk. split; [done|]. by intros e ?%not_elem_of_nil. }
  inversion_clear Hnd as [|?? Hk Hnd'].
  destruct (PruneBackends (range_backends tr k) e ttl clk i) as [e' j] eqn:Hp.
  pose proof (PruneBackends_le _ _ _ _ _ _ _ Hp) as Hij.
  assert (∀ t1 rk, t1 = (if decide (size (Backends e') = 0%nat)
      then delete k (<[k:=e']> (Entries t)) else <[k:=e']> (Entries t)) → k ≠ rk →
      t1 !! rk = Entries t !! rk) as Hother.
  { intros t1 rk -> Hne. case_decide; by rewrite ?lookup_delete_ne, ?lookup_insert_ne. }
  apply IH in Hf as [Hjn Hrk]; [|done|].
  2:{ intros rk e2 Hin. simpl. rewrite (Hother _ rk eq_refl).
      - apply Hl. by right.
      - intros ->. apply Hk, list_elem_of_fmap. by exists (rk, e2). }
  split; [lia|]. intros rk. destruct (Hrk rk) as [Hout Hin]. split.
  - intros [Hne Hnin]%not_elem_of_cons. rewrite Hout by done. simpl.
    by apply Hother; [|congruence].
  - intros e2 [?|He2]%elem_of_cons; simplify_eq.
    + exists i, j, e'. repeat split; [lia|lia|done|]. rewrite Hout by done. simpl.
      case_decide; by rewrite ?lookup_delete_eq, ?lookup_insert_eq.
    + destruct (Hin e2 He2) as (a & b & e'' & ? & ? & ? & ?).
      exists a, b, e''. repeat split; [lia|lia|done..].
Qed.

Lemma PruneEntries_entry tr t ttl clk t' n :
  IsTableRange tr → PruneEntries tr t ttl clk = (t', n) →
  ∀ rk, match Entries t !! rk with
    | None => Entries t' !! rk = None
    | Some e => ∃ a b e', (b ≤ n)%nat ∧
        PruneBackends (range_backends tr rk) e ttl clk a = (e', b) ∧
        Entries t' !! rk = if decide (size (Backends e') = 0%nat) then None else Some e'
    end.
Proof.
  intros Htr Hp rk.
  eapply PruneEntries_spec_gen in Hp as [_ Hrk].
  - destruct (Hrk rk) as [Hout Hin]. destruct (Entries t !! rk) as [e|] eqn:He.
    + destruct (Hin e) as (a & b & e' & _ & ? & ? & ?); [by apply (elem_of_range _)|].
      by exists a, b, e'.
    + apply Hout. rewrite (elem_of_range_keys _), He. by intros [].
  - apply (NoDup_range_keys _).
  - intros ??. by rewrite (elem_of_range _).
Qed.

Lemma PruneEntries_no_empty tr t ttl clk :
  IsTableRange tr → no_empty_entries (PruneEntries tr t ttl clk).1.
Proof.
  intros Htr rk e He. destruct (PruneEntries tr t ttl clk) as [t' n] eqn:Hp; simpl in He.
  pose proof (PruneEntries_entry _ _ _ _ _ _ Htr Hp rk) as Hrk.
  destruct (Entries t !! rk); [|congruence].
  destruct Hrk as (a & b & e' & _ & _ & Hrk). rewrite Hrk in He.
  case_decide as Hsz; simplify_eq. by rewrite <-size_zero_empty.
Qed.

End routing_table.

(** * Properties *)

Section properties.
Context {tags : ModificationTags}.

(** C9. An upsert or a delete changes the details of its target backend only:
    an upsert stores the new details when the backend is new or its tag is
    succeeded by the event's, a delete removes the backend when the tags are
    equal or succeed, and a stale event leaves the details as they are; every
    other backend of every route is untouched. *)
Theorem update_one_backend (t : RoutingTable) (op : table_op) rk bk :
  lookup_backend (run_op t op).1 rk bk =
  if decide ((rk, bk) = op_target op)
  then op_details op (lookup_backend t rk bk) else lookup_backend t rk bk.
Proof. apply run_op_lookup. Qed.

(** C10. The flag an upsert or a delete returns is exact: it is false if and
    only if the table holds the same set of backends as before. *)
Theorem flag_exact (t : RoutingTable) (op : table_op) :
  (run_op t op).2 = false ↔ same_backends (run_op t op).1 t.
Proof. apply run_op_same_backends. Qed.

(** C14. Starting from the empty table, no sequence of upserts, deletes and
    prunes leaves a route without backends. *)
Theorem reachable_no_empty_entries (t : RoutingTable) :
  table_reachable t → no_empty_entries t.
Proof.
  induction 1 as [|t op _ IH|t tr ttl clk Htr _ IH].
  - intros rk e. simpl. by rewrite lookup_empty.
  - by apply run_op_no_empty.
  - by apply PruneEntries_no_empty.
Qed.

(** Deleting a backend right after adding it with the same information
    gives back the table as it was, and both calls ask for a new
    configuration. *)
Theorem delete_undoes_upsert (t : RoutingTable) rk info now now' :
  no_empty_entries t → lookup_backend t rk (info_key info) = None →
  (UpsertBackendServerKey t rk info now).2 = true ∧
  DeleteBackendServerKey (UpsertBackendServerKey t rk info now).1 rk info now' = (t, true).
Proof.
  intros Ht Hnone. rewrite Upsert_eq, Hnone, Delete_eq; cbn [fst snd].
  rewrite lookup_put_backend, decide_True by done.
  unfold DeleteSucceededBy at 1; simpl. rewrite bool_decide_true by done; simpl.
  split; [done|]. f_equal. apply table_ext; [by auto using drop_backend_no_empty, put_backend_no_empty|done|].
  intros rk' bk'. rewrite lookup_drop_backend, lookup_put_backend.
  case_decide; congruence.
Qed.

(** Updates of different backends commute: the table does not depend on
    the order in which events about different backends arrive. *)
Theorem updates_commute (t : RoutingTable) (op1 op2 : table_op) :
  no_empty_entries t → op_target op1 ≠ op_target op2 →
  (run_op (run_op t op1).1 op2).1 = (run_op (run_op t op2).1 op1).1.
Proof.
  intros Ht Hne. apply table_ext; [by auto using run_op_no_empty..|].
  intros rk bk. rewrite !run_op_lookup. repeat case_decide; congruence.
Qed.

(** C13. Pruning keeps a backend that is still fresh at the last clock reading
    of the call, with its details, removes every backend that was expired at
    the first one, and adds nothing. *)
Theorem prune_bounds (tr : TableRange) (t : RoutingTable) defaultTTL clk rk bk d :
  IsTableRange tr → monotone_clock clk →
  let pruned := PruneEntries tr t defaultTTL clk in
  (lookup_backend pruned.1 rk bk = Some d →
   lookup_backend t rk bk = Some d ∧ Expired d defaultTTL (clk 0%nat) = false) ∧
  (lookup_backend t rk bk = Some d → Expired d defaultTTL (clk pruned.2) = false →
   lookup_backend pruned.1 rk bk = Some d).
Proof.
  intros Htr Hclk. cbv zeta. destruct (PruneEntries _ _ _ _) as [t' n] eqn:Hp; simpl.
  pose proof (PruneEntries_entry _ _ _ _ _ _ Htr Hp rk) as Hrk.
  unfold lookup_backend. destruct (Entries t !! rk) as [e|]; simpl; [|by rewrite Hrk].
  destruct Hrk as (a & b & e' & Hb & Hpb & ->).
  pose proof (PruneBackends_spec _ _ _ _ _ _ _ _ Hclk Hpb) as [_ Hspec].
  destruct (Hspec bk d) as [Hkeep Hfresh].
  assert ((if decide (size (Backends e') = 0%nat) then None else Some e') ≫= (λ e, Backends e !! bk)
    = Backends e' !! bk) as ->.
  { case_decide as Hsz; [|done]. apply size_zero_empty in Hsz as ->. symmetry. apply lookup_empty. }
  split.
  - intros [? Ha]%Hkeep. split; [done|]. apply not_true_iff_false. intros H0.
    rewrite (Expired_mono d defaultTTL (clk 0%nat)) in Ha; [done|apply Hclk; lia|done].
  - intros Hd Hn. apply Hfresh; [done|]. apply not_true_iff_false. intros Hb'.
    rewrite (Expired_mono d defaultTTL (clk b)) in Hn; [done|by apply Hclk|done].
Qed.

(** C15. For every time-to-live of at most 9223372036 seconds in absolute
    value the 64-bit duration arithmetic does not wrap, and a backend is
    expired exactly when it was last updated more than its time-to-live ago;
    a time-to-live of zero stands for the default. *)
Theorem expired_exact (d : BackendServerDetails) defaultTTL now :
  - 9223372036 ≤ bd_TTL d ≤ 9223372036 → - 9223372036 ≤ defaultTTL ≤ 9223372036 →
  Expired d defaultTTL now = true ↔
  (if decide (bd_TTL d = 0) then defaultTTL else bd_TTL d) * Second < now - bd_UpdatedTime d.
Proof.
  intros Hd Hdef. unfold Expired, Time_After, Time_Add, Duration_neg, Duration_mul, Second.
  rewrite Z.ltb_lt.
  destruct (bd_TTL d =? 0) eqn:H0; bool_simpl; [rewrite decide_True|rewrite decide_False]; try done.
  all: rewrite (wrap_i64_small (- _)) by (unfold is_i64; lia).
  all: rewrite wrap_i64_small by (unfold is_i64; lia); lia.
Qed.

(** One second more and the multiplication overflows: a backend with that
    time-to-live is expired at the very moment it is stored. *)
Theorem expired_overflow (d : BackendServerDetails) defaultTTL :
  bd_TTL d = 9223372037 → Expired d defaultTTL (bd_UpdatedTime d) = true.
Proof.
  intros Hd. unfold Expired, Time_After, Time_Add. rewrite Hd.
  change (Duration_mul (Duration_neg (if 9223372037 =? 0 then defaultTTL else 9223372037)) Second)
    with 9223372036709551616.
  apply Z.ltb_lt. lia.
Qed.

End properties.

(** * A concrete instance

    Tags with a generation and an index, as the tests of the repository build
    them; the theorems are instantiated with it. *)
Module Sample.

Record tag := mkTag { Guid : string; Index : Z }.
#[export] Instance tag_eq_dec : EqDecision tag.
Proof. solve_decision. Defined.

Definition tag_succeeded_by (a b : tag) : bool :=
  negb (bool_decide (Guid a = Guid b)) || (Index a <? Index b).

#[export] Instance tags : ModificationTags := {|
  ModificationTag := tag;
  SucceededBy := tag_succeeded_by
|}.

Definition key80 : RoutingKey := mkRoutingKey 80 "".
Definition info1 : BackendServerInfo :=
  mkBackendServerInfo "host-1.internal" 8080 0 "" (mkTag "abc" 2) 60.
Definition info2 : BackendServerInfo :=
  mkBackendServerInfo "host-2.internal" 8080 0 "" (mkTag "def" 1) 0.
Definition table1 : RoutingTable := (UpsertBackendServerKey NewRoutingTable key80 info1 100).1.
Definition table2 : RoutingTable := (UpsertBackendServerKey table1 key80 info2 200).1.

Definition plain_range : TableRange := mkTableRange map_to_list (λ _, map_to_list).
#[export] Instance plain_range_ok : IsTableRange plain_range.
Proof. split; apply _. Qed.

(** A clock that advances by one second per reading. *)
Definition sample_clock (i : nat) : Z := 61 * Second + Z.of_nat i * Second.

Example table2_size : Size table2 = 1%nat ∧ size (Backends (Get table2 key80)) = 2%nat.
Proof. by vm_compute. Qed.

Lemma table1_reachable : table_reachable table1.
Proof. apply (tr_op NewRoutingTable (OpUpsert key80 info1 100)). constructor. Qed.
Lemma table2_reachable : table_reachable table2.
Proof. apply (tr_op table1 (OpUpsert key80 info2 200)), table1_reachable. Qed.
Lemma table1_no_empty : no_empty_entries table1.
Proof. apply (put_backend_no_empty NewRoutingTable). intros rk e. simpl. by rewrite lookup_empty. Qed.
Lemma sample_clock_mono : monotone_clock sample_clock.
Proof. intros i j Hij. unfold sample_clock, Second. lia. Qed.

Lemma reachable_no_empty_entries_witness :
  table_reachable table2 ∧ no_empty_entries table2.
Proof.
  split; [apply table2_reachable|]. apply reachable_no_empty_entries, table2_reachable.
Defined.

Lemma delete_undoes_upsert_witness :
  lookup_backend table1 key80 (info_key info2) = None ∧
  DeleteBackendServerKey (UpsertBackendServerKey table1 key80 info2 200).1 key80 info2 300
  = (table1, true).
Proof.
  split; [vm_compute; reflexivity|].
  refine (proj2 (delete_undoes_upsert table1 key80 info2 200 300 table1_no_empty _)).
  vm_compute; reflexivity.
Defined.

Lemma updates_commute_witness :
  (run_op (run_op table1 (OpUpsert key80 info2 200)).1 (OpDelete key80 info1 300)).1 =
  (run_op (run_op table1 (OpDelete key80 info1 300)).1 (OpUpsert key80 info2 200)).1.
Proof. apply updates_commute; [apply table1_no_empty|done]. Defined.

(** After 61 seconds the backend with a time-to-live of 60 is pruned; the one
    with the default of 120 stays. *)
Lemma prune_bounds_witness :
  lookup_backend (PruneEntries plain_range table2 120 sample_clock).1 key80 (info_key info2)
  = Some (info_details info2 200) ∧
  lookup_backend (PruneEntries plain_range table2 120 sample_clock).1 key80 (info_key info1)
  = None.
Proof.
  split.
  - apply (prune_bounds plain_range table2 120 sample_clock key80 (info_key info2)
      (info_details info2 200)); [apply _|apply sample_clock_mono|vm_compute; reflexivity..].
  - vm_compute; reflexivity.
Defined.

Lemma expired_exact_witness :
  Expired (info_details info1 100) 120 (60 * Second + 101) = true ∧
  Expired (info_details info1 100) 120 (60 * Second + 100) = false.
Proof.
  split; [apply expired_exact; [done|done|by vm_compute]|].
  apply not_true_iff_false. rewrite expired_exact by done. by vm_compute.
Defined.

Lemma expired_overflow_witness :
  Expired (info_details (mkBackendServerInfo "h" 1 0 "" (mkTag "a" 0) 9223372037) 5) 120 5 = true.
Proof. by apply expired_overflow. Defined.

End Sample.
