(* ===== verification/HAProxyConfig.v ===== *)
(** [models/haproxy_config.go]: the HAProxy configuration built from a
    routing table, with the validation of host names and backends. *)
From Stdlib Require Import Ascii.
From S2P Require Import Prelude Sorting GoStrings Regexp RoutingTable.
#[local] Open Scope Z_scope.

(** * Data *)

Abbreviation HAProxyServer := BackendServerKey.
Abbreviation HAProxyBackend := (list HAProxyServer).
Abbreviation HAProxyFrontend := (gmap string HAProxyBackend).
Abbreviation HAProxyConfig := (gmap Z HAProxyFrontend).

(** The values the program puts in an [ErrInvalidField]: a [uint16] or a
    string. *)
Inductive field_value :=
  | VUint16 (v : Z)
  | VString (s : string).

Record ErrInvalidField := mkErrInvalidField {
  eif_Field : string;
  eif_RoutingKey : RoutingKey;
  eif_Value : field_value
}.

(** [fmt]'s ["%s"] verb on such a value: an integer operand does not fit the
    verb, and [fmt] says so in its output. *)
Definition Sprintf_s (v : field_value) : string :=
  match v with
  | VString s => s
  | VUint16 n => "%!s(uint16=" +:+ Sprintf_d n +:+ ")"
  end.

Definition quote : string := String (ascii_of_nat 34) "".

Definition ErrInvalidField_Error (err : ErrInvalidField) : string :=
  "Skipping invalid routing table entry for port: " +:+ Sprintf_d (rk_Port (eif_RoutingKey err))
  +:+ "/sni_hostname: " +:+ quote +:+ rk_SniHostname (eif_RoutingKey err) +:+ quote
  +:+ ". Field: " +:+ eif_Field err +:+ ". Value: " +:+ Sprintf_s (eif_Value err) +:+ ".".

(** * Valid host names *)

Definition in_range (lo hi c : ascii) : bool :=
  (N_of_ascii lo <=? N_of_ascii c)%N && (N_of_ascii c <=? N_of_ascii hi)%N.

(** [[a-zA-Z0-9_]] and [[a-zA-Z0-9_-]] *)
Definition word_char (c : ascii) : bool :=
  in_range "a" "z" c || in_range "A" "Z" c || in_range "0" "9" c || bool_decide (c = "_"%char).
Definition label_char (c : ascii) : bool := word_char c || bool_decide (c = "-"%char).

Definition label_regexp : regexp := Cat (Cls word_char) (Upto 62 (Cls label_char)).
Definition dot_class : ascii → bool := λ c, bool_decide (c = "."%char).
Definition end_class : ascii → bool := λ c, bool_decide (c = "."%char) || bool_decide (c = "_"%char).

Definition validDNSNameRegexp : regexp :=
  Cat label_regexp (Cat (Rep (Cat (Cls dot_class) label_regexp)) (Opt (Cls end_class))).

Definition isValidDNSName (hostname : string) : bool :=
  if 255 <? Z.of_nat (String.length (remove_char "." hostname)) then false
  else MatchString validDNSNameRegexp hostname.

(** * Building the configuration

    The state of the loops: what is built so far and the errors logged. *)

Definition logError (logs : list ErrInvalidField) (field : string) (rk : RoutingKey)
    (value : field_value) : list ErrInvalidField :=
  logs ++ [mkErrInvalidField field rk value].

Definition backend_step (routingKey : RoutingKey) (acc : HAProxyBackend * list ErrInvalidField)
    (backendKey : BackendServerKey) : HAProxyBackend * list ErrInvalidField :=
  let '(backends, logs) := acc in
  if (bk_Port backendKey =? 0) && (bk_TLSPort backendKey <=? 0) then
    (backends, logError logs "backend_configuration.port" routingKey (VUint16 (bk_Port backendKey)))
  else if bool_decide (bk_Address backendKey = "") || negb (isValidDNSName (bk_Address backendKey)) then
    (backends, logError logs "backend_configuration.address" routingKey (VString (bk_Address backendKey)))
  else if (0 <? bk_TLSPort backendKey) && bool_decide (bk_InstanceID backendKey = "") then
    (backends, logError logs "backend_configuration.instance_id" routingKey (VString "unset"))
  else (backends ++ [backendKey], logs).

(** The [less] function of the sort. *)
Definition server_less (a b : HAProxyServer) : bool :=
  if decide (bk_Address a = bk_Address b)
  then bk_Port a <? bk_Port b
  else String.ltb (bk_Address a) (bk_Address b).

Section haproxy_config.
Context {tags : ModificationTags}.

Definition route_step (tr : TableRange) (routingTable : RoutingTable)
    (acc : HAProxyConfig * list ErrInvalidField) (routingKey : RoutingKey) :
    HAProxyConfig * list ErrInvalidField :=
  let '(conf, logs) := acc in
  if rk_Port routingKey =? 0 then
    (conf, logError logs "frontend_configuration.port" routingKey (VUint16 (rk_Port routingKey)))
  else if bool_decide (rk_SniHostname routingKey ≠ "") && negb (isValidDNSName (rk_SniHostname routingKey)) then
    (conf, logError logs "frontend_configuration.sni_hostname" routingKey
             (VString (rk_SniHostname routingKey)))
  else
    let entry := Get routingTable routingKey in
    let '(backends, logs) :=
      foldl (backend_step routingKey) ([], logs)
        (range_backends tr routingKey (Backends entry)).*1 in
    if decide (length backends = 0%nat) then
      (conf, logError logs "backend_configuration.servers" routingKey (VString "[]"))
    else
      let backends := SliceStable server_less backends in
      let frontend :=
        match conf !! rk_Port routingKey with
        | Some frontend => frontend
        | None => ∅
        end in
      (<[rk_Port routingKey := <[rk_SniHostname routingKey := backends]> frontend]> conf, logs).

Definition NewHAProxyConfig (tr : TableRange) (routingTable : RoutingTable) :
    HAProxyConfig * list ErrInvalidField :=
  foldl (route_step tr routingTable) (∅, []) (range_entries tr (Entries routingTable)).*1.

End haproxy_config.

(** [HAProxyFrontend.ContainsSNIRoutes], on the range order of the loop. *)
Fixpoint ContainsSNIRoutes_loop (hostnames : list string) : bool :=
  match hostnames with
  | [] => false
  | hostname :: rest =>
      if bool_decide (hostname ≠ "") then true else ContainsSNIRoutes_loop rest
  end.
Definition ContainsSNIRoutes (r : range_order string HAProxyBackend) (hf : HAProxyFrontend) : bool :=
  ContainsSNIRoutes_loop (r hf).*1.

(** * What the configuration is, route by route *)

Definition config_lookup (conf : HAProxyConfig) (p : Z) (h : string) : option HAProxyBackend :=
  f ← conf !! p; f !! h.

Definition valid_route (rk : RoutingKey) : bool :=
  negb (rk_Port rk =? 0)
  && (bool_decide (rk_SniHostname rk = "") || isValidDNSName (rk_SniHostname rk)).

Definition valid_backend (bk : BackendServerKey) : bool :=
  negb ((bk_Port bk =? 0) && (bk_TLSPort bk <=? 0))
  && (negb (bool_decide (bk_Address bk = "")) && isValidDNSName (bk_Address bk))
  && negb ((0 <? bk_TLSPort bk) && bool_decide (bk_InstanceID bk = "")).

Definition ports_distinct_servers (bks : list BackendServerKey) : Prop :=
  ∀ a b, a ∈ bks → b ∈ bks → bk_Address a = bk_Address b → bk_Port a = bk_Port b → a = b.

(** Two configurations that serve the same servers on every route, perhaps in
    a different order. *)
Definition config_equiv (c1 c2 : HAProxyConfig) : Prop :=
  dom c1 = dom c2 ∧
  ∀ p h, match config_lookup c1 p h, config_lookup c2 p h with
    | Some b1, Some b2 => b1 ≡ₚ b2
    | None, None => True
    | _, _ => False
    end.

(** The order of servers: by address, byte by byte, then by port. *)
Definition by_address_and_port (a b : HAProxyServer) : Prop :=
  String.ltb (bk_Address a) (bk_Address b) = true ∨ bk_Address a = bk_Address b ∧ bk_Port a ≤ bk_Port b.

(** The shape of every configuration the program builds. *)
Record wf_config (conf : HAProxyConfig) : Prop := {
  wf_frontend p f : conf !! p = Some f → f ≠ ∅;
  wf_port p h bs : config_lookup conf p h = Some bs → p ≠ 0;
  wf_hostname p h bs : config_lookup conf p h = Some bs → h = "" ∨ isValidDNSName h = true;
  wf_servers p h bs : config_lookup conf p h = Some bs →
    bs ≠ [] ∧ Forall (λ s, valid_backend s = true) bs;
  wf_sorted p h bs : config_lookup conf p h = Some bs →
    StronglySorted by_address_and_port bs
}.

(** A DNS label, and the names made of labels with an optional trailing dot
    or underscore. *)
Definition is_label (s : string) : Prop :=
  match s with
  | EmptyString => False
  | String c s' => word_char c = true ∧ str_forall label_char s' = true ∧ (String.length s' ≤ 62)%nat
  end.
Definition is_dns_name (s : string) : Prop :=
  ∃ labels last, labels ≠ [] ∧ Forall is_label labels ∧ (last = "" ∨ last = "." ∨ last = "_") ∧
    s = Join labels "." +:+ last.

(** * Facts *)

Lemma server_less_true a b :
  server_less a b = true ↔
  String.ltb (bk_Address a) (bk_Address b) = true
  ∨ bk_Address a = bk_Address b ∧ bk_Port a < bk_Port b.
Proof.
  unfold server_less. case_decide as Hab; [|naive_solver].
  rewrite Z.ltb_lt, Hab, (swo_irrefl String.ltb). naive_solver.
Qed.

#[export] Instance server_less_swo : StrictWeakOrder server_less.
Proof.
  split.
  - intros a. apply not_true_iff_false. rewrite server_less_true, (swo_irrefl String.ltb).
    intros [?|[??]]; [done|lia].
  - intros a b c. rewrite !server_less_true.
    intros [Hab|[Hab ?]] [Hbc|[Hbc ?]].
    + left. by eapply (swo_trans String.ltb).
    + left. by rewrite <-Hbc.
    + left. by rewrite Hab.
    + right. split; [congruence|lia].
  - intros a b c. rewrite !server_less_true.
    destruct (String.ltb (bk_Address a) (bk_Address c)) eqn:Hac; [auto|].
    destruct (String.ltb (bk_Address c) (bk_Address b)) eqn:Hcb; [auto|].
    intros [Hab|[Hab Hp]].
    + destruct (swo_split String.ltb _ _ (bk_Address c) Hab); congruence.
    + rewrite <-Hab in Hcb. rewrite <-(ltb_total _ _ Hac Hcb), Hab.
      destruct (decide (bk_Port a < bk_Port c)); [auto|right; right; split; [done|lia]].
Qed.

Lemma not_above_server_less a b : not_above server_less a b → by_address_and_port a b.
Proof.
  unfold not_above, by_address_and_port. rewrite <-not_true_iff_false, server_less_true. intros Hn.
  destruct (String.ltb (bk_Address a) (bk_Address b)) eqn:Hab; [by left|right].
  assert (bk_Address a = bk_Address b) as Heq by (apply ltb_total; [done|]; apply not_true_iff_false; tauto).
  split; [done|]. destruct (Z.le_gt_cases (bk_Port a) (bk_Port b)); [done|]. exfalso. apply Hn. by right.
Qed.
Lemma server_less_tied a b :
  tied server_less a b = true ↔ bk_Address a = bk_Address b ∧ bk_Port a = bk_Port b.
Proof.
  unfold tied. rewrite andb_true_iff, !negb_true_iff, <-!not_true_iff_false, !server_less_true.
  split; [|intros [-> ->]; rewrite (swo_irrefl String.ltb); intuition lia].
  intros [Hab Hba].
  assert (bk_Address a = bk_Address b) as Heq by (apply ltb_total; apply not_true_iff_false; tauto).
  split; [done|]. rewrite Heq in *. intuition lia.
Qed.

Lemma ContainsSNIRoutes_loop_spec l :
  ContainsSNIRoutes_loop l = true ↔ ∃ h, h ∈ l ∧ h ≠ "".
Proof.
  induction l as [|x l IH]; simpl; [set_solver|].
  case_bool_decide; [set_solver|]. rewrite IH. set_solver.
Qed.

(** ** The loop over the backends of a route *)

Local Arguments backend_step : simpl never.

Lemma backend_step_valid rk acc bk :
  (backend_step rk acc bk).1 = if valid_backend bk then acc.1 ++ [bk] else acc.1.
Proof.
  destruct acc as [bs logs]. unfold backend_step, valid_backend.
  destruct (_ && (bk_TLSPort bk <=? 0)), (bool_decide (bk_Address bk = "")),
    (isValidDNSName (bk_Address bk)), ((0 <? bk_TLSPort bk) && _); done.
Qed.

Lemma backends_loop_valid rk l bs logs :
  (foldl (backend_step rk) (bs, logs) l).1 = bs ++ base.filter (λ bk, valid_backend bk) l.
Proof.
  revert bs logs. induction l as [|bk l IH]; intros bs logs; simpl; [by rewrite app_nil_r|].
  destruct (backend_step rk (bs, logs) bk) as [bs' logs'] eqn:Hs. rewrite IH.
  pose proof (backend_step_valid rk (bs, logs) bk) as Hv. rewrite Hs in Hv. simpl in Hv. subst bs'.
  rewrite filter_cons. destruct (valid_backend bk); simpl; [by rewrite <-(assoc_L (++))|done].
Qed.

Lemma backend_step_logs rk acc bk :
  (∃ e, (backend_step rk acc bk).2 = acc.2 ++ [e] ∧ eif_RoutingKey e = rk ∧ valid_backend bk = false)
  ∨ (backend_step rk acc bk).2 = acc.2 ∧ valid_backend bk = true.
Proof.
  destruct acc as [bs logs]. unfold backend_step, valid_backend, logError.
  destruct (_ && (bk_TLSPort bk <=? 0)), (bool_decide (bk_Address bk = "")),
    (isValidDNSName (bk_Address bk)), ((0 <? bk_TLSPort bk) && _); simpl; eauto.
Qed.

Lemma backends_loop_logs rk l acc :
  ∃ es, (foldl (backend_step rk) acc l).2 = acc.2 ++ es ∧
    Forall (λ e, eif_RoutingKey e = rk) es ∧
    length es = length (base.filter (λ bk, ¬ valid_backend bk) l).
Proof.
  revert acc. induction l as [|bk l IH]; intros acc; simpl.
  { exists []. by rewrite app_nil_r. }
  destruct (IH (backend_step rk acc bk)) as (es & -> & Hes & Hlen).
  rewrite filter_cons.
  destruct (backend_step_logs rk acc bk) as [(e & -> & He & Hv)|[-> Hv]]; rewrite Hv.
  - exists (e :: es). rewrite <-(assoc_L (++)); simpl. repeat split; [by constructor|]. by rewrite Hlen.
  - exists es. done.
Qed.

(** ** The loop over the routes *)

Section haproxy_config_facts.
Context {tags : ModificationTags}.
Implicit Types (t : RoutingTable) (tr : TableRange) (rk : RoutingKey).

(** The servers of a route, in the order they are written. *)
Definition servers_of tr t rk : list HAProxyServer :=
  SliceStable server_less
    (base.filter (λ bk, valid_backend bk) (range_backends tr rk (route_backends t rk)).*1).

Definition config_insert (conf : HAProxyConfig) rk (bs : HAProxyBackend) : HAProxyConfig :=
  <[rk_Port rk := <[rk_SniHostname rk := bs]> (default ∅ (conf !! rk_Port rk))]> conf.

Lemma config_lookup_insert conf rk bs p h :
  config_lookup (config_insert conf rk bs) p h =
  if decide (mkRoutingKey p h = rk) then Some bs else config_lookup conf p h.
Proof.
  unfold config_lookup, config_insert. destruct rk as [p' h']; simpl.
  destruct (decide (p' = p)) as [->|Hp].
  - rewrite lookup_insert_eq; simpl. destruct (decide (h' = h)) as [->|Hh].
    + by rewrite lookup_insert_eq, decide_True.
    + rewrite lookup_insert_ne, decide_False by congruence.
      destruct (conf !! p); simpl; [done|apply lookup_empty].
  - by rewrite lookup_insert_ne, decide_False by congruence.
Qed.

Lemma config_insert_frontend conf rk bs p f :
  (∀ p f, conf !! p = Some f → f ≠ ∅) → config_insert conf rk bs !! p = Some f → f ≠ ∅.
Proof.
  intros Hc. unfold config_insert. rewrite lookup_insert.
  case_decide; intros; simplify_eq; [apply insert_non_empty|by eapply Hc].
Qed.

Lemma route_step_conf tr t acc rk :
  (route_step tr t acc rk).1 =
  if valid_route rk && bool_decide (servers_of tr t rk ≠ [])
  then config_insert acc.1 rk (servers_of tr t rk) else acc.1.
Proof.
  destruct acc as [conf logs]. unfold route_step, valid_route.
  destruct (rk_Port rk =? 0); [done|]; simpl.
  assert (bool_decide (rk_SniHostname rk ≠ "") && negb (isValidDNSName (rk_SniHostname rk)) =
    negb (bool_decide (rk_SniHostname rk = "") || isValidDNSName (rk_SniHostname rk))) as ->.
  { rewrite bool_decide_not. by destruct (bool_decide _), (isValidDNSName _). }
  destruct (bool_decide (rk_SniHostname rk = "") || _); [|done]; simpl.
  pose proof (backends_loop_valid rk (range_backends tr rk (Backends (Get t rk))).*1 [] logs) as Hb.
  destruct (foldl _ _ _) as [bs logs'] eqn:Hf. simpl in Hb; subst bs.
  unfold servers_of, route_backends, config_insert.
  case_decide as Hl; [apply length_zero_iff_nil in Hl; rewrite Hl; by rewrite bool_decide_false by auto|].
  rewrite bool_decide_true by (rewrite SliceStable_nil; intros Hn; by rewrite Hn in Hl).
  by destruct (conf !! rk_Port rk).
Qed.

(** What one route contributes, whatever the order of the outer loop. *)
Definition route_conf tr t rk : option HAProxyBackend :=
  if valid_route rk && bool_decide (servers_of tr t rk ≠ [])
  then Some (servers_of tr t rk) else None.

Local Arguments route_step : simpl never.

Lemma routes_loop_lookup tr t l acc p h :
  config_lookup (foldl (route_step tr t) acc l).1 p h =
  match route_conf tr t (mkRoutingKey p h) with
  | Some bs => if decide (mkRoutingKey p h ∈ l) then Some bs else config_lookup acc.1 p h
  | None => config_lookup acc.1 p h
  end.
Proof.
  revert acc. induction l as [|rk l IH]; intros acc; simpl.
  { by case_match. }
  rewrite IH, route_step_conf. unfold route_conf.
  set (rk' := mkRoutingKey p h).
  destruct (decide (rk' = rk)) as [<-|Hne].
  - destruct (valid_route rk' && _) eqn:Hv; [|done].
    rewrite config_lookup_insert, (decide_True (P := rk' = rk')) by done.
    destruct (decide (rk' ∈ rk' :: l)) as [|[]]; [by destruct (decide (rk' ∈ l))|left].
  - assert (config_lookup
      (if valid_route rk && bool_decide (servers_of tr t rk ≠ [])
       then config_insert acc.1 rk (servers_of tr t rk) else acc.1) p h
      = config_lookup acc.1 p h) as ->.
    { destruct (valid_route rk && _); [|done].
      rewrite config_lookup_insert. by rewrite decide_False. }
    destruct (valid_route rk' && _); [|done].
    assert (rk' ∈ rk :: l ↔ rk' ∈ l) as Hin by (rewrite elem_of_cons; naive_solver).
    symmetry. apply (decide_iff _ _ _ _ Hin).
Qed.

Lemma routes_loop_frontend tr t l acc :
  (∀ p f, acc.1 !! p = Some f → f ≠ ∅) →
  ∀ p f, (foldl (route_step tr t) acc l).1 !! p = Some f → f ≠ ∅.
Proof.
  revert acc. induction l as [|rk l IH]; intros acc Hacc; simpl; [done|].
  apply IH. rewrite route_step_conf. destruct (valid_route rk && _); [|done].
  intros p f. by apply config_insert_frontend.
Qed.

Lemma servers_of_missing tr t rk :
  IsTableRange tr → Entries t !! rk = None → servers_of tr t rk = [].
Proof.
  intros Htr Hrk. unfold servers_of, route_backends, Get. rewrite Hrk. simpl.
  assert (range_backends tr rk ∅ = []) as ->; [|done].
  apply Permutation_nil_r. by rewrite (range_perm _), map_to_list_empty.
Qed.

Lemma NewHAProxyConfig_lookup tr t p h :
  IsTableRange tr →
  config_lookup (NewHAProxyConfig tr t).1 p h = route_conf tr t (mkRoutingKey p h).
Proof.
  intros Htr. unfold NewHAProxyConfig. rewrite routes_loop_lookup; simpl.
  assert (config_lookup ∅ p h = None) as -> by (unfold config_lookup; by rewrite lookup_empty).
  destruct (route_conf _ _ _) as [bs|] eqn:Hr; [|done].
  case_decide as Hin; [done|].
  rewrite (elem_of_range_keys _), <-eq_None_not_Some in Hin.
  unfold route_conf in Hr. by rewrite (servers_of_missing tr t _ Htr Hin), andb_false_r in Hr.
Qed.

Lemma NewHAProxyConfig_frontend tr t p f :
  (NewHAProxyConfig tr t).1 !! p = Some f → f ≠ ∅.
Proof. apply routes_loop_frontend; simpl. intros ??. by rewrite lookup_empty. Qed.

(** A configuration without empty frontends is determined by its routes. *)
Lemma config_ext (c1 c2 : HAProxyConfig) :
  (∀ p f, c1 !! p = Some f → f ≠ ∅) → (∀ p f, c2 !! p = Some f → f ≠ ∅) →
  (∀ p h, config_lookup c1 p h = config_lookup c2 p h) → c1 = c2.
Proof.
  intros H1 H2 Heq. apply map_eq. intros p. specialize (Heq p).
  unfold config_lookup in Heq.
  destruct (c1 !! p) as [f1|] eqn:Hf1, (c2 !! p) as [f2|] eqn:Hf2; simpl in Heq; [| | |done].
  - f_equal. by apply map_eq.
  - exfalso. by apply (H1 p f1 Hf1), map_empty.
  - exfalso. by apply (H2 p f2 Hf2), map_empty.
Qed.

(** ** The errors logged *)

(** How many errors the program logs about a route: one for an invalid
    route, otherwise one per rejected backend and one more when none is left. *)
Definition expected_errors t rk : nat :=
  if valid_route rk then
    let rejected := base.filter (λ bkd, ¬ valid_backend bkd.1) (map_to_list (route_backends t rk)) in
    let kept := base.filter (λ bkd, valid_backend bkd.1) (map_to_list (route_backends t rk)) in
    (length rejected + if decide (kept = []) then 1 else 0)%nat
  else 1%nat.

Lemma filter_range_keys tr t rk (P : BackendServerKey → Prop) `{∀ x, Decision (P x)} :
  IsTableRange tr →
  base.filter P (range_backends tr rk (route_backends t rk)).*1 ≡ₚ
  (base.filter (λ bkd, P bkd.1) (map_to_list (route_backends t rk))).*1.
Proof.
  intros Htr. by rewrite (range_perm _), filter_fmap.
Qed.

Lemma route_step_logs tr t acc rk :
  IsTableRange tr →
  ∃ es, (route_step tr t acc rk).2 = acc.2 ++ es ∧
    Forall (λ e, eif_RoutingKey e = rk) es ∧ length es = expected_errors t rk.
Proof.
  intros Htr. destruct acc as [conf logs]. unfold route_step, expected_errors, valid_route, logError.
  destruct (rk_Port rk =? 0); simpl.
  { eexists [_]. repeat split. by constructor. }
  assert (bool_decide (rk_SniHostname rk ≠ "") && negb (isValidDNSName (rk_SniHostname rk)) =
    negb (bool_decide (rk_SniHostname rk = "") || isValidDNSName (rk_SniHostname rk))) as ->.
  { rewrite bool_decide_not. by destruct (bool_decide _), (isValidDNSName _). }
  destruct (bool_decide (rk_SniHostname rk = "") || _); simpl.
  2:{ eexists [_]. repeat split. by constructor. }
  set (l := (range_backends tr rk (Backends (Get t rk))).*1).
  pose proof (backends_loop_valid rk l [] logs) as Hb.
  destruct (backends_loop_logs rk l ([], logs)) as (es & Hlogs & Hes & Hlen).
  destruct (foldl _ _ _) as [bs logs'] eqn:Hf. simpl in *; subst bs logs'.
  pose proof (Permutation_length (filter_range_keys tr t rk (λ bk, ¬ valid_backend bk) Htr)) as Hrej.
  pose proof (filter_range_keys tr t rk (λ bk, valid_backend bk) Htr) as Hkept.
  fold l in Hrej, Hkept. unfold route_backends in Hrej, Hkept. fold l in Hrej, Hkept.
  rewrite length_fmap in Hrej. fold (route_backends t rk) in *. rewrite <-Hrej, <-Hlen.
  case_decide as Hz.
  - apply length_zero_iff_nil in Hz. rewrite Hz in Hkept.
    apply Permutation_nil_l in Hkept. symmetry in Hkept. apply fmap_nil_inv in Hkept. rewrite Hkept, decide_True by done; simpl.
    eexists (es ++ [_]). rewrite (assoc_L (++)). split; [done|].
    split; [by apply Forall_app_2; [|constructor]|]. by rewrite length_app.
  - rewrite decide_False; simpl; [eauto with lia|].
    intros Hn. rewrite Hn in Hkept. simpl in Hkept. apply Permutation_nil_r in Hkept.
    by rewrite Hkept in Hz.
Qed.

Lemma routes_loop_logs tr t l acc rk :
  IsTableRange tr → NoDup l →
  length (base.filter (λ e, eif_RoutingKey e = rk) (foldl (route_step tr t) acc l).2) =
  (length (base.filter (λ e, eif_RoutingKey e = rk) acc.2)
   + if decide (rk ∈ l) then expected_errors t rk else 0)%nat.
Proof.
  intros Htr. revert acc. induction l as [|rk' l IH]; intros acc Hnd; simpl; [lia|].
  apply NoDup_cons in Hnd as [Hnin Hnd]. rewrite (IH _ Hnd).
  destruct (route_step_logs tr t acc rk' Htr) as (es & -> & Hes & Hlen).
  rewrite filter_app, length_app.
  destruct (decide (rk' = rk)) as [->|Hne].
  - rewrite (filter_all _ es) by done.
    rewrite decide_False, decide_True by (done || left). lia.
  - rewrite (filter_none _ es); simpl.
    + assert (rk ∈ rk' :: l ↔ rk ∈ l) as Hin by (rewrite elem_of_cons; naive_solver).
      rewrite (decide_iff _ _ _ _ Hin). lia.
    + eapply Forall_impl; [done|]. simpl. congruence.
Qed.
End haproxy_config_facts.

(** ** The host names the expression accepts *)

Lemma matches_cls p s : matches (Cls p) s ↔ ∃ c, p c = true ∧ s = String c "".
Proof. split; [inversion 1; eauto|]. intros (c & Hc & ->). by constructor. Qed.

Lemma matches_upto n p s :
  matches (Upto n (Cls p)) s ↔ str_forall p s = true ∧ (String.length s ≤ n)%nat.
Proof.
  revert s. induction n as [|n IH]; intros s; simpl.
  - rewrite matches_eps_inv. destruct s; simpl; intuition (done || lia).
  - unfold Opt. rewrite matches_alt_inv, matches_cat_inv, matches_eps_inv. split.
    + intros [(s1 & s2 & -> & Hc & Hs2)| ->]; simpl; [|split; [done|lia]].
      apply matches_cls in Hc as (c & Hc & ->). apply IH in Hs2 as [? ?].
      simpl. rewrite Hc. split; [done|lia].
    + destruct s as [|c s]; simpl; intros [Hs Hl]; [by right|left]. bool_simpl.
      exists (String c ""), s. rewrite IH, matches_cls. repeat split; [eauto|done|lia].
Qed.

Lemma matches_label s : matches label_regexp s ↔ is_label s.
Proof.
  unfold label_regexp. rewrite matches_cat_inv. split.
  - intros (s1 & s2 & -> & (c & Hc & ->)%matches_cls & [??]%matches_upto). done.
  - destruct s as [|c s]; [done|]. intros (Hc & Hs & Hl).
    exists (String c ""), s. rewrite matches_cls, matches_upto.
    split; [done|]. split; [by exists c|done].
Qed.

Definition dotted (labels : list string) : string :=
  concat_strings ((λ l, "." +:+ l) <$> labels).

Lemma matches_dotted s :
  matches (Rep (Cat (Cls dot_class) label_regexp)) s ↔
  ∃ labels, Forall is_label labels ∧ s = dotted labels.
Proof.
  split.
  - intros Hm. remember (Rep _) as r eqn:Hr. induction Hm; simplify_eq.
    { by exists []. }
    destruct IHHm2 as (labels & Hl & ->); [done|].
    apply matches_cat_inv in Hm1 as (s1' & s2' & -> & (c & Hc & ->)%matches_cls & Hs2%matches_label).
    exists (s2' :: labels). split; [by constructor|].
    unfold dot_class in Hc. bool_simpl. by subst.
  - intros (labels & Hl & ->). induction Hl as [|l labels Hl _ IH]; [constructor|].
    unfold dotted; simpl. apply (m_rep_app _ ("." +:+ l)); [|done].
    apply matches_cat_inv. exists ".", l. rewrite matches_cls, matches_label.
    split; [done|]. split; [by exists "."%char|done].
Qed.

Lemma Join_dotted l labels : Join (l :: labels) "." = l +:+ dotted labels.
Proof.
  revert l. induction labels as [|l' labels IH]; intros l.
  { by rewrite app_empty_r. }
  change (Join (l :: l' :: labels) ".") with (l +:+ "." +:+ Join (l' :: labels) ".").
  by rewrite IH.
Qed.

Lemma matches_last s : matches (Opt (Cls end_class)) s ↔ s = "" ∨ s = "." ∨ s = "_".
Proof.
  unfold Opt. rewrite matches_alt_inv, matches_cls, matches_eps_inv. split.
  - intros [(c & Hc & ->)| ->]; [|auto]. unfold end_class in Hc.
    apply orb_true_iff in Hc as [Hc|Hc]; bool_simpl; subst; auto.
  - intros [->|[->| ->]]; [by right|left; by exists "."%char|left; by exists "_"%char].
Qed.

Lemma matches_dns_name s : matches validDNSNameRegexp s ↔ is_dns_name s.
Proof.
  unfold validDNSNameRegexp, is_dns_name. rewrite matches_cat_inv. split.
  - intros (s1 & s2 & -> & Hl%matches_label & (s3 & s4 & -> & Hd & Hlast)%matches_cat_inv).
    apply matches_dotted in Hd as (labels & Hls & ->). apply matches_last in Hlast.
    exists (s1 :: labels), s4. rewrite Join_dotted, app_assoc_str. repeat split; auto.
  - intros ([|l labels] & last & Hne & Hl & Hlast & ->); [done|]. inversion_clear Hl.
    rewrite Join_dotted, <-app_assoc_str. exists l, (dotted labels +:+ last).
    rewrite matches_label, matches_cat_inv. repeat split; [done|].
    exists (dotted labels), last. rewrite matches_dotted, matches_last.
    split; [done|]. split; [by exists labels|done].
Qed.

(** The bytes of a valid name. *)
Definition dns_char (c : ascii) : bool := label_char c || bool_decide (c = "."%char).

Lemma isValidDNSName_chars s : isValidDNSName s = true → str_forall dns_char s = true.
Proof.
  unfold isValidDNSName. case_match; [done|]. intros Hm%MatchString_matches%matches_bytes.
  eapply str_forall_impl; [|exact Hm]. intros c Hc.
  assert (bytes_of label_regexp c = true → label_char c = true) as Hlab.
  { unfold label_regexp, label_char. cbn [bytes_of]. intros Hl.
    apply orb_true_iff in Hl as [Hl|Hl%bytes_of_Upto]; [|done]. by rewrite Hl. }
  unfold validDNSNameRegexp, Opt in Hc. cbn [bytes_of] in Hc.
  change (bytes_of _ c) with (bytes_of label_regexp c) in Hc.
  unfold dns_char, dot_class, end_class in *.
  destruct (bytes_of label_regexp c); [by rewrite Hlab|].
  destruct (bool_decide (c = "."%char)); [by rewrite orb_true_r|].
  rewrite !orb_false_l, orb_false_r in Hc. bool_simpl. by subst.
Qed.

Lemma isValidDNSName_nonempty s : isValidDNSName s = true → s ≠ "".
Proof. by intros Hv ->. Qed.

(** ** Configurations up to the order of the servers of a route *)

#[export] Instance config_equiv_equivalence : Equivalence config_equiv.
Proof.
  split.
  - intros c. split; [done|]. intros p h. by destruct (config_lookup c p h).
  - intros c1 c2 [Hd Hc]. split; [done|]. intros p h. specialize (Hc p h).
    by destruct (config_lookup c1 p h), (config_lookup c2 p h).
  - intros c1 c2 c3 [Hd1 H1] [Hd2 H2]. split; [congruence|]. intros p h.
    specialize (H1 p h). specialize (H2 p h).
    destruct (config_lookup c1 p h), (config_lookup c2 p h), (config_lookup c3 p h);
      try done. by etrans.
Qed.

Lemma config_dom_lookup (c : HAProxyConfig) p :
  (∀ p f, c !! p = Some f → f ≠ ∅) → p ∈ dom c ↔ ∃ h, is_Some (config_lookup c p h).
Proof.
  intros Hc. rewrite elem_of_dom. unfold config_lookup. split.
  - intros [f Hf]. rewrite Hf; simpl. specialize (Hc p f Hf).
    apply map_choose in Hc as (h & bs & Hh). by exists h, bs.
  - intros [h [bs Hbs]]. destruct (c !! p); [by eexists|done].
Qed.

Lemma config_equiv_intro (c1 c2 : HAProxyConfig) :
  (∀ p f, c1 !! p = Some f → f ≠ ∅) → (∀ p f, c2 !! p = Some f → f ≠ ∅) →
  (∀ p h, match config_lookup c1 p h, config_lookup c2 p h with
    | Some b1, Some b2 => b1 ≡ₚ b2 | None, None => True | _, _ => False end) →
  config_equiv c1 c2.
Proof.
  intros H1 H2 Hl. split; [|done]. apply set_eq. intros p.
  rewrite !config_dom_lookup by done.
  split; intros [h Hh]; exists h; specialize (Hl p h);
    destruct (config_lookup c1 p h), (config_lookup c2 p h); by try destruct Hh.
Qed.

Section same_backends_facts.
Context {tags : ModificationTags}.
Implicit Types (t : RoutingTable) (tr : TableRange) (rk : RoutingKey).


Lemma elem_of_servers_of tr t rk bk :
  IsTableRange tr →
  bk ∈ servers_of tr t rk ↔ valid_backend bk = true ∧ is_Some (lookup_backend t rk bk).
Proof.
  intros Htr. unfold servers_of.
  rewrite elem_of_SliceStable, list_elem_of_filter, (elem_of_range_keys _), lookup_route_backends.
  by rewrite Is_true_true.
Qed.

Lemma servers_of_perm tr1 tr2 t1 t2 rk :
  IsTableRange tr1 → IsTableRange tr2 → same_backends t1 t2 →
  servers_of tr1 t1 rk ≡ₚ servers_of tr2 t2 rk.
Proof.
  intros Htr1 Htr2 Hs. unfold servers_of. rewrite !SliceStable_perm.
  rewrite (range_keys_same (range_backends tr1 rk) (range_backends tr2 rk) _ (route_backends t2 rk));
    [done|].
  apply set_eq. intros bk. rewrite !elem_of_dom, !lookup_route_backends. apply Hs.
Qed.

Lemma route_conf_perm tr1 tr2 t1 t2 rk :
  IsTableRange tr1 → IsTableRange tr2 → same_backends t1 t2 →
  match route_conf tr1 t1 rk, route_conf tr2 t2 rk with
  | Some b1, Some b2 => b1 ≡ₚ b2 | None, None => True | _, _ => False
  end.
Proof.
  intros Htr1 Htr2 Hs. pose proof (servers_of_perm tr1 tr2 t1 t2 rk Htr1 Htr2 Hs) as Hp.
  unfold route_conf. destruct (valid_route rk); simpl; [|done].
  assert (servers_of tr1 t1 rk = [] ↔ servers_of tr2 t2 rk = []) as Hnil.
  { split; intros Hn; rewrite Hn in Hp; by apply Permutation_nil in Hp || apply Permutation_nil_r in Hp. }
  rewrite (bool_decide_ext _ _ (not_iff_compat Hnil)). by case_bool_decide.
Qed.

Lemma servers_of_eq tr1 tr2 t1 t2 rk :
  IsTableRange tr1 → IsTableRange tr2 → same_backends t1 t2 →
  ports_distinct_servers (servers_of tr1 t1 rk) →
  servers_of tr1 t1 rk = servers_of tr2 t2 rk.
Proof.
  intros Htr1 Htr2 Hs Hd. pose proof (servers_of_perm tr1 tr2 t1 t2 rk Htr1 Htr2 Hs) as Hp.
  unfold servers_of in *. apply SliceStable_perm_eq; [apply _|by rewrite !SliceStable_perm in Hp|].
  intros a b Ha Hb [??]%server_less_tied. by apply Hd; rewrite ?elem_of_SliceStable.
Qed.
End same_backends_facts.

(** * Properties *)

Section properties.
Context {tags : ModificationTags}.

Lemma NewHAProxyConfig_wf (tr : TableRange) (t : RoutingTable) :
  IsTableRange tr → wf_config (NewHAProxyConfig tr t).1.
Proof.
  intros Htr.
  assert (∀ p h bs, config_lookup (NewHAProxyConfig tr t).1 p h = Some bs →
    valid_route (mkRoutingKey p h) = true ∧ bs ≠ [] ∧ bs = servers_of tr t (mkRoutingKey p h)) as Hr.
  { intros p h bs. rewrite NewHAProxyConfig_lookup by done. unfold route_conf.
    case_match; [|done]. intros; simplify_eq. by bool_simpl. }
  split.
  - intros p f. apply NewHAProxyConfig_frontend.
  - intros p h bs (Hv & _ & _)%Hr. unfold valid_route in Hv. by bool_simpl.
  - intros p h bs (Hv & _ & _)%Hr. unfold valid_route in Hv; simpl in Hv. bool_simpl.
    apply orb_true_iff in H0 as [?|?]; bool_simpl; auto.
  - intros p h bs (_ & Hne & ->)%Hr. split; [done|]. apply Forall_forall.
    intros s Hs. by apply (elem_of_servers_of tr t (mkRoutingKey p h)) in Hs as [? _].
  - intros p h bs (_ & _ & ->)%Hr. eapply StronglySorted_weaken; [apply not_above_server_less|]. apply SliceStable_sorted, _.
Qed.

(** C11. The configuration has exactly the routes of the table that are valid
    and keep at least one valid backend; the servers of such a route are its
    valid backends, sorted by address and port. *)
Theorem config_routes (tr : TableRange) (t : RoutingTable) (p : Z) (h : string) :
  IsTableRange tr →
  config_lookup (NewHAProxyConfig tr t).1 p h =
  if valid_route (mkRoutingKey p h) && bool_decide (servers_of tr t (mkRoutingKey p h) ≠ [])
  then Some (servers_of tr t (mkRoutingKey p h)) else None.
Proof. apply NewHAProxyConfig_lookup. Qed.

(** C12. Every configuration the program builds is well formed: no frontend is
    empty, no port is 0, every host name is empty or a valid DNS name, and
    every route has servers, all of them valid and in the order of their
    addresses, those with the same address in the order of their ports. *)
Theorem config_well_formed (tr : TableRange) (t : RoutingTable) :
  IsTableRange tr → wf_config (NewHAProxyConfig tr t).1.
Proof. apply NewHAProxyConfig_wf. Qed.

(** The configuration depends on the set of backends only: tables that
    hold the same backends, whatever their tags, times to live and update
    times, and in whatever order the loops range over them, give the same
    servers on every route. *)
Theorem config_from_backends (tr1 tr2 : TableRange) (t1 t2 : RoutingTable) :
  IsTableRange tr1 → IsTableRange tr2 → same_backends t1 t2 →
  config_equiv (NewHAProxyConfig tr1 t1).1 (NewHAProxyConfig tr2 t2).1.
Proof.
  intros Htr1 Htr2 Hs. apply config_equiv_intro; [apply NewHAProxyConfig_frontend..|].
  intros p h. rewrite !NewHAProxyConfig_lookup by done. by apply route_conf_perm.
Qed.

(** If no two servers of a route share their address and port, the
    configuration is the same for every order of the loops. *)
Theorem config_deterministic (tr1 tr2 : TableRange) (t1 t2 : RoutingTable) :
  IsTableRange tr1 → IsTableRange tr2 → same_backends t1 t2 →
  (∀ rk, ports_distinct_servers (servers_of tr1 t1 rk)) →
  (NewHAProxyConfig tr1 t1).1 = (NewHAProxyConfig tr2 t2).1.
Proof.
  intros Htr1 Htr2 Hs Hd. apply config_ext; [apply NewHAProxyConfig_frontend..|].
  intros p h. rewrite !NewHAProxyConfig_lookup by done. unfold route_conf.
  by rewrite (servers_of_eq tr1 tr2 t1 t2).
Qed.

(** Every route of the table is accounted for in the log: an invalid route
    is reported once, a valid one as often as it has rejected backends, and
    once more when no backend is left. *)
Theorem errors_logged (tr : TableRange) (t : RoutingTable) (rk : RoutingKey) :
  IsTableRange tr →
  length (base.filter (λ e, eif_RoutingKey e = rk) (NewHAProxyConfig tr t).2) =
  if decide (is_Some (Entries t !! rk)) then expected_errors t rk else 0%nat.
Proof.
  intros Htr. unfold NewHAProxyConfig.
  rewrite routes_loop_logs by (done || apply (NoDup_range_keys _)). simpl.
  apply decide_iff. apply (elem_of_range_keys _).
Qed.

End properties.

(** C17. The host names the program accepts are exactly the dot-separated
    sequences of labels of at most 63 word characters and inner hyphens, with
    an optional final dot or underscore, of at most 255 bytes without dots. *)
Theorem valid_names (s : string) :
  isValidDNSName s = true ↔
  is_dns_name s ∧ Z.of_nat (String.length (remove_char "." s)) ≤ 255.
Proof.
  unfold isValidDNSName. rewrite <-matches_dns_name, <-MatchString_matches.
  destruct (255 <? _) eqn:Hl; bool_simpl; intuition (done || lia).
Qed.

(** An accepted name has letters, digits, hyphens, underscores and dots
    only, and is not empty: no white space, quote or line break reaches the
    HAProxy configuration through a host name or a backend address. *)
Theorem valid_names_are_safe (s : string) :
  isValidDNSName s = true → s ≠ "" ∧ str_forall dns_char s = true.
Proof. split; [by apply isValidDNSName_nonempty|by apply isValidDNSName_chars]. Qed.

(** * Concrete instances *)
Module Sample.
Import RoutingTable.Sample.

(** Two backends of one route that differ in their TLS port only. *)
Definition tie_a : BackendServerInfo :=
  mkBackendServerInfo "10.0.0.1" 8080 61001 "a" (mkTag "abc" 1) 0.
Definition tie_b : BackendServerInfo :=
  mkBackendServerInfo "10.0.0.1" 8080 61002 "b" (mkTag "abc" 1) 0.
Definition tie_table : RoutingTable :=
  (UpsertBackendServerKey (UpsertBackendServerKey NewRoutingTable key80 tie_a 0).1 key80 tie_b 0).1.

Definition backward_range : TableRange :=
  mkTableRange (λ m, reverse (map_to_list m)) (λ _ m, reverse (map_to_list m)).
#[export] Instance backward_range_ok : IsTableRange backward_range.
Proof. split; intros; apply reverse_range. Qed.

(** The order of the loops shows in the configuration: two backends with
    the same address and port are written in the order the map happens to be
    ranged over, although the sort is there to make the result
    deterministic. *)
Theorem config_order_dependent :
  ∃ (tr1 tr2 : TableRange) (t : RoutingTable),
    IsTableRange tr1 ∧ IsTableRange tr2 ∧ table_reachable t ∧
    (NewHAProxyConfig tr1 t).1 ≠ (NewHAProxyConfig tr2 t).1.
Proof.
  exists plain_range, backward_range, tie_table. repeat split; try apply _.
  - apply (tr_op _ (OpUpsert key80 tie_b 0)), (tr_op _ (OpUpsert key80 tie_a 0)). constructor.
  - intros Heq. apply (f_equal (λ c, config_lookup c 80 "")) in Heq.
    vm_compute in Heq. done.
Qed.

Lemma config_routes_witness :
  config_lookup (NewHAProxyConfig plain_range table2).1 80 "" =
  Some [mkBackendServerKey "host-1.internal" 8080 0 ""; mkBackendServerKey "host-2.internal" 8080 0 ""].
Proof.
  rewrite (config_routes plain_range table2 80 "" plain_range_ok). vm_compute. reflexivity.
Defined.

Lemma config_well_formed_witness : wf_config (NewHAProxyConfig plain_range table2).1.
Proof. apply config_well_formed, plain_range_ok. Defined.

(** An event that only renews a tag: the table changes, its backends do not. *)
Definition info1_renewed : BackendServerInfo :=
  mkBackendServerInfo "host-1.internal" 8080 0 "" (mkTag "abc" 3) 60.
Definition table2_renewed : RoutingTable :=
  (UpsertBackendServerKey table2 key80 info1_renewed 500).1.
Lemma table2_renewed_same : same_backends table2_renewed table2.
Proof. apply (run_op_same_backends table2 (OpUpsert key80 info1_renewed 500)). vm_compute. reflexivity. Qed.

Lemma config_from_backends_witness :
  config_equiv (NewHAProxyConfig plain_range table2_renewed).1
    (NewHAProxyConfig backward_range table2).1.
Proof.
  apply config_from_backends;
    [apply plain_range_ok|apply backward_range_ok|apply table2_renewed_same].
Defined.

Lemma table2_servers rk :
  servers_of plain_range table2 rk =
  if decide (rk = key80)
  then [mkBackendServerKey "host-1.internal" 8080 0 ""; mkBackendServerKey "host-2.internal" 8080 0 ""]
  else [].
Proof.
  case_decide as Hrk; [subst; vm_compute; reflexivity|].
  apply elem_of_nil_inv. intros bk. rewrite (elem_of_servers_of _ _ _ _ plain_range_ok).
  assert (lookup_backend table2 rk bk = None) as ->; [|by intros [_ []]].
  change (lookup_backend (run_op table1 (OpUpsert key80 info2 200)).1 rk bk = None).
  rewrite run_op_lookup, decide_False by (intros [=]; auto).
  change (lookup_backend (run_op NewRoutingTable (OpUpsert key80 info1 100)).1 rk bk = None).
  by rewrite run_op_lookup, decide_False by (intros [=]; auto).
Qed.

Lemma config_deterministic_witness :
  (NewHAProxyConfig plain_range table2).1 = (NewHAProxyConfig backward_range table2_renewed).1.
Proof.
  apply config_deterministic;
    [apply plain_range_ok|apply backward_range_ok|symmetry; apply table2_renewed_same|].
  intros rk. rewrite table2_servers. intros a b Ha Hb Haddr Hport.
  case_decide; set_solver.
Defined.

(** A table with an invalid backend and a route on port 0. *)
Definition bad_info : BackendServerInfo :=
  mkBackendServerInfo "!bad" 8080 0 "" (mkTag "abc" 1) 0.
Definition bad_table : RoutingTable :=
  (UpsertBackendServerKey (UpsertBackendServerKey table1 key80 bad_info 0).1
     (mkRoutingKey 0 "") info2 0).1.
Lemma errors_logged_witness :
  length (base.filter (λ e, eif_RoutingKey e = key80) (NewHAProxyConfig plain_range bad_table).2) = 1%nat.
Proof.
  rewrite (errors_logged plain_range bad_table key80 plain_range_ok). vm_compute. reflexivity.
Defined.

Lemma valid_names_are_safe_witness : str_forall dns_char "host-1.internal" = true.
Proof. apply valid_names_are_safe. vm_compute. reflexivity. Defined.

Example rejected_names :
  isValidDNSName "!invalid-host.internal" = false ∧ isValidDNSName "" = false ∧
  isValidDNSName ".a" = false ∧ isValidDNSName "-a" = false.
Proof. by vm_compute. Qed.

End Sample.
