(* ===== verification/HAProxyReader.v ===== *)
(** How HAProxy reads the text the marshaller writes: lines, words, sections,
    and the servers a connection is sent to.  This is the contract the
    marshaller's output is checked against; it models no code of the
    repository. *)
From Stdlib Require Import Ascii.
From S2P Require Import Prelude GoStrings.
#[local] Open Scope Z_scope.

(** * Lines and words *)

Definition newline : ascii := ascii_of_nat 10.
Definition is_blank (c : ascii) : bool :=
  bool_decide (c = " "%char) || bool_decide (c = ascii_of_nat 9).

Fixpoint split_blank (s : string) : list string :=
  match s with
  | EmptyString => [""]
  | String c s' =>
      if is_blank c then "" :: split_blank s'
      else match split_blank s' with
           | w :: ws => String c w :: ws
           | [] => [String c ""]
           end
  end.

Definition words (line : string) : list string :=
  base.filter (λ w, w ≠ "") (split_blank line).

Definition read_lines (s : string) : list (list string) := words <$> Split s newline.

(** * Sections *)

Record section := mkSection {
  sec_kind : string;
  sec_name : string;
  sec_body : list (list string)
}.

Definition header (line : list string) : option (string * string) :=
  match line with
  | [kind; name] =>
      if bool_decide (kind = "frontend") || bool_decide (kind = "backend")
      then Some (kind, name) else None
  | _ => None
  end.

(** The lines before the first header, and the sections. *)
Fixpoint sections (lines : list (list string)) : list (list string) * list section :=
  match lines with
  | [] => ([], [])
  | line :: rest =>
      let '(body, secs) := sections rest in
      match header line with
      | Some (kind, name) => ([], mkSection kind name body :: secs)
      | None =>
          match line with
          | [] => (body, secs)
          | _ => (line :: body, secs)
          end
      end
  end.

Definition read_config (s : string) : list section := (sections (read_lines s)).2.

(** * Where a connection goes

    A connection to [port] whose TLS hello names the host [sni] ([""] for
    none): the frontend bound to the port, its first [use_backend] rule for
    the host or else its [default_backend], and the servers of that backend. *)

Definition listens (port : Z) (s : section) : bool :=
  bool_decide (sec_kind s = "frontend")
  && bool_decide (["bind"; ":" +:+ Sprintf_d port] ∈ sec_body s).

Definition sni_rule (sni : string) (line : list string) : option string :=
  match line with
  | [w; b; "if"; "{"; "req.ssl_sni"; h; "}"] =>
      if bool_decide (w = "use_backend") && bool_decide (h = sni) then Some b else None
  | _ => None
  end.
Definition default_rule (line : list string) : option string :=
  match line with
  | [w; b] => if bool_decide (w = "default_backend") then Some b else None
  | _ => None
  end.

Definition choose_backend (sni : string) (body : list (list string)) : option string :=
  match head (omap (sni_rule sni) body) with
  | Some b => Some b
  | None => head (omap default_rule body)
  end.

Definition is_server (line : list string) : bool :=
  match line with w :: _ => bool_decide (w = "server") | [] => false end.

Definition find_section (P : section → bool) (secs : list section) : option section :=
  head (base.filter (λ s, P s) secs).

Definition section_servers (s : section) : list (list string) :=
  base.filter (λ l, is_server l) (sec_body s).

Definition route_to (secs : list section) (port : Z) (sni : string) : option (list (list string)) :=
  fe ← find_section (listens port) secs;
  b ← choose_backend sni (sec_body fe);
  be ← find_section (λ s, bool_decide (sec_kind s = "backend") && bool_decide (sec_name s = b)) secs;
  Some (section_servers be).

(** * Words that are read back as they were written *)

(** A printing byte that is no quote, comment, variable or escape. *)
Definition plain_char (c : ascii) : bool :=
  let n := Z.of_N (N_of_ascii c) in
  (33 <=? n) && (n <=? 126) &&
  negb (bool_decide (n ∈ [34; 35; 36; 39; 92])).
Definition plain (s : string) : bool := bool_decide (s ≠ "") && str_forall plain_char s.

Definition render_line (indent : string) (ws : list string) : string :=
  String newline (indent +:+ Join ws " ").

Lemma plain_char_not_blank c : plain_char c = true → is_blank c = false ∧ c ≠ newline.
Proof. by destruct c as [[] [] [] [] [] [] [] []]. Qed.

Lemma plain_nonempty s : plain s = true → s ≠ "".
Proof. unfold plain. intros. by bool_simpl. Qed.
Lemma plain_no_newline s : str_forall plain_char s = true → no_char newline s = true.
Proof.
  apply str_forall_impl. intros c [_ Hc]%plain_char_not_blank. by apply bool_decide_eq_true.
Qed.

Lemma split_blank_plain s : str_forall plain_char s = true → split_blank s = [s].
Proof.
  induction s as [|c s IH]; simpl; intros; [done|]. bool_simpl.
  destruct (plain_char_not_blank c) as [-> _]; [done|]. by rewrite IH.
Qed.
Lemma split_blank_app s1 s2 :
  str_forall plain_char s1 = true → split_blank (s1 +:+ " " +:+ s2) = s1 :: split_blank s2.
Proof.
  induction s1 as [|c s1 IH]; simpl; intros; [done|]. bool_simpl.
  destruct (plain_char_not_blank c) as [-> _]; [done|].
  change (String " " s2) with (" " +:+ s2). by rewrite IH.
Qed.

Lemma words_Join ws : Forall (λ w, plain w = true) ws → words (Join ws " ") = ws.
Proof.
  induction 1 as [|w ws Hw Hws IH]; [done|]. unfold words in *.
  assert (str_forall plain_char w = true) as Hp by (unfold plain in Hw; by bool_simpl).
  destruct ws as [|w' ws].
  - simpl. by rewrite split_blank_plain, filter_cons_True by eauto using plain_nonempty.
  - rewrite Join_cons, split_blank_app, filter_cons_True by eauto using plain_nonempty.
    f_equal. exact IH.
Qed.

Lemma words_line indent ws :
  indent = "" ∨ indent = "  " → Forall (λ w, plain w = true) ws →
  words (indent +:+ Join ws " ") = ws.
Proof.
  intros [-> | ->] Hws; [by apply words_Join|].
  unfold words. simpl. by apply words_Join.
Qed.

Lemma no_char_app c s1 s2 : no_char c (s1 +:+ s2) = no_char c s1 && no_char c s2.
Proof. apply str_forall_app. Qed.

Lemma no_newline_Join ws :
  Forall (λ w, plain w = true) ws → no_char newline (Join ws " ") = true.
Proof.
  assert (∀ w, plain w = true → no_char newline w = true) as Hpl.
  { intros w Hw. unfold plain in Hw. bool_simpl. by apply plain_no_newline. }
  induction 1 as [|w ws Hw Hws IH]; [done|]. destruct ws as [|w' ws]; [by apply Hpl|].
  by rewrite Join_cons, !no_char_app, Hpl, IH.
Qed.

(** Reading a text made of rendered lines gives back their words. *)
Lemma read_rendered (ls : list (string * list string)) :
  Forall (λ l : string * list string, (l.1 = "" ∨ l.1 = "  ") ∧ Forall (λ w, plain w = true) l.2) ls →
  read_lines (concat_strings ((λ l, render_line l.1 l.2) <$> ls)) = [] :: ls.*2.
Proof.
  assert (∀ s ls, no_char newline s = true →
    Forall (λ l : string * list string, (l.1 = "" ∨ l.1 = "  ") ∧ Forall (λ w, plain w = true) l.2) ls →
    read_lines (s +:+ concat_strings ((λ l, render_line l.1 l.2) <$> ls)) = words s :: ls.*2) as Hgen.
  { clear ls. intros s ls Hs Hls. revert s Hs. induction Hls as [|[indent ws] ls [Hi Hws] _ IH]; intros s Hs; simpl in *.
    - by rewrite app_empty_r; unfold read_lines; rewrite Split_no_char.
    - unfold render_line, read_lines in *. simpl. rewrite Split_app by done. rewrite fmap_cons, IH.
      + by rewrite words_line.
      + rewrite no_char_app, no_newline_Join by done. by destruct Hi as [-> | ->]. }
  intros Hls. by apply (Hgen "" ls).
Qed.
