(* ===== verification/Marshaller.v ===== *)
(** [configurer/haproxy/config_marshaller.go]: the text of the HAProxy
    configuration. *)
From Stdlib Require Import Ascii.
From S2P Require Import Prelude Sorting GoStrings RoutingTable HAProxyConfig Config HAProxyReader.
#[local] Open Scope Z_scope.

(** * The marshaller *)

(** The errors the marshaller logs while it writes. *)
Inductive marshal_log :=
  | BackendTlsNotEnabled (backend : HAProxyBackend)
  | RouteMissingTlsInformation (server : HAProxyServer).

Definition server_step (backend : HAProxyBackend) (backendTlsCfg : BackendTLSConfig)
    (acc : string * list marshal_log) (server : HAProxyServer) : string * list marshal_log :=
  let '(output, logs) := acc in
  if (0 <? bk_TLSPort server) && negb (tls_Enabled backendTlsCfg) then
    (output, logs ++ [BackendTlsNotEnabled backend])
  else if 0 <? bk_TLSPort server then
    let output := output +:+
      (nl +:+ "  server server_" +:+ bk_Address server +:+ "_" +:+ Sprintf_d (bk_TLSPort server)
       +:+ " " +:+ bk_Address server +:+ ":" +:+ Sprintf_d (bk_TLSPort server)
       +:+ " ssl verify required verifyhost " +:+ bk_InstanceID server
       +:+ " ca-file " +:+ tls_CACertificatePath backendTlsCfg) in
    let output :=
      if bool_decide (tls_ClientCertAndKeyPath backendTlsCfg ≠ "")
      then output +:+ (" crt " +:+ tls_ClientCertAndKeyPath backendTlsCfg) else output in
    (output, logs)
  else
    let logs :=
      if (bk_TLSPort server =? 0) && tls_Enabled backendTlsCfg
      then logs ++ [RouteMissingTlsInformation server] else logs in
    (output +:+
      (nl +:+ "  server server_" +:+ bk_Address server +:+ "_" +:+ Sprintf_d (bk_Port server)
       +:+ " " +:+ bk_Address server +:+ ":" +:+ Sprintf_d (bk_Port server)), logs).

Definition marshalHAProxyBackend (backendName : string) (backend : HAProxyBackend)
    (backendTlsCfg : BackendTLSConfig) : string * list marshal_log :=
  let output := "" +:+ (nl +:+ "backend " +:+ backendName) in
  let output := output +:+ (nl +:+ "  mode tcp") in
  let '(output, logs) := foldl (server_step backend backendTlsCfg) (output, []) backend in
  (output +:+ nl, logs).

(** The orders in which one call ranges over the maps: the ports, and for a
    port the host names and the loop of [ContainsSNIRoutes]. *)
Record MarshalRange := mkMarshalRange {
  range_ports : range_order Z HAProxyFrontend;
  range_hostnames : Z → range_order string HAProxyBackend;
  range_sni : Z → range_order string HAProxyBackend
}.
Class IsMarshalRange (mr : MarshalRange) : Prop := {
  #[global] range_ports_ok :: IsRange (range_ports mr);
  #[global] range_hostnames_ok p :: IsRange (range_hostnames mr p);
  #[global] range_sni_ok p :: IsRange (range_sni mr p)
}.

Definition sortedHAProxyInboundPorts (r : range_order Z HAProxyFrontend) (conf : HAProxyConfig) :
    list Z := SliceStable Z.ltb (r conf).*1.
Definition sortedSniHostnames (r : range_order string HAProxyBackend) (frontend : HAProxyFrontend) :
    list string := SliceStable String.ltb (r frontend).*1.

(** The stanza of the frontend, those of its backends, and the log. *)
Definition hostname_step (port : Z) (frontend : HAProxyFrontend) (backendTlsCfg : BackendTLSConfig)
    (acc : string * string * list marshal_log) (hostname : string) :
    string * string * list marshal_log :=
  let '(frontendStanza, backendStanzas, logs) := acc in
  let '(backendCfgName, frontendStanza) :=
    if bool_decide (hostname = "") then
      let backendCfgName := "backend_" +:+ Sprintf_d port in
      (backendCfgName, frontendStanza +:+ (nl +:+ "  default_backend " +:+ backendCfgName))
    else
      let backendCfgName := "backend_" +:+ Sprintf_d port +:+ "_" +:+ hostname in
      (backendCfgName,
       frontendStanza +:+ (nl +:+ "  use_backend " +:+ backendCfgName
         +:+ " if { req.ssl_sni " +:+ hostname +:+ " }")) in
  let backend := default [] (frontend !! hostname) in
  let '(haProxyBackendString, ls) := marshalHAProxyBackend backendCfgName backend backendTlsCfg in
  (frontendStanza, backendStanzas +:+ haProxyBackendString, logs ++ ls).

Definition marshalHAProxyFrontend (mr : MarshalRange) (port : Z) (frontend : HAProxyFrontend)
    (backendTlsCfg : BackendTLSConfig) : string * list marshal_log :=
  let frontendStanza := "" +:+ (nl +:+ "frontend frontend_" +:+ Sprintf_d port) in
  let frontendStanza := frontendStanza +:+ (nl +:+ "  mode tcp") in
  let frontendStanza := frontendStanza +:+ (nl +:+ "  bind :" +:+ Sprintf_d port) in
  let frontendStanza :=
    if ContainsSNIRoutes (range_sni mr port) frontend then
      frontendStanza +:+ (nl +:+ "  tcp-request inspect-delay 5s")
        +:+ (nl +:+ "  tcp-request content accept if { req.ssl_hello_type gt 0 }")
    else frontendStanza in
  let sortedHostnames := sortedSniHostnames (range_hostnames mr port) frontend in
  let '(frontendStanza, backendStanzas, logs) :=
    foldl (hostname_step port frontend backendTlsCfg) (frontendStanza, "", []) sortedHostnames in
  let frontendStanza := frontendStanza +:+ nl in
  let frontendStanza := frontendStanza +:+ backendStanzas in
  (frontendStanza, logs).

Definition port_step (mr : MarshalRange) (conf : HAProxyConfig) (backendTlsCfg : BackendTLSConfig)
    (acc : string * list marshal_log) (port : Z) : string * list marshal_log :=
  let '(output, logs) := acc in
  let frontend := default ∅ (conf !! port) in
  let '(s, ls) := marshalHAProxyFrontend mr port frontend backendTlsCfg in
  (output +:+ s, logs ++ ls).

Definition Marshal (mr : MarshalRange) (conf : HAProxyConfig) (backendTlsCfg : BackendTLSConfig) :
    string * list marshal_log :=
  let sortedPorts := sortedHAProxyInboundPorts (range_ports mr) conf in
  foldl (port_step mr conf backendTlsCfg) ("", []) sortedPorts.

(** * What the marshaller writes, as lines of words *)

Definition backendCfgName (port : Z) (hostname : string) : string :=
  if bool_decide (hostname = "") then "backend_" +:+ Sprintf_d port
  else "backend_" +:+ Sprintf_d port +:+ "_" +:+ hostname.

(** The words of a server's line, none when the server is skipped. *)
Definition server_words (tls : BackendTLSConfig) (s : HAProxyServer) : option (list string) :=
  if (0 <? bk_TLSPort s) && negb (tls_Enabled tls) then None
  else if 0 <? bk_TLSPort s then
    Some (["server"; "server_" +:+ bk_Address s +:+ "_" +:+ Sprintf_d (bk_TLSPort s);
           bk_Address s +:+ ":" +:+ Sprintf_d (bk_TLSPort s);
           "ssl"; "verify"; "required"; "verifyhost"; bk_InstanceID s;
           "ca-file"; tls_CACertificatePath tls]
          ++ if bool_decide (tls_ClientCertAndKeyPath tls ≠ "")
             then ["crt"; tls_ClientCertAndKeyPath tls] else [])
  else
    Some ["server"; "server_" +:+ bk_Address s +:+ "_" +:+ Sprintf_d (bk_Port s);
          bk_Address s +:+ ":" +:+ Sprintf_d (bk_Port s)].

Abbreviation line := (string * list string)%type.

Definition server_lines (tls : BackendTLSConfig) (bs : HAProxyBackend) : list line :=
  pair "  " <$> omap (server_words tls) bs.

Definition backend_lines (tls : BackendTLSConfig) (name : string) (bs : HAProxyBackend) : list line :=
  [("", ["backend"; name]); ("  ", ["mode"; "tcp"])] ++ server_lines tls bs ++ [("", [])].

Definition rule_line (port : Z) (hostname : string) : line :=
  ("  ", if bool_decide (hostname = "") then ["default_backend"; backendCfgName port hostname]
         else ["use_backend"; backendCfgName port hostname; "if"; "{"; "req.ssl_sni"; hostname; "}"]).

Definition hostnames_of (f : HAProxyFrontend) : list string :=
  sortedSniHostnames map_to_list f.

Definition inspect_lines (f : HAProxyFrontend) : list line :=
  if ContainsSNIRoutes map_to_list f then
    [("  ", ["tcp-request"; "inspect-delay"; "5s"]);
     ("  ", ["tcp-request"; "content"; "accept"; "if"; "{"; "req.ssl_hello_type"; "gt"; "0"; "}"])]
  else [].

Definition frontend_lines (tls : BackendTLSConfig) (port : Z) (f : HAProxyFrontend) : list line :=
  [("", ["frontend"; "frontend_" +:+ Sprintf_d port]); ("  ", ["mode"; "tcp"]);
   ("  ", ["bind"; ":" +:+ Sprintf_d port])]
  ++ inspect_lines f
  ++ (rule_line port <$> hostnames_of f) ++ [("", [])]
  ++ (hostnames_of f ≫= λ h, backend_lines tls (backendCfgName port h) (default [] (f !! h))).

Definition ports_of (conf : HAProxyConfig) : list Z := sortedHAProxyInboundPorts map_to_list conf.

Definition config_lines (conf : HAProxyConfig) (tls : BackendTLSConfig) : list line :=
  ports_of conf ≫= λ p, frontend_lines tls p (default ∅ (conf !! p)).

Definition render (ls : list line) : string :=
  concat_strings ((λ l, render_line l.1 l.2) <$> ls).

Lemma render_app l1 l2 : render (l1 ++ l2) = render l1 +:+ render l2.
Proof. unfold render. by rewrite fmap_app, concat_strings_app. Qed.
Lemma render_cons l ls : render (l :: ls) = render_line l.1 l.2 +:+ render ls.
Proof. done. Qed.

(** ** The order of the maps does not show *)

Lemma tied_ltb_eq {A} (ltb : A → A → bool) :
  (∀ a b, ltb a b = false → ltb b a = false → a = b) →
  ∀ a b, tied ltb a b = true → a = b.
Proof. intros Htot a b Ht. unfold tied in Ht. bool_simpl. auto. Qed.

Lemma sortedSniHostnames_eq r f : IsRange r → sortedSniHostnames r f = hostnames_of f.
Proof.
  intros Hr. apply SliceStable_perm_eq; [apply _|by apply (range_keys_perm r)|].
  intros x y _ _. apply tied_ltb_eq, ltb_total.
Qed.
Lemma sortedHAProxyInboundPorts_eq r conf :
  IsRange r → sortedHAProxyInboundPorts r conf = ports_of conf.
Proof.
  intros Hr. apply SliceStable_perm_eq; [apply _|by apply (range_keys_perm r)|].
  intros x y _ _. apply tied_ltb_eq. intros a b ??. bool_simpl. lia.
Qed.
Lemma ContainsSNIRoutes_eq r f :
  IsRange r → ContainsSNIRoutes r f = ContainsSNIRoutes map_to_list f.
Proof.
  intros Hr. unfold ContainsSNIRoutes.
  apply eq_true_iff_eq. rewrite !ContainsSNIRoutes_loop_spec.
  by setoid_rewrite (range_keys_perm r).
Qed.

(** ** The text is the rendering of the lines *)

Local Arguments server_step : simpl never.
Local Arguments hostname_step : simpl never.
Local Arguments port_step : simpl never.

Lemma server_step_render b tls acc s :
  (server_step b tls acc s).1 = acc.1 +:+ render (server_lines tls [s]).
Proof.
  destruct acc as [out logs]. unfold server_step, server_lines, server_words; simpl.
  destruct ((0 <? bk_TLSPort s) && negb (tls_Enabled tls)); simpl; [by rewrite app_empty_r|].
  destruct (0 <? bk_TLSPort s); simpl; [case_bool_decide|];
    unfold render, render_line, newline, nl; by str_norm.
Qed.

Lemma servers_loop_render b tls bs acc :
  (foldl (server_step b tls) acc bs).1 = acc.1 +:+ render (server_lines tls bs).
Proof.
  revert acc. induction bs as [|s bs IH]; intros acc; simpl; [by rewrite app_empty_r|].
  rewrite IH, server_step_render, <-app_assoc_str, <-render_app. f_equal. f_equal.
  unfold server_lines; simpl. by destruct (server_words tls s).
Qed.

Lemma marshalHAProxyBackend_render name bs tls :
  (marshalHAProxyBackend name bs tls).1 = render (backend_lines tls name bs).
Proof.
  unfold marshalHAProxyBackend, backend_lines.
  destruct (foldl _ _ _) as [out logs] eqn:Hf.
  pose proof (f_equal fst Hf) as Hout. rewrite servers_loop_render in Hout. simpl in Hout. subst out.
  rewrite !render_app. unfold render at 2 4. simpl.
  unfold render_line, newline, nl. by str_norm.
Qed.

Lemma hostname_step_render port f tls fs bss logs h :
  let acc := hostname_step port f tls (fs, bss, logs) h in
  acc.1.1 = fs +:+ render [rule_line port h] ∧
  acc.1.2 = bss +:+ render (backend_lines tls (backendCfgName port h) (default [] (f !! h))).
Proof.
  unfold hostname_step, rule_line, backendCfgName. case_bool_decide; simpl.
  all: destruct (marshalHAProxyBackend _ _ _) as [s ls] eqn:Hm; simpl;
    rewrite <-marshalHAProxyBackend_render, Hm; split; [|done].
  all: unfold render, render_line, newline, nl; by str_norm.
Qed.

Lemma hostnames_loop_render port f tls hs fs bss logs :
  let acc := foldl (hostname_step port f tls) (fs, bss, logs) hs in
  acc.1.1 = fs +:+ render (rule_line port <$> hs) ∧
  acc.1.2 = bss +:+ render (hs ≫= λ h,
    backend_lines tls (backendCfgName port h) (default [] (f !! h))).
Proof.
  revert fs bss logs. induction hs as [|h hs IH]; intros fs bss logs; simpl.
  { by rewrite !app_empty_r. }
  destruct (hostname_step_render port f tls fs bss logs h) as [H1 H2].
  destruct (hostname_step port f tls (fs, bss, logs) h) as [[fs' bss'] logs'].
  destruct (IH fs' bss' logs') as [-> ->]. simpl in H1, H2. rewrite H1, H2.
  by rewrite <-!app_assoc_str, <-!render_app.
Qed.

Lemma marshalHAProxyFrontend_render mr port f tls :
  IsMarshalRange mr →
  (marshalHAProxyFrontend mr port f tls).1 = render (frontend_lines tls port f).
Proof.
  intros Hmr. unfold marshalHAProxyFrontend.
  rewrite sortedSniHostnames_eq, ContainsSNIRoutes_eq by apply _.
  match goal with |- context [foldl _ (?fs, ?bss, ?ls) ?hs] =>
    destruct (hostnames_loop_render port f tls hs fs bss ls) as [H1 H2] end.
  destruct (foldl _ _ _) as [[fs bss] logs]; simpl in *; subst fs bss.
  unfold frontend_lines, inspect_lines. rewrite !render_app.
  destruct (ContainsSNIRoutes map_to_list f);
    unfold render at 3 4 5; unfold render_line, newline, nl; by str_norm.
Qed.

Lemma ports_loop_render mr conf tls ps acc :
  IsMarshalRange mr →
  (foldl (port_step mr conf tls) acc ps).1 =
  acc.1 +:+ render (ps ≫= λ p, frontend_lines tls p (default ∅ (conf !! p))).
Proof.
  intros Hmr. revert acc. induction ps as [|p ps IH]; intros acc; [by rewrite app_empty_r|].
  rewrite bind_cons, render_app, app_assoc_str. cbn [foldl]. rewrite IH. f_equal. destruct acc as [out logs]. unfold port_step.
  destruct (marshalHAProxyFrontend _ _ _ _) as [s ls] eqn:Hm. simpl.
  by rewrite <-(marshalHAProxyFrontend_render mr) by done; rewrite Hm.
Qed.

Lemma Marshal_render mr conf tls :
  IsMarshalRange mr → (Marshal mr conf tls).1 = render (config_lines conf tls).
Proof.
  intros Hmr. unfold Marshal. rewrite ports_loop_render by done.
  by rewrite sortedHAProxyInboundPorts_eq by apply _.
Qed.
