(* ===== verification/MarshallerCorrect.v ===== *)
(** The marshaller's text, read the way HAProxy reads it, sends every
    connection to the servers of its route. *)
From Stdlib Require Import Ascii.
From S2P Require Import Prelude Sorting GoStrings RoutingTable HAProxyConfig Config HAProxyReader Marshaller.
#[local] Open Scope Z_scope.

(** * Texts without surprises *)

(** The instance ids and paths the marshaller writes are plain words. *)
Definition plain_tls (tls : BackendTLSConfig) : Prop :=
  tls_Enabled tls = true →
  plain (tls_CACertificatePath tls) = true ∧
  (tls_ClientCertAndKeyPath tls = "" ∨ plain (tls_ClientCertAndKeyPath tls) = true).
Definition plain_instances (conf : HAProxyConfig) : Prop :=
  ∀ p h bs s, config_lookup conf p h = Some bs → s ∈ bs → 0 < bk_TLSPort s →
    plain (bk_InstanceID s) = true.

Lemma dns_char_plain c : dns_char c = true → plain_char c = true.
Proof. by destruct c as [[] [] [] [] [] [] [] []]. Qed.
Lemma dec_char_plain c : is_dec_char c = true → plain_char c = true.
Proof. by destruct c as [[] [] [] [] [] [] [] []]. Qed.

Lemma dns_name_plain s : isValidDNSName s = true → plain s = true.
Proof.
  intros Hv. unfold plain. apply andb_true_iff. split.
  - apply bool_decide_eq_true. by apply isValidDNSName_nonempty.
  - eapply str_forall_impl; [apply dns_char_plain|]. by apply isValidDNSName_chars.
Qed.
Lemma Sprintf_d_plain z : plain (Sprintf_d z) = true.
Proof.
  unfold plain. apply andb_true_iff. split.
  - apply bool_decide_eq_true, Sprintf_d_nonempty.
  - eapply str_forall_impl; [apply dec_char_plain|]. apply Sprintf_d_dec.
Qed.
Lemma plain_forall s : plain s = true → str_forall plain_char s = true.
Proof. unfold plain. intros. by bool_simpl. Qed.
Lemma plain_app s1 s2 : plain s1 = true → plain s2 = true → plain (s1 +:+ s2) = true.
Proof.
  unfold plain. intros. bool_simpl. apply andb_true_iff. rewrite str_forall_app.
  split; [apply bool_decide_eq_true; by destruct s1|by apply andb_true_iff].
Qed.
Lemma plain_intro s : s ≠ "" → str_forall plain_char s = true → plain s = true.
Proof. intros. unfold plain. by rewrite bool_decide_true. Qed.

Create HintDb plain.
#[local] Hint Resolve dns_name_plain Sprintf_d_plain plain_forall : plain.
(** A word, or a list of words, made of literals and of words the hints cover. *)
Ltac plain_word :=
  first
    [ solve [auto with plain]
    | apply plain_intro; [discriminate|]; simpl; rewrite ?str_forall_app; simpl;
      repeat (apply andb_true_iff; split); solve [auto with plain]
    | apply plain_app; plain_word ].
Ltac solve_plain :=
  simpl; repeat (apply List.Forall_cons || apply List.Forall_nil);
  try plain_word.

(** A list of explicit lines. *)
Ltac solve_good :=
  repeat (apply List.Forall_cons || apply List.Forall_nil);
  (split; [by auto|solve_plain]).

Section correct.
Context (conf : HAProxyConfig) (tls : BackendTLSConfig).
Context (Hwf : wf_config conf) (Hinst : plain_instances conf) (Htls : plain_tls tls).

Definition good_line (l : line) : Prop :=
  (l.1 = "" ∨ l.1 = "  ") ∧ Forall (λ w, plain w = true) l.2.

Lemma hostname_good p h : is_Some (config_lookup conf p h) → h = "" ∨ plain h = true.
Proof. intros [bs Hbs]. destruct (wf_hostname _ Hwf _ _ _ Hbs); auto with plain. Qed.

Lemma backendCfgName_plain p h : h = "" ∨ plain h = true → plain (backendCfgName p h) = true.
Proof.
  intros Hh. unfold backendCfgName. case_bool_decide; [solve_plain|].
  destruct Hh; [done|]. solve_plain.
Qed.

Lemma server_words_plain p h bs s ws :
  config_lookup conf p h = Some bs → s ∈ bs → server_words tls s = Some ws →
  Forall (λ w, plain w = true) ws.
Proof.
  intros Hbs Hs. destruct (wf_servers _ Hwf _ _ _ Hbs) as [_ Hv].
  rewrite Forall_forall in Hv. specialize (Hv s Hs). unfold valid_backend in Hv. bool_simpl.
  unfold server_words.
  destruct (0 <? bk_TLSPort s) eqn:Ht; simpl; [|intros; simplify_eq; solve_plain].
  destruct (tls_Enabled tls) eqn:He; simpl; [|done]. intros; simplify_eq. bool_simpl.
  destruct (Htls He) as [Hca Hcrt]. pose proof (Hinst _ _ _ _ Hbs Hs Ht).
  solve_plain. destruct (bool_decide (tls_ClientCertAndKeyPath tls ≠ "")) eqn:Hc; [|constructor].
  bool_simpl. destruct Hcrt; [done|]. solve_plain.
Qed.

Lemma server_lines_good p h bs :
  config_lookup conf p h = Some bs → Forall good_line (server_lines tls bs).
Proof.
  intros Hbs. unfold server_lines. apply Forall_fmap, Forall_forall. intros ws Hws.
  apply list_elem_of_omap in Hws as (s & Hs & Hws). split; [by right|].
  by eapply server_words_plain.
Qed.

Lemma hostnames_of_lookup p f h :
  conf !! p = Some f → h ∈ hostnames_of f ↔ is_Some (config_lookup conf p h).
Proof.
  intros Hf. unfold hostnames_of, sortedSniHostnames, config_lookup. rewrite Hf; simpl.
  by rewrite elem_of_SliceStable, (elem_of_range_keys _).
Qed.

Lemma ports_of_lookup p : p ∈ ports_of conf ↔ is_Some (conf !! p).
Proof.
  unfold ports_of, sortedHAProxyInboundPorts.
  by rewrite elem_of_SliceStable, (elem_of_range_keys _).
Qed.

Lemma frontend_lines_good p f : conf !! p = Some f → Forall good_line (frontend_lines tls p f).
Proof.
  intros Hf. assert (∀ h, h ∈ hostnames_of f → h = "" ∨ plain h = true) as Hh.
  { intros h Hh%(hostnames_of_lookup p); [|done]. by eapply hostname_good. }
  unfold frontend_lines. repeat apply Forall_app_2.
  - solve_good.
  - unfold inspect_lines. case_match; [solve_good|constructor].
  - apply Forall_fmap, Forall_forall. intros h Hin. specialize (Hh h Hin).
    pose proof (backendCfgName_plain p h Hh). split; [by right|]. unfold rule_line; simpl.
    case_bool_decide; [solve_plain|]. destruct Hh; [done|]. solve_plain.
  - solve_good.
  - apply Forall_bind, Forall_forall. intros h Hin.
    pose proof (backendCfgName_plain p h (Hh h Hin)).
    apply (hostnames_of_lookup p f) in Hin as [bs Hbs]; [|done].
    assert (f !! h = Some bs) as Hfh.
    { unfold config_lookup in Hbs. by rewrite Hf in Hbs. }
    unfold compose. rewrite Hfh. simpl. unfold backend_lines. repeat apply Forall_app_2.
    + solve_good.
    + by eapply server_lines_good.
    + solve_good.
Qed.

Lemma config_lines_good : Forall good_line (config_lines conf tls).
Proof.
  apply Forall_bind, Forall_forall. intros p [f Hf]%ports_of_lookup.
  unfold compose. rewrite Hf. by apply frontend_lines_good.
Qed.

Lemma read_Marshal mr :
  IsMarshalRange mr → read_lines (Marshal mr conf tls).1 = [] :: (config_lines conf tls).*2.
Proof. intros Hmr. rewrite Marshal_render by done. apply read_rendered, config_lines_good. Qed.
End correct.

(** * The sections HAProxy finds in the text *)

Lemma sections_block kind name body rest :
  (kind = "frontend" ∨ kind = "backend") → Forall (λ l, header l = None) body →
  (sections rest).1 = [] →
  sections ([kind; name] :: body ++ rest) =
  ([], mkSection kind name (base.filter (λ l, l ≠ []) body) :: (sections rest).2).
Proof.
  intros Hk Hb Hr.
  assert (sections (body ++ rest) = (base.filter (λ l, l ≠ []) body, (sections rest).2)) as Hbody.
  { clear Hk. induction Hb as [|l body Hl _ IH].
    - rewrite app_nil_l, filter_nil, <-Hr. by destruct (sections rest).
    - cbn [app sections]. rewrite IH, Hl. destruct l as [|w l].
      + by rewrite filter_cons_False by auto.
      + by rewrite filter_cons_True by done. }
  cbn [sections]. rewrite Hbody. by destruct Hk as [-> | ->].
Qed.

Definition frontend_section (port : Z) (f : HAProxyFrontend) : section :=
  mkSection "frontend" ("frontend_" +:+ Sprintf_d port)
    ([["mode"; "tcp"]; ["bind"; ":" +:+ Sprintf_d port]]
     ++ (inspect_lines f).*2 ++ (snd ∘ rule_line port <$> hostnames_of f)).
Definition backend_section (tls : BackendTLSConfig) (port : Z) (f : HAProxyFrontend) (h : string) : section :=
  mkSection "backend" (backendCfgName port h)
    (["mode"; "tcp"] :: omap (server_words tls) (default [] (f !! h))).
Definition port_sections (tls : BackendTLSConfig) (port : Z) (f : HAProxyFrontend) : list section :=
  frontend_section port f :: (backend_section tls port f <$> hostnames_of f).
Definition config_sections (conf : HAProxyConfig) (tls : BackendTLSConfig) : list section :=
  ports_of conf ≫= λ p, port_sections tls p (default ∅ (conf !! p)).

Lemma server_words_head tls s ws : server_words tls s = Some ws → head ws = Some "server".
Proof. unfold server_words. intros. by case_all; simplify_eq. Qed.

(** A server's line and a rule are no header and are not blank. *)
Lemma server_words_body tls bs :
  Forall (λ l, header l = None ∧ l ≠ []) (omap (server_words tls) bs).
Proof.
  apply Forall_forall. intros ws (s & _ & Hs)%list_elem_of_omap.
  apply server_words_head in Hs. destruct ws as [|w ws]; [done|]. simplify_eq/=.
  split; [by destruct ws as [|? []]|done].
Qed.
Lemma rules_body port hs :
  Forall (λ l, header l = None ∧ l ≠ []) (snd ∘ rule_line port <$> hs).
Proof.
  apply Forall_fmap, Forall_forall. intros h _. unfold rule_line; simpl. by case_bool_decide.
Qed.
Lemma inspect_body f : Forall (λ l, header l = None ∧ l ≠ []) (inspect_lines f).*2.
Proof. unfold inspect_lines. by case_match; repeat constructor. Qed.

Lemma filter_body (ls : list (list string)) :
  Forall (λ l, header l = None ∧ l ≠ []) ls → base.filter (λ l, l ≠ []) ls = ls.
Proof. intros Hls. apply filter_all. eapply Forall_impl; [exact Hls|]. by intros l []. Qed.
Lemma Forall_header (ls : list (list string)) :
  Forall (λ l, header l = None ∧ l ≠ []) ls → Forall (λ l, header l = None) ls.
Proof. intros Hls. eapply Forall_impl; [exact Hls|]. by intros l []. Qed.

Lemma server_lines_words tls bs : (server_lines tls bs).*2 = omap (server_words tls) bs.
Proof. unfold server_lines. rewrite <-list_fmap_compose. apply list_fmap_id. Qed.

Lemma sections_backend tls name bs rest :
  (sections rest).1 = [] →
  sections ((backend_lines tls name bs).*2 ++ rest) =
  ([], mkSection "backend" name (["mode"; "tcp"] :: omap (server_words tls) bs) :: (sections rest).2).
Proof.
  intros Hr. pose proof (server_words_body tls bs) as Hs.
  unfold backend_lines. rewrite !fmap_app, server_lines_words.
  refine (eq_trans (sections_block "backend" name
    (["mode"; "tcp"] :: omap (server_words tls) bs ++ [[]]) rest _ _ Hr) _).
  - by right.
  - constructor; [done|]. apply Forall_app_2; [by apply Forall_header|by repeat constructor].
  - rewrite filter_cons_True, filter_app, filter_body by done.
    by rewrite filter_cons_False, filter_nil, app_nil_r by auto.
Qed.

Lemma sections_backends tls port f hs rest :
  (sections rest).1 = [] →
  sections ((hs ≫= λ h, backend_lines tls (backendCfgName port h) (default [] (f !! h))).*2 ++ rest) =
  ([], (backend_section tls port f <$> hs) ++ (sections rest).2).
Proof.
  intros Hr. induction hs as [|h hs IH]; [simpl; rewrite <-Hr; by destruct (sections rest)|].
  rewrite bind_cons, fmap_app, <-app_assoc, sections_backend by (by rewrite IH).
  by rewrite IH.
Qed.

Lemma sections_frontend tls port f rest :
  (sections rest).1 = [] →
  sections ((frontend_lines tls port f).*2 ++ rest) =
  ([], port_sections tls port f ++ (sections rest).2).
Proof.
  intros Hr. unfold frontend_lines. rewrite !fmap_app, <-!app_assoc.
  pose proof (sections_backends tls port f (hostnames_of f) rest Hr) as Hb.
  pose proof (inspect_body f) as Hi. pose proof (rules_body port (hostnames_of f)) as Hh.
  rewrite <-list_fmap_compose.
  set (bl := _ ≫= _) in *.
  refine (eq_trans (f_equal sections _) (eq_trans (sections_block "frontend" ("frontend_" +:+ Sprintf_d port)
    ([["mode"; "tcp"]; ["bind"; ":" +:+ Sprintf_d port]]
     ++ (inspect_lines f).*2 ++ (snd ∘ rule_line port <$> hostnames_of f) ++ [[]]) (bl.*2 ++ rest) _ _ _) _)).
  - by rewrite <-!app_assoc.
  - by left.
  - repeat (apply Forall_app_2 || constructor); try done; by apply Forall_header.
  - by rewrite Hb.
  - rewrite Hb. unfold port_sections, frontend_section. simpl.
    rewrite !filter_cons_True, !filter_app, !filter_body by done.
    by rewrite filter_cons_False, filter_nil, app_nil_r by auto.
Qed.

Lemma sections_config conf tls : sections (config_lines conf tls).*2 = ([], config_sections conf tls).
Proof.
  unfold config_lines, config_sections. induction (ports_of conf) as [|p ps IH]; [done|].
  rewrite !bind_cons, fmap_app, sections_frontend by (by rewrite IH). by rewrite IH.
Qed.

(** The text reads back as one frontend and its backends per port. *)
Lemma read_config_Marshal mr conf tls :
  wf_config conf → plain_instances conf → plain_tls tls → IsMarshalRange mr →
  read_config (Marshal mr conf tls).1 = config_sections conf tls.
Proof.
  intros. unfold read_config. rewrite read_Marshal by done.
  cbn [sections]. by rewrite sections_config.
Qed.

(** * Where a connection goes *)

(** The route of a connection: the one of its host name, else the one
    without a host name. *)
Definition serving (conf : HAProxyConfig) (port : Z) (sni : string) : option HAProxyBackend :=
  match config_lookup conf port sni with
  | Some bs => Some bs
  | None => config_lookup conf port ""
  end.

(** The words of the lines of a backend's servers. *)
Definition server_texts (tls : BackendTLSConfig) (bs : HAProxyBackend) : list (list string) :=
  omap (server_words tls) bs.

Lemma head_filter_unique {A} (P : A → bool) x l :
  x ∈ l → P x = true → (∀ y, y ∈ l → P y = true → y = x) →
  head (base.filter (λ y, P y) l) = Some x.
Proof.
  intros Hx HP Huniq. induction l as [|y l IH]; [by apply elem_of_nil in Hx|].
  rewrite filter_cons. case_decide as HPy.
  - simpl. f_equal. apply Huniq; [by left|]. by apply Is_true_true.
  - apply elem_of_cons in Hx as [-> | Hx]; [by rewrite HP in HPy|].
    apply IH; [done|]. intros z Hz. apply Huniq. by right.
Qed.
Lemma find_section_none P secs : (∀ s, s ∈ secs → P s = false) → find_section P secs = None.
Proof.
  intros Hn. unfold find_section. rewrite filter_none; [done|].
  apply Forall_forall. intros s Hs HP. by rewrite (Hn s Hs) in HP.
Qed.
Lemma head_omap_unique {A B} (f : A → option B) x b l :
  x ∈ l → f x = Some b → (∀ y c, y ∈ l → f y = Some c → c = b) → head (omap f l) = Some b.
Proof.
  intros Hx Hf Huniq. induction l as [|y l IH]; [by apply elem_of_nil in Hx|]. simpl.
  destruct (f y) as [c|] eqn:Hy; simpl; [by rewrite (Huniq y c (list_elem_of_here _ _) Hy)|].
  apply elem_of_cons in Hx as [-> | Hx]; [congruence|].
  apply IH; [done|]. intros z c Hz. apply Huniq. by right.
Qed.
Lemma head_omap_none {A B} (f : A → option B) l : (∀ y, y ∈ l → f y = None) → head (omap f l) = None.
Proof.
  intros Hn. induction l as [|y l IH]; [done|]. simpl. rewrite (Hn y (list_elem_of_here _ _)).
  apply IH. intros z Hz. apply Hn. by right.
Qed.

(** Backend names are distinct. *)
Lemma Sprintf_d_no_underscore z : no_char "_" (Sprintf_d z) = true.
Proof.
  unfold no_char. eapply str_forall_impl; [|apply (Sprintf_d_dec z)].
  intros c. by destruct c as [[] [] [] [] [] [] [] []].
Qed.
Lemma digits_underscore p p' h' : Sprintf_d p ≠ Sprintf_d p' +:+ String "_" h'.
Proof.
  intros Heq. apply (f_equal (λ s, Split s "_")) in Heq.
  rewrite Split_no_char, Split_app in Heq by apply Sprintf_d_no_underscore.
  simplify_eq. by eapply Split_nonempty.
Qed.
Lemma digits_underscore_inj p p' h h' :
  Sprintf_d p +:+ String "_" h = Sprintf_d p' +:+ String "_" h' → p = p' ∧ h = h'.
Proof.
  intros Heq. pose proof (f_equal (λ s, head (Split s "_")) Heq) as Hd. simpl in Hd.
  rewrite !Split_app in Hd by apply Sprintf_d_no_underscore. by simplify_eq/=.
Qed.
Lemma backendCfgName_inj p h p' h' :
  backendCfgName p h = backendCfgName p' h' → p = p' ∧ h = h'.
Proof.
  unfold backendCfgName. do 2 case_bool_decide; intros Heq; simplify_eq/=.
  - done.
  - by edestruct digits_underscore.
  - by edestruct digits_underscore.
  - by apply digits_underscore_inj.
Qed.

(** The frontend that listens on a port is the port's. *)
Lemma elem_of_config_sections conf tls s :
  s ∈ config_sections conf tls ↔
  ∃ p f, conf !! p = Some f ∧
    (s = frontend_section p f ∨
     ∃ h, is_Some (config_lookup conf p h) ∧ s = backend_section tls p f h).
Proof.
  unfold config_sections. rewrite list_elem_of_bind. split.
  - intros (p & Hs & [f Hf]%ports_of_lookup). exists p, f. split; [done|].
    rewrite Hf in Hs. apply elem_of_cons in Hs as [-> | Hs]; [by left|right].
    apply list_elem_of_fmap in Hs as (h & -> & Hh). exists h. split; [|done].
    by apply (hostnames_of_lookup conf p f).
  - intros (p & f & Hf & Hs). exists p. rewrite ports_of_lookup, Hf. split; [|done]. simpl.
    unfold port_sections. apply elem_of_cons. destruct Hs as [-> | (h & Hh & ->)]; [by left|right].
    apply list_elem_of_fmap. exists h. split; [done|]. by apply (hostnames_of_lookup conf p f).
Qed.

Lemma listens_frontend p p' f : listens p (frontend_section p' f) = bool_decide (p = p').
Proof.
  unfold listens, frontend_section. simpl. apply bool_decide_ext. split; [|intros ->; set_solver].
  rewrite !elem_of_cons, elem_of_app. intros [? | [Heq | [Hin | Hin]]]; [done|..].
  - simplify_eq. done.
  - unfold inspect_lines in Hin. case_match; [|by apply elem_of_nil in Hin].
    simpl in Hin. rewrite !elem_of_cons, elem_of_nil in Hin. naive_solver.
  - apply list_elem_of_fmap in Hin as (h & Heq & _). unfold rule_line in Heq; simpl in Heq.
    by case_bool_decide.
Qed.

Lemma find_frontend conf tls p f :
  conf !! p = Some f →
  find_section (listens p) (config_sections conf tls) = Some (frontend_section p f).
Proof.
  intros Hf. apply head_filter_unique.
  - apply elem_of_config_sections. naive_solver.
  - rewrite listens_frontend. by apply bool_decide_eq_true.
  - intros s (p' & f' & Hf' & [-> | (h & _ & ->)])%elem_of_config_sections Hl; [|done].
    rewrite listens_frontend in Hl. bool_simpl. by simplify_eq.
Qed.
Lemma find_frontend_none conf tls p :
  conf !! p = None → find_section (listens p) (config_sections conf tls) = None.
Proof.
  intros Hf. apply find_section_none.
  intros s (p' & f' & Hf' & [-> | (h & _ & ->)])%elem_of_config_sections; [|done].
  rewrite listens_frontend. apply bool_decide_eq_false. by intros ->; simplify_eq.
Qed.
Lemma find_backend conf tls p f h :
  conf !! p = Some f → is_Some (config_lookup conf p h) →
  find_section (λ s, bool_decide (sec_kind s = "backend")
                     && bool_decide (sec_name s = backendCfgName p h)) (config_sections conf tls) =
  Some (backend_section tls p f h).
Proof.
  intros Hf Hh. apply head_filter_unique.
  - apply elem_of_config_sections. naive_solver.
  - simpl. by apply bool_decide_eq_true.
  - intros s (p' & f' & Hf' & [-> | (h' & _ & ->)])%elem_of_config_sections Hl; [done|].
    simpl in Hl. bool_simpl. apply backendCfgName_inj in Hl as [-> ->]. by simplify_eq.
Qed.

(** The rules of a frontend. *)
Lemma elem_of_frontend_body p f l :
  l ∈ sec_body (frontend_section p f) →
  (∀ sni, sni_rule sni l = None) ∧ default_rule l = None ∨
  ∃ h, h ∈ hostnames_of f ∧ l = (rule_line p h).2.
Proof.
  unfold frontend_section. simpl. rewrite !elem_of_cons, elem_of_app.
  intros [-> | [-> | [Hin | Hin]]]; [by left|by left| |].
  - left. unfold inspect_lines in Hin. case_match; [|by apply elem_of_nil in Hin].
    simpl in Hin. rewrite !elem_of_cons, elem_of_nil in Hin. naive_solver.
  - right. apply list_elem_of_fmap in Hin as (h & -> & Hh). by exists h.
Qed.
Lemma rule_in_body p f h :
  h ∈ hostnames_of f → (rule_line p h).2 ∈ sec_body (frontend_section p f).
Proof.
  intros Hh. unfold frontend_section. simpl. do 2 apply list_elem_of_further.
  apply elem_of_app. right. apply list_elem_of_fmap. by exists h.
Qed.
Lemma sni_rule_line sni p h :
  sni_rule sni (rule_line p h).2 =
  if bool_decide (h ≠ "" ∧ h = sni) then Some (backendCfgName p h) else None.
Proof.
  unfold rule_line. simpl. destruct (decide (h = "")) as [->|Hne].
  - rewrite bool_decide_true by done. by rewrite bool_decide_false by naive_solver.
  - rewrite bool_decide_false by done. simpl. by repeat case_bool_decide; naive_solver.
Qed.
Lemma default_rule_line p h :
  default_rule (rule_line p h).2 = if bool_decide (h = "") then Some (backendCfgName p h) else None.
Proof. unfold rule_line. simpl. by case_bool_decide. Qed.

Lemma choose_backend_frontend p f sni :
  choose_backend sni (sec_body (frontend_section p f)) =
  if bool_decide (sni ∈ hostnames_of f) then Some (backendCfgName p sni)
  else if bool_decide ("" ∈ hostnames_of f) then Some (backendCfgName p "") else None.
Proof.
  unfold choose_backend. set (body := sec_body _).
  assert (head (omap (sni_rule sni) body) =
    if bool_decide (sni ≠ "" ∧ sni ∈ hostnames_of f) then Some (backendCfgName p sni) else None) as ->.
  { case_bool_decide as Hc.
    - destruct Hc as [Hne Hin]. apply (head_omap_unique _ (rule_line p sni).2); [by apply rule_in_body|..].
      + rewrite sni_rule_line. by rewrite bool_decide_true.
      + intros l b [[Hn _] | (h & Hh & ->)]%elem_of_frontend_body Hl; [by rewrite Hn in Hl|].
        rewrite sni_rule_line in Hl. case_bool_decide; naive_solver.
    - apply head_omap_none. intros l [[Hn _] | (h & Hh & ->)]%elem_of_frontend_body; [done|].
      rewrite sni_rule_line. case_bool_decide; naive_solver. }
  assert (head (omap default_rule body) =
    if bool_decide ("" ∈ hostnames_of f) then Some (backendCfgName p "") else None) as ->.
  { case_bool_decide as Hc.
    - apply (head_omap_unique _ (rule_line p "").2); [by apply rule_in_body|done|].
      intros l b [[_ Hn] | (h & Hh & ->)]%elem_of_frontend_body Hl; [by rewrite Hn in Hl|].
      rewrite default_rule_line in Hl. case_bool_decide; naive_solver.
    - apply head_omap_none. intros l [[_ Hn] | (h & Hh & ->)]%elem_of_frontend_body; [done|].
      rewrite default_rule_line. case_bool_decide; naive_solver. }
  clear body. destruct (decide (sni = "")) as [->|Hne].
  - rewrite bool_decide_false by naive_solver. by destruct (bool_decide _).
  - rewrite (bool_decide_ext _ (sni ∈ hostnames_of f)) by naive_solver. by destruct (bool_decide _).
Qed.

Lemma server_filter tls p f h :
  section_servers (backend_section tls p f h) = server_texts tls (default [] (f !! h)).
Proof.
  unfold section_servers, server_texts. simpl. rewrite filter_cons_False by naive_solver. apply filter_all, Forall_forall.
  intros ws (s & _ & Hs)%list_elem_of_omap. apply server_words_head in Hs.
  destruct ws; by simplify_eq/=.
Qed.

Lemma route_to_sections conf tls p sni :
  route_to (config_sections conf tls) p sni = server_texts tls <$> serving conf p sni.
Proof.
  unfold route_to, serving. destruct (conf !! p) as [f|] eqn:Hf.
  - assert (∀ h, config_lookup conf p h = f !! h) as Hl by (intros; unfold config_lookup; by rewrite Hf).
    assert (∀ h, h ∈ hostnames_of f ↔ is_Some (f !! h)) as Hh.
    { intros h. rewrite (hostnames_of_lookup conf p f h) by done. by rewrite Hl. }
    assert (∀ h bs, f !! h = Some bs →
      (be ← find_section (λ s, bool_decide (sec_kind s = "backend")
              && bool_decide (sec_name s = backendCfgName p h)) (config_sections conf tls);
       Some (section_servers be)) = Some (server_texts tls bs)) as Hbe.
    { intros h bs Hbs. rewrite (find_backend _ _ _ f) by (by rewrite ?Hl, ?Hbs).
      cbn [mbind option_bind]. by rewrite server_filter, Hbs. }
    rewrite (find_frontend _ _ _ f), !Hl by done. cbn [mbind option_bind].
    rewrite choose_backend_frontend, !(bool_decide_ext _ _ (Hh _)).
    destruct (f !! sni) as [bs|] eqn:Hs; [by apply Hbe|].
    rewrite bool_decide_false by (by intros []).
    destruct (f !! "") as [bs|] eqn:Hs'; [by apply Hbe|].
    by rewrite bool_decide_false by (by intros []).
  - rewrite find_frontend_none by done. unfold config_lookup. by rewrite Hf.
Qed.

(** ** The order of the maps does not show in the log either *)

Lemma foldl_ext {A B} (f g : A → B → A) l a : (∀ a b, f a b = g a b) → foldl f a l = foldl g a l.
Proof. intros Hfg. revert a. induction l as [|b l IH]; intros a; simpl; [done|]. by rewrite Hfg. Qed.

Lemma Marshal_range mr1 mr2 conf tls :
  IsMarshalRange mr1 → IsMarshalRange mr2 → Marshal mr1 conf tls = Marshal mr2 conf tls.
Proof.
  intros H1 H2. unfold Marshal. rewrite !sortedHAProxyInboundPorts_eq by apply _.
  apply foldl_ext. intros [out logs] p. unfold port_step, marshalHAProxyFrontend.
  rewrite !sortedSniHostnames_eq by apply _.
  by rewrite (ContainsSNIRoutes_eq (range_sni mr1 p)), (ContainsSNIRoutes_eq (range_sni mr2 p)) by apply _.
Qed.

(** * Properties *)

(** What the table routes a connection to: the servers of the route of its
    host name, else those of the route without a host name. *)
Definition table_serving `{ModificationTags} (tr : TableRange) (t : RoutingTable) (port : Z) (sni : string) :
    option HAProxyBackend :=
  match route_conf tr t (mkRoutingKey port sni) with
  | Some bs => Some bs
  | None => route_conf tr t (mkRoutingKey port "")
  end.
(** The instance ids of the table's TLS backends are plain words. *)
Definition plain_table `{ModificationTags} (t : RoutingTable) : Prop :=
  ∀ rk bk, is_Some (lookup_backend t rk bk) → 0 < bk_TLSPort bk → plain (bk_InstanceID bk) = true.

Section properties.
Context {tags : ModificationTags}.

Lemma plain_table_config tr t :
  IsTableRange tr → plain_table t → plain_instances (NewHAProxyConfig tr t).1.
Proof.
  intros Htr Ht p h bs s Hbs Hs. rewrite NewHAProxyConfig_lookup in Hbs by done.
  unfold route_conf in Hbs. case_match; [|done]. simplify_eq.
  apply elem_of_servers_of in Hs as [_ Hs]; [|done]. by eapply Ht.
Qed.

(** C2. From the routing table to HAProxy: the configuration text computed
    from a table, split into sections, lines and words the way HAProxy reads
    it, sends a connection to a port with a TLS host name (or none) to exactly
    the valid backends of the route of that port and host name, or else of
    the port's route without a host name, in order, with the TLS settings of
    the configuration; and to nothing when there is no such route.  The instance
    ids of TLS backends and the TLS paths are plain words.  A backend with a TLS
    port only has no server line when backend TLS is off, as the tests of the
    repository expect. *)
Theorem marshal_routes (mr : MarshalRange) (tr : TableRange) (t : RoutingTable)
    (tls : BackendTLSConfig) (port : Z) (sni : string) :
  IsMarshalRange mr → IsTableRange tr → plain_table t → plain_tls tls →
  route_to (read_config (Marshal mr (NewHAProxyConfig tr t).1 tls).1) port sni =
  server_texts tls <$> table_serving tr t port sni.
Proof.
  intros Hmr Htr Ht Htls.
  rewrite read_config_Marshal by auto using NewHAProxyConfig_wf, plain_table_config.
  rewrite route_to_sections. unfold serving, table_serving. by rewrite !NewHAProxyConfig_lookup.
Qed.

(** The text reads back as one frontend section per port, in increasing
    order of the ports, each followed by the backend sections of its host
    names in lexicographic order; nothing else is in it. *)
Theorem marshal_sections (mr : MarshalRange) (conf : HAProxyConfig) (tls : BackendTLSConfig) :
  IsMarshalRange mr → wf_config conf → plain_instances conf → plain_tls tls →
  read_config (Marshal mr conf tls).1 = config_sections conf tls.
Proof. intros. by apply read_config_Marshal. Qed.

(** C16. The text and the log of the marshaller are a function of the
    configuration: they do not depend on the order in which the loops range
    over its maps. *)
Theorem marshal_deterministic (mr1 mr2 : MarshalRange) (conf : HAProxyConfig) (tls : BackendTLSConfig) :
  IsMarshalRange mr1 → IsMarshalRange mr2 → Marshal mr1 conf tls = Marshal mr2 conf tls.
Proof. apply Marshal_range. Qed.

End properties.

(** * Concrete instances *)
Module Sample.
Import RoutingTable.Sample HAProxyConfig.Sample.

Definition plain_marshal : MarshalRange :=
  mkMarshalRange map_to_list (λ _, map_to_list) (λ _, map_to_list).
#[export] Instance plain_marshal_ok : IsMarshalRange plain_marshal.
Proof. split; intros; apply _. Qed.
Definition backward_marshal : MarshalRange :=
  mkMarshalRange (λ m, reverse (map_to_list m)) (λ _ m, reverse (map_to_list m))
    (λ _ m, reverse (map_to_list m)).
#[export] Instance backward_marshal_ok : IsMarshalRange backward_marshal.
Proof. split; intros; apply reverse_range. Qed.

Definition sample_tls : BackendTLSConfig := mkBackendTLSConfig true "/ca.pem" "/client.pem".
Lemma sample_tls_plain : plain_tls sample_tls.
Proof. intros _. split; [by vm_compute|right; by vm_compute]. Qed.

(** A route with a host name and TLS backends next to the plain one. *)
Definition tls_info : BackendServerInfo :=
  mkBackendServerInfo "10.0.0.7" 8443 61001 "instance-7" (mkTag "ghi" 1) 0.
Definition table3 : RoutingTable :=
  (run_op table2 (OpUpsert (mkRoutingKey 80 "app.example.com") tls_info 300)).1.
Lemma table3_plain : plain_table table3.
Proof.
  intros rk bk. unfold table3. rewrite run_op_lookup.
  case_decide as Ht; [apply (f_equal snd) in Ht; simpl in Ht; subst bk; intros _ _; reflexivity|].
  change table2 with (run_op table1 (OpUpsert key80 info2 200)).1. rewrite run_op_lookup.
  case_decide as Ht2; [apply (f_equal snd) in Ht2; simpl in Ht2; subst bk; intros _ Hs; discriminate Hs|].
  change table1 with (run_op NewRoutingTable (OpUpsert key80 info1 100)).1. rewrite run_op_lookup.
  case_decide as Ht1; [apply (f_equal snd) in Ht1; simpl in Ht1; subst bk; intros _ Hs; discriminate Hs|]. by intros [].
Qed.

Lemma marshal_routes_witness :
  route_to (read_config (Marshal backward_marshal (NewHAProxyConfig plain_range table3).1 sample_tls).1)
    80 "app.example.com" =
  Some [["server"; "server_10.0.0.7_61001"; "10.0.0.7:61001"; "ssl"; "verify"; "required";
         "verifyhost"; "instance-7"; "ca-file"; "/ca.pem"; "crt"; "/client.pem"]].
Proof.
  rewrite (marshal_routes backward_marshal plain_range table3 sample_tls 80 "app.example.com"
    backward_marshal_ok plain_range_ok table3_plain sample_tls_plain).
  vm_compute. reflexivity.
Defined.

Lemma table3_config_wf : wf_config (NewHAProxyConfig plain_range table3).1.
Proof. apply NewHAProxyConfig_wf, plain_range_ok. Qed.
Lemma marshal_sections_witness :
  read_config (Marshal backward_marshal (NewHAProxyConfig plain_range table3).1 sample_tls).1 =
  [mkSection "frontend" "frontend_80"
     [["mode"; "tcp"]; ["bind"; ":80"]; ["tcp-request"; "inspect-delay"; "5s"];
      ["tcp-request"; "content"; "accept"; "if"; "{"; "req.ssl_hello_type"; "gt"; "0"; "}"];
      ["default_backend"; "backend_80"];
      ["use_backend"; "backend_80_app.example.com"; "if"; "{"; "req.ssl_sni"; "app.example.com"; "}"]];
   mkSection "backend" "backend_80"
     [["mode"; "tcp"]; ["server"; "server_host-1.internal_8080"; "host-1.internal:8080"];
      ["server"; "server_host-2.internal_8080"; "host-2.internal:8080"]];
   mkSection "backend" "backend_80_app.example.com"
     [["mode"; "tcp"]; ["server"; "server_10.0.0.7_61001"; "10.0.0.7:61001"; "ssl"; "verify"; "required";
         "verifyhost"; "instance-7"; "ca-file"; "/ca.pem"; "crt"; "/client.pem"]]].
Proof.
  rewrite (marshal_sections backward_marshal _ sample_tls backward_marshal_ok table3_config_wf
    (plain_table_config _ _ plain_range_ok table3_plain) sample_tls_plain).
  vm_compute. reflexivity.
Defined.

Lemma marshal_deterministic_witness :
  Marshal backward_marshal (NewHAProxyConfig plain_range table3).1 sample_tls =
  Marshal plain_marshal (NewHAProxyConfig plain_range table3).1 sample_tls.
Proof. apply marshal_deterministic; apply _. Defined.

(** Without TLS the servers on a TLS port are left out, and the log says so. *)
Example tls_disabled_skips :
  Marshal plain_marshal (NewHAProxyConfig plain_range
    (UpsertBackendServerKey NewRoutingTable key80 tls_info 0).1).1 (mkBackendTLSConfig false "" "") =
  (render [("", ["frontend"; "frontend_80"]); ("  ", ["mode"; "tcp"]); ("  ", ["bind"; ":80"]);
           ("  ", ["default_backend"; "backend_80"]); ("", []);
           ("", ["backend"; "backend_80"]); ("  ", ["mode"; "tcp"]); ("", [])],
   [BackendTlsNotEnabled [mkBackendServerKey "10.0.0.7" 8443 61001 "instance-7"]]).
Proof. vm_compute. reflexivity. Qed.

(** An instance id is copied into the text unchecked: one with line breaks
    adds lines of its own, here a second server on the route. *)
Definition evil_info : BackendServerInfo :=
  mkBackendServerInfo "10.0.0.7" 8443 61001
    ("x" +:+ nl +:+ "  server evil 6.6.6.6:666" +:+ nl +:+ "  #") (mkTag "ghi" 1) 0.
Definition evil_table : RoutingTable := (UpsertBackendServerKey NewRoutingTable key80 evil_info 0).1.

(** The hypothesis that instance ids are plain words is needed: the
    table can hold one route with one backend whose instance id has line
    breaks, which is accepted as valid, and the text then sends the route's
    connections to a second server that no backend of the table names. *)
Theorem instance_id_injection :
  table_reachable evil_table ∧ Size evil_table = 1%nat ∧
  config_lookup (NewHAProxyConfig plain_range evil_table).1 80 "" = Some [info_key evil_info] ∧
  ∃ l, route_to (read_config (Marshal plain_marshal (NewHAProxyConfig plain_range evil_table).1 sample_tls).1) 80 ""
       = Some [l; ["server"; "evil"; "6.6.6.6:666"]].
Proof.
  split; [apply (tr_op NewRoutingTable (OpUpsert key80 evil_info 0)); constructor|].
  split; [by vm_compute|]. split; [by vm_compute|]. eexists. vm_compute. reflexivity.
Qed.

End Sample.
