(* ===== verification/Monitor.v ===== *)
(** [monitor/monitor.go]: the watch on the HAProxy process. *)
From Stdlib Require Import Ascii.
From S2P Require Import Prelude GoStrings OS.
#[local] Open Scope Z_scope.

(** * The processes of the machine

    [os.FindProcess] and signal 0, as far as their errors. *)
Class ProcessTable := {
  FindProcess : Z → option error;
  Signal0 : Z → option error
}.

(** * The monitor *)

Record monitor := mkMonitor { haproxyPIDFile : string; stopWatching : Z }.

Definition New (haproxyPIDFile : string) : monitor := mkMonitor haproxyPIDFile 0.
Definition StartWatching (m : monitor) : monitor := mkMonitor (haproxyPIDFile m) 0.
Definition StopWatching (m : monitor) : monitor := mkMonitor (haproxyPIDFile m) 1.

Section monitor.
Context `{ProcessTable}.

Definition running (pid : Z) : bool :=
  match FindProcess pid with
  | Some _ => false
  | None => match Signal0 pid with Some _ => false | None => true end
  end.

Definition watchPID (pidFile : string) : M OSState unit :=
  fileBytes ← ReadFile pidFile;
  let data := TrimSpace fileBytes in
  match Atoi data with
  | (_, Some e) => fail (NumError_text "Atoi" data e)
  | (pid, None) =>
      if negb (running pid) then fail ("PID " +:+ Sprintf_d pid +:+ " not found")
      else mret tt
  end.

(** * The loop

    What the [select] of the loop can receive, and the calls other goroutines
    make on the monitor in between.  A tick carries the files of that moment. *)
Inductive monitor_event :=
  | OnSignal (sig : Z)
  | OnTick (os : OSState)
  | CallStart
  | CallStop.

Definition SIGUSR2 : Z := 12.

(** One event: the monitor, and [Run]'s return value if it returns. *)
Definition Run_step (m : monitor) (e : monitor_event) : monitor * option (option error) :=
  match e with
  | OnSignal sig => if negb (sig =? SIGUSR2) then (m, Some None) else (m, None)
  | OnTick os =>
      if stopWatching m =? 0 then
        match (watchPID (haproxyPIDFile m) os).1 with
        | Err err => (m, Some (Some err))
        | Ok _ => (m, None)
        end
      else (m, None)
  | CallStart => (StartWatching m, None)
  | CallStop => (StopWatching m, None)
  end.

Fixpoint Run (m : monitor) (es : list monitor_event) : monitor * option (option error) :=
  match es with
  | [] => (m, None)
  | e :: es' =>
      match Run_step m e with
      | (m', Some r) => (m', Some r)
      | (m', None) => Run m' es'
      end
  end.

(** * Facts *)

Lemma Run_app m es1 es2 :
  Run m (es1 ++ es2) =
  match Run m es1 with (m', Some r) => (m', Some r) | (m', None) => Run m' es2 end.
Proof.
  revert m. induction es1 as [|e es1 IH]; intros m; simpl; [done|].
  destruct (Run_step m e) as [m' [r|]]; [done|apply IH].
Qed.

(** Which event makes [Run] return. *)
Lemma Run_returns m es m' r :
  Run m es = (m', Some r) ↔
  ∃ es1 e es2, es = es1 ++ e :: es2 ∧ ∃ m1, Run m es1 = (m1, None) ∧ Run_step m1 e = (m', Some r).
Proof.
  split.
  - revert m. induction es as [|e es IH]; intros m; simpl; [done|].
    destruct (Run_step m e) as [m1 [r1|]] eqn:He; intros Hr.
    + simplify_eq. exists [], e, es. split; [done|]. by exists m.
    + destruct (IH _ Hr) as (es1 & e' & es2 & -> & m2 & Hm2 & Hstep).
      exists (e :: es1), e', es2. split; [done|]. exists m2. split; [|done]. simpl. by rewrite He.
  - intros (es1 & e & es2 & -> & m1 & H1 & H2). rewrite Run_app, H1. simpl. by rewrite H2.
Qed.

Lemma Run_step_stopped m e :
  stopWatching m ≠ 0 → (∀ sig, e = OnSignal sig → sig = SIGUSR2) → e ≠ CallStart →
  (Run_step m e).2 = None ∧ stopWatching (Run_step m e).1 ≠ 0.
Proof.
  intros Hm Hsig Hstart. destruct e as [sig|os| |]; simpl; [|..|done|done].
  - by rewrite (Hsig sig), Z.eqb_refl.
  - apply Z.eqb_neq in Hm as Hb. by rewrite Hb.
Qed.

Lemma Run_stopped m es :
  stopWatching m ≠ 0 → CallStart ∉ es → (∀ sig, OnSignal sig ∈ es → sig = SIGUSR2) →
  (Run m es).2 = None.
Proof.
  revert m. induction es as [|e es IH]; intros m Hm Hstart Hsig; [done|]. simpl.
  destruct (Run_step_stopped m e) as [Hn Hm'];
    [done|intros sig ->; apply Hsig; by left|intros ->; apply Hstart; by left|].
  destruct (Run_step m e) as [m' r]. simpl in Hn, Hm'. subst r. apply IH; [done|..].
  - intros ?. apply Hstart. by right.
  - intros sig ?. apply Hsig. by right.
Qed.

(** * Properties *)

(** The watch reports no error exactly when the pid file can be read and
    holds, up to white space at the ends, a 64-bit decimal number that is the
    pid of a process that accepts signals. *)
Theorem watchPID_ok (pidFile : string) (os : OSState) :
  (watchPID pidFile os).1 = Ok tt ↔
  ∃ data pid, (ReadFile pidFile os).1 = Ok data ∧ Atoi (TrimSpace data) = (pid, None) ∧
    running pid = true.
Proof.
  unfold watchPID. destruct (ReadFile pidFile os) as [[data|e] os'] eqn:Hr.
  - rewrite (bind_ok _ _ _ _ _ Hr). simpl.
    destruct (Atoi (TrimSpace data)) as [pid [e|]] eqn:Ha; [|destruct (running pid) eqn:Hp]; simpl.
    + split; [done|]. intros (d & p & [= <-] & ? & _). congruence.
    + split; [eauto|done].
    + split; [done|]. intros (d & p & [= <-] & ? & ?). congruence.
  - rewrite (bind_err _ _ _ _ _ Hr). simpl. split; [done|]. by intros (d & p & ? & _).
Qed.

(** C29. The monitor's loop returns an error exactly when some tick comes while
    watching is on, nothing has ended the loop before, and the watch fails at
    that tick; the error is the watch's. *)
Theorem monitor_detects (m : monitor) (es : list monitor_event) (err : error) :
  (Run m es).2 = Some (Some err) ↔
  ∃ es1 os es2 m1, es = es1 ++ OnTick os :: es2 ∧ Run m es1 = (m1, None) ∧
    stopWatching m1 = 0 ∧ (watchPID (haproxyPIDFile m1) os).1 = Err err.
Proof.
  destruct (Run m es) as [m' r] eqn:Hr. simpl. split.
  - intros ->. apply Run_returns in Hr as (es1 & e & es2 & -> & m1 & H1 & H2).
    destruct e as [sig|os| |]; simpl in H2; [by case_match| |done|done].
    destruct (stopWatching m1 =? 0) eqn:Hs; [|done]. bool_simpl.
    destruct (watchPID _ _).1 eqn:Hw; simplify_eq. by exists es1, os, es2, m'.
  - intros (es1 & os & es2 & m1 & -> & H1 & Hs & Hw). rewrite Run_app, H1 in Hr. simpl in Hr.
    rewrite Hs, Hw in Hr. simpl in Hr. by simplify_eq.
Qed.

(** Between a call of [StopWatching] and the next call of [StartWatching]
    nothing but a terminating signal ends the loop, whatever the pid file
    holds meanwhile: a reload of HAProxy cannot bring the router down. *)
Theorem stopped_monitor_survives (m : monitor) (es1 es2 : list monitor_event) :
  (Run m es1).2 = None → CallStart ∉ es2 → (∀ sig, OnSignal sig ∈ es2 → sig = SIGUSR2) →
  (Run m (es1 ++ CallStop :: es2)).2 = None.
Proof.
  intros H1 Hstart Hsig. rewrite Run_app. destruct (Run m es1) as [m1 r1]. simpl in H1. subst r1.
  simpl. by apply Run_stopped.
Qed.

End monitor.

(** A pid file written as the decimal pid, with or without a line break, is
    read back. *)
Lemma watchPID_written `{ProcessTable} pidFile os pid nl :
  0 ≤ pid < 2 ^ 63 → nl = "" ∨ nl = String (ascii_of_nat 10) "" → faults os = [] →
  files os !! pidFile = Some (Sprintf_d pid +:+ nl) →
  (watchPID pidFile os).1 =
  if running pid then Ok tt else Err ("PID " +:+ Sprintf_d pid +:+ " not found").
Proof.
  intros Hp Hnl Hf Hfile. unfold watchPID.
  assert (ReadFile pidFile os = (Ok (Sprintf_d pid +:+ nl), os)) as Hr.
  { destruct os as [fs o flts h]. simpl in *. subst flts. run_call. by rewrite Hfile. }
  rewrite (bind_ok _ _ _ _ _ Hr). simpl.
  assert (TrimSpace (Sprintf_d pid +:+ nl) = Sprintf_d pid) as ->.
  { destruct Hnl as [-> | ->].
    - rewrite app_empty_r. apply TrimSpace_dec, Sprintf_d_dec.
    - apply TrimSpace_dec_line; [apply Sprintf_d_nonempty|apply Sprintf_d_dec]. }
  rewrite Atoi_Sprintf_d by done. by destruct (running pid).
Qed.

(** Reading back a pid: a pid file that holds a process id in decimal,
    with or without a final line break, makes the watch succeed exactly when
    that process runs, and fail with its number otherwise. *)
Theorem pid_file_roundtrip `{ProcessTable} (pidFile : string) (os : OSState) (pid : Z) (nl : string) :
  0 ≤ pid < 2 ^ 63 → nl = "" ∨ nl = String (ascii_of_nat 10) "" → faults os = [] →
  files os !! pidFile = Some (Sprintf_d pid +:+ nl) →
  (watchPID pidFile os).1 =
  if running pid then Ok tt else Err ("PID " +:+ Sprintf_d pid +:+ " not found").
Proof. apply watchPID_written. Qed.

(** * A concrete instance *)
Module Sample.

(** One process, 4711. *)
Instance processes : ProcessTable := {|
  FindProcess := λ _, None;
  Signal0 := λ pid, if pid =? 4711 then None else Some "os: process already finished"
|}.
Definition pid_os (content : string) : OSState := mkOS {[ "/pid" := content ]} 0 [] [].

Lemma pid_file_roundtrip_witness :
  (watchPID "/pid" (pid_os ("4711" +:+ String (ascii_of_nat 10) ""))).1 = Ok tt.
Proof.
  refine (pid_file_roundtrip "/pid" _ 4711 (String (ascii_of_nat 10) "") _ _ _ _);
    [lia|by right|reflexivity|vm_compute; reflexivity].
Defined.

Lemma stopped_monitor_survives_witness :
  (Run (New "/pid") ([OnTick (pid_os "4711")] ++ CallStop ::
     [OnTick (pid_os ""); OnSignal SIGUSR2; OnTick (pid_os "1")])).2 = None.
Proof.
  apply stopped_monitor_survives; [vm_compute; reflexivity|set_solver|].
  intros sig. rewrite !elem_of_cons, elem_of_nil. intros [?|[?|[?|[]]]]; congruence.
Defined.

Example watching_again :
  (Run (New "/pid") [CallStop; OnTick (pid_os ""); CallStart; OnTick (pid_os "4712")]).2
  = Some (Some "PID 4712 not found").
Proof. vm_compute. reflexivity. Qed.

End Sample.
