(* ===== verification/Configurer.v ===== *)
(** [configurer/haproxy/haproxy_configurer.go], [script_runner.go] and
    [configurer/configurer.go]: writing the configuration file and reloading
    HAProxy. *)
From S2P Require Import Prelude GoStrings RoutingTable HAProxyConfig Config OS FileUtils Monitor.
#[local] Open Scope Z_scope.

(** * The interfaces the configurer uses *)

Class ConfigMarshaller := Marshal_text : HAProxyConfig → BackendTLSConfig → string.

(** [ScriptRunner]: the error of a run, given whether the health check has to
    fail and the files the script finds. *)
Record ScriptRunner := mkScriptRunner {
  script_Run : bool → gmap string string → option error
}.

(** ** The command runner

    [exec] is what running a program with an environment gives: its combined
    output and error.  An empty environment is [os/exec]'s nil. *)
Definition runner_env (forceHealthCheckToFail : bool) : list string :=
  if forceHealthCheckToFail then [] ++ ["IS_DRAINING=true"] else [].
Definition CreateCommandRunner (exec : string → list string → gmap string string → string * option error)
    (scriptPath : string) : ScriptRunner :=
  mkScriptRunner (λ forceHealthCheckToFail fs,
    let env := runner_env forceHealthCheckToFail in
    let '(output, err) := exec scriptPath env fs in
    err).

(** * The configurer *)

Record Configurer := mkConfigurer {
  baseConfigFilePath : string;
  configFilePath : string;
  backendTlsCfg : BackendTLSConfig;
  scriptRunner : option ScriptRunner
}.

(** A run of the script: its argument, the files it found, whether the
    monitor was watching, and its error. *)
Record reload := mkReload {
  rl_force : bool;
  rl_files : gmap string string;
  rl_stopWatching : Z;
  rl_error : option error
}.

Record CState := mkCState {
  cs_os : OSState;
  cs_monitor : monitor;
  cs_reloads : list reload
}.

Definition on_os {A} (m : M OSState A) : M CState A :=
  on cs_os (λ os s, mkCState os (cs_monitor s) (cs_reloads s)) m.
Definition on_monitor (f : monitor → monitor) : M CState unit :=
  modify (λ s, mkCState (cs_os s) (f (cs_monitor s)) (cs_reloads s)).

Definition ErrRouterConfigFileNotFound : string := "Configuration file not found".
Definition ErrRouterCAFileNotFound : string := "CA file not found".

(** [path != X && !utils.FileExists(path)], for [X] the empty string. *)
Definition named_missing (path : string) : M OSState bool :=
  if bool_decide (path ≠ "") then b ← FileExists path; mret (negb b) else mret false.

Definition NewHaProxyConfigurer (baseConfigFilePath configFilePath : string)
    (scriptRunner : option ScriptRunner) (backendTlsCfg : BackendTLSConfig) : M OSState Configurer :=
  base_exists ← FileExists baseConfigFilePath;
  if negb base_exists then
    fail (ErrRouterConfigFileNotFound +:+ ": [" +:+ baseConfigFilePath +:+ "]")
  else
  cfg_exists ← FileExists configFilePath;
  if negb cfg_exists then
    fail (ErrRouterConfigFileNotFound +:+ ": [" +:+ configFilePath +:+ "]")
  else
  ca_missing ← named_missing (tls_CACertificatePath backendTlsCfg);
  if (ca_missing : bool) then
    fail (ErrRouterCAFileNotFound +:+ ": [" +:+ tls_CACertificatePath backendTlsCfg +:+ "]")
  else
  crt_missing ← named_missing (tls_ClientCertAndKeyPath backendTlsCfg);
  if (crt_missing : bool) then
    fail (ErrRouterCAFileNotFound +:+ ": [" +:+ tls_ClientCertAndKeyPath backendTlsCfg +:+ "]")
  else
  mret (mkConfigurer baseConfigFilePath configFilePath backendTlsCfg scriptRunner).

Definition backup_path (h : Configurer) : string := configFilePath h +:+ ".bak".
Definition tmp_path (h : Configurer) : string := configFilePath h +:+ ".tmp".

Definition createConfigBackup (h : Configurer) : M OSState unit :=
  cfgContent ← ReadFile (configFilePath h);
  WriteToFile cfgContent (backup_path h).

Definition writeToConfig (h : Configurer) (cfgContent : string) : M OSState unit :=
  _ ← WriteToFile cfgContent (tmp_path h);
  Rename (tmp_path h) (configFilePath h).

Section configurer.
Context `{ModificationTags} `{ConfigMarshaller}.

(** The file part of [Configure]; [bytes.Buffer.Write] returns no error. *)
Definition Configure_write (h : Configurer) (tr : TableRange) (routingTable : RoutingTable) :
    M OSState unit :=
  _ ← createConfigBackup h;
  cfgContent ← ReadFile (baseConfigFilePath h);
  let haproxyConf := (NewHAProxyConfig tr routingTable).1 in
  let marshalledConf := Marshal_text haproxyConf (backendTlsCfg h) in
  writeToConfig h (cfgContent +:+ marshalledConf).

Definition run_script (r : ScriptRunner) (forceHealthCheckToFail : bool) : M CState unit := λ s,
  let err := script_Run r forceHealthCheckToFail (files (cs_os s)) in
  let s' := mkCState (cs_os s) (cs_monitor s)
    (mkReload forceHealthCheckToFail (files (cs_os s)) (stopWatching (cs_monitor s)) err
       :: cs_reloads s) in
  match err with Some e => (Err e, s') | None => (Ok tt, s') end.

Definition Configure_reload (h : Configurer) (forceHealthCheckToFail : bool) : M CState unit :=
  match scriptRunner h with
  | Some r => _ ← run_script r forceHealthCheckToFail; on_monitor StartWatching
  | None => mret tt
  end.

Definition Configure (h : Configurer) (tr : TableRange) (routingTable : RoutingTable)
    (forceHealthCheckToFail : bool) : M CState unit :=
  _ ← on_monitor StopWatching;
  _ ← on_os (Configure_write h tr routingTable);
  Configure_reload h forceHealthCheckToFail.

End configurer.

(** ** [NewConfigurer]

    [logger.Fatal] logs its action and panics. *)
Definition HaProxyConfigurer : string := "HAProxy".

Definition NewConfigurer (tcpLoadBalancer tcpLoadBalancerBaseCfg tcpLoadBalancerCfg : string)
    (scriptRunner : option ScriptRunner) (backendTlsCfg : BackendTLSConfig) (os : OSState) :
    outcome Configurer * OSState :=
  if decide (tcpLoadBalancer = HaProxyConfigurer) then
    match NewHaProxyConfigurer tcpLoadBalancerBaseCfg tcpLoadBalancerCfg scriptRunner backendTlsCfg os with
    | (Err _, os') => (Panicked "could not create tcp load balancer", os')
    | (Ok routerHostInfo, os') => (Returned routerHostInfo, os')
    end
  else (Panicked "not-supported", os).

(** * Facts *)

Lemma app_ne s t : t ≠ "" → s ≠ s +:+ t.
Proof.
  intros Ht Hs. apply Ht. rewrite <-(app_empty_r s) in Hs at 1.
  apply (inj (String.append s)) in Hs. done.
Qed.
Lemma cfg_ne_backup h : configFilePath h ≠ backup_path h.
Proof. by apply app_ne. Qed.
Lemma cfg_ne_tmp h : configFilePath h ≠ tmp_path h.
Proof. by apply app_ne. Qed.
Lemma tmp_ne_backup h : tmp_path h ≠ backup_path h.
Proof. unfold tmp_path, backup_path. intros Ht. apply (inj (String.append _)) in Ht. done. Qed.
#[local] Hint Resolve cfg_ne_backup cfg_ne_tmp tmp_ne_backup not_eq_sym : core.

Lemma named_missing_keeps path : keeps [] (named_missing path).
Proof. unfold named_missing. case_match; [|apply keeps_ret]. apply keeps_bind; [apply FileExists_keeps|]. intros. apply keeps_ret. Qed.
Lemma NewHaProxyConfigurer_keeps base cfg sr tls : keeps [] (NewHaProxyConfigurer base cfg sr tls).
Proof.
  unfold NewHaProxyConfigurer.
  repeat first [apply FileExists_keeps | apply named_missing_keeps | progress keeps_steps].
Qed.
Lemma NewHaProxyConfigurer_fields base cfg sr tls os h os' :
  NewHaProxyConfigurer base cfg sr tls os = (Ok h, os') → h = mkConfigurer base cfg tls sr.
Proof.
  unfold NewHaProxyConfigurer.
  intros [(b1 & s1 & _ & H) | (e & _ & ?)]%bind_inv; [|done]. destruct b1; [|done]. simpl in H.
  apply bind_inv in H as [(b2 & s2 & _ & H) | (e & _ & ?)]; [|done]. destruct b2; [|done]. simpl in H.
  apply bind_inv in H as [(b3 & s3 & _ & H) | (e & _ & ?)]; [|done]. destruct b3; [done|].
  apply bind_inv in H as [(b4 & s4 & _ & H) | (e & _ & ?)]; [|done]. destruct b4; [done|].
  unfold mret, M_ret in H. by simplify_eq.
Qed.
Lemma NewHaProxyConfigurer_calm base cfg sr tls : calm (NewHaProxyConfigurer base cfg sr tls).
Proof.
  unfold NewHaProxyConfigurer, named_missing.
  repeat first [apply FileExists_calm | progress calm_steps].
Qed.
Lemma NewConfigurer_calm lb base cfg sr tls os o os' :
  NewConfigurer lb base cfg sr tls os = (o, os') → faults os = [] → faults os' = [].
Proof.
  unfold NewConfigurer. case_decide; [|by intros; simplify_eq].
  destruct (NewHaProxyConfigurer _ _ _ _ os) as [r os1] eqn:Hn. intros Hr Hfl.
  pose proof (NewHaProxyConfigurer_calm _ _ _ _ _ _ _ Hn Hfl). destruct r; by simplify_eq.
Qed.
Lemma NewConfigurer_returned lb base cfg sr tls os h os' :
  NewConfigurer lb base cfg sr tls os = (Returned h, os') →
  lb = HaProxyConfigurer ∧ h = mkConfigurer base cfg tls sr ∧ files os' = files os.
Proof.
  unfold NewConfigurer. case_decide as Hlb; [|done].
  destruct (NewHaProxyConfigurer _ _ _ _ os) as [[h'|e] os1] eqn:Hn; [|done]. intros [= -> ->].
  split; [done|]. split; [by eapply NewHaProxyConfigurer_fields|].
  eapply keeps_files; [apply NewHaProxyConfigurer_keeps|done].
Qed.

Lemma createConfigBackup_spec h os r os' :
  createConfigBackup h os = (r, os') →
  touches [backup_path h] os os' ∧
  (r = Ok tt → ∃ old, files os !! configFilePath h = Some old ∧
    files os' = <[backup_path h := old]> (files os)).
Proof.
  intros [(old & s1 & H1 & H2) | (e & H1 & ->)]%bind_inv.
  - pose proof (ReadFile_spec _ _ _ _ H1) as (Hf & _ & _ & _ & Hd). split.
    + etrans; [eapply touches_weaken; [|by eapply ReadFile_touches]; set_solver|].
      by eapply WriteToFile_keeps.
    + intros ->. exists old. apply WriteToFile_ok in H2 as [H2 _]. rewrite Hf in H2. split; [|done].
      by apply Hd.
  - split; [|done]. eapply touches_weaken; [|by eapply ReadFile_touches]. set_solver.
Qed.

Lemma writeToConfig_spec h c os r os' :
  writeToConfig h c os = (r, os') →
  match r with
  | Ok _ => ∃ os1, touches [tmp_path h] os os1 ∧
      files os' = <[configFilePath h := c]> (delete (tmp_path h) (files os)) ∧
      history os' = files os' :: history os1
  | Err _ => touches [tmp_path h] os os'
  end.
Proof.
  intros [([] & s1 & H1 & H2) | (e & H1 & ->)]%bind_inv; [|by eapply WriteToFile_keeps].
  pose proof (WriteToFile_keeps _ _ _ _ _ H1) as Ht. apply WriteToFile_ok in H1 as [H1 _].
  apply Rename_spec in H2 as (_ & _ & H2). destruct r as [[]|e].
  - destruct H2 as (data & Hd & Hf & Hh). exists s1. split; [done|]. split; [|done].
    rewrite H1 in Hd, Hf. rewrite lookup_insert_eq in Hd. simplify_eq.
    by rewrite Hf, delete_insert_eq.
  - destruct H2 as [Hf Hh]. etrans; [exact Ht|]. by apply touches_same.
Qed.

Section facts.
Context `{ModificationTags} `{ConfigMarshaller}.

(** The configuration text for a table and a base configuration. *)
Definition config_text (h : Configurer) (tr : TableRange) (t : RoutingTable) (base : string) : string :=
  base +:+ Marshal_text (NewHAProxyConfig tr t).1 (backendTlsCfg h).

Lemma Configure_write_spec h tr t os r os' :
  baseConfigFilePath h ≠ backup_path h →
  Configure_write h tr t os = (r, os') →
  match r with
  | Ok _ => ∃ os1 old base, touches [backup_path h; tmp_path h] os os1 ∧
      files os !! configFilePath h = Some old ∧ files os !! baseConfigFilePath h = Some base ∧
      files os' = <[configFilePath h := config_text h tr t base]>
        (delete (tmp_path h) (<[backup_path h := old]> (files os))) ∧
      history os' = files os' :: history os1
  | Err _ => touches [backup_path h; tmp_path h] os os'
  end.
Proof.
  intros Hne [([] & s1 & H1 & H2) | (e & H1 & ->)]%bind_inv;
    apply createConfigBackup_spec in H1 as [Ht1 Hok1];
    (apply (touches_weaken _ [backup_path h; tmp_path h]) in Ht1; [|set_solver]); [|done].
  destruct Hok1 as (old & Hold & Hf1); [done|].
  apply bind_inv in H2 as [(base & s2 & H2 & H3) | (e & H2 & ->)].
  2:{ etrans; [exact Ht1|]. eapply touches_weaken; [|by eapply ReadFile_touches]. set_solver. }
  pose proof (ReadFile_touches _ _ _ _ H2) as Ht2.
  apply (touches_weaken _ [backup_path h; tmp_path h]) in Ht2; [|set_solver].
  apply ReadFile_spec in H2 as (Hf2 & _ & _ & _ & Hd2). specialize (Hd2 base eq_refl).
  apply writeToConfig_spec in H3. destruct r as [[]|e].
  - destruct H3 as (s3 & Ht3 & Hf3 & Hh3). exists s3, old, base.
    apply (touches_weaken _ [backup_path h; tmp_path h]) in Ht3; [|set_solver].
    split; [etrans; [exact Ht1|]; etrans; [exact Ht2|exact Ht3]|]. split; [done|].
    rewrite Hf1, lookup_insert_ne in Hd2 by done. split; [done|].
    split; [by rewrite Hf3, Hf2, Hf1|done].
  - apply (touches_weaken _ [backup_path h; tmp_path h]) in H3; [|set_solver].
    etrans; [exact Ht1|]. etrans; [exact Ht2|exact H3].
Qed.

Lemma Configure_write_ok h tr t os old base :
  faults os = [] → files os !! configFilePath h = Some old →
  files os !! baseConfigFilePath h = Some base → (Configure_write h tr t os).1 = Ok tt.
Proof.
  intros Hfl Hold Hbase. unfold Configure_write, createConfigBackup, writeToConfig.
  destruct (WriteToFile_no_fault old (backup_path h) os Hfl) as (os1 & H1 & Hfl1 & Hf1).
  assert (∃ b, files os1 !! baseConfigFilePath h = Some b) as [b Hb].
  { rewrite Hf1. destruct (decide (baseConfigFilePath h = backup_path h)) as [->|Hne];
      rewrite ?lookup_insert_eq, ?lookup_insert_ne by done; eauto. }
  destruct (WriteToFile_no_fault (config_text h tr t b) (tmp_path h) os1 Hfl1) as (os2 & H2 & Hfl2 & Hf2).
  destruct (Rename_ok (tmp_path h) (configFilePath h) os2 (config_text h tr t b) Hfl2)
    as (os3 & H3 & _); [by rewrite Hf2, lookup_insert_eq|].
  erewrite bind_ok by (erewrite bind_ok by (by apply ReadFile_ok); exact H1).
  erewrite bind_ok by (by apply ReadFile_ok). cbv zeta.
  erewrite bind_ok by exact H2. by rewrite H3.
Qed.

Lemma Configure_write_calm h tr t : calm (Configure_write h tr t).
Proof.
  unfold Configure_write, createConfigBackup, writeToConfig.
  repeat first [apply WriteToFile_calm | progress calm_steps].
Qed.

(** One call of [Configure], by where it stops. *)
Lemma Configure_cases h tr t force s r s' :
  Configure h tr t force s = (r, s') →
  ∃ rw os', Configure_write h tr t (cs_os s) = (rw, os') ∧
    match rw with
    | Err e => r = Err e ∧ s' = mkCState os' (StopWatching (cs_monitor s)) (cs_reloads s)
    | Ok _ =>
        match scriptRunner h with
        | None => r = Ok tt ∧ s' = mkCState os' (StopWatching (cs_monitor s)) (cs_reloads s)
        | Some sr =>
            let err := script_Run sr force (files os') in
            r = match err with Some e => Err e | None => Ok tt end ∧
            s' = mkCState os'
              (match err with Some _ => StopWatching (cs_monitor s) | None => StartWatching (cs_monitor s) end)
              (mkReload force (files os') 1 err :: cs_reloads s)
        end
    end.
Proof.
  unfold Configure, Configure_reload, on_monitor, on_os, on, run_script, modify, mbind, M_bind, mret, M_ret.
  simpl. destruct (Configure_write h tr t (cs_os s)) as [[[]|e] os'] eqn:Hw; intros Hc.
  - exists (Ok tt), os'. split; [done|].
    destruct (scriptRunner h) as [sr|]; simpl in *; [|by simplify_eq].
    destruct (script_Run sr force (files os')); simpl in *; by simplify_eq.
  - exists (Err e), os'. split; [done|]. by simplify_eq.
Qed.

Lemma Configure_ok h tr t force s :
  faults (cs_os s) = [] →
  is_Some (files (cs_os s) !! configFilePath h) → is_Some (files (cs_os s) !! baseConfigFilePath h) →
  (∀ sr fs, scriptRunner h = Some sr → script_Run sr force fs = None) →
  (Configure h tr t force s).1 = Ok tt.
Proof.
  intros Hfl [old Hold] [base Hbase] Hsr.
  destruct (Configure h tr t force s) as [r s'] eqn:Hc. simpl.
  apply Configure_cases in Hc as (rw & os' & Hw & Hr).
  pose proof (Configure_write_ok h tr t (cs_os s) old base Hfl Hold Hbase) as Hok.
  rewrite Hw in Hok. simpl in Hok. subst rw.
  destruct (scriptRunner h) as [sr|] eqn:Hs; destruct Hr as [-> _]; [|done].
  by rewrite (Hsr sr).
Qed.

End facts.

(** * Properties *)

Section properties.
Context `{ModificationTags} `{ConfigMarshaller}.

(** C21. A call of [Configure] that returns no error has put the base
    configuration followed by the marshalled routing table in the
    configuration file and the file's old content in its [.bak]; the [.tmp] is
    gone and no other file has changed.  If there is a script, it ran once, on
    the new file and with the monitor not watching, and the monitor watches
    again; without a script the monitor stays stopped. *)
Theorem configure_success h tr t force s s' :
  baseConfigFilePath h ≠ backup_path h →
  Configure h tr t force s = (Ok tt, s') →
  ∃ old base,
    files (cs_os s) !! configFilePath h = Some old ∧
    files (cs_os s) !! baseConfigFilePath h = Some base ∧
    files (cs_os s') = <[configFilePath h := config_text h tr t base]>
      (delete (tmp_path h) (<[backup_path h := old]> (files (cs_os s)))) ∧
    match scriptRunner h with
    | Some sr => cs_reloads s' = mkReload force (files (cs_os s')) 1 None :: cs_reloads s ∧
                 stopWatching (cs_monitor s') = 0
    | None => cs_reloads s' = cs_reloads s ∧ stopWatching (cs_monitor s') = 1
    end.
Proof.
  intros Hne (rw & os' & Hw & Hr)%Configure_cases. apply Configure_write_spec in Hw; [|done].
  destruct rw as [u|e]; [|by destruct Hr]. destruct Hw as (os1 & old & base & _ & Hold & Hbase & Hf & _).
  exists old, base. destruct (scriptRunner h) as [sr|]; destruct Hr as [Hr ->]; simpl; [|done].
  destruct (script_Run sr force (files os')); [done|]. done.
Qed.

(** What is on the disk at every moment of a call. *)
Lemma Configure_moments h tr t force s r s' :
  baseConfigFilePath h ≠ backup_path h →
  Configure h tr t force s = (r, s') →
  ∃ new, history (cs_os s') = new ++ history (cs_os s) ∧
    Forall (λ fs, fs !! configFilePath h = files (cs_os s) !! configFilePath h ∨
      ∃ base, files (cs_os s) !! baseConfigFilePath h = Some base ∧
        fs !! configFilePath h = Some (config_text h tr t base)) new.
Proof.
  intros Hne (rw & os' & Hw & Hr)%Configure_cases. apply Configure_write_spec in Hw; [|done].
  assert (cs_os s' = os') as ->.
  { destruct rw; [destruct (scriptRunner h)|]; by destruct Hr as [_ ->]. }
  assert (∀ fs, same_outside [backup_path h; tmp_path h] (files (cs_os s)) fs →
    fs !! configFilePath h = files (cs_os s) !! configFilePath h) as Hcfg.
  { intros fs Hfs. apply Hfs. rewrite !elem_of_cons, elem_of_nil.
    intros [Hc|[Hc|[]]]; [by eapply cfg_ne_backup|by eapply cfg_ne_tmp]. }
  destruct rw as [u|e].
  - destruct Hw as (os1 & old & base & [(n & Hn & Hall) _] & _ & Hbase & Hf & Hh).
    exists (files os' :: n). rewrite Hh, Hn. split; [done|]. constructor.
    + right. exists base. split; [done|]. by rewrite Hf, lookup_insert_eq.
    + eapply Forall_impl; [exact Hall|]. intros fs Hfs. left. by apply Hcfg.
  - destruct Hw as [(n & Hn & Hall) _]. exists n. split; [done|].
    eapply Forall_impl; [exact Hall|]. intros fs Hfs. left. by apply Hcfg.
Qed.

(** The file a call leaves, whatever happens. *)
Lemma Configure_files h tr t force s r s' :
  baseConfigFilePath h ≠ backup_path h →
  Configure h tr t force s = (r, s') →
  files (cs_os s') !! configFilePath h = files (cs_os s) !! configFilePath h ∨
  ∃ base, files (cs_os s) !! baseConfigFilePath h = Some base ∧
    files (cs_os s') !! configFilePath h = Some (config_text h tr t base).
Proof.
  intros Hne (rw & os' & Hw & Hr)%Configure_cases. apply Configure_write_spec in Hw; [|done].
  assert (cs_os s' = os') as ->.
  { destruct rw; [destruct (scriptRunner h)|]; by destruct Hr as [_ ->]. }
  destruct rw as [u|e].
  - destruct Hw as (os1 & old & base & _ & _ & Hbase & Hf & _). right. exists base. by rewrite Hf, lookup_insert_eq.
  - destruct Hw as [_ Hs]. left. apply Hs. rewrite !elem_of_cons, elem_of_nil.
    intros [Hc|[Hc|[]]]; [by eapply cfg_ne_backup|by eapply cfg_ne_tmp].
Qed.

(** Crash safety: at every moment of a call of [Configure], whatever
    system calls fail and wherever the process may die, the configuration file
    is the old one, or the base configuration followed by the complete
    marshalled table. *)
Theorem configure_crash_safe h tr t force s r s' :
  baseConfigFilePath h ≠ backup_path h →
  Configure h tr t force s = (r, s') →
  ∃ new, history (cs_os s') = new ++ history (cs_os s) ∧
    Forall (λ fs, fs !! configFilePath h = files (cs_os s) !! configFilePath h ∨
      ∃ base, files (cs_os s) !! baseConfigFilePath h = Some base ∧
        fs !! configFilePath h = Some (config_text h tr t base)) new.
Proof. apply Configure_moments. Qed.

(** C22. A call of [Configure] that returns an error leaves the monitor
    stopped.  Either the script did not run and the configuration file is the
    old one, or the new file is in place and the error is the script's. *)
Theorem configure_error h tr t force s e s' :
  baseConfigFilePath h ≠ backup_path h →
  Configure h tr t force s = (Err e, s') →
  stopWatching (cs_monitor s') = 1 ∧
  (cs_reloads s' = cs_reloads s ∧
     files (cs_os s') !! configFilePath h = files (cs_os s) !! configFilePath h ∨
   cs_reloads s' = mkReload force (files (cs_os s')) 1 (Some e) :: cs_reloads s ∧
     ∃ base, files (cs_os s) !! baseConfigFilePath h = Some base ∧
       files (cs_os s') !! configFilePath h = Some (config_text h tr t base)).
Proof.
  intros Hne (rw & os' & Hw & Hr)%Configure_cases. apply Configure_write_spec in Hw; [|done].
  destruct rw as [u|e'].
  - destruct Hw as (os1 & old & base & _ & _ & Hbase & Hf & _).
    destruct (scriptRunner h) as [sr|]; [|by destruct Hr]. destruct Hr as [Hr ->].
    destruct (script_Run sr force (files os')) as [e'|]; [|done]. simplify_eq. split; [done|].
    right. split; [done|]. exists base. simpl. by rewrite Hf, lookup_insert_eq.
  - destruct Hr as [Hr ->]. split; [done|]. left. split; [done|]. simpl.
    destruct Hw as [_ Hw]. apply Hw. rewrite !elem_of_cons, elem_of_nil.
    intros [Hc|[Hc|[]]]; [by eapply cfg_ne_backup|by eapply cfg_ne_tmp].
Qed.

(** When no system call fails, both files exist and the script, if any,
    succeeds on every file system, [Configure] succeeds. *)
Theorem configure_succeeds h tr t force s :
  faults (cs_os s) = [] →
  is_Some (files (cs_os s) !! configFilePath h) → is_Some (files (cs_os s) !! baseConfigFilePath h) →
  (∀ sr fs, scriptRunner h = Some sr → script_Run sr force fs = None) →
  (Configure h tr t force s).1 = Ok tt.
Proof. apply Configure_ok. Qed.

(** The constructor checks its files in order: without faults it returns
    a configurer exactly when the base file, the configuration file and the
    two TLS files that are named exist, and otherwise names the first one
    missing. *)
Theorem new_configurer_checks base cfg sr tls fs n hist :
  (NewHaProxyConfigurer base cfg sr tls (mkOS fs n [] hist)).1 =
  if negb (bool_decide (is_Some (fs !! base))) then
    Err ("Configuration file not found: [" +:+ base +:+ "]")
  else if negb (bool_decide (is_Some (fs !! cfg))) then
    Err ("Configuration file not found: [" +:+ cfg +:+ "]")
  else if bool_decide (tls_CACertificatePath tls ≠ "")
          && negb (bool_decide (is_Some (fs !! tls_CACertificatePath tls))) then
    Err ("CA file not found: [" +:+ tls_CACertificatePath tls +:+ "]")
  else if bool_decide (tls_ClientCertAndKeyPath tls ≠ "")
          && negb (bool_decide (is_Some (fs !! tls_ClientCertAndKeyPath tls))) then
    Err ("CA file not found: [" +:+ tls_ClientCertAndKeyPath tls +:+ "]")
  else Ok (mkConfigurer base cfg tls sr).
Proof.
  assert (∀ p, FileExists p (mkOS fs n [] hist) =
    (Ok (bool_decide (is_Some (fs !! p))), mkOS fs n [] hist)) as He.
  { intros p. unfold FileExists. run_call. by destruct (fs !! p). }
  unfold NewHaProxyConfigurer.
  rewrite (bind_ok _ _ _ _ _ (He base)). case_match; [done|].
  rewrite (bind_ok _ _ _ _ _ (He cfg)). case_match; [done|].
  assert (∀ p, named_missing p (mkOS fs n [] hist) =
    (Ok (bool_decide (p ≠ "") && negb (bool_decide (is_Some (fs !! p)))), mkOS fs n [] hist)) as Hm.
  { intros p. unfold named_missing. destruct (bool_decide (p ≠ "")); [|done]. by rewrite (bind_ok _ _ _ _ _ (He p)). }
  rewrite (bind_ok _ _ _ _ _ (Hm _)). case_match; [done|].
  rewrite (bind_ok _ _ _ _ _ (Hm _)). by case_match.
Qed.

End properties.

(** * A concrete instance *)
Module Sample.
Import RoutingTable.Sample HAProxyConfig.Sample.

(** A marshaller that prints the number of ports, and a script that fails
    when it has to make the health check fail. *)
#[export] Instance count_ports : ConfigMarshaller := λ conf _, Sprintf_d (Z.of_nat (size conf)).
Definition sample_runner : ScriptRunner :=
  mkScriptRunner (λ force _, if force then Some "exit status 1" else None).
Definition sample_configurer : Configurer :=
  mkConfigurer "/base" "/cfg" (mkBackendTLSConfig false "" "") (Some sample_runner).
Definition sample_fs : gmap string string := {[ "/base" := "global "; "/cfg" := "old" ]}.
Definition sample_state (flts : list (option fault)) : CState :=
  mkCState (mkOS sample_fs 0 flts []) (New "/pid") [].
Definition disk_full : fault := mkFault "no space left on device" false 3.

Lemma configure_success_witness :
  files (cs_os (Configure sample_configurer plain_range table2 false (sample_state [])).2) =
  {[ "/base" := "global "; "/cfg" := "global 1"; "/cfg.bak" := "old" ]}.
Proof.
  destruct (configure_success sample_configurer plain_range table2 false (sample_state [])
    (Configure sample_configurer plain_range table2 false (sample_state [])).2)
    as (old & base & Hold & Hbase & Hf & _); [done|vm_compute; reflexivity|].
  rewrite Hf. injection Hold as <-. injection Hbase as <-. vm_compute. reflexivity.
Defined.

(** The write of the temporary file runs out of space half-way. *)
Definition full_disk_run : result unit * CState :=
  Configure sample_configurer plain_range table2 false
    (sample_state [None; None; None; None; None; None; Some disk_full]).
Lemma configure_crash_safe_witness :
  ∃ new, history (cs_os full_disk_run.2) = new ++ [] ∧
    Forall (λ fs, fs !! "/cfg" = Some "old" ∨ ∃ base, Some "global " = Some base ∧
      fs !! "/cfg" = Some (config_text sample_configurer plain_range table2 base)) new.
Proof.
  exact (configure_crash_safe sample_configurer plain_range table2 false
    (sample_state [None; None; None; None; None; None; Some disk_full])
    full_disk_run.1 full_disk_run.2 ltac:(done) ltac:(vm_compute; reflexivity)).
Defined.
Example full_disk_result :
  full_disk_run.1 = Err "no space left on device" ∧
  files (cs_os full_disk_run.2) !! "/cfg" = Some "old" ∧
  files (cs_os full_disk_run.2) !! "/cfg.tmp" = Some "glo".
Proof. vm_compute. done. Qed.

Definition failing_reload : CState :=
  (Configure sample_configurer plain_range table2 true (sample_state [])).2.
Lemma configure_error_witness : stopWatching (cs_monitor failing_reload) = 1.
Proof.
  apply (configure_error sample_configurer plain_range table2 true (sample_state []) "exit status 1"
    failing_reload); [done|vm_compute; reflexivity].
Defined.

Lemma configure_succeeds_witness :
  (Configure sample_configurer plain_range table2 false (sample_state [])).1 = Ok tt.
Proof.
  apply configure_succeeds; [reflexivity|by eexists|by eexists|].
  intros sr fs Hsr. injection Hsr as <-. reflexivity.
Defined.

End Sample.
