(* ===== verification/ConfigureConc.v ===== *)
(** Calls of [Configure] by several goroutines at once ([Drain] calls it
    without the updater's lock): [configurer/haproxy/haproxy_configurer.go]
    lines 59 to 108, cut where the lock and the monitor's flag are touched. *)
From S2P Require Import Prelude GoStrings RoutingTable HAProxyConfig Config OS FileUtils Monitor Configurer.
#[local] Open Scope Z_scope.

Section conc.
Context `{ModificationTags} `{ConfigMarshaller}.
Context (h : Configurer) (tr : TableRange) (jobs : list (RoutingTable * bool)).

(** * Goroutines

    Where a call is: before [StopWatching], before [Lock], before the files
    are written, before the script, before [StartWatching], before the
    deferred [Unlock], returned. *)
Inductive call_pc :=
  | CStopping
  | CLocking
  | CWriting
  | CReloading
  | CStarting
  | CUnlocking (r : result unit)
  | CDone (r : result unit).

Record calls := mkCalls {
  c_state : CState;
  c_holder : option nat;
  c_pcs : list call_pc
}.

Definition calls_start (s : CState) : calls := mkCalls s None (replicate (length jobs) CStopping).

(** One step of one call on the shared state; the files and the reloads are
    touched under the lock only. *)
Definition call_step (job : RoutingTable * bool) (pc : call_pc) (s : CState) : call_pc * CState :=
  match pc with
  | CStopping => (CLocking, (on_monitor StopWatching s).2)
  | CLocking => (CWriting, s)
  | CWriting =>
      match on_os (Configure_write h tr job.1) s with
      | (Ok _, s) => (CReloading, s)
      | (Err e, s) => (CUnlocking (Err e), s)
      end
  | CReloading =>
      match scriptRunner h with
      | None => (CUnlocking (Ok tt), s)
      | Some r =>
          match run_script r job.2 s with
          | (Ok _, s) => (CStarting, s)
          | (Err e, s) => (CUnlocking (Err e), s)
          end
      end
  | CStarting => (CUnlocking (Ok tt), (on_monitor StartWatching s).2)
  | CUnlocking r => (CDone r, s)
  | CDone r => (CDone r, s)
  end.

Definition step_call (c : calls) (i : nat) : option calls :=
  job ← jobs !! i;
  pc ← c_pcs c !! i;
  let '(pc', s) := call_step job pc (c_state c) in
  let pcs := <[i := pc']> (c_pcs c) in
  match pc with
  | CLocking => match c_holder c with None => Some (mkCalls s (Some i) pcs) | Some _ => None end
  | CUnlocking _ => Some (mkCalls s None pcs)
  | CDone _ => None
  | _ => Some (mkCalls s (c_holder c) pcs)
  end.

Fixpoint run_calls (c : calls) (ls : list nat) : option calls :=
  match ls with
  | [] => Some c
  | i :: ls' => c' ← step_call c i; run_calls c' ls'
  end.

Definition all_done (c : calls) : Prop := ∀ i pc, c_pcs c !! i = Some pc → ∃ r, pc = CDone r.

(** One call after the other. *)
Definition run_job (s : CState) (i : nat) : CState :=
  match jobs !! i with Some job => (Configure h tr job.1 job.2 s).2 | None => s end.
Definition run_jobs (order : list nat) (s : CState) : CState := foldl run_job s order.

Definition is_done (pc : call_pc) : bool := match pc with CDone _ => true | _ => false end.

(** * What does not depend on the monitor's flag *)

Definition reload_seen (r : reload) : bool * gmap string string * option error :=
  (rl_force r, rl_files r, rl_error r).
Definition view : Type := OSState * list (bool * gmap string string * option error).
Definition view_of (s : CState) : view := (cs_os s, reload_seen <$> cs_reloads s).

Definition job_view (job : RoutingTable * bool) (v : view) : result unit * view :=
  let '(rw, os') := Configure_write h tr job.1 v.1 in
  match rw with
  | Err e => (Err e, (os', v.2))
  | Ok _ =>
      match scriptRunner h with
      | None => (Ok tt, (os', v.2))
      | Some sr =>
          let err := script_Run sr job.2 (files os') in
          (match err with Some e => Err e | None => Ok tt end, (os', (job.2, files os', err) :: v.2))
      end
  end.

Lemma Configure_view job s :
  ((Configure h tr job.1 job.2 s).1, view_of (Configure h tr job.1 job.2 s).2) = job_view job (view_of s).
Proof.
  destruct (Configure h tr job.1 job.2 s) as [r s'] eqn:Hc.
  apply Configure_cases in Hc as (rw & os' & Hw & Hr). unfold job_view, view_of at 2 3. simpl. rewrite Hw.
  destruct rw as [u|e]; [|by destruct Hr as [-> ->]].
  destruct (scriptRunner h) as [sr|]; by destruct Hr as [-> ->].
Qed.

Definition views (order : list nat) (v : view) : view :=
  foldl (λ v i, match jobs !! i with Some job => (job_view job v).2 | None => v end) v order.
Lemma run_jobs_view order s : view_of (run_jobs order s) = views order (view_of s).
Proof.
  revert s. induction order as [|i order IH]; intros s; [done|]. simpl. rewrite IH. f_equal.
  unfold run_job. destruct (jobs !! i) as [job|]; [|done].
  pose proof (Configure_view job s) as Hv. by rewrite <-Hv.
Qed.

(** * The invariant

    [order] lists the calls that have taken the lock, in order. *)

Definition in_section (pc : call_pc) (job : RoutingTable * bool) (prev now : view) : Prop :=
  match pc with
  | CWriting => now = prev
  | CReloading => ∃ u os', Configure_write h tr job.1 prev.1 = (Ok u, os') ∧ now = (os', prev.2)
  | CStarting => job_view job prev = (Ok tt, now)
  | CUnlocking r => job_view job prev = (r, now)
  | _ => False
  end.
Definition outside (pc : call_pc) : bool :=
  match pc with CStopping | CLocking => true | _ => false end.

Record calls_inv (v0 : view) (order : list nat) (c : calls) : Prop := {
  ci_length : length (c_pcs c) = length jobs;
  ci_nodup : NoDup order;
  ci_jobs : ∀ i, i ∈ order → is_Some (jobs !! i);
  ci_pcs : ∀ i pc, c_pcs c !! i = Some pc → c_holder c ≠ Some i →
    (outside pc = true ∧ i ∉ order) ∨
    (∃ r job o1 o2, pc = CDone r ∧ order = o1 ++ i :: o2 ∧ jobs !! i = Some job ∧ r = (job_view job (views o1 v0)).1);
  ci_holder : match c_holder c with
    | None => view_of (c_state c) = views order v0
    | Some i => ∃ o pc job, order = o ++ [i] ∧ c_pcs c !! i = Some pc ∧ jobs !! i = Some job ∧
        in_section pc job (views o v0) (view_of (c_state c))
    end
}.

Lemma view_of_monitor f s : view_of (on_monitor f s).2 = view_of s.
Proof. done. Qed.

Lemma call_step_section job pc s prev :
  in_section pc job prev (view_of s) → (∀ r, pc ≠ CUnlocking r) →
  in_section (call_step job pc s).1 job prev (view_of (call_step job pc s).2).
Proof.
  destruct pc; simpl; intros Hin Hne; try done.
  - unfold on_os, on. subst prev. destruct (Configure_write h tr job.1 (cs_os s)) as [[u|e] os'] eqn:Hw; simpl.
    + exists u, os'. split; [exact Hw|done].
    + unfold job_view. simpl. by rewrite Hw.
  - destruct Hin as (u & os' & Hw & Hv).
    destruct (scriptRunner h) as [sr|] eqn:Hsr; [|cbn [in_section fst snd]; unfold job_view; by rewrite Hw, Hsr, Hv].
    unfold view_of in Hv. injection Hv as Hv1 Hv2. unfold run_script.
    destruct (script_Run sr job.2 (files (cs_os s))) as [e|] eqn:Hrun; cbn [in_section fst snd];
      unfold job_view, view_of; rewrite Hw, Hsr, <-Hv1, Hrun; cbn [cs_os cs_reloads];
      by rewrite fmap_cons, Hv2.
  - by destruct (Hne r).
Qed.

Lemma views_snoc o i job v :
  jobs !! i = Some job → views (o ++ [i]) v = (job_view job (views o v)).2.
Proof. intros Hj. unfold views. rewrite foldl_app. simpl. by rewrite Hj. Qed.

(** A call that is neither in the section nor returned moves on. *)
Lemma calls_inv_outside v0 order c i pc' s' :
  calls_inv v0 order c → c_holder c ≠ Some i → i ∉ order → outside pc' = true →
  view_of s' = view_of (c_state c) →
  calls_inv v0 order (mkCalls s' (c_holder c) (<[i := pc']> (c_pcs c))).
Proof.
  intros [Hlen Hnd Hj Hpcs Hh] Hi Hni Hout Hv. split; simpl; [by rewrite length_insert|done|done| |].
  - intros k pc Hk Hhk. apply list_lookup_insert_Some in Hk as [(<- & <- & _)|[Hne Hk]]; [by left|by apply Hpcs].
  - rewrite Hv. destruct (c_holder c) as [k|]; [|done].
    destruct Hh as (o & pc & job & Ho & Hk & Hjk & Hin). exists o, pc, job. split; [done|]. split; [|done].
    rewrite list_lookup_insert_ne; [done|]. congruence.
Qed.

Lemma step_call_inv v0 order c i c' :
  calls_inv v0 order c → step_call c i = Some c' → ∃ order', calls_inv v0 order' c'.
Proof.
  intros Hinv Hs. unfold step_call in Hs.
  destruct (jobs !! i) as [job|] eqn:Hjob; [|done]. destruct (c_pcs c !! i) as [pc|] eqn:Hpc; [|done].
  simpl in Hs. pose proof (ci_holder _ _ _ Hinv) as Hh.
  destruct (decide (c_holder c = Some i)) as [Hi|Hi].
  - rewrite Hi in Hh. destruct Hh as (o & pc0 & job0 & Ho & Hpc0 & Hjob0 & Hin). simplify_eq.
    destruct Hinv as [Hlen Hnd Hj Hpcs _].
    assert (∀ k pc', k ≠ i → c_pcs c !! k = Some pc' → c_holder c ≠ Some k) as Hother by congruence.
    assert (i < length (c_pcs c))%nat as Hlt by (eapply lookup_lt_Some; done).
    destruct (call_step job pc (c_state c)) as [pc' s'] eqn:Hstep.
    destruct (match pc with CUnlocking _ => true | _ => false end) eqn:Hun.
    + destruct pc as [| | | | |r|]; try done. simpl in Hstep. simplify_eq.
      exists (o ++ [i]). split; simpl; [by rewrite length_insert|done|done| |].
      * intros k pc Hk _. apply list_lookup_insert_Some in Hk as [(<- & <- & _)|[Hne Hk]].
        -- right. exists r, job, o, []. simpl in Hin. by rewrite Hin.
        -- apply Hpcs; [done|]. by eapply Hother.
      * rewrite (views_snoc _ _ job) by done. simpl in Hin. by rewrite Hin.
    + pose proof (call_step_section job pc (c_state c) (views o v0) Hin) as Hin'. rewrite Hstep in Hin'.
      assert (c' = mkCalls s' (Some i) (<[i:=pc']> (c_pcs c))) as ->.
      { rewrite Hi in Hs. destruct pc; try done; by simplify_eq. }
      exists (o ++ [i]). split; simpl; [by rewrite length_insert|done|done| |].
      * intros k pc1 Hk Hki. apply list_lookup_insert_Some in Hk as [(<- & _)|[Hne Hk]]; [done|].
        apply Hpcs; [done|]. by eapply Hother.
      * exists o, pc', job. split; [done|]. rewrite list_lookup_insert_eq by done. split; [done|]. split; [done|].
        apply Hin'. intros r ->. done.
  - destruct (ci_pcs _ _ _ Hinv i pc Hpc Hi) as [[Hout Hni]|(r & _ & _ & _ & -> & _)]; [|done].
    destruct pc; try done; simpl in Hs.
    + simplify_eq. exists order. by apply calls_inv_outside.
    + destruct (c_holder c) eqn:Hho; [done|]. simplify_eq. exists (order ++ [i]).
      destruct Hinv as [Hlen Hnd Hj Hpcs _]. split; simpl; [by rewrite length_insert| | | |].
      * apply NoDup_app. split; [done|]. split; [|apply NoDup_singleton]. intros k Hk ->%list_elem_of_singleton. done.
      * intros k [Hk|Hk]%elem_of_app; [by apply Hj|]. apply list_elem_of_singleton in Hk as ->. by eexists.
      * intros k pc Hk Hki. apply list_lookup_insert_Some in Hk as [(<- & _)|[Hne Hk]]; [done|].
        rewrite Hho in Hpcs. destruct (Hpcs k pc Hk ltac:(done)) as [[? Hk']|(r & job' & o1 & o2 & -> & -> & ? & ?)].
        -- left. split; [done|]. intros [?|?%list_elem_of_singleton]%elem_of_app; [done|congruence].
        -- right. exists r, job', o1, (o2 ++ [i]). by rewrite <-app_assoc.
      * exists order, CWriting, job. split; [done|].
        rewrite list_lookup_insert_eq by (eapply lookup_lt_Some; done). done.
Qed.

Lemma run_calls_inv v0 order c ls c' :
  calls_inv v0 order c → run_calls c ls = Some c' → ∃ order', calls_inv v0 order' c'.
Proof.
  revert order c. induction ls as [|i ls IH]; intros order c Hinv Hr; simpl in Hr; [simplify_eq; eauto|].
  destruct (step_call c i) as [c1|] eqn:Hs; [|done]. destruct (step_call_inv _ _ _ _ _ Hinv Hs) as [order1 Hinv1].
  by eapply IH.
Qed.

Lemma calls_start_inv s : calls_inv (view_of s) [] (calls_start s).
Proof.
  split; simpl; [by rewrite length_replicate|constructor| | |done].
  - intros i Hi. by apply elem_of_nil in Hi.
  - intros i pc Hpc _. apply lookup_replicate in Hpc as [-> _]. left. split; [done|]. apply not_elem_of_nil.
Qed.

(** ** Progress *)

(** The steps a call has left at most. *)
Definition pc_left (pc : call_pc) : nat :=
  match pc with
  | CStopping => 6 | CLocking => 5 | CWriting => 4 | CReloading => 3 | CStarting => 2
  | CUnlocking _ => 1 | CDone _ => 0
  end.
Definition calls_left (c : calls) : nat := sum_list (pc_left <$> c_pcs c).

Lemma call_step_left job pc s :
  (∀ r, pc ≠ CDone r) → (S (pc_left (call_step job pc s).1) ≤ pc_left pc)%nat.
Proof.
  destruct pc; simpl; intros Hne; try lia.
  - destruct (on_os _ s) as [[u|e] s']; simpl; lia.
  - destruct (scriptRunner h); [|simpl; lia]. destruct (run_script _ _ _) as [[u|e] s']; simpl; lia.
  - by destruct (Hne r).
Qed.

Lemma sum_list_insert (l : list nat) i x y :
  l !! i = Some x → (sum_list (<[i := y]> l) + x = sum_list l + y)%nat.
Proof.
  revert i. induction l as [|z l IH]; intros [|i] Hi; simpl in *; simplify_eq; [lia|].
  specialize (IH _ Hi). lia.
Qed.

Lemma step_call_shape c i c' :
  step_call c i = Some c' →
  ∃ job pc, jobs !! i = Some job ∧ c_pcs c !! i = Some pc ∧ (∀ r, pc ≠ CDone r) ∧
    c_pcs c' = <[i := (call_step job pc (c_state c)).1]> (c_pcs c) ∧
    c_state c' = (call_step job pc (c_state c)).2.
Proof.
  unfold step_call. destruct (jobs !! i) as [job|]; [|done]. destruct (c_pcs c !! i) as [pc|]; [|done]. simpl.
  intros Hs. exists job, pc. destruct (call_step job pc (c_state c)) as [pc' s']. split; [done|]. split; [done|].
  destruct pc; repeat case_match; simplify_eq; done.
Qed.

Lemma step_call_left c i c' : step_call c i = Some c' → (S (calls_left c') ≤ calls_left c)%nat.
Proof.
  intros (job & pc & _ & Hpc & Hne & Hpcs & _)%step_call_shape. unfold calls_left. rewrite Hpcs, list_fmap_insert.
  pose proof (sum_list_insert (pc_left <$> c_pcs c) i (pc_left pc) (pc_left (call_step job pc (c_state c)).1)) as Hsum.
  rewrite list_lookup_fmap, Hpc in Hsum. specialize (Hsum eq_refl).
  pose proof (call_step_left job pc (c_state c) Hne). lia.
Qed.

Lemma run_calls_left c ls c' : run_calls c ls = Some c' → (length ls + calls_left c' ≤ calls_left c)%nat.
Proof.
  revert c. induction ls as [|i ls IH]; intros c Hr; simpl in Hr; [simplify_eq; simpl; lia|].
  destruct (step_call c i) as [c1|] eqn:Hs; [|done]. apply step_call_left in Hs. specialize (IH _ Hr). simpl. lia.
Qed.

(** ** The monitor's flag

    The flag is touched before the lock is taken and under it: the last call
    to touch it decides. *)
Definition under_way (pc : call_pc) : Prop :=
  match pc with CLocking | CWriting | CReloading | CStarting => True | _ => False end.
Definition leaves_stopped (pc : call_pc) : Prop :=
  match pc with
  | CUnlocking r | CDone r => match r with Err _ => True | Ok _ => scriptRunner h = None end
  | _ => under_way pc
  end.
Definition leaves_watching (pc : call_pc) : Prop :=
  match pc with CUnlocking r | CDone r => r = Ok tt | _ => False end.
Definition flag_inv (m0 : monitor) (c : calls) : Prop :=
  let m := cs_monitor (c_state c) in
  haproxyPIDFile m = haproxyPIDFile m0 ∧
  (Forall (eq CStopping) (c_pcs c) ∧ m = m0 ∨
   stopWatching m = 0 ∧ Exists leaves_watching (c_pcs c) ∨
   stopWatching m = 1 ∧ Exists leaves_stopped (c_pcs c)).

(** The two steps on the flag, and the others. *)
Definition touches_flag (pc : call_pc) : bool := match pc with CStopping | CStarting => true | _ => false end.
Lemma call_step_flag job pc s :
  touches_flag pc = false →
  cs_monitor (call_step job pc s).2 = cs_monitor s ∧
  (leaves_stopped pc → leaves_stopped (call_step job pc s).1) ∧
  (leaves_watching pc → leaves_watching (call_step job pc s).1).
Proof.
  destruct pc; simpl; try done; intros _.
  - unfold on_os, on. by destruct (Configure_write _ _ _ _) as [[u|e] os'].
  - destruct (scriptRunner h) as [sr|] eqn:Hsr; [|done]. unfold run_script.
    destruct (script_Run sr job.2 (files (cs_os s))); simpl; by rewrite ?Hsr.
Qed.

Lemma step_call_flag m0 c i c' : flag_inv m0 c → step_call c i = Some c' → flag_inv m0 c'.
Proof.
  intros [Hfile Hflag] (job & pc & _ & Hpc & _ & Hpcs & Hst)%step_call_shape. unfold flag_inv.
  rewrite Hpcs, Hst.
  destruct (touches_flag pc) eqn:Htouch.
  { destruct pc; try done; cbn; (split; [done|]); right; [right|left]; (split; [done|]);
      by eapply Exists_insert_new. }
  destruct (call_step_flag job pc (c_state c) Htouch) as (-> & Hs & Hw). split; [done|].
  destruct Hflag as [[Hall _]|[[? ?]|[? ?]]].
  - by rewrite <-(Forall_lookup_1 _ _ _ _ Hall Hpc) in Htouch.
  - right. left. split; [done|]. by eapply Exists_insert_keep.
  - right. right. split; [done|]. by eapply Exists_insert_keep.
Qed.
Lemma run_calls_flag ls s c : run_calls (calls_start s) ls = Some c → flag_inv (cs_monitor s) c.
Proof.
  assert (flag_inv (cs_monitor s) (calls_start s)) as Hstart
    by (split; [done|]; left; split; [by apply Forall_replicate|done]).
  revert Hstart. generalize (calls_start s). induction ls as [|i ls IH]; intros c0 Hinit Hr; simpl in Hr; [by simplify_eq|].
  destruct (step_call c0 i) as [c1|] eqn:Hs; [|done]. eapply IH; [|exact Hr]. by eapply step_call_flag.
Qed.

Lemma flag_at_end m0 c :
  flag_inv m0 c → all_done c → c_pcs c ≠ [] → is_Some (scriptRunner h) →
  let flag := stopWatching (cs_monitor (c_state c)) in
  ((∀ i r, c_pcs c !! i = Some (CDone r) → r = Ok tt) → flag = 0) ∧
  ((∀ i r, c_pcs c !! i = Some (CDone r) → r ≠ Ok tt) → flag = 1).
Proof.
  intros [_ Hflag] Hdone Hne [sr Hsr]. cbv zeta.
  assert (∀ P, Exists P (c_pcs c) → ∃ i r, c_pcs c !! i = Some (CDone r) ∧ P (CDone r)) as Hex.
  { intros P (pc & [i Hi]%list_elem_of_lookup_1 & HP)%Exists_exists. destruct (Hdone _ _ Hi) as [r ->]. eauto. }
  destruct Hflag as [[Hall _]|[[-> (i & r & Hi & Hr)%Hex]|[-> (i & r & Hi & Hr)%Hex]]].
  - exfalso. destruct (c_pcs c) as [|pc pcs] eqn:Hpcs; [done|]. apply Forall_cons in Hall as [<- _].
    destruct (Hdone 0%nat CStopping) as [r ?]; [by rewrite Hpcs|done].
  - split; [done|]. intros Hno. by destruct (Hno i r Hi).
  - split; [|done]. intros Hok. rewrite (Hok i r Hi) in Hr. simpl in Hr. congruence.
Qed.

(** Where no call can fail, the watch is off only while a call is under way. *)
Section no_failures.
Context (Q : OSState → Prop) (Hrun : is_Some (scriptRunner h)).
Context (Hwrite : ∀ t os, Q os → ∃ u os', Configure_write h tr t os = (Ok u, os') ∧ Q os').
Context (Hscript : ∀ sr force fs, scriptRunner h = Some sr → script_Run sr force fs = None).

Definition no_error (pc : call_pc) : Prop :=
  match pc with CUnlocking r | CDone r => r = Ok tt | _ => True end.
Definition no_errors (c : calls) : Prop := Q (cs_os (c_state c)) ∧ Forall no_error (c_pcs c).

Lemma call_step_no_error job pc s :
  Q (cs_os s) → no_error pc → Q (cs_os (call_step job pc s).2) ∧ no_error (call_step job pc s).1.
Proof.
  intros HQ. destruct pc; simpl; try done.
  - destruct (Hwrite job.1 _ HQ) as (u & os' & Hw & HQ'). unfold on_os, on. by rewrite Hw.
  - destruct (scriptRunner h) as [sr|] eqn:Hsr; [|done]. unfold run_script. by rewrite (Hscript sr).
Qed.
Lemma run_calls_no_errors ls c c' : no_errors c → run_calls c ls = Some c' → no_errors c'.
Proof.
  revert c. induction ls as [|i ls IH]; intros c Hc Hr; simpl in Hr; [by simplify_eq|].
  destruct (step_call c i) as [c1|] eqn:Hs; [|done]. eapply IH; [|exact Hr]. destruct Hc as [HQ Hall].
  apply step_call_shape in Hs as (job & pc & _ & Hpc & _ & Hpcs & Hst).
  destruct (call_step_no_error job pc (c_state c) HQ (Forall_lookup_1 _ _ _ _ Hall Hpc)).
  split; [by rewrite Hst|]. rewrite Hpcs. by apply Forall_insert.
Qed.

Lemma run_calls_watched ls s c :
  Q (cs_os s) → stopWatching (cs_monitor s) = 0 → run_calls (calls_start s) ls = Some c →
  haproxyPIDFile (cs_monitor (c_state c)) = haproxyPIDFile (cs_monitor s) ∧
  (stopWatching (cs_monitor (c_state c)) = 0 ∨ Exists under_way (c_pcs c)).
Proof.
  intros HQ Hinit Hr. apply run_calls_flag in Hr as Hf. destruct Hf as [Hfile Hf]. split; [done|].
  destruct (run_calls_no_errors ls (calls_start s) c) as [_ Hok];
    [split; [done|by apply Forall_replicate]|done|].
  destruct Hf as [[_ ->]|[[? _]|[_ Hex]]]; [by left..|right].
  apply Exists_exists in Hex as (pc & Hin & Hpc). apply Exists_exists. exists pc. split; [done|].
  rewrite Forall_forall in Hok. specialize (Hok pc Hin).
  destruct Hrun as [sr Hsr]. destruct pc; simpl in *; subst; try done; congruence.
Qed.
End no_failures.

(** * Properties *)

(** C36. Calls of [Configure] that overlap, with their writes, reloads and lock,
    leave the files, the sequence of writes, the runs of the script (their
    argument, the files they saw and their error) and the results of the same
    calls made one after the other, in the order in which they took the lock.
    The flag of the monitor is not protected by the lock and what it is while a
    reload runs depends on the interleaving; in the end the monitor watches
    if all calls succeeded and is stopped if all failed. *)
Theorem configures_serialize (s : CState) (ls : list nat) (c : calls) :
  run_calls (calls_start s) ls = Some c → all_done c →
  ∃ order, order ≡ₚ seq 0 (length jobs) ∧
    cs_os (c_state c) = cs_os (run_jobs order s) ∧
    reload_seen <$> cs_reloads (c_state c) = reload_seen <$> cs_reloads (run_jobs order s) ∧
    (∀ i r, c_pcs c !! i = Some (CDone r) → ∃ o1 o2 job, order = o1 ++ i :: o2 ∧ jobs !! i = Some job ∧
      r = (Configure h tr job.1 job.2 (run_jobs o1 s)).1) ∧
    (jobs ≠ [] → is_Some (scriptRunner h) →
      let flag := stopWatching (cs_monitor (c_state c)) in
      ((∀ i r, c_pcs c !! i = Some (CDone r) → r = Ok tt) → flag = 0) ∧
      ((∀ i r, c_pcs c !! i = Some (CDone r) → r ≠ Ok tt) → flag = 1)).
Proof.
  intros Hr Hdone. pose proof (run_calls_flag _ _ _ Hr) as Hflag. destruct (run_calls_inv _ _ _ _ _ (calls_start_inv s) Hr) as [order [Hlen Hnd Hj Hpcs Hh]].
  assert (c_holder c = None) as Hnone.
  { destruct (c_holder c) as [i|]; [|done]. destruct Hh as (o & pc & job & _ & Hpc & _ & Hin).
    destruct (Hdone _ _ Hpc) as [r ->]. done. }
  rewrite Hnone in Hh, Hpcs. exists order.
  assert (∀ i r, c_pcs c !! i = Some (CDone r) → ∃ o1 o2 job, order = o1 ++ i :: o2 ∧ jobs !! i = Some job ∧
    r = (job_view job (views o1 (view_of s))).1) as Hres.
  { intros i r Hi. destruct (Hpcs i _ Hi ltac:(done)) as [[? _]|(r' & job & o1 & o2 & ? & ? & ? & ?)]; [done|].
    simplify_eq. eauto 10. }
  split; [|rewrite <-run_jobs_view in Hh; injection Hh as Ho Hrl; split; [done|split; [done|split]]].
  - apply NoDup_Permutation; [done|apply NoDup_seq|]. intros i. rewrite elem_of_seq. split.
    + intros Hi%Hj. apply lookup_lt_is_Some in Hi. lia.
    + intros [_ Hi]. simpl in Hi. rewrite <-Hlen in Hi. apply lookup_lt_is_Some in Hi as [pc Hpc].
      destruct (Hdone _ _ Hpc) as [r ->]. destruct (Hres _ _ Hpc) as (o1 & o2 & job & -> & _).
      apply elem_of_app. right. apply list_elem_of_here.
  - intros i r Hi. destruct (Hres _ _ Hi) as (o1 & o2 & job & -> & Hjob & ->). exists o1, o2, job.
    split; [done|]. split; [done|]. by rewrite <-run_jobs_view, <-Configure_view.
  - intros Hne Hsr. apply (flag_at_end _ _ Hflag Hdone); [|done]. intros Hnil. rewrite Hnil in Hlen. by destruct jobs.
Qed.

(** C37. Overlapping calls cannot block each other: as long as a call has not
    returned some call can go on, and after six steps for each call all have
    returned. *)
Theorem configures_return (s : CState) (ls : list nat) (c : calls) :
  run_calls (calls_start s) ls = Some c →
  (length ls ≤ 6 * length jobs)%nat ∧ (all_done c ∨ ∃ i c', step_call c i = Some c').
Proof.
  intros Hr. split.
  - apply run_calls_left in Hr. unfold calls_left in Hr at 2. simpl in Hr.
    assert (∀ n, sum_list (pc_left <$> replicate n CStopping) = (6 * n)%nat) as Hsum.
    { induction n as [|n IHn]; [done|].
      rewrite replicate_S, fmap_cons. change (sum_list (?x :: ?l)) with (x + sum_list l)%nat. rewrite IHn. cbn [pc_left]. lia. }
    rewrite Hsum in Hr. lia.
  - destruct (run_calls_inv _ _ _ _ _ (calls_start_inv s) Hr) as [order [Hlen _ _ Hpcs Hh]].
    destruct (c_holder c) as [i|] eqn:Hho.
    { right. destruct Hh as (o & pc & job & _ & Hpc & Hjob & Hin). exists i. unfold step_call.
      rewrite Hjob, Hpc. simpl. destruct (call_step job pc (c_state c)). destruct pc; eauto; done. }
    destruct (decide (Forall (λ pc, is_done pc = true) (c_pcs c))) as [Hall|Hsome].
    { left. intros i pc Hpc. rewrite Forall_lookup in Hall. specialize (Hall _ _ Hpc). destruct pc; simpl in Hall; try done. eauto. }
    right. apply not_Forall_Exists in Hsome; [|apply _].
    apply Exists_exists in Hsome as (pc & Hin & Hpc). apply list_elem_of_lookup in Hin as [i Hi].
    exists i. unfold step_call. rewrite Hi, Hho.
    assert (is_Some (jobs !! i)) as [job ->] by (apply lookup_lt_is_Some; rewrite <-Hlen; by eapply lookup_lt_Some).
    simpl. destruct (call_step job pc (c_state c)). destruct pc; eauto. by destruct Hpc.
Qed.

End conc.

(** * Concrete runs *)
Module Sample.
Import RoutingTable.Sample Configurer.Sample.

Definition two_jobs : list (RoutingTable * bool) := [(table2, false); (NewRoutingTable, true)].
(** The second call has set the flag already when the first one starts
    the watch again; then it writes the file and reloads. *)
Definition overlap : list nat := [0; 0; 1; 0; 0; 0; 0; 1; 1; 1; 1]%nat.
Definition overlapped : option calls :=
  run_calls sample_configurer plain_range two_jobs (calls_start two_jobs (sample_state [])) overlap.
Definition overlap_end : calls := default (calls_start two_jobs (sample_state [])) overlapped.

Lemma overlap_run :
  run_calls sample_configurer plain_range two_jobs (calls_start two_jobs (sample_state [])) overlap = Some overlap_end.
Proof.
  unfold overlap_end, overlapped. destruct (run_calls _ _ _ _ overlap) as [c|] eqn:Hr; [done|].
  exfalso. revert Hr. assert (is_Some (run_calls sample_configurer plain_range two_jobs
    (calls_start two_jobs (sample_state [])) overlap)) as [c ->]; [|done].
  assert (∀ o : option calls, (match o with Some _ => true | None => false end) = true → is_Some o) as Hsome
    by (intros [?|]; [by eexists|done]).
  apply Hsome. vm_compute. reflexivity.
Qed.
Lemma overlap_done : all_done overlap_end.
Proof.
  assert (forallb is_done (c_pcs overlap_end) = true) as Hall by (vm_compute; reflexivity).
  intros i pc Hpc. rewrite forallb_forall in Hall. apply list_elem_of_lookup_2, list_elem_of_In, Hall in Hpc.
  destruct pc; try done. eauto.
Qed.

Lemma configures_serialize_witness :
  ∃ order, order ≡ₚ [0; 1]%nat ∧
    cs_os (c_state overlap_end) = cs_os (run_jobs sample_configurer plain_range two_jobs order (sample_state [])).
Proof.
  destruct (configures_serialize sample_configurer plain_range two_jobs (sample_state []) overlap overlap_end
    overlap_run overlap_done) as (order & Ho & Hos & _).
  exists order. split; [exact Ho|exact Hos].
Defined.

Lemma configures_return_witness : (length overlap ≤ 12)%nat.
Proof.
  apply (configures_return sample_configurer plain_range two_jobs (sample_state []) overlap overlap_end overlap_run).
Defined.

(** The flag is not protected by the lock: the second reload runs while the
    monitor watches, and when its script fails the monitor keeps watching,
    which no sequence of the two calls leads to. *)
Theorem overlapping_reload_is_watched :
  rl_stopWatching <$> cs_reloads (c_state overlap_end) = [0; 1] ∧
  c_pcs overlap_end = [CDone (Ok tt); CDone (Err "exit status 1")] ∧
  stopWatching (cs_monitor (c_state overlap_end)) = 0 ∧
  stopWatching (cs_monitor (run_jobs sample_configurer plain_range two_jobs [0; 1]%nat (sample_state []))) = 1.
Proof. repeat split; vm_compute; reflexivity. Qed.

End Sample.
