(* ===== verification/Updater.v ===== *)
(** [routing_table/updater.go]: the routing table kept up to date by events
    and bulk syncs, and the configurer called when it changes. *)
From S2P Require Import Prelude GoStrings RoutingTable.
#[local] Open Scope Z_scope.

(** * The routing API

    A route mapping and an event of the routing API's client library, and what
    the updater calls of the client and of the token fetcher; [api_state] is
    whatever state these keep. *)

Section api_data.
Context {tags : ModificationTags}.

Record TcpRouteMapping := mkTcpRouteMapping {
  rm_ExternalPort : Z;
  rm_SniHostname : option string;
  rm_HostIP : string;
  rm_HostPort : Z;
  rm_HostTLSPort : Z;
  rm_InstanceId : string;
  rm_ModificationTag : ModificationTag;
  rm_TTL : option Z
}.

Record TcpEvent := mkTcpEvent {
  ev_TcpRouteMapping : TcpRouteMapping;
  ev_Action : string
}.

End api_data.

Class RoutingAPI {tags : ModificationTags} := {
  api_state : Type;
  FetchToken : bool → api_state → result string * api_state;
  SetToken : string → api_state → api_state;
  TcpRouteMappings : api_state → result (list TcpRouteMapping) * api_state
}.

(** [configurer.RouterConfigurer], with the state it works on. *)
Class RouterConfigurer {tags : ModificationTags} := {
  conf_state : Type;
  router_Configure : RoutingTable → bool → conf_state → option error * conf_state
}.

Section updater.
Context {tags : ModificationTags} {api : RoutingAPI} {rc : RouterConfigurer}.

(** * State

    [u_readings] counts the readings of the clock [time_Now] so far, and
    [u_configured] lists the calls of the configurer, the latest first, with
    the table they were given. *)

Record UState := mkUState {
  u_routingTable : RoutingTable;
  u_syncing : bool;
  u_cachedEvents : list TcpEvent;
  u_isDraining : bool;
  u_defaultTTL : Z;
  u_api : api_state;
  u_conf : conf_state;
  u_readings : nat;
  u_configured : list (RoutingTable * bool)
}.

Context (time_Now : nat → Z).

Definition NewUpdater (routingTable : RoutingTable) (defaultTTL : Z) (a : api_state) (c : conf_state) :
    UState := mkUState routingTable false [] false defaultTTL a c 0 [].

Definition set_table (t : RoutingTable) (s : UState) : UState :=
  mkUState t (u_syncing s) (u_cachedEvents s) (u_isDraining s) (u_defaultTTL s) (u_api s) (u_conf s)
    (u_readings s) (u_configured s).
Definition set_sync (b : bool) (es : list TcpEvent) (s : UState) : UState :=
  mkUState (u_routingTable s) b es (u_isDraining s) (u_defaultTTL s) (u_api s) (u_conf s)
    (u_readings s) (u_configured s).
Definition set_api (a : api_state) (s : UState) : UState :=
  mkUState (u_routingTable s) (u_syncing s) (u_cachedEvents s) (u_isDraining s) (u_defaultTTL s) a
    (u_conf s) (u_readings s) (u_configured s).
Definition set_draining (s : UState) : UState :=
  mkUState (u_routingTable s) (u_syncing s) (u_cachedEvents s) true (u_defaultTTL s) (u_api s)
    (u_conf s) (u_readings s) (u_configured s).
Definition add_readings (n : nat) (s : UState) : UState :=
  mkUState (u_routingTable s) (u_syncing s) (u_cachedEvents s) (u_isDraining s) (u_defaultTTL s)
    (u_api s) (u_conf s) (u_readings s + n)%nat (u_configured s).

(** [u.configurer.Configure] on a table and a flag; on the updater's own. *)
Definition call_configurer_with (t : RoutingTable) (draining : bool) (s : UState) : option error * UState :=
  let '(err, c) := router_Configure t draining (u_conf s) in
  (err, mkUState (u_routingTable s) (u_syncing s) (u_cachedEvents s) (u_isDraining s) (u_defaultTTL s)
    (u_api s) c (u_readings s) ((t, draining) :: u_configured s)).
Definition call_configurer (s : UState) : option error * UState :=
  call_configurer_with (u_routingTable s) (u_isDraining s) s.

(** * Events *)

Definition toRoutingTableEntry (routeMapping : TcpRouteMapping) : RoutingKey * BackendServerInfo :=
  let hostname :=
    match rm_SniHostname routeMapping with Some h => h | None => "" end in
  let routingKey := mkRoutingKey (rm_ExternalPort routeMapping) hostname in
  let ttl := match rm_TTL routeMapping with Some ttl => ttl | None => 0 end in
  (routingKey,
   mkBackendServerInfo (rm_HostIP routeMapping) (rm_HostPort routeMapping) (rm_HostTLSPort routeMapping)
     (rm_InstanceId routeMapping) (rm_ModificationTag routeMapping) ttl).

Definition handleUpsert (routeMapping : TcpRouteMapping) (s : UState) : (bool * option error) * UState :=
  let '(routingKey, backendServerInfo) := toRoutingTableEntry routeMapping in
  let '(t, tableChanged) :=
    UpsertBackendServerKey (u_routingTable s) routingKey backendServerInfo (time_Now (u_readings s)) in
  let s := add_readings 1 (set_table t s) in
  if tableChanged && negb (u_syncing s) then
    let '(err, s) := call_configurer s in ((true, err), s)
  else ((tableChanged, None), s).

Definition handleDelete (routeMapping : TcpRouteMapping) (s : UState) : (bool * option error) * UState :=
  let '(routingKey, backendServerInfo) := toRoutingTableEntry routeMapping in
  let '(t, tableChanged) :=
    DeleteBackendServerKey (u_routingTable s) routingKey backendServerInfo (time_Now (u_readings s)) in
  let s := add_readings 1 (set_table t s) in
  if tableChanged && negb (u_syncing s) then
    let '(err, s) := call_configurer s in ((true, err), s)
  else ((tableChanged, None), s).

Definition handleEvent (event : TcpEvent) (s : UState) : (bool * option error) * UState :=
  let action := ev_Action event in
  if decide (action = "Upsert") then handleUpsert (ev_TcpRouteMapping event) s
  else if decide (action = "Delete") then handleDelete (ev_TcpRouteMapping event) s
  else ((false, Some ("unknown-event-action:" +:+ action)), s).

Definition HandleEvent (event : TcpEvent) (s : UState) : option error * UState :=
  if u_syncing s then
    (None, set_sync (u_syncing s) (u_cachedEvents s ++ [event]) s)
  else
    let '((_, err), s) := handleEvent event s in (err, s).

Definition applyCachedEvents_step (acc : bool * UState) (e : TcpEvent) : bool * UState :=
  let '(tableChanged, s) := acc in
  let '((changeTriggered, _), s) := handleEvent e s in
  (if changeTriggered then true else tableChanged, s).
Definition applyCachedEvents (s : UState) : bool * UState :=
  foldl applyCachedEvents_step (false, s) (u_cachedEvents s).

(** * Pruning *)

Definition PruneStaleRoutes (tr : TableRange) (s : UState) : UState :=
  let '(t, n) := PruneEntries tr (u_routingTable s) (u_defaultTTL s)
    (λ i, time_Now (u_readings s + i)%nat) in
  add_readings n (set_table t s).

(** * Bulk sync *)

(** The first locked region. *)
Definition Sync_begin (s : UState) : UState := set_sync true [] s.

(** The loop over the two attempts.  [None] where the code returns, otherwise
    the route mappings and the error the loop leaves behind. *)
Fixpoint Sync_fetch (attempts : nat) (useCachedToken : bool) (err : option error) (s : UState) :
    option (list TcpRouteMapping * option error) * UState :=
  match attempts with
  | O => (Some ([], err), s)
  | S attempts' =>
      let '(token, a) := FetchToken (negb useCachedToken) (u_api s) in
      match token with
      | Err _ => (None, set_api a s)
      | Ok token =>
          let a := SetToken token a in
          let '(mappings, a) := TcpRouteMappings a in
          let s := set_api a s in
          match mappings with
          | Err e =>
              if bool_decide (e = "unauthorized") then Sync_fetch attempts' false (Some e) s
              else (None, s)
          | Ok mappings => (Some (mappings, None), s)
          end
      end
  end.

(** The loop over the fetched mappings: the state, the fresh table and the
    flag. *)
Definition Sync_merge_step (acc : UState * RoutingTable * bool) (routeMapping : TcpRouteMapping) :
    UState * RoutingTable * bool :=
  let '(s, freshRoutingTable, tableChanged) := acc in
  let '(routingKey, backendServerInfo) := toRoutingTableEntry routeMapping in
  let '(t, changed) :=
    UpsertBackendServerKey (u_routingTable s) routingKey backendServerInfo (time_Now (u_readings s)) in
  let '(freshRoutingTable, _) :=
    UpsertBackendServerKey freshRoutingTable routingKey backendServerInfo (time_Now (S (u_readings s))) in
  (add_readings 2 (set_table t s), freshRoutingTable, if changed then true else tableChanged).

Definition Sync_replace (acc : UState * RoutingTable * bool) : UState * bool :=
  let '(s, freshRoutingTable, tableChanged) := acc in
  if decide (Size freshRoutingTable ≠ Size (u_routingTable s)) then
    (set_table (mkRoutingTable (Entries freshRoutingTable)) s, true)
  else (s, tableChanged).

Definition Sync_merge (mappings : list TcpRouteMapping) (s : UState) : UState * bool :=
  Sync_replace (foldl Sync_merge_step (s, NewRoutingTable, false) mappings).

(** The deferred locked region; the configurer's error is dropped. *)
Definition Sync_end (tableChanged : bool) (s : UState) : UState :=
  let '(applied, s) := applyCachedEvents s in
  let tableChanged := if applied then true else tableChanged in
  let s := if tableChanged then (call_configurer s).2 else s in
  set_sync false [] s.

(** The unlocked part between the two regions. *)
Definition Sync_body (s : UState) : UState * bool :=
  match Sync_fetch 2 true None s with
  | (Some (mappings, None), s) => Sync_merge mappings s
  | (_, s) => (s, false)
  end.

Definition Sync (s : UState) : UState :=
  let '(s, tableChanged) := Sync_body (Sync_begin s) in
  Sync_end tableChanged s.

(** The flags, read under the lock. *)
Definition Syncing (s : UState) : bool := u_syncing s.
Definition IsDraining (s : UState) : bool := u_isDraining s.

(** * Draining

    One pass of [Drain] when no sync is in progress; the poll that waits for
    that, and the sleep at the end, change nothing. *)
Definition Drain (s : UState) : option error * UState :=
  if IsDraining s then (None, s)
  else call_configurer (set_draining s).

(** * Specification *)

(** What an event asks of the table, with the reading of the clock it uses. *)
Definition event_op (e : TcpEvent) (now : Z) : option table_op :=
  let '(rk, info) := toRoutingTableEntry (ev_TcpRouteMapping e) in
  if decide (ev_Action e = "Upsert") then Some (OpUpsert rk info now)
  else if decide (ev_Action e = "Delete") then Some (OpDelete rk info now)
  else None.

(** An event on a table, with the number of readings of the clock so far. *)
Definition apply_event (acc : RoutingTable * nat) (e : TcpEvent) : RoutingTable * nat :=
  match event_op e (time_Now acc.2) with
  | Some op => ((run_op acc.1 op).1, S acc.2)
  | None => acc
  end.

(** The table HAProxy was last configured with has the backends of the
    current one. *)
Definition configured_table (s : UState) : RoutingTable :=
  match u_configured s with (t, _) :: _ => t | [] => NewRoutingTable end.
Definition in_sync (s : UState) : Prop := same_backends (configured_table s) (u_routingTable s).

(** Events delivered one after the other. *)
Definition HandleEvents (es : list TcpEvent) (s : UState) : UState :=
  foldl (λ s e, (HandleEvent e s).2) s es.

(** A sync during whose unlocked part the events [es] arrive. *)
Definition Sync_during (es : list TcpEvent) (s : UState) : UState :=
  let '(s, tableChanged) := Sync_body (Sync_begin s) in
  Sync_end tableChanged (HandleEvents es s).

(** * Facts *)

Lemma handleEvent_eq e s :
  handleEvent e s =
  match event_op e (time_Now (u_readings s)) with
  | None => ((false, Some ("unknown-event-action:" +:+ ev_Action e)), s)
  | Some op =>
      let s1 := add_readings 1 (set_table (run_op (u_routingTable s) op).1 s) in
      if (run_op (u_routingTable s) op).2 && negb (u_syncing s)
      then ((true, (call_configurer s1).1), (call_configurer s1).2)
      else (((run_op (u_routingTable s) op).2, None), s1)
  end.
Proof.
  unfold handleEvent, event_op. destruct (toRoutingTableEntry _) as [rk info] eqn:Hm.
  unfold handleUpsert, handleDelete. rewrite Hm.
  repeat case_decide; simpl; [| |done].
  - destruct (UpsertBackendServerKey _ _ _ _) as [t ch]; simpl.
    destruct (ch && negb (u_syncing s)); [|done]. by destruct (call_configurer _).
  - destruct (DeleteBackendServerKey _ _ _ _) as [t ch]; simpl.
    destruct (ch && negb (u_syncing s)); [|done]. by destruct (call_configurer _).
Qed.

Lemma call_configurer_with_state t draining s :
  (call_configurer_with t draining s).2 =
  mkUState (u_routingTable s) (u_syncing s) (u_cachedEvents s) (u_isDraining s) (u_defaultTTL s)
    (u_api s) (router_Configure t draining (u_conf s)).2 (u_readings s) ((t, draining) :: u_configured s).
Proof. unfold call_configurer_with. by destruct (router_Configure _ _ _). Qed.
Lemma call_configurer_state s :
  (call_configurer s).2 =
  mkUState (u_routingTable s) (u_syncing s) (u_cachedEvents s) (u_isDraining s) (u_defaultTTL s)
    (u_api s) (router_Configure (u_routingTable s) (u_isDraining s) (u_conf s)).2 (u_readings s)
    ((u_routingTable s, u_isDraining s) :: u_configured s).
Proof. apply call_configurer_with_state. Qed.

Lemma in_sync_configured s : in_sync (call_configurer s).2.
Proof. rewrite call_configurer_state. unfold in_sync, configured_table. simpl. reflexivity. Qed.

(** One event while a sync is in progress: only the table and the clock move. *)
Lemma handleEvent_syncing e s :
  u_syncing s = true →
  (handleEvent e s).2 =
  add_readings ((apply_event (u_routingTable s, u_readings s) e).2 - u_readings s)
    (set_table (apply_event (u_routingTable s, u_readings s) e).1 s) ∧
  ((handleEvent e s).1.1 = false →
   same_backends (apply_event (u_routingTable s, u_readings s) e).1 (u_routingTable s)).
Proof.
  intros Hs. rewrite handleEvent_eq, Hs. unfold apply_event; simpl.
  destruct (event_op e _) as [op|]; simpl.
  - rewrite andb_false_r. simpl. replace (S (u_readings s) - u_readings s)%nat with 1%nat by lia.
    split; [done|]. apply run_op_same_backends.
  - split; [|done]. destruct s. unfold add_readings, set_table. simpl. f_equal. lia.
Qed.

(** The fields a sync's end leaves alone. *)
Definition same_setup (s s' : UState) : Prop :=
  u_isDraining s' = u_isDraining s ∧ u_defaultTTL s' = u_defaultTTL s ∧
  u_conf s' = u_conf s ∧ u_configured s' = u_configured s.

#[local] Instance same_setup_trans : Transitive same_setup.
Proof. intros s1 s2 s3 (?&?&?&?) (?&?&?&?). repeat split; congruence. Qed.

Lemma applyCachedEvents_spec_gen es b s :
  u_syncing s = true →
  let r := foldl applyCachedEvents_step (b, s) es in
  u_routingTable r.2 = (foldl apply_event (u_routingTable s, u_readings s) es).1 ∧
  u_syncing r.2 = true ∧ same_setup s r.2 ∧ u_api r.2 = u_api s ∧
  (b = true → r.1 = true) ∧
  (r.1 = false → same_backends (u_routingTable r.2) (u_routingTable s)).
Proof.
  revert b s. induction es as [|e es IH]; intros b s Hs; simpl.
  { repeat split; auto; reflexivity. }
  destruct (handleEvent_syncing e s Hs) as [H1 H2].
  destruct (handleEvent e s) as [[ch err] s1] eqn:He. simpl in H1, H2.
  set (acc := apply_event (u_routingTable s, u_readings s) e) in *.
  assert (u_readings s1 = acc.2) as Hn.
  { rewrite H1. simpl. assert (u_readings s ≤ acc.2)%nat; [|lia].
    unfold acc, apply_event. simpl. case_match; simpl; lia. }
  assert (u_routingTable s1 = acc.1) as Ht by (by rewrite H1).
  destruct (IH (if ch then true else b) s1) as (IHt & IHs & IHsetup & IHapi & IHb & IHsame);
    [by rewrite H1|].
  rewrite Ht, Hn in IHt. destruct acc as [t n]. simpl in *.
  split; [done|]. split; [done|].
  assert (same_setup s s1 ∧ u_api s1 = u_api s) as [Hsetup Hapi] by (by rewrite H1).
  split; [by etrans|]. split; [congruence|]. split.
  - intros ->. apply IHb. by destruct ch.
  - intros Hr. rewrite IHsame by done. rewrite Ht. apply H2.
    destruct ch; [|done]. rewrite (IHb eq_refl) in Hr. done.
Qed.

Lemma applyCachedEvents_spec s :
  u_syncing s = true →
  let r := applyCachedEvents s in
  u_routingTable r.2 = (foldl apply_event (u_routingTable s, u_readings s) (u_cachedEvents s)).1 ∧
  u_syncing r.2 = true ∧ same_setup s r.2 ∧ u_api r.2 = u_api s ∧
  (r.1 = false → same_backends (u_routingTable r.2) (u_routingTable s)).
Proof.
  intros Hs. destruct (applyCachedEvents_spec_gen (u_cachedEvents s) false s Hs) as (?&?&?&?&?&?). auto.
Qed.

(** The end of a sync. *)
Lemma Sync_end_spec ch s :
  u_syncing s = true →
  let s' := Sync_end ch s in
  u_routingTable s' = (foldl apply_event (u_routingTable s, u_readings s) (u_cachedEvents s)).1 ∧
  u_syncing s' = false ∧ u_cachedEvents s' = [] ∧ u_isDraining s' = u_isDraining s ∧
  u_defaultTTL s' = u_defaultTTL s ∧ u_api s' = u_api s ∧
  (u_configured s' = u_configured s ∧ u_conf s' = u_conf s ∧ ch = false ∧
     same_backends (u_routingTable s') (u_routingTable s) ∨
   u_configured s' = (u_routingTable s', u_isDraining s) :: u_configured s ∧
     u_conf s' = (router_Configure (u_routingTable s') (u_isDraining s) (u_conf s)).2).
Proof.
  intros Hs. unfold Sync_end.
  destruct (applyCachedEvents_spec s Hs) as (Ht & Hsy & (Hd & Httl & Hc & Hconf) & Hapi & Hsame).
  destruct (applyCachedEvents s) as [applied s1]. simpl in *.
  destruct (if applied then true else ch) eqn:Hch.
  - rewrite call_configurer_state. simpl. rewrite Hd, Hc, Hconf. repeat split; try done. by right.
  - destruct applied; [done|]. simpl. repeat split; try done. left. by auto.
Qed.

(** Events that arrive while a sync is in progress are cached in order. *)
Lemma HandleEvents_syncing es s :
  u_syncing s = true → HandleEvents es s = set_sync true (u_cachedEvents s ++ es) s.
Proof.
  revert s. induction es as [|e es IH]; intros s Hs.
  - rewrite app_nil_r. unfold set_sync. rewrite <-Hs. by destruct s.
  - unfold HandleEvents in *. cbn [foldl]. unfold HandleEvent at 2. rewrite Hs. simpl.
    rewrite IH by done. unfold set_sync. simpl. by rewrite <-app_assoc.
Qed.

(** ** The fetch and the merge *)

Lemma Sync_fetch_state n cached err s : (Sync_fetch n cached err s).2 = set_api (u_api (Sync_fetch n cached err s).2) s.
Proof.
  revert cached err s. induction n as [|n IH]; intros cached err s; simpl; [by destruct s|].
  destruct (FetchToken _ _) as [[token|e] a]; [|done].
  destruct (TcpRouteMappings _) as [[ms|e] a']; [done|].
  case_bool_decide; [|done]. by rewrite IH.
Qed.

(** The routes and the backends a list of mappings names. *)
Definition mapping_target (m : TcpRouteMapping) : RoutingKey * BackendServerKey :=
  ((toRoutingTableEntry m).1, info_key (toRoutingTableEntry m).2).

Lemma Sync_merge_step_eq s fresh ch m :
  Sync_merge_step (s, fresh, ch) m =
  let '(rk, info) := toRoutingTableEntry m in
  let r := UpsertBackendServerKey (u_routingTable s) rk info (time_Now (u_readings s)) in
  (add_readings 2 (set_table r.1 s),
   (UpsertBackendServerKey fresh rk info (time_Now (S (u_readings s)))).1,
   if r.2 then true else ch).
Proof.
  unfold Sync_merge_step. destruct (toRoutingTableEntry m) as [rk info].
  destruct (UpsertBackendServerKey (u_routingTable s) _ _ _), (UpsertBackendServerKey fresh _ _ _). done.
Qed.

(** What merging keeps: only the table and the clock move. *)
Definition table_only (s s' : UState) : Prop :=
  u_syncing s' = u_syncing s ∧ u_cachedEvents s' = u_cachedEvents s ∧ u_api s' = u_api s ∧
  same_setup s s'.
#[local] Instance table_only_trans : Transitive table_only.
Proof.
  intros s1 s2 s3 (?&?&?&?) (?&?&?&?). do 3 (split; [congruence|]). by etrans.
Qed.

Lemma Sync_merge_loop ms s fresh ch :
  let r := foldl Sync_merge_step (s, fresh, ch) ms in
  table_only s r.1.1 ∧
  (∀ rk bk, is_Some (lookup_backend (u_routingTable r.1.1) rk bk) ↔
     (rk, bk) ∈ mapping_target <$> ms ∨ is_Some (lookup_backend (u_routingTable s) rk bk)) ∧
  (∀ rk bk, is_Some (lookup_backend r.1.2 rk bk) ↔
     (rk, bk) ∈ mapping_target <$> ms ∨ is_Some (lookup_backend fresh rk bk)) ∧
  (∀ rk, rk ∈ dom (Entries (u_routingTable r.1.1)) ↔
     rk ∈ (mapping_target <$> ms).*1 ∨ rk ∈ dom (Entries (u_routingTable s))) ∧
  (∀ rk, rk ∈ dom (Entries r.1.2) ↔ rk ∈ (mapping_target <$> ms).*1 ∨ rk ∈ dom (Entries fresh)) ∧
  (ch = true → r.2 = true) ∧
  (r.2 = false → same_backends (u_routingTable r.1.1) (u_routingTable s)).
Proof.
  revert s fresh ch. induction ms as [|m ms IH]; intros s fresh ch.
  { simpl. repeat split; auto; try naive_solver; set_solver. }
  cbn [foldl]. rewrite Sync_merge_step_eq.
  destruct (toRoutingTableEntry m) as [rk info] eqn:Hm.
  assert (mapping_target m = (rk, info_key info)) as Hmt by (unfold mapping_target; by rewrite Hm).
  set (up := UpsertBackendServerKey (u_routingTable s) rk info (time_Now (u_readings s))).
  set (fr := UpsertBackendServerKey fresh rk info (time_Now (S (u_readings s)))).
  destruct (IH (add_readings 2 (set_table up.1 s)) fr.1 (if up.2 then true else ch))
    as (H1 & H2 & H3 & H4 & H5 & H6 & H7).
  cbn zeta. set (r := foldl _ _ ms) in *. simpl in H2, H4, H7.
  assert (same_backends up.1 (u_routingTable s) ↔ up.2 = false) as Hflag.
  { symmetry. apply (run_op_same_backends (u_routingTable s) (OpUpsert rk info _)). }
  split; [etrans; [|exact H1]; done|]. rewrite !fmap_cons, Hmt. cbn [fst].
  split; [intros; rewrite H2; unfold up; rewrite Upsert_present, elem_of_cons; tauto|].
  split; [intros; rewrite H3; unfold fr; rewrite Upsert_present, elem_of_cons; tauto|].
  split; [intros; rewrite H4; unfold up; rewrite Upsert_dom, elem_of_cons, elem_of_union, elem_of_singleton; tauto|].
  split; [intros; rewrite H5; unfold fr; rewrite Upsert_dom, elem_of_cons, elem_of_union, elem_of_singleton; tauto|].
  split; [intros ->; apply H6; by destruct up.2|].
  intros Hr. rewrite H7 by done. apply Hflag. destruct up.2; [|done]. rewrite H6 in Hr; done.
Qed.

(** The table after a merge: the listed routes and no other, with the listed
    backends; and with the old backends of these routes as well, unless a
    route of the old table is not listed any more. *)
Record merged (ms : list TcpRouteMapping) (old new : RoutingTable) : Prop := {
  merged_routes rk : rk ∈ dom (Entries new) ↔ rk ∈ (mapping_target <$> ms).*1;
  merged_listed rk bk : (rk, bk) ∈ mapping_target <$> ms → is_Some (lookup_backend new rk bk);
  merged_kept rk bk : dom (Entries old) ⊆ dom (Entries new) →
    is_Some (lookup_backend new rk bk) ↔
      (rk, bk) ∈ mapping_target <$> ms ∨ is_Some (lookup_backend old rk bk);
  merged_replaced rk bk : ¬ dom (Entries old) ⊆ dom (Entries new) →
    is_Some (lookup_backend new rk bk) ↔ (rk, bk) ∈ mapping_target <$> ms
}.

Lemma Sync_merge_spec ms s :
  let r := Sync_merge ms s in
  table_only s r.1 ∧ merged ms (u_routingTable s) (u_routingTable r.1) ∧
  (r.2 = false → same_backends (u_routingTable r.1) (u_routingTable s)).
Proof.
  unfold Sync_merge. destruct (Sync_merge_loop ms s NewRoutingTable false) as (H1 & H2 & H3 & H4 & H5 & _ & H7).
  destruct (foldl _ _ ms) as [[s1 fresh] ch]. simpl in *.
  assert (∀ rk bk, is_Some (lookup_backend fresh rk bk) ↔ (rk, bk) ∈ mapping_target <$> ms) as H3'.
  { intros rk bk. rewrite H3. split; [intros [?|[? ?]]; [done|discriminate]|by left]. }
  assert (∀ rk, rk ∈ dom (Entries fresh) ↔ rk ∈ (mapping_target <$> ms).*1) as H5'.
  { intros rk. rewrite H5. split; [intros [?|Hin]; [done|]|by left]. by apply elem_of_dom in Hin as [? ?]. }
  clear H3 H5. unfold Size.
  case_decide as Hsz; simpl.
  - split; [by etrans; [exact H1|]|]. split; [|done].
    assert (¬ dom (Entries (u_routingTable s)) ⊆ dom (Entries fresh)) as Hsub.
    { intros Hsub. apply Hsz. rewrite <-!size_dom. f_equal. apply set_eq. set_solver. }
    split; simpl; [done|by intros; apply H3'|done|by intros; apply H3'].
  - split; [done|]. split; [|done].
    assert (dom (Entries fresh) = dom (Entries (u_routingTable s1))) as Hdom.
    { apply set_subseteq_size_eq; [|rewrite !size_dom; lia]. intros rk. rewrite H4, H5'. by left. }
    split.
    + intros rk. by rewrite <-Hdom.
    + intros. apply H2. by left.
    + by intros; apply H2.
    + intros rk bk []. intros rk' Hrk'. apply H4. by right.
Qed.

Lemma Sync_body_spec s :
  let r := Sync_body s in
  (∃ ms s1, Sync_fetch 2 true None s = (Some (ms, None), s1) ∧ r = Sync_merge ms s1) ∨
  (∀ ms, (Sync_fetch 2 true None s).1 ≠ Some (ms, None)) ∧ r = (set_api (u_api r.1) s, false).
Proof.
  unfold Sync_body. pose proof (Sync_fetch_state 2 true None s) as Hs.
  destruct (Sync_fetch 2 true None s) as [[[ms [e|]]|] s1]; simpl in *; [right|left; eauto|right];
    (split; [done|by rewrite Hs at 1]).
Qed.

Lemma Sync_body_in_sync s :
  let r := Sync_body s in
  u_syncing r.1 = u_syncing s ∧ u_cachedEvents r.1 = u_cachedEvents s ∧ same_setup s r.1 ∧
  (r.2 = false → same_backends (u_routingTable r.1) (u_routingTable s)).
Proof.
  destruct (Sync_body_spec s) as [(ms & s1 & Hf & Hr) | [_ Hr]]; rewrite Hr; simpl.
  - pose proof (Sync_fetch_state 2 true None s) as Hs. rewrite Hf in Hs. simpl in Hs.
    destruct (Sync_merge_spec ms s1) as ((?&?&?&?) & _ & Hsame). rewrite Hs in *. done.
  - repeat split; try done; reflexivity.
Qed.

Lemma Sync_during_eq es s :
  Sync_during es s =
  Sync_end (Sync_body (Sync_begin s)).2 (set_sync true es (Sync_body (Sync_begin s)).1).
Proof.
  unfold Sync_during. destruct (Sync_body_in_sync (Sync_begin s)) as (Hs & Hc & _).
  destruct (Sync_body (Sync_begin s)) as [s1 ch]. simpl in *.
  rewrite HandleEvents_syncing by done. by rewrite Hc.
Qed.

(** * Properties *)


(** C18. A bulk sync that fetches the routes leaves exactly the listed routes in
    the table, with every listed backend, and then applies the events that
    arrived meanwhile, in order and without losing any; it leaves the sync
    mode with an empty cache, and calls the configurer at most once, on the
    final table; when it is not called the set of backends is what it was. *)
Theorem sync_merges (es : list TcpEvent) (s s1 : UState) (ms : list TcpRouteMapping) :
  Sync_fetch 2 true None (Sync_begin s) = (Some (ms, None), s1) →
  let s' := Sync_during es s in
  u_syncing s' = false ∧ u_cachedEvents s' = [] ∧
  (∃ base n, merged ms (u_routingTable s) base ∧
     u_routingTable s' = (foldl apply_event (base, n) es).1) ∧
  (u_configured s' = (u_routingTable s', u_isDraining s) :: u_configured s ∨
   u_configured s' = u_configured s ∧ same_backends (u_routingTable s') (u_routingTable s)).
Proof.
  intros Hf. cbv zeta. rewrite Sync_during_eq. unfold Sync_body. rewrite Hf.
  pose proof (Sync_fetch_state 2 true None (Sync_begin s)) as Hs1. rewrite Hf in Hs1. simpl in Hs1.
  destruct (Sync_merge_spec ms s1) as ((Hsy & _ & _ & Hd & _ & _ & Hc) & Hm & Hsame).
  destruct (Sync_merge ms s1) as [s2 ch]. simpl in *.
  assert (u_routingTable s1 = u_routingTable s ∧ u_isDraining s1 = u_isDraining s ∧
    u_configured s1 = u_configured s) as (Ht1 & Hd1 & Hc1) by (by rewrite Hs1).
  rewrite Ht1 in Hm, Hsame.
  destruct (Sync_end_spec ch (set_sync true es s2) eq_refl) as (Ht & H1 & H2 & _ & _ & _ & Hconf).
  simpl in Ht, Hconf. split; [done|]. split; [done|]. split.
  - by exists (u_routingTable s2), (u_readings s2).
  - rewrite Hd, Hd1, Hc, Hc1 in Hconf. destruct Hconf as [(Hcf & _ & Hch & Hsb) | [Hcf _]]; [right|by left].
    split; [done|]. rewrite Hsb. by apply Hsame.
Qed.

(** C23. A sync that cannot get a token or the routes changes nothing but the
    state of the API client, apart from the events that arrived meanwhile;
    the sync mode is left and the cache emptied all the same. *)
Theorem sync_failure (es : list TcpEvent) (s : UState) :
  (∀ ms, (Sync_fetch 2 true None (Sync_begin s)).1 ≠ Some (ms, None)) →
  let s' := Sync_during es s in
  u_routingTable s' = (foldl apply_event (u_routingTable s, u_readings s) es).1 ∧
  u_syncing s' = false ∧ u_cachedEvents s' = [] ∧
  (es = [] → u_conf s' = u_conf s ∧ u_configured s' = u_configured s).
Proof.
  intros Hf. cbv zeta. rewrite Sync_during_eq.
  destruct (Sync_body_spec (Sync_begin s)) as [(ms & s1 & Hf' & _) | [_ Hr]].
  { exfalso. apply (Hf ms). by rewrite Hf'. }
  rewrite Hr. simpl.
  destruct (Sync_end_spec false (set_sync true es (set_api (u_api (Sync_body (Sync_begin s)).1) (Sync_begin s))) eq_refl)
    as (Ht & H1 & H2 & _). simpl in *.
  do 3 (split; [done|]). intros ->. unfold Sync_end, applyCachedEvents. simpl. done.
Qed.

(** The second attempt of the fetch follows a refusal of the cached token
    and is made with a token that is fetched anew; there is no third one, and
    any other error ends the fetch at once. *)
Theorem sync_retries (s : UState) (t1 : string) (a1 a2 : api_state) :
  FetchToken false (u_api s) = (Ok t1, a1) →
  TcpRouteMappings (SetToken t1 a1) = (Err "unauthorized", a2) →
  Sync_fetch 2 true None s =
  match FetchToken true a2 with
  | (Err _, a3) => (None, set_api a3 s)
  | (Ok t2, a3) =>
      match TcpRouteMappings (SetToken t2 a3) with
      | (Ok ms, a4) => (Some (ms, None), set_api a4 s)
      | (Err e, a4) =>
          (if bool_decide (e = "unauthorized") then Some ([], Some e) else None, set_api a4 s)
      end
  end.
Proof.
  intros H1 H2. simpl. rewrite H1, H2. simpl.
  destruct (FetchToken true a2) as [[t2|e] a3]; [|done].
  destruct (TcpRouteMappings (SetToken t2 a3)) as [[ms|e] a4]; [done|]. by case_bool_decide.
Qed.

(** HAProxy is kept in step: events and syncs preserve that the table the
    configurer was last called with has the backends of the current table. *)
Theorem handling_keeps_in_sync (s : UState) :
  in_sync s →
  (∀ e, u_syncing s = false → in_sync (HandleEvent e s).2) ∧
  (∀ es, in_sync (Sync_during es s)).
Proof.
  intros Hi. split.
  - intros e Hs. unfold HandleEvent. rewrite Hs, handleEvent_eq, Hs.
    destruct (event_op e _) as [op|]; [|done].
    pose proof (run_op_same_backends (u_routingTable s) op) as Hf.
    destruct (run_op (u_routingTable s) op) as [t []]; simpl in *.
    + destruct (call_configurer _) as [err s1] eqn:Hc.
      pose proof (f_equal snd Hc) as Hc2. simpl in Hc2. rewrite <-Hc2. apply in_sync_configured.
    + unfold in_sync, configured_table in *. simpl. etrans; [exact Hi|]. symmetry. by apply Hf.
  - intros es. rewrite Sync_during_eq.
    destruct (Sync_body_in_sync (Sync_begin s)) as (_ & _ & (_ & _ & _ & Hc) & Hsame).
    destruct (Sync_body (Sync_begin s)) as [s1 ch]. simpl in *.
    destruct (Sync_end_spec ch (set_sync true es s1) eq_refl) as (_ & _ & _ & _ & _ & _ & Hconf).
    unfold in_sync, configured_table in *. simpl in Hconf.
    destruct Hconf as [(Hcf & _ & Hch & Hsb) | [Hcf _]]; rewrite Hcf.
    + rewrite Hc. etrans; [exact Hi|]. symmetry. rewrite Hsb. by apply Hsame.
    + reflexivity.
Qed.

(** A drain puts the current table in force with the draining flag set,
    once: a second drain does nothing. *)
Theorem drain_once (s : UState) :
  let s' := (Drain s).2 in
  u_isDraining s' = true ∧ u_routingTable s' = u_routingTable s ∧
  u_configured s' =
    (if u_isDraining s then u_configured s else (u_routingTable s, true) :: u_configured s) ∧
  Drain s' = (None, s').
Proof.
  assert (∀ s, u_isDraining s = true → Drain s = (None, s)) as Hn by (intros ? Hs; unfold Drain, IsDraining; by rewrite Hs).
  destruct (u_isDraining s) eqn:Hd; [rewrite (Hn s Hd); auto|].
  assert ((Drain s).2 = (call_configurer (set_draining s)).2) as Heq by (unfold Drain, IsDraining; by rewrite Hd).
  rewrite Heq, call_configurer_state. simpl. by repeat split.
Qed.

(** Pruning never calls the configurer: when it removes a backend, HAProxy
    is left with a table that still has it. *)
Theorem prune_not_configured (tr : TableRange) (s : UState) :
  let s' := PruneStaleRoutes tr s in
  u_conf s' = u_conf s ∧ u_configured s' = u_configured s ∧
  (in_sync s → in_sync s' ↔ same_backends (u_routingTable s') (u_routingTable s)).
Proof.
  unfold PruneStaleRoutes. destruct (PruneEntries _ _ _ _) as [t n]. simpl.
  split; [done|]. split; [done|]. unfold in_sync, configured_table. simpl.
  intros Hi. split; intros Hp; [by rewrite <-Hp|by rewrite Hp].
Qed.

End updater.

(** * Concrete instances *)
Module Sample.
Import RoutingTable.Sample.

(** An API that answers a fetch of the routes with the next result of a list,
    and logs for every token whether it was forced; and a configurer that
    fails as a list of results says. *)
Instance sample_api : RoutingAPI := {|
  api_state := list (result (list TcpRouteMapping)) * list bool;
  FetchToken := λ force st, (Ok "token", (st.1, force :: st.2));
  SetToken := λ _ st, st;
  TcpRouteMappings := λ st,
    match st.1 with
    | [] => (Ok [], st)
    | r :: rs => (r, (rs, st.2))
    end
|}.
Instance sample_configurer : RouterConfigurer := {|
  conf_state := list (option error);
  router_Configure := λ _ _ st,
    match st with [] => (None, []) | r :: rs => (r, rs) end
|}.

(** Readings a minute apart. *)
Definition sample_now (i : nat) : Z := Z.of_nat i * 60 * Second.

Definition mapping1 : TcpRouteMapping :=
  mkTcpRouteMapping 80 None "host-1.internal" 8080 0 "" (mkTag "abc" 2) (Some 60).
Definition mapping2 : TcpRouteMapping :=
  mkTcpRouteMapping 80 None "host-2.internal" 8080 0 "" (mkTag "def" 1) None.
Definition start (listings : list (result (list TcpRouteMapping))) (results : list (option error)) : UState :=
  NewUpdater NewRoutingTable 120 (listings, []) results.


(** A sync lists one backend while an event adds a second one. *)
Lemma sync_merges_witness :
  let s' := Sync_during sample_now [mkTcpEvent mapping2 "Upsert"] (start [Ok [mapping1]] []) in
  u_syncing s' = false ∧ u_cachedEvents s' = [] ∧
  size (route_backends (u_routingTable s') key80) = 2%nat.
Proof.
  destruct (sync_merges sample_now [mkTcpEvent mapping2 "Upsert"] (start [Ok [mapping1]] []) _ [mapping1] eq_refl)
    as (H1 & H2 & _).
  split; [exact H1|]. split; [exact H2|]. vm_compute. reflexivity.
Defined.

Lemma sync_failure_witness :
  u_routingTable (Sync_during sample_now [] (start [Err "internal error"] [])) = NewRoutingTable.
Proof.
  apply (sync_failure sample_now [] (start [Err "internal error"] [])). intros ms. vm_compute. discriminate.
Defined.

(** The cached token is refused, the second one is forced. *)
Lemma sync_retries_witness :
  Sync_fetch 2 true None (start [Err "unauthorized"; Ok [mapping1]] []) =
  (Some ([mapping1], None), set_api ([], [true; false]) (start [Err "unauthorized"; Ok [mapping1]] [])).
Proof.
  rewrite (sync_retries (start [Err "unauthorized"; Ok [mapping1]] []) "token"
    ([Err "unauthorized"; Ok [mapping1]], [false]) ([Ok [mapping1]], [false]) eq_refl eq_refl).
  reflexivity.
Defined.

Lemma handling_keeps_in_sync_witness :
  in_sync (Sync_during sample_now [mkTcpEvent mapping2 "Upsert"] (start [Ok [mapping1]] [])).
Proof. apply handling_keeps_in_sync. unfold in_sync. reflexivity. Defined.

Lemma drain_once_witness :
  u_configured (Drain (Drain (start [] [])).2).2 = [(NewRoutingTable, true)].
Proof.
  destruct (drain_once (start [] [])) as (_ & _ & H & Hd). rewrite Hd. exact H.
Defined.

(** A pruned route stays in HAProxy: a route is added, expires, is pruned,
    and is in no later listing of the routing API; after the next sync the
    table is empty, but the configurer has not been called again, so HAProxy
    still serves the route. *)
Theorem pruned_route_stays_configured :
  let s1 := (HandleEvent sample_now (mkTcpEvent mapping1 "Upsert") (start [Ok []; Ok []] [])).2 in
  let s2 := PruneStaleRoutes sample_now plain_range (add_readings 5 s1) in
  let s3 := Sync sample_now s2 in
  u_routingTable s3 = NewRoutingTable ∧ configured_table s3 = u_routingTable s1 ∧
  Size (configured_table s3) = 1%nat.
Proof.
  cbv zeta. split; [|split]; apply (bool_decide_eq_true_1 _); vm_compute; reflexivity.
Qed.

(** A sync does not remove a backend the routing API no longer lists, as
    long as its route is still listed with another backend. *)
Theorem sync_keeps_unlisted_backend :
  let s1 := Sync sample_now (start [Ok [mapping1; mapping2]; Ok [mapping2]] []) in
  let s2 := Sync sample_now s1 in
  is_Some (lookup_backend (u_routingTable s2) key80 (mkBackendServerKey "host-1.internal" 8080 0 "")).
Proof. vm_compute. by eexists. Qed.

(** A failed call of the configurer is not repeated: the error is dropped,
    and a later sync that finds the same routes does not try again. *)
Theorem failed_configure_not_retried :
  let s1 := Sync sample_now (start [Ok [mapping1]; Ok [mapping1]] [Some "reload failed"]) in
  let s2 := Sync sample_now s1 in
  u_configured s2 = [(u_routingTable s2, false)] ∧ Size (u_routingTable s2) = 1%nat.
Proof.
  cbv zeta. split; apply (bool_decide_eq_true_1 _); vm_compute; reflexivity.
Qed.

End Sample.
