(* ===== verification/Heap.v ===== *)
(** The routing table as the Go runtime holds it: maps are references, a
    [RoutingTable] and a [RoutingTableEntry] are structs that hold one, and a
    copy of such a struct shares the map.  The operations on the heap refine
    those of RoutingTable.v as long as no two entries share a map. *)
From S2P Require Import Prelude GoStrings RoutingTable Updater.
#[local] Open Scope Z_scope.

Section heap.
Context {tags : ModificationTags}.

(** * The heap

    The maps of the tables and those of the entries.  A [RoutingTable] is the
    location of its [Entries], a [RoutingTableEntry] that of its [Backends]. *)
Record heap := mkHeap {
  table_maps : gmap nat (gmap RoutingKey nat);
  entry_maps : gmap nat (gmap BackendServerKey BackendServerDetails)
}.

Definition entries_at (h : heap) (table : nat) : gmap RoutingKey nat := default ∅ (table_maps h !! table).
Definition backends_at (h : heap) (entry : nat) : gmap BackendServerKey BackendServerDetails :=
  default ∅ (entry_maps h !! entry).
Definition put_entries (table : nat) (m : gmap RoutingKey nat) (h : heap) : heap :=
  mkHeap (<[table := m]> (table_maps h)) (entry_maps h).
Definition put_backends (entry : nat) (m : gmap BackendServerKey BackendServerDetails) (h : heap) : heap :=
  mkHeap (table_maps h) (<[entry := m]> (entry_maps h)).

(** [make], at a location in use nowhere. *)
Definition make_table (h : heap) : nat * heap :=
  let l := fresh (dom (table_maps h)) in (l, put_entries l ∅ h).
Definition make_entry (h : heap) : nat * heap :=
  let r := fresh (dom (entry_maps h)) in (r, put_backends r ∅ h).

(** * Operations *)

Definition heap_NewRoutingTable : heap → nat * heap := make_table.

Definition heap_NewRoutingTableEntry (clk : nat → Z) (backends : list BackendServerInfo) (h : heap) : nat * heap :=
  let '(r, h) := make_entry h in
  (r, (foldl (λ '(h, i) backend,
         let backendServerKey :=
           mkBackendServerKey (bi_Address backend) (bi_Port backend) (bi_TLSPort backend) (bi_InstanceID backend) in
         let backendServerDetails :=
           mkBackendServerDetails (bi_ModificationTag backend) (bi_TTL backend) (clk i) in
         (put_backends r (<[backendServerKey := backendServerDetails]> (backends_at h r)) h, S i))
       (h, 0%nat) backends).1).

Definition heap_Upsert (table : nat) (key : RoutingKey) (info : BackendServerInfo) (now : Z) (h : heap) :
    bool * heap :=
  match entries_at h table !! key with
  | None =>
      let '(existingEntry, h) := heap_NewRoutingTableEntry (λ _, now) [info] h in
      (true, put_entries table (<[key := existingEntry]> (entries_at h table)) h)
  | Some existingEntry =>
      let '(newBackendKey, newBackendDetails) := serverKeyDetailsFromInfo info now in
      let current := backends_at h existingEntry !! newBackendKey in
      let h :=
        if match current with None => true | Some d => UpdateSucceededBy d newBackendDetails end
        then put_backends existingEntry (<[newBackendKey := newBackendDetails]> (backends_at h existingEntry)) h
        else h in
      (match current with None => true | Some d => DifferentFrom d newBackendDetails end, h)
  end.

Definition heap_Delete (table : nat) (key : RoutingKey) (info : BackendServerInfo) (now : Z) (h : heap) :
    bool * heap :=
  let '(backendServerKey, newDetails) := serverKeyDetailsFromInfo info now in
  match entries_at h table !! key with
  | None => (false, h)
  | Some existingEntry =>
      match backends_at h existingEntry !! backendServerKey with
      | None => (false, h)
      | Some existingDetails =>
          if DeleteSucceededBy existingDetails newDetails then
            let h := put_backends existingEntry (delete backendServerKey (backends_at h existingEntry)) h in
            (true,
             if decide (size (backends_at h existingEntry) = 0%nat)
             then put_entries table (delete key (entries_at h table)) h else h)
          else (false, h)
      end
  end.

Definition heap_run (table : nat) (op : table_op) (h : heap) : bool * heap :=
  match op with
  | OpUpsert key info now => heap_Upsert table key info now h
  | OpDelete key info now => heap_Delete table key info now h
  end.

Definition heap_Size (table : nat) (h : heap) : nat := size (entries_at h table).

(** The range over a map of entries gives their locations. *)
Definition heap_PruneBackends (r : range_order BackendServerKey BackendServerDetails) (entry : nat)
    (defaultTTL : Z) (clk : nat → Z) (acc : heap * nat) : heap * nat :=
  foldl (λ '(h, i) '(backendKey, details),
      (if Expired details defaultTTL (clk i)
       then put_backends entry (delete backendKey (backends_at h entry)) h else h, S i))
    acc (r (backends_at acc.1 entry)).
Definition heap_PruneEntries_step (rb : RoutingKey → range_order BackendServerKey BackendServerDetails)
    (table : nat) (defaultTTL : Z) (clk : nat → Z) (acc : heap * nat) (ke : RoutingKey * nat) : heap * nat :=
  let '(h, j) := heap_PruneBackends (rb ke.1) ke.2 defaultTTL clk acc in
  (if decide (size (backends_at h ke.2) = 0%nat)
   then put_entries table (delete ke.1 (entries_at h table)) h else h, j).
Definition heap_PruneEntries (re : range_order RoutingKey nat)
    (rb : RoutingKey → range_order BackendServerKey BackendServerDetails)
    (table : nat) (defaultTTL : Z) (clk : nat → Z) (h : heap) : heap * nat :=
  foldl (heap_PruneEntries_step rb table defaultTTL clk) (h, 0%nat) (re (entries_at h table)).

(** * What a heap represents *)

(** The maps of the entries of a table. *)
Definition refs (h : heap) (table : nat) : gset nat :=
  list_to_set (map_to_list (entries_at h table)).*2.

Record repr (h : heap) (table : nat) (t : RoutingTable) : Prop := {
  repr_alloc : is_Some (table_maps h !! table);
  repr_entries : ∀ k, Entries t !! k = (λ r, mkRoutingTableEntry (backends_at h r)) <$> entries_at h table !! k;
  repr_live : refs h table ⊆ dom (entry_maps h);
  repr_unshared : ∀ k1 k2 r, entries_at h table !! k1 = Some r → entries_at h table !! k2 = Some r → k1 = k2
}.

(** A change of one table: other tables and the maps their entries may have
    stay, and the entries the table gains are new. *)
Record local_to (table : nat) (h h' : heap) : Prop := {
  local_tables : ∀ l, l ≠ table → table_maps h' !! l = table_maps h !! l;
  local_entries : ∀ r, r ∈ dom (entry_maps h) → r ∉ refs h table → entry_maps h' !! r = entry_maps h !! r;
  local_refs : ∀ r, r ∈ refs h' table → r ∈ refs h table ∨ r ∉ dom (entry_maps h);
  local_grow : dom (entry_maps h) ⊆ dom (entry_maps h')
}.

(** Two tables that share nothing. *)
Definition separate (h : heap) (l1 l2 : nat) : Prop := l1 ≠ l2 ∧ refs h l1 ## refs h l2.

(** * Facts *)

Lemma elem_of_refs h l r : r ∈ refs h l ↔ ∃ k, entries_at h l !! k = Some r.
Proof.
  unfold refs. rewrite elem_of_list_to_set, list_elem_of_fmap. split.
  - intros ([k r'] & -> & Hk). exists k. by apply elem_of_map_to_list.
  - intros [k Hk]. exists (k, r). split; [done|]. by apply elem_of_map_to_list.
Qed.

Lemma backends_put_eq h r b : backends_at (put_backends r b h) r = b.
Proof. unfold backends_at. simpl. by rewrite lookup_insert_eq. Qed.
Lemma backends_put_ne h r r' b : r ≠ r' → backends_at (put_backends r b h) r' = backends_at h r'.
Proof. intros Hr. unfold backends_at. simpl. by rewrite lookup_insert_ne. Qed.
Lemma entries_put_eq h l m : entries_at (put_entries l m h) l = m.
Proof. unfold entries_at. simpl. by rewrite lookup_insert_eq. Qed.
Lemma entries_put_ne h l l' m : l ≠ l' → entries_at (put_entries l m h) l' = entries_at h l'.
Proof. intros Hl. unfold entries_at. simpl. by rewrite lookup_insert_ne. Qed.

#[export] Instance local_to_refl l : Reflexive (local_to l).
Proof. intros h. split; auto. Qed.
#[export] Instance local_to_trans l : Transitive (local_to l).
Proof.
  intros h1 h2 h3 [Ht1 He1 Hr1 Hg1] [Ht2 He2 Hr2 Hg2]. split.
  - intros l' Hl. by rewrite Ht2, Ht1.
  - intros r Hr Hn. rewrite He2, He1; [done..|by apply Hg1|]. intros Hr'. by destruct (Hr1 _ Hr').
  - intros r Hr. destruct (Hr2 _ Hr) as [Hr'|Hr']; [by apply Hr1|]. right. intros Hd. by apply Hr', Hg1.
  - set_solver.
Qed.

(** ** The three ways a table changes *)

Lemma put_backends_spec h l t key r b :
  repr h l t → entries_at h l !! key = Some r →
  repr (put_backends r b h) l (mkRoutingTable (<[key := mkRoutingTableEntry b]> (Entries t))) ∧
  local_to l h (put_backends r b h).
Proof.
  intros [Ha He Hl Hu] Hk. assert (r ∈ refs h l) as Hr by (apply elem_of_refs; eauto).
  split; split; simpl; try done.
  - intros k. rewrite lookup_insert. change (entries_at (put_backends r b h) l) with (entries_at h l).
    case_decide as Hkk; [subst k; by rewrite Hk; simpl; rewrite backends_put_eq|].
    rewrite He. destruct (entries_at h l !! k) as [r'|] eqn:Hk'; [|done]. simpl.
    rewrite backends_put_ne; [done|]. intros ->. by apply Hkk, (Hu _ _ r').
  - rewrite dom_insert. change (refs (put_backends r b h) l) with (refs h l). set_solver.
  - intros r' _ Hr'. rewrite lookup_insert_ne; [done|]. by intros ->.
  - intros r'. change (refs (put_backends r b h) l) with (refs h l). by left.
  - rewrite dom_insert. set_solver.
Qed.

Lemma refs_put h l m r : r ∈ refs (put_entries l m h) l ↔ ∃ k, m !! k = Some r.
Proof. by rewrite elem_of_refs, entries_put_eq. Qed.

Lemma delete_entry_spec h l t key :
  repr h l t →
  repr (put_entries l (delete key (entries_at h l)) h) l (mkRoutingTable (delete key (Entries t))) ∧
  local_to l h (put_entries l (delete key (entries_at h l)) h).
Proof.
  intros [Ha He Hl Hu].
  assert (∀ r, r ∈ refs (put_entries l (delete key (entries_at h l)) h) l → r ∈ refs h l) as Hr.
  { intros r. rewrite refs_put, elem_of_refs. intros (k & Hk). apply lookup_delete_Some in Hk as [_ Hk]. eauto. }
  split; split; simpl.
  - by rewrite lookup_insert_eq.
  - intros k. rewrite entries_put_eq, !lookup_delete. case_decide; [done|]. apply He.
  - set_solver.
  - intros k1 k2 r. rewrite entries_put_eq. intros [_ H1]%lookup_delete_Some [_ H2]%lookup_delete_Some. by eapply Hu.
  - intros l' Hl'. by rewrite lookup_insert_ne.
  - done.
  - intros r Hr'. left. by apply Hr.
  - done.
Qed.

Lemma add_entry_spec h l t key r b :
  repr h l t → r ∉ dom (entry_maps h) →
  let h' := put_entries l (<[key := r]> (entries_at h l)) (put_backends r b h) in
  repr h' l (mkRoutingTable (<[key := mkRoutingTableEntry b]> (Entries t))) ∧ local_to l h h'.
Proof.
  intros [Ha He Hl Hu] Hr h'.
  assert (∀ k r', entries_at h l !! k = Some r' → r' ≠ r) as Hne.
  { intros k r' Hk ->. apply Hr, Hl, elem_of_refs. eauto. }
  assert (∀ r', r' ∈ refs h' l → r' ∈ refs h l ∨ r' = r) as Hrefs.
  { intros r'. unfold h'. rewrite refs_put, elem_of_refs. intros (k & Hk).
    rewrite lookup_insert in Hk. case_decide; simplify_eq; eauto. }
  split; split; unfold h'; simpl.
  - by rewrite lookup_insert_eq.
  - intros k. rewrite entries_put_eq, !lookup_insert. case_decide; simpl.
    { unfold backends_at. simpl. by rewrite lookup_insert_eq. }
    rewrite He. destruct (entries_at h l !! k) as [r'|] eqn:Hk; [|done]. simpl.
    unfold backends_at. simpl. rewrite lookup_insert_ne; [done|]. by apply not_eq_sym, (Hne k).
  - fold h'. rewrite dom_insert. intros r' [Hr'| ->]%Hrefs; set_solver.
  - intros k1 k2 r'. rewrite entries_put_eq, !lookup_insert.
    repeat case_decide; intros H1 H2; simplify_eq; try done.
    + by apply Hne in H2.
    + by apply Hne in H1.
    + by eapply Hu.
  - intros l' Hl'. by rewrite lookup_insert_ne.
  - intros r' Hr' _. rewrite lookup_insert_ne; [done|]. by intros ->.
  - fold h'. intros r' [Hr'| ->]%Hrefs; auto.
  - rewrite dom_insert. set_solver.
Qed.

Lemma put_backends_twice r b b' h : put_backends r b (put_backends r b' h) = put_backends r b h.
Proof. unfold put_backends. simpl. by rewrite insert_insert_eq. Qed.
Lemma lookup_entry h l t k r :
  repr h l t → entries_at h l !! k = Some r → Entries t !! k = Some (mkRoutingTableEntry (backends_at h r)).
Proof. intros Hr Hk. by rewrite (repr_entries _ _ _ Hr), Hk. Qed.
Lemma lookup_no_entry h l t k : repr h l t → entries_at h l !! k = None → Entries t !! k = None.
Proof. intros Hr Hk. by rewrite (repr_entries _ _ _ Hr), Hk. Qed.

(** ** The operations *)

Lemma heap_Upsert_spec h l t key info now :
  repr h l t →
  let '(t', changed) := UpsertBackendServerKey t key info now in
  let '(b, h') := heap_Upsert l key info now h in
  b = changed ∧ repr h' l t' ∧ local_to l h h'.
Proof.
  intros Hr. unfold UpsertBackendServerKey, heap_Upsert.
  destruct (entries_at h l !! key) as [r|] eqn:Hk.
  - rewrite (lookup_entry _ _ _ _ _ Hr Hk). destruct (serverKeyDetailsFromInfo info now) as [bk d].
    cbn [Backends]. split; [done|].
    destruct (match backends_at h r !! bk with Some d' => UpdateSucceededBy d' d | None => true end); [|by split].
    by apply put_backends_spec.
  - rewrite (lookup_no_entry _ _ _ _ Hr Hk). unfold heap_NewRoutingTableEntry, make_entry. cbn [foldl fst].
    set (r := fresh (dom (entry_maps h))). rewrite backends_put_eq, put_backends_twice.
    split; [done|]. apply (add_entry_spec h l t key r _ Hr). apply is_fresh.
Qed.

Lemma heap_Delete_spec h l t key info now :
  repr h l t →
  let '(t', changed) := DeleteBackendServerKey t key info now in
  let '(b, h') := heap_Delete l key info now h in
  b = changed ∧ repr h' l t' ∧ local_to l h h'.
Proof.
  intros Hr. unfold DeleteBackendServerKey, heap_Delete. destruct (serverKeyDetailsFromInfo info now) as [bk d].
  destruct (entries_at h l !! key) as [r|] eqn:Hk; [|by rewrite (lookup_no_entry _ _ _ _ Hr Hk)].
  rewrite (lookup_entry _ _ _ _ _ Hr Hk). cbn [Backends].
  destruct (backends_at h r !! bk) as [d'|]; [|done].
  destruct (DeleteSucceededBy d' d); [|done]. split; [done|]. cbv zeta. rewrite backends_put_eq.
  destruct (put_backends_spec _ _ _ _ _ (delete bk (backends_at h r)) Hr Hk) as [Hr' Hl'].
  case_decide; [|done].
  destruct (delete_entry_spec _ _ _ key Hr') as [Hr'' Hl''].
  cbn [Entries] in Hr''. rewrite delete_insert_eq in Hr''. split; [done|]. by etrans.
Qed.

Lemma heap_run_spec h l t op :
  repr h l t →
  (heap_run l op h).1 = (run_op t op).2 ∧ repr (heap_run l op h).2 l (run_op t op).1 ∧
  local_to l h (heap_run l op h).2.
Proof.
  intros Hr. destruct op as [key info now|key info now]; simpl.
  - pose proof (heap_Upsert_spec _ _ _ key info now Hr) as H.
    destruct (UpsertBackendServerKey _ _ _ _), (heap_Upsert _ _ _ _ _). simpl. naive_solver.
  - pose proof (heap_Delete_spec _ _ _ key info now Hr) as H.
    destruct (DeleteBackendServerKey _ _ _ _), (heap_Delete _ _ _ _ _). simpl. naive_solver.
Qed.

Lemma make_table_spec h :
  let '(l, h') := make_table h in
  repr h' l NewRoutingTable ∧ refs h' l = ∅ ∧ table_maps h !! l = None ∧ local_to l h h'.
Proof.
  unfold make_table. set (l := fresh _).
  assert (table_maps h !! l = None) as Hl by (apply not_elem_of_dom, is_fresh).
  assert (refs (put_entries l ∅ h) l = ∅) as Hrefs.
  { apply set_eq. intros r. rewrite refs_put. split; [|set_solver]. intros (k & Hk). by rewrite lookup_empty in Hk. }
  split_and!; [|done|done|]; split; simpl.
  - by rewrite lookup_insert_eq.
  - intros k. rewrite entries_put_eq. by rewrite !lookup_empty.
  - rewrite Hrefs. set_solver.
  - intros k1 k2 r. rewrite entries_put_eq, lookup_empty. done.
  - intros l' Hne. by rewrite lookup_insert_ne.
  - done.
  - rewrite Hrefs. set_solver.
  - done.
Qed.

Lemma make_table_frame h l t :
  repr h l t → let '(l', h') := make_table h in l ≠ l' ∧ repr h' l t.
Proof.
  intros [Ha He Hl Hu]. unfold make_table. set (f := fresh _).
  assert (f ∉ dom (table_maps h)) as Hf by apply is_fresh.
  assert (l ≠ f) as Hne by (intros ->; by apply Hf, elem_of_dom). split; [done|].
  assert (entries_at (put_entries f ∅ h) l = entries_at h l) as Hsame by by apply entries_put_ne.
  split; simpl.
  - by rewrite lookup_insert_ne.
  - intros k. rewrite Hsame. apply He.
  - unfold refs. rewrite Hsame. apply Hl.
  - rewrite Hsame. apply Hu.
Qed.

(** ** Framing *)

Lemma local_frame h h' l1 l2 t2 :
  local_to l1 h h' → separate h l1 l2 → repr h l2 t2 → repr h' l2 t2 ∧ separate h' l1 l2.
Proof.
  intros [Ht He Hr Hg] [Hne Hsep] [Ha Hen Hl Hu].
  assert (entries_at h' l2 = entries_at h l2) as Hsame by (unfold entries_at; by rewrite Ht).
  assert (refs h' l2 = refs h l2) as Hrefs by (unfold refs; by rewrite Hsame).
  split; [split|split; [done|]].
  - by rewrite Ht.
  - intros k. rewrite Hsame, Hen. destruct (entries_at h l2 !! k) as [r|] eqn:Hk; [|done]. simpl.
    assert (r ∈ refs h l2) as Hin by (apply elem_of_refs; eauto).
    unfold backends_at. by rewrite He by set_solver.
  - rewrite Hrefs. set_solver.
  - rewrite Hsame. done.
  - rewrite Hrefs. intros r Hr1 Hr2. destruct (Hr _ Hr1); set_solver.
Qed.

Lemma separate_sym h l1 l2 : separate h l1 l2 → separate h l2 l1.
Proof. intros [? ?]. by split. Qed.

Lemma repr_Size h l t : repr h l t → heap_Size l h = Size t.
Proof.
  intros Hr. unfold heap_Size, Size.
  rewrite <-(map_size_fmap (λ r, mkRoutingTableEntry (backends_at h r)) (entries_at h l)). f_equal.
  apply map_eq. intros k. rewrite lookup_fmap. by rewrite (repr_entries _ _ _ Hr).
Qed.

(** ** Pruning *)

Lemma put_backends_id r h : r ∈ dom (entry_maps h) → put_backends r (backends_at h r) h = h.
Proof.
  intros [b Hb]%elem_of_dom. destruct h as [ts es]. unfold put_backends, backends_at. simpl in *.
  rewrite Hb. simpl. by rewrite insert_id.
Qed.

Lemma heap_PruneBackends_spec r entry ttl clk h i :
  entry ∈ dom (entry_maps h) →
  let '(e', j) := PruneBackends r (mkRoutingTableEntry (backends_at h entry)) ttl clk i in
  heap_PruneBackends r entry ttl clk (h, i) = (put_backends entry (Backends e') h, j).
Proof.
  intros Hin. unfold PruneBackends, heap_PruneBackends. cbn [Backends fst].
  generalize (r (backends_at h entry)). intros l.
  assert (∀ l b i, let '(e', j) := foldl (PruneBackends_step ttl clk) (mkRoutingTableEntry b, i) l in
    foldl (λ '(h, i) '(backendKey, details),
      (if Expired details ttl (clk i)
       then put_backends entry (delete backendKey (backends_at h entry)) h else h, S i))
      (put_backends entry b h, i) l = (put_backends entry (Backends e') h, j)) as Hl.
  { clear l i. induction l as [|[k d] l IH]; intros b i; [done|]. cbn [foldl]. unfold PruneBackends_step at 2.
    cbn [Backends]. destruct (Expired d ttl (clk i)); [|apply IH].
    rewrite backends_put_eq, put_backends_twice. apply IH. }
  specialize (Hl l (backends_at h entry) i). by rewrite put_backends_id in Hl.
Qed.

(** One round on both sides. *)
Lemma heap_PruneEntries_step_spec tr l ttl clk h t i k r :
  repr h l t → entries_at h l !! k = Some r →
  let '(t', j) := PruneEntries_step tr ttl clk (t, i) (k, mkRoutingTableEntry (backends_at h r)) in
  let '(h', j') := heap_PruneEntries_step (range_backends tr) l ttl clk (h, i) (k, r) in
  j' = j ∧ repr h' l t' ∧ local_to l h h' ∧
  (∀ k' r', k' ≠ k → entries_at h l !! k' = Some r' →
     entries_at h' l !! k' = Some r' ∧ backends_at h' r' = backends_at h r').
Proof.
  intros Hr Hk. assert (r ∈ dom (entry_maps h)) as Hin.
  { apply (repr_live _ _ _ Hr), elem_of_refs. eauto. }
  unfold PruneEntries_step, heap_PruneEntries_step. cbn [fst snd].
  pose proof (heap_PruneBackends_spec (range_backends tr k) r ttl clk h i Hin) as Hp.
  destruct (PruneBackends _ _ ttl clk i) as [e' j]. rewrite Hp, backends_put_eq.
  destruct (put_backends_spec _ _ _ _ _ (Backends e') Hr Hk) as [Hr' Hl'].
  assert (mkRoutingTableEntry (Backends e') = e') as He by by destruct e'. rewrite He in Hr'.
  assert (∀ k' r', k' ≠ k → entries_at h l !! k' = Some r' → r ≠ r') as Hne.
  { intros k' r' Hkk Hk' ->. by apply Hkk, (repr_unshared _ _ _ Hr _ _ r'). }
  split; [done|]. case_decide.
  - destruct (delete_entry_spec _ _ _ k Hr') as [Hr'' Hl'']. split; [done|]. split; [by etrans|].
    intros k' r' Hkk Hk'. rewrite entries_put_eq, lookup_delete_ne by done.
    change (entries_at (put_backends r (Backends e') h) l) with (entries_at h l). split; [done|].
    change (backends_at (put_entries l _ ?h1) r') with (backends_at h1 r').
    by rewrite backends_put_ne by by eapply Hne.
  - split; [done|]. split; [done|]. intros k' r' Hkk Hk'. split; [done|].
    by rewrite backends_put_ne by by eapply Hne.
Qed.

Lemma heap_PruneEntries_loop tr l ttl clk L h t i :
  repr h l t → NoDup L.*1 → (∀ k r, (k, r) ∈ L → entries_at h l !! k = Some r) →
  let '(t', j) := foldl (PruneEntries_step tr ttl clk) (t, i)
    ((λ kr, (kr.1, mkRoutingTableEntry (backends_at h kr.2))) <$> L) in
  let '(h', j') := foldl (heap_PruneEntries_step (range_backends tr) l ttl clk) (h, i) L in
  j' = j ∧ repr h' l t' ∧ local_to l h h'.
Proof.
  revert h t i. induction L as [|[k r] L IH]; intros h t i Hr Hnd HL; [done|].
  apply NoDup_cons in Hnd as [Hk Hnd]. cbn [fmap list_fmap foldl fst snd].
  pose proof (heap_PruneEntries_step_spec tr l ttl clk h t i k r Hr (HL _ _ ltac:(left))) as Hs.
  destruct (PruneEntries_step _ _ _ _ _) as [t1 j1], (heap_PruneEntries_step _ _ _ _ _ _) as [h1 j1'].
  destruct Hs as (-> & Hr1 & Hl1 & Hsame).
  assert (∀ k' r', (k', r') ∈ L → entries_at h1 l !! k' = Some r' ∧ backends_at h1 r' = backends_at h r') as HL1.
  { intros k' r' Hin. apply Hsame; [|apply HL; by right]. intros ->. apply Hk, list_elem_of_fmap. by exists (k, r'). }
  specialize (IH h1 t1 j1 Hr1 Hnd (λ k' r' Hin, proj1 (HL1 k' r' Hin))).
  assert (((λ kr : RoutingKey * nat, (kr.1, mkRoutingTableEntry (backends_at h1 kr.2))) <$> L) =
    ((λ kr, (kr.1, mkRoutingTableEntry (backends_at h kr.2))) <$> L)) as Heq.
  { apply list_fmap_ext. intros j [k' r'] Hj%list_elem_of_lookup_2. destruct (HL1 _ _ Hj) as [_ Hb]. simpl. by rewrite Hb. }
  rewrite Heq in IH.
  destruct (foldl (PruneEntries_step _ _ _) _ _) as [t2 j2], (foldl (heap_PruneEntries_step _ _ _ _) _ _) as [h2 j2'].
  destruct IH as (-> & Hr2 & Hl2). split; [done|]. split; [done|]. by etrans.
Qed.

(** The entries a heap stands for, and an order of ranging over them that
    follows an order of ranging over the map of locations. *)
Definition entries_of (h : heap) (l : nat) : gmap RoutingKey RoutingTableEntry :=
  (λ r, mkRoutingTableEntry (backends_at h r)) <$> entries_at h l.
Definition range_of (re : range_order RoutingKey nat)
    (rb : RoutingKey → range_order BackendServerKey BackendServerDetails) (h : heap) (l : nat) : TableRange :=
  mkTableRange (λ m, if decide (m = entries_of h l)
    then (λ kr, (kr.1, mkRoutingTableEntry (backends_at h kr.2))) <$> re (entries_at h l)
    else map_to_list m) rb.

Lemma repr_entries_of h l t : repr h l t → Entries t = entries_of h l.
Proof. intros Hr. apply map_eq. intros k. unfold entries_of. rewrite lookup_fmap. apply (repr_entries _ _ _ Hr). Qed.
Lemma range_of_ok re rb h l : IsRange re → (∀ k, IsRange (rb k)) → IsTableRange (range_of re rb h l).
Proof.
  intros Hre Hrb. split; [|done]. intros m. simpl. case_decide as Hm; [|done]. subst m.
  unfold entries_of. rewrite map_to_list_fmap. rewrite (range_perm (entries_at h l)). done.
Qed.

(** * The updater on the heap

    [u.routingTable] points to a struct, so a table of the updater is a
    location, which [Sync] replaces by that of the fresh table. *)
Section updater.
Context {api : RoutingAPI} {rc : RouterConfigurer} (time_Now : nat → Z).

Definition heap_Sync_merge_step (routingTable freshRoutingTable : nat) (acc : heap * nat * bool)
    (routeMapping : TcpRouteMapping) : heap * nat * bool :=
  let '(h, n, tableChanged) := acc in
  let '(routingKey, backendServerInfo) := toRoutingTableEntry routeMapping in
  let '(changed, h) := heap_Upsert routingTable routingKey backendServerInfo (time_Now n) h in
  let '(_, h) := heap_Upsert freshRoutingTable routingKey backendServerInfo (time_Now (S n)) h in
  (h, (n + 2)%nat, if changed then true else tableChanged).
Definition heap_Sync_merge (mappings : list TcpRouteMapping) (routingTable n : nat) (h : heap) :
    nat * bool * nat * heap :=
  let '(freshRoutingTable, h) := heap_NewRoutingTable h in
  let '(h, n, tableChanged) :=
    foldl (heap_Sync_merge_step routingTable freshRoutingTable) (h, n, false) mappings in
  if decide (heap_Size freshRoutingTable h ≠ heap_Size routingTable h)
  then (freshRoutingTable, true, n, h) else (routingTable, tableChanged, n, h).

Lemma heap_Sync_merge_loop ms h n ch l f s fresh :
  repr h l (u_routingTable s) → repr h f fresh → separate h l f → u_readings s = n →
  let '(h', n', ch') := foldl (heap_Sync_merge_step l f) (h, n, ch) ms in
  let '(s', fresh', ch'') := foldl (Sync_merge_step time_Now) (s, fresh, ch) ms in
  ch' = ch'' ∧ n' = u_readings s' ∧ repr h' l (u_routingTable s') ∧ repr h' f fresh'.
Proof.
  revert h n ch s fresh. induction ms as [|m ms IH]; intros h n ch s fresh Hl Hf Hsep <-; [done|].
  cbn [foldl]. unfold heap_Sync_merge_step at 2, Sync_merge_step at 2.
  destruct (toRoutingTableEntry m) as [k info].
  pose proof (heap_Upsert_spec _ _ _ k info (time_Now (u_readings s)) Hl) as H1.
  destruct (UpsertBackendServerKey (u_routingTable s) _ _ _) as [t1 c1], (heap_Upsert l _ _ _ _) as [b1 h1].
  destruct H1 as (-> & Hr1 & Hl1). destruct (local_frame _ _ _ _ _ Hl1 Hsep Hf) as [Hf1 Hsep1].
  pose proof (heap_Upsert_spec _ _ _ k info (time_Now (S (u_readings s))) Hf1) as H2.
  destruct (UpsertBackendServerKey fresh _ _ _) as [t2 c2], (heap_Upsert f _ _ _ _) as [b2 h2].
  destruct H2 as (-> & Hr2 & Hl2).
  destruct (local_frame _ _ _ _ _ Hl2 (separate_sym _ _ _ Hsep1) Hr1) as [Hr1' Hsep2].
  apply IH; [done|done|by apply separate_sym|done].
Qed.

End updater.

(** * Properties *)

(** The operations on the heap one after the other: their flags and the heap. *)
Fixpoint heap_runs (l : nat) (ops : list table_op) (h : heap) : list bool * heap :=
  match ops with
  | [] => ([], h)
  | op :: ops' =>
      let '(b, h) := heap_run l op h in
      let '(bs, h) := heap_runs l ops' h in (b :: bs, h)
  end.
Fixpoint run_ops (t : RoutingTable) (ops : list table_op) : list bool * RoutingTable :=
  match ops with
  | [] => ([], t)
  | op :: ops' =>
      let '(t, b) := run_op t op in
      let '(bs, t) := run_ops t ops' in (b :: bs, t)
  end.

(** C34. On the heap, where the entries of a table are maps held by reference,
    every sequence of upserts and deletes returns the flags and reaches the
    table that the operations on values do, no two entries ever share a map,
    and a table that shares nothing with the updated one is untouched. *)
Theorem heap_updates_refine (ops : list table_op) (h : heap) (l l2 : nat) (t t2 : RoutingTable) :
  repr h l t → repr h l2 t2 → separate h l l2 →
  let '(bs, h') := heap_runs l ops h in
  bs = (run_ops t ops).1 ∧ repr h' l (run_ops t ops).2 ∧ repr h' l2 t2 ∧ separate h' l l2.
Proof.
  revert h t. induction ops as [|op ops IH]; intros h t Hr Hr2 Hsep; [done|]. simpl.
  destruct (heap_run_spec _ _ _ op Hr) as (Hb & Hr' & Hl).
  destruct (local_frame _ _ _ _ _ Hl Hsep Hr2) as [Hr2' Hsep'].
  destruct (heap_run l op h) as [b h1], (run_op t op) as [t1 b1]. simpl in *. subst b1.
  specialize (IH h1 t1 Hr' Hr2' Hsep').
  destruct (heap_runs l ops h1) as [bs h2], (run_ops t1 ops) as [bs1 t3]. simpl in *. naive_solver.
Qed.

(** Pruning on the heap, which deletes from the maps it ranges over, is
    pruning on values in some order of ranging, and touches no other table. *)
Theorem heap_prune_refines re rb (h : heap) (l : nat) (t : RoutingTable) defaultTTL clk :
  IsRange re → (∀ k, IsRange (rb k)) → repr h l t →
  ∃ tr, IsTableRange tr ∧ range_backends tr = rb ∧
    let '(t', j) := PruneEntries tr t defaultTTL clk in
    let '(h', j') := heap_PruneEntries re rb l defaultTTL clk h in
    j' = j ∧ repr h' l t' ∧ local_to l h h'.
Proof.
  intros Hre Hrb Hr. exists (range_of re rb h l). split; [by apply range_of_ok|]. split; [done|].
  unfold PruneEntries, heap_PruneEntries. simpl. rewrite decide_True by by apply repr_entries_of.
  apply (heap_PruneEntries_loop (range_of re rb h l)); [done|by apply NoDup_range_keys|].
  intros k r. by apply elem_of_range.
Qed.

(** C35. The merge of a bulk sync, which updates two tables side by side and
    makes the updater's table share the map of the fresh one when the sizes
    differ, leaves the updater with the table the merge on values gives. *)
Theorem heap_sync_refines {api : RoutingAPI} {rc : RouterConfigurer} (time_Now : nat → Z)
    (mappings : list TcpRouteMapping) (h : heap) (l : nat) (s : UState) :
  repr h l (u_routingTable s) →
  let '(l', tableChanged, n, h') := heap_Sync_merge time_Now mappings l (u_readings s) h in
  let '(s', tableChanged') := Sync_merge time_Now mappings s in
  tableChanged = tableChanged' ∧ n = u_readings s' ∧ repr h' l' (u_routingTable s').
Proof.
  intros Hr. unfold heap_Sync_merge, heap_NewRoutingTable, Sync_merge.
  pose proof (make_table_spec h) as Hm. pose proof (make_table_frame _ _ _ Hr) as Hfr.
  destruct (make_table h) as [f h1]. destruct Hm as (Hf & Hrefs & _), Hfr as [Hne Hr1].
  pose proof (heap_Sync_merge_loop time_Now mappings h1 (u_readings s) false l f s NewRoutingTable
    Hr1 Hf ltac:(split; [done|rewrite Hrefs; set_solver]) eq_refl) as Hloop.
  destruct (foldl (heap_Sync_merge_step _ _ _) _ _) as [[h2 n2] ch2].
  destruct (foldl (Sync_merge_step _) _ _) as [[s2 fresh2] ch2'].
  destruct Hloop as (-> & -> & Hl2 & Hf2). unfold Sync_replace.
  rewrite (repr_Size _ _ _ Hl2), (repr_Size _ _ _ Hf2). case_decide; [|done].
  split; [done|]. split; [done|]. by destruct fresh2.
Qed.

End heap.

(** * Concrete instances *)
Module Sample.
Import RoutingTable.Sample Updater.Sample.

Definition heap0 : heap := mkHeap ∅ ∅.
Definition table_a : nat := (make_table heap0).1.
Definition heap1 : heap := (make_table heap0).2.
Definition table_b : nat := (make_table heap1).1.
Definition heap2 : heap := (make_table heap1).2.

Lemma heap1_repr : repr heap1 table_a NewRoutingTable.
Proof. apply (make_table_spec heap0). Qed.
Lemma heap2_repr :
  repr heap2 table_a NewRoutingTable ∧ repr heap2 table_b NewRoutingTable ∧ separate heap2 table_a table_b.
Proof.
  pose proof (make_table_frame heap1 table_a _ heap1_repr) as [Hne Ha].
  pose proof (make_table_spec heap1) as (Hb & Hrefs & _). split; [exact Ha|]. split; [exact Hb|].
  split; [exact Hne|]. change (refs heap2 table_b) with (refs (make_table heap1).2 (make_table heap1).1).
  set_solver.
Qed.

Definition heap_ops : list table_op :=
  [OpUpsert key80 info1 100; OpUpsert key80 info2 200; OpDelete key80 info1 300].
Lemma heap_updates_refine_witness :
  (heap_runs table_a heap_ops heap2).1 = [true; true; true] ∧
  repr (heap_runs table_a heap_ops heap2).2 table_a (run_ops NewRoutingTable heap_ops).2.
Proof.
  destruct heap2_repr as (Ha & Hb & Hsep).
  pose proof (heap_updates_refine heap_ops heap2 table_a table_b _ _ Ha Hb Hsep) as H.
  destruct (heap_runs table_a heap_ops heap2) as [bs h'] eqn:Hrun. destruct H as (Hbs & Hr & _).
  split; [|exact Hr]. change (bs = [true; true; true]). rewrite Hbs. vm_compute. reflexivity.
Defined.

(** Two upserts, then a pruning that finds the first one expired. *)
Definition heap3 : heap := (heap_runs table_a [OpUpsert key80 info1 100; OpUpsert key80 info2 200] heap2).2.
Lemma heap3_repr :
  repr heap3 table_a (run_ops NewRoutingTable [OpUpsert key80 info1 100; OpUpsert key80 info2 200]).2.
Proof.
  destruct heap2_repr as (Ha & _).
  destruct (heap_run_spec _ _ _ (OpUpsert key80 info1 100) Ha) as (_ & H1 & _).
  destruct (heap_run_spec _ _ _ (OpUpsert key80 info2 200) H1) as (_ & H2 & _). exact H2.
Qed.
Lemma heap_prune_refines_witness :
  ∃ tr, IsTableRange tr ∧
    let '(t', j) := PruneEntries tr (run_ops NewRoutingTable [OpUpsert key80 info1 100; OpUpsert key80 info2 200]).2
      120 sample_clock in
    let '(h', j') := heap_PruneEntries map_to_list (λ _, map_to_list) table_a 120 sample_clock heap3 in
    j' = j ∧ repr h' table_a t'.
Proof.
  destruct (heap_prune_refines map_to_list (λ _, map_to_list) heap3 table_a _ 120 sample_clock
    _ _ heap3_repr) as (tr & Htr & _ & H).
  exists tr. split; [exact Htr|].
  destruct (PruneEntries tr _ 120 sample_clock) as [t' j].
  destruct (heap_PruneEntries _ _ table_a 120 sample_clock heap3) as [h' j'].
  destruct H as (Hj & Hr & _). split; [exact Hj|exact Hr].
Defined.

(** A listing of one route for an updater that has another one. *)
Definition heap_updater : UState := set_table (run_ops NewRoutingTable [OpUpsert (mkRoutingKey 81 "") info1 100]).2
  (Updater.Sample.start [] []).
Definition heap4 : heap := (heap_run table_a (OpUpsert (mkRoutingKey 81 "") info1 100) heap2).2.
Lemma heap4_repr : repr heap4 table_a (u_routingTable heap_updater).
Proof.
  destruct heap2_repr as (Ha & _).
  destruct (heap_run_spec _ _ _ (OpUpsert (mkRoutingKey 81 "") info1 100) Ha) as (_ & H1 & _). exact H1.
Qed.
Lemma heap_sync_refines_witness :
  let '(l', tableChanged, _, h') := heap_Sync_merge sample_now [mapping1] table_a 0 heap4 in
  tableChanged = true ∧ repr h' l' (u_routingTable (Sync_merge sample_now [mapping1] heap_updater).1).
Proof.
  pose proof (heap_sync_refines sample_now [mapping1] heap4 table_a heap_updater heap4_repr) as H.
  change (u_readings heap_updater) with 0%nat in H.
  destruct (heap_Sync_merge sample_now [mapping1] table_a 0 heap4) as [[[l' ch] n] h'].
  destruct (Sync_merge sample_now [mapping1] heap_updater) as [s' ch'] eqn:Hs. destruct H as (Hch & _ & Hr).
  split; [|exact Hr]. rewrite Hch. apply (f_equal snd) in Hs. change ch' with (s', ch').2. rewrite <-Hs. vm_compute. reflexivity.
Defined.

(** Replacing the map by that of the fresh table: the location changes. *)
Example sync_moves_the_table :
  bool_decide ((heap_Sync_merge sample_now [mapping1] table_a 0 heap4).1.1.1 = table_a) = false.
Proof. vm_compute. reflexivity. Qed.

End Sample.
