(* ===== verification/System.v ===== *)
(** The router put together: the updater on the HAProxy configurer with the
    marshaller, down to where HAProxy sends a connection. *)
From Stdlib Require Import Ascii.
From S2P Require Import Prelude Sorting GoStrings RoutingTable HAProxyConfig Config HAProxyReader.
From S2P Require Import Marshaller MarshallerCorrect OS FileUtils Monitor Configurer Updater.
#[local] Open Scope Z_scope.

(** * The implementations of the interfaces *)

Definition haproxy_marshaller (mr : MarshalRange) : ConfigMarshaller :=
  λ conf tls, (Marshal mr conf tls).1.

(** [*haproxy.Configurer] as the updater's [RouterConfigurer]. *)
Definition haproxy_configurer {tags : ModificationTags} (mr : MarshalRange) (tr : TableRange)
    (h : Configurer) : RouterConfigurer := {|
  conf_state := CState;
  router_Configure := λ t draining st,
    let '(r, st') := @Configure tags (haproxy_marshaller mr) h tr t draining st in (err_of r, st')
|}.

(** * Reading the base configuration followed by the text *)

Lemma Split_app_any s1 s2 sep : Split (s1 +:+ String sep s2) sep = Split s1 sep ++ Split s2 sep.
Proof.
  induction s1 as [|c s1 IH]; simpl; [by rewrite decide_True|].
  case_decide; [by rewrite IH|]. rewrite IH.
  pose proof (Split_nonempty s1 sep). by destruct (Split s1 sep).
Qed.

Lemma read_lines_app base ls :
  Forall good_line ls → read_lines (base +:+ render ls) = read_lines base ++ ls.*2.
Proof.
  intros Hls. destruct ls as [|l ls]; [by rewrite app_empty_r, app_nil_r|].
  pose proof (read_rendered (l :: ls) Hls) as Hr. revert Hr.
  unfold read_lines. change (concat_strings _) with (render (l :: ls)).
  rewrite render_cons. unfold render_line. simpl.
  rewrite Split_app_any. destruct (decide (newline = newline)); [|done].
  intros [= Hr]. rewrite fmap_app. f_equal. exact Hr.
Qed.

Lemma sections_app l1 l2 :
  (sections l2).1 = [] → sections (l1 ++ l2) = ((sections l1).1, (sections l1).2 ++ (sections l2).2).
Proof.
  intros H2. induction l1 as [|l l1 IH]; simpl; [by rewrite <-H2, <-surjective_pairing|].
  rewrite IH. destruct (sections l1) as [body secs]. simpl.
  destruct (header l) as [[]|]; [done|]. by destruct l.
Qed.

(** The base configuration does not use a port: nothing in it listens on the
    port or has the name of one of its backends. *)
Definition leaves_port (base : string) (port : Z) : Prop :=
  ∀ s, s ∈ read_config base →
    listens port s = false ∧ (∀ h, sec_kind s = "backend" → sec_name s ≠ backendCfgName port h).

Lemma find_section_app P secs1 secs2 :
  (∀ s, s ∈ secs1 → P s = false) → find_section P (secs1 ++ secs2) = find_section P secs2.
Proof.
  intros Hn. unfold find_section. rewrite filter_app, filter_none; [done|].
  apply Forall_forall. intros s Hs HP. by rewrite (Hn s Hs) in HP.
Qed.

Section system.
Context {tags : ModificationTags}.

Lemma route_to_base conf tls mr base port sni :
  IsMarshalRange mr → wf_config conf → plain_instances conf → plain_tls tls → leaves_port base port →
  route_to (read_config (base +:+ (Marshal mr conf tls).1)) port sni =
  route_to (config_sections conf tls) port sni.
Proof.
  intros Hmr Hwf Hi Htls Hbase. unfold read_config at 1.
  rewrite Marshal_render, read_lines_app, sections_app by
    (done || by apply config_lines_good || by rewrite sections_config).
  rewrite sections_config. cbn [snd]. fold (read_config base). unfold route_to.
  rewrite find_section_app by (intros s Hs; by apply Hbase).
  destruct (find_section (listens port) (config_sections conf tls)) as [fe|] eqn:Hfe; [|done].
  cbn [mbind option_bind]. destruct (choose_backend sni (sec_body fe)) as [b|] eqn:Hb; [|done].
  cbn [mbind option_bind]. rewrite find_section_app; [done|]. intros s Hs.
  destruct (decide (sec_kind s = "backend")) as [Hk|]; [|by rewrite bool_decide_false].
  assert (∃ h, b = backendCfgName port h) as [h ->].
  { destruct (conf !! port) as [f|] eqn:Hf.
    - rewrite (find_frontend _ _ _ f) in Hfe by done. simplify_eq.
      rewrite choose_backend_frontend in Hb. by repeat case_match; simplify_eq; eexists.
    - by rewrite find_frontend_none in Hfe. }
  apply andb_false_iff. right. apply bool_decide_eq_false. by apply Hbase.
Qed.

(** What the file of a successful call of [Configure] says. *)
Lemma Configure_routes mr tr h t force s s' :
  IsMarshalRange mr → IsTableRange tr → plain_table t → plain_tls (backendTlsCfg h) →
  baseConfigFilePath h ≠ backup_path h →
  @Configure tags (haproxy_marshaller mr) h tr t force s = (Ok tt, s') →
  ∃ base text, files (cs_os s) !! baseConfigFilePath h = Some base ∧
    files (cs_os s') !! configFilePath h = Some text ∧
    ∀ port sni, leaves_port base port →
      route_to (read_config text) port sni =
      server_texts (backendTlsCfg h) <$> table_serving tr t port sni.
Proof.
  intros Hmr Htr Ht Htls Hne (rw & os' & Hw & Hr)%Configure_cases.
  apply Configure_write_spec in Hw; [|done].
  destruct rw as [u|e]; [|by destruct Hr]. destruct Hw as (os1 & old & base & _ & _ & Hb & Hf & _).
  exists base, (base +:+ (Marshal mr (NewHAProxyConfig tr t).1 (backendTlsCfg h)).1).
  split; [done|]. split.
  - assert (cs_os s' = os') as -> by (destruct (scriptRunner h); by destruct Hr as [_ ->]).
    by rewrite Hf, lookup_insert_eq.
  - intros port sni Hbase.
    rewrite route_to_base, route_to_sections by
      auto using NewHAProxyConfig_wf, plain_table_config.
    unfold serving, table_serving. by rewrite !NewHAProxyConfig_lookup.
Qed.

(** ** Events one after the other *)

(** The instance a TLS backend of an event names can stand in a line. *)
Definition plain_mapping (m : TcpRouteMapping) : Prop :=
  let bk := (mapping_target m).2 in 0 < bk_TLSPort bk → plain (bk_InstanceID bk) = true.
Definition plain_event (e : TcpEvent) : Prop := plain_mapping (ev_TcpRouteMapping e).

Lemma run_op_plain t e now op :
  plain_table t → plain_event e → event_op e now = Some op → plain_table (run_op t op).1.
Proof.
  intros Ht He Hop rk bk. rewrite run_op_lookup. case_decide as Heq; [|apply Ht].
  unfold event_op in Hop. unfold plain_event, plain_mapping, mapping_target in He. destruct (toRoutingTableEntry _) as [k i].
  intros _ Htls. repeat case_decide; simplify_eq/=; auto.
Qed.

(** Configuring leaves every file alone that is not the configuration file,
    its backup or the temporary file. *)
Definition own_files (h : Configurer) : list string := [configFilePath h; backup_path h; tmp_path h].
Lemma Configure_frame mr tr h t force s r s' path :
  baseConfigFilePath h ∉ own_files h → path ∉ own_files h →
  @Configure tags (haproxy_marshaller mr) h tr t force s = (r, s') →
  files (cs_os s') !! path = files (cs_os s) !! path.
Proof.
  unfold own_files. rewrite !not_elem_of_cons. intros (_ & Hb & _) (Hp1 & Hp2 & Hp3 & _).
  intros (rw & os' & Hw & Hr)%Configure_cases. apply Configure_write_spec in Hw; [|done].
  assert (cs_os s' = os') as ->.
  { destruct rw; [destruct (scriptRunner h)|]; by destruct Hr as [_ ->]. }
  destruct rw as [u|e].
  - destruct Hw as (_ & old & base & _ & _ & _ & Hf & _).
    by rewrite Hf, lookup_insert_ne, lookup_delete_ne, lookup_insert_ne.
  - destruct Hw as [_ Hs]. apply Hs. set_solver.
Qed.

Section events.
Context (mr : MarshalRange) (tr : TableRange) (h : Configurer) (api : RoutingAPI) (time_Now : nat → Z).
Context (Hmr : IsMarshalRange mr) (Htr : IsTableRange tr) (Htls : plain_tls (backendTlsCfg h)).
Context (Hown : baseConfigFilePath h ∉ own_files h).

(** The events that [HandleEvent] takes without error. *)
Fixpoint handle_all (es : list TcpEvent) (s : @UState tags api (haproxy_configurer mr tr h)) :
    option (@UState tags api (haproxy_configurer mr tr h)) :=
  match es with
  | [] => Some s
  | e :: es' =>
      match HandleEvent time_Now e s with
      | (None, s') => handle_all es' s'
      | (Some _, _) => None
      end
  end.

(** The file sends connections where the table says, up to the order in which
    the servers of a route are listed; before the first configuration the
    table is empty. *)
Definition in_force (base : string) (s : @UState tags api (haproxy_configurer mr tr h)) : Prop :=
  u_configured s = [] ∧ same_backends (u_routingTable s) NewRoutingTable ∨
  ∃ t text, same_backends t (u_routingTable s) ∧
    files (cs_os (u_conf s)) !! configFilePath h = Some text ∧
    ∀ port sni, leaves_port base port →
      route_to (read_config text) port sni = server_texts (backendTlsCfg h) <$> table_serving tr t port sni.
Definition events_state (base : string) (s : @UState tags api (haproxy_configurer mr tr h)) : Prop :=
  u_syncing s = false ∧ plain_table (u_routingTable s) ∧
  files (cs_os (u_conf s)) !! baseConfigFilePath h = Some base ∧ in_force base s.

Lemma HandleEvent_in_force base e s s' :
  events_state base s → plain_event e → HandleEvent time_Now e s = (None, s') → events_state base s'.
Proof.
  intros (Hs & Hplain & Hbase & Hin) Hpe He.
  unfold HandleEvent in He. rewrite Hs, handleEvent_eq, Hs in He.
  destruct (event_op e (time_Now (u_readings s))) as [op|] eqn:Hop; [|done].
  pose proof (run_op_plain _ _ _ _ Hplain Hpe Hop) as Hplain'.
  pose proof (run_op_same_backends (u_routingTable s) op) as Hsame.
  destruct (run_op (u_routingTable s) op) as [t ch]. cbn zeta in He. simpl in He, Hplain', Hsame.
  destruct ch; simpl in He.
  - rewrite call_configurer_state in He. unfold call_configurer, call_configurer_with in He. simpl in He.
    destruct (Configure h tr t _ _) as [r c] eqn:Hc. simpl in He. destruct r as [[]|]; [|done].
    simplify_eq. split; [done|]. split; [done|]. simpl.
    split; [by rewrite (Configure_frame _ _ _ _ _ _ _ _ _ Hown Hown Hc)|].
    assert (baseConfigFilePath h ≠ backup_path h) as Hne.
    { intros Heq. apply Hown. rewrite Heq. unfold own_files. set_solver. }
    apply Configure_routes in Hc as (base' & text & Hb & Hf & Hroute); [|done..].
    rewrite Hbase in Hb. simplify_eq. right. exists t, text. done.
  - simplify_eq. split; [done|]. split; [done|]. split; [done|]. simpl.
    assert (same_backends t (u_routingTable s)) as Ht by by apply Hsame.
    destruct Hin as [[Hc Hn]|(t' & text & Ht' & Hrest)]; [left|right].
    + split; [done|]. by etrans.
    + exists t', text. split; [|done]. etrans; [exact Ht'|]. by symmetry.
Qed.

Lemma handle_all_in_force base es s s' :
  events_state base s → Forall plain_event es → handle_all es s = Some s' → events_state base s'.
Proof.
  intros Hs Hes. revert s Hs. induction Hes as [|e es He _ IH]; intros s Hs Hh; simpl in Hh; [by simplify_eq|].
  destruct (HandleEvent time_Now e s) as [[err|] s1] eqn:H1; [done|].
  eapply IH; [|done]. by eapply HandleEvent_in_force.
Qed.

End events.

(** ** Events and syncs without faults *)

Definition script_succeeds (h : Configurer) : Prop :=
  ∀ sr force fs, scriptRunner h = Some sr → script_Run sr force fs = None.

(** A file system on which [Configure] cannot fail. *)
Record quiet (h : Configurer) (base : string) (c : CState) : Prop := {
  quiet_faults : faults (cs_os c) = [];
  quiet_base : files (cs_os c) !! baseConfigFilePath h = Some base;
  quiet_config : is_Some (files (cs_os c) !! configFilePath h)
}.

Lemma Configure_quiet mr tr h base t force c :
  baseConfigFilePath h ∉ own_files h → script_succeeds h → quiet h base c →
  ∃ c', @Configure tags (haproxy_marshaller mr) h tr t force c = (Ok tt, c') ∧ quiet h base c'.
Proof.
  intros Hown Hsr [Hfl Hb Hc].
  pose proof (@Configure_ok tags (haproxy_marshaller mr) h tr t force c Hfl Hc ltac:(by eexists)
    (λ sr fs, Hsr sr force fs)) as Hok.
  destruct (Configure h tr t force c) as [r c'] eqn:Hrun. simpl in Hok. subst r. exists c'. split; [done|].
  assert (baseConfigFilePath h ≠ backup_path h) as Hne.
  { intros Heq. apply Hown. rewrite Heq. unfold own_files. set_solver. }
  pose proof (Configure_frame _ _ _ _ _ _ _ _ _ Hown Hown Hrun) as Hb'.
  apply Configure_cases in Hrun as (rw & os' & Hw & Hr).
  pose proof (Configure_write_calm _ _ _ _ _ _ Hw Hfl) as Hfl'. apply Configure_write_spec in Hw; [|done].
  destruct rw as [u|e]; [|by destruct Hr].
  assert (cs_os c' = os') as Hos by (destruct (scriptRunner h); by destruct Hr as [_ ->]).
  destruct Hw as (_ & old & b & _ & _ & _ & Hf & _). split; [by rewrite Hos|by rewrite Hb'|].
  rewrite Hos, Hf, lookup_insert_eq. by eexists.
Qed.

Section steady.
Context (mr : MarshalRange) (tr : TableRange) (h : Configurer) (api : RoutingAPI) (time_Now : nat → Z).
Context (Hmr : IsMarshalRange mr) (Htr : IsTableRange tr) (Htls : plain_tls (backendTlsCfg h)).
Context (Hown : baseConfigFilePath h ∉ own_files h) (Hsr : script_succeeds h).
Context (Hapi : ∀ a ms a', TcpRouteMappings a = (Ok ms, a') → Forall plain_mapping ms).

Definition steady (base : string) (s : @UState tags api (haproxy_configurer mr tr h)) : Prop :=
  u_syncing s = false ∧ plain_table (u_routingTable s) ∧ quiet h base (u_conf s) ∧
  in_force mr tr h api base s.

(** A call of the configurer puts the table in force; a change that keeps the
    set of backends needs none. *)
Lemma call_configurer_steady base t drain c :
  plain_table t → quiet h base c →
  ∃ c', router_Configure (RouterConfigurer := haproxy_configurer mr tr h) t drain c = (None, c') ∧
    quiet h base c' ∧
    ∃ text, files (cs_os c') !! configFilePath h = Some text ∧
      ∀ port sni, leaves_port base port →
        route_to (read_config text) port sni = server_texts (backendTlsCfg h) <$> table_serving tr t port sni.
Proof.
  intros Ht Hq. destruct (Configure_quiet mr tr h base t drain c Hown Hsr Hq) as (c' & Hc & Hq').
  exists c'. simpl. rewrite Hc. split; [done|]. split; [done|].
  assert (baseConfigFilePath h ≠ backup_path h) as Hne.
  { intros Heq. apply Hown. rewrite Heq. unfold own_files. set_solver. }
  apply Configure_routes in Hc as (base' & text & Hb & Hf & Hroute); [|done..].
  destruct Hq as [_ Hb' _]. rewrite Hb' in Hb. simplify_eq. eauto.
Qed.
Lemma in_force_unchanged base (s s' : @UState tags api (haproxy_configurer mr tr h)) :
  in_force mr tr h api base s → u_configured s' = u_configured s → u_conf s' = u_conf s →
  same_backends (u_routingTable s') (u_routingTable s) → in_force mr tr h api base s'.
Proof.
  intros [[Hc Hn]|(t & text & Ht & Hrest)] Hcf Hconf Hsame; [left|right]; rewrite ?Hcf, ?Hconf.
  - split; [done|]. by etrans.
  - exists t, text. split; [|done]. etrans; [exact Ht|]. by symmetry.
Qed.

Lemma HandleEvent_steady base e s : steady base s → plain_event e → steady base (HandleEvent time_Now e s).2.
Proof.
  intros (Hs & Hplain & Hq & Hin) He. unfold HandleEvent. rewrite Hs, handleEvent_eq, Hs.
  destruct (event_op e (time_Now (u_readings s))) as [op|] eqn:Hop; [|done].
  pose proof (run_op_plain _ _ _ _ Hplain He Hop) as Hplain'.
  pose proof (run_op_same_backends (u_routingTable s) op) as Hsame.
  destruct (run_op (u_routingTable s) op) as [t ch]. cbn zeta. simpl in *. destruct ch; simpl.
  - rewrite call_configurer_state. simpl u_routingTable. simpl u_isDraining. simpl u_conf.
    destruct (call_configurer_steady base t (u_isDraining s) (u_conf s) Hplain' Hq) as (c' & Hc & Hq' & text & Hf & Hroute).
    rewrite Hc. split; [done|]. split; [done|]. split; [done|]. right. exists t, text. done.
  - split; [done|]. split; [done|]. split; [done|].
    eapply in_force_unchanged; [exact Hin|done|done|]. by apply Hsame.
Qed.

Lemma Sync_fetch_plain n cached err (s s1 : @UState tags api (haproxy_configurer mr tr h)) ms e :
  Sync_fetch n cached err s = (Some (ms, e), s1) → Forall plain_mapping ms.
Proof.
  revert cached err s. induction n as [|n IH]; intros cached err s Hf; simpl in Hf; [by simplify_eq|].
  destruct (FetchToken _ _) as [[token|e'] a]; [|done].
  destruct (TcpRouteMappings _) as [[ms'|e'] a'] eqn:Hm; [simplify_eq; by eapply Hapi|].
  case_bool_decide; [by eapply IH|done].
Qed.

Lemma Sync_body_plain (s : @UState tags api (haproxy_configurer mr tr h)) :
  plain_table (u_routingTable s) → plain_table (u_routingTable (Sync_body time_Now s).1).
Proof.
  intros Ht. destruct (Sync_body_spec time_Now s) as [(ms & s1 & Hf & ->) | [_ ->]]; [|done].
  pose proof (Sync_fetch_plain _ _ _ _ _ _ _ Hf) as Hms. pose proof (Sync_fetch_state 2 true None s) as Hst.
  rewrite Hf in Hst. simpl in Hst. destruct (Sync_merge_spec time_Now ms s1) as (_ & [_ _ Hkept Hrepl] & _).
  assert (u_routingTable s1 = u_routingTable s) as Htab by by rewrite Hst.
  rewrite Htab in Hkept, Hrepl. intros rk bk Hbk.
  assert ((rk, bk) ∈ mapping_target <$> ms ∨ is_Some (lookup_backend (u_routingTable s) rk bk)) as [Hin|Hold].
  { destruct (decide (dom (Entries (u_routingTable s)) ⊆ dom (Entries (u_routingTable (Sync_merge time_Now ms s1).1)))) as [Hd|Hd].
    - by apply Hkept in Hbk.
    - left. by apply Hrepl in Hbk. }
  - apply list_elem_of_fmap in Hin as (m & Hm & Hin). rewrite Forall_forall in Hms. specialize (Hms _ Hin).
    unfold plain_mapping in Hms. by rewrite <-Hm in Hms.
  - by eapply Ht.
Qed.

Lemma apply_events_plain es t n :
  plain_table t → Forall plain_event es → plain_table (foldl (apply_event time_Now) (t, n) es).1.
Proof.
  intros Ht Hes. revert t n Ht. induction Hes as [|e es He _ IH]; intros t n Ht; [done|]. cbn [foldl].
  unfold apply_event at 2. simpl. destruct (event_op e (time_Now n)) as [op|] eqn:Hop; [|by apply IH].
  apply IH. by eapply run_op_plain.
Qed.

Lemma Sync_during_steady base es s :
  steady base s → Forall plain_event es → steady base (Sync_during time_Now es s).
Proof.
  intros (Hs & Hplain & Hq & Hin) Hes. rewrite Sync_during_eq.
  destruct (Sync_body_in_sync time_Now (Sync_begin s)) as (_ & _ & (_ & _ & Hcf & Hcd) & Hsame).
  pose proof (Sync_body_plain (Sync_begin s) Hplain) as Hplain1.
  destruct (Sync_body time_Now (Sync_begin s)) as [s1 ch]. simpl in Hcf, Hcd, Hsame, Hplain1. simpl fst. simpl snd.
  destruct (Sync_end_spec time_Now ch (set_sync true es s1) eq_refl) as (Ht & Hsy & _ & _ & _ & _ & Hconf).
  pose proof (apply_events_plain es (u_routingTable s1) (u_readings s1) Hplain1 Hes) as Hplain2.
  simpl in Ht, Hconf. rewrite <-Ht in Hplain2. split; [done|]. split; [done|].
  destruct Hconf as [(H1 & H2 & Hch & H3) | [H1 H2]].
  - rewrite H2, Hcf. split; [done|]. eapply in_force_unchanged; [exact Hin|congruence|congruence|].
    etrans; [exact H3|]. by apply Hsame.
  - rewrite Hcf in H2.
    destruct (call_configurer_steady base _ (u_isDraining s1) (u_conf s) Hplain2 Hq) as (c' & Hc & Hq' & text & Hf & Hroute).
    assert (u_conf (Sync_end time_Now ch (set_sync true es s1)) = c') as Hconf
      by (etrans; [exact H2|]; exact (f_equal snd Hc)).
    rewrite Hconf. split; [done|]. right. eexists _, text. split; [reflexivity|]. rewrite Hconf. split; [exact Hf|exact Hroute].
Qed.

Lemma Drain_steady base s : steady base s → steady base (Drain s).2.
Proof.
  intros (Hs & Hplain & Hq & Hin). unfold Drain, IsDraining. destruct (u_isDraining s); [done|].
  rewrite call_configurer_state. simpl u_routingTable. simpl u_isDraining. simpl u_conf.
  destruct (call_configurer_steady base (u_routingTable s) true (u_conf s) Hplain Hq)
    as (c' & Hc & Hq' & text & Hf & Hroute).
  rewrite Hc. split; [done|]. split; [done|]. split; [done|]. right. by exists (u_routingTable s), text.
Qed.

(** What the watcher makes the updater do, one thing at a time: an event, a
    sync during which events arrive, or a drain. *)
Inductive activity :=
  | Handled (e : TcpEvent)
  | Synced (es : list TcpEvent)
  | Drained.
Definition plain_activity (a : activity) : Prop :=
  match a with Handled e => plain_event e | Synced es => Forall plain_event es | Drained => True end.
Definition act (s : @UState tags api (haproxy_configurer mr tr h)) (a : activity) :
    @UState tags api (haproxy_configurer mr tr h) :=
  match a with
  | Handled e => (HandleEvent time_Now e s).2
  | Synced es => Sync_during time_Now es s
  | Drained => (Drain s).2
  end.

Lemma act_steady base acts s :
  steady base s → Forall plain_activity acts → steady base (foldl act s acts).
Proof.
  intros Hs Hacts. revert s Hs. induction Hacts as [|a acts Ha _ IH]; intros s Hs; [done|]. cbn [foldl].
  apply IH. destruct a; [by apply HandleEvent_steady|by apply Sync_during_steady|by apply Drain_steady].
Qed.

End steady.

(** * Properties *)

(** When [Configure] returns no error, the configuration file it leaves,
    read the way HAProxy reads it, sends the connections of every port the
    base configuration leaves alone to exactly the servers of the routing
    table it was given. *)
Theorem configure_routes mr tr h t force s s' :
  IsMarshalRange mr → IsTableRange tr → plain_table t → plain_tls (backendTlsCfg h) →
  baseConfigFilePath h ≠ backup_path h →
  @Configure tags (haproxy_marshaller mr) h tr t force s = (Ok tt, s') →
  ∃ base text, files (cs_os s) !! baseConfigFilePath h = Some base ∧
    files (cs_os s') !! configFilePath h = Some text ∧
    ∀ port sni, leaves_port base port →
      route_to (read_config text) port sni =
      server_texts (backendTlsCfg h) <$> table_serving tr t port sni.
Proof. apply Configure_routes. Qed.

(** From the event to HAProxy: outside a sync, an event that changes the
    set of backends and that [HandleEvent] accepts without error leaves a
    configuration file that sends connections where the updated table says. *)
Theorem event_reaches_haproxy mr tr h (api : RoutingAPI) time_Now e op
    (s s' : @UState tags api (haproxy_configurer mr tr h)) :
  IsMarshalRange mr → IsTableRange tr → plain_tls (backendTlsCfg h) →
  baseConfigFilePath h ≠ backup_path h →
  u_syncing s = false → event_op e (time_Now (u_readings s)) = Some op →
  HandleEvent time_Now e s = (None, s') →
  plain_table (run_op (u_routingTable s) op).1 → (run_op (u_routingTable s) op).2 = true →
  ∃ base text, files (cs_os (u_conf s)) !! baseConfigFilePath h = Some base ∧
    files (cs_os (u_conf s')) !! configFilePath h = Some text ∧
    ∀ port sni, leaves_port base port →
      route_to (read_config text) port sni =
      server_texts (backendTlsCfg h) <$> table_serving tr (u_routingTable s') port sni.
Proof.
  intros Hmr Htr Htls Hne Hs Hop He Hplain Hflag.
  unfold HandleEvent in He. rewrite Hs, handleEvent_eq, Hop, Hs, Hflag in He. cbn zeta in He. simpl in He.
  rewrite call_configurer_state in He. unfold call_configurer, call_configurer_with in He. simpl in He.
  destruct (Configure h tr _ _ _) as [r c] eqn:Hc. simpl in He.
  destruct r as [[]|err]; [|done]. simplify_eq. simpl.
  by apply Configure_routes in Hc.
Qed.

End system.

(** * A concrete instance *)
Module Sample.
Import RoutingTable.Sample HAProxyConfig.Sample MarshallerCorrect.Sample Updater.Sample.

Definition sample_h : Configurer :=
  mkConfigurer "/base" "/cfg" sample_tls (Some (mkScriptRunner (λ _ _, None))).
Definition sample_base : string := "defaults" +:+ nl +:+ "  mode tcp".
Definition sample_state : CState :=
  mkCState (mkOS {[ "/base" := sample_base; "/cfg" := "" ]} 0 [] []) (New "/pid") [].

Lemma sample_base_leaves port : leaves_port sample_base port.
Proof. intros s Hs. assert (read_config sample_base = []) as Hr by reflexivity. rewrite Hr in Hs. by apply elem_of_nil in Hs. Qed.

Definition sample_run : CState :=
  (@Configure _ (haproxy_marshaller plain_marshal) sample_h plain_range table3 false sample_state).2.
Lemma sample_run_ok :
  @Configure _ (haproxy_marshaller plain_marshal) sample_h plain_range table3 false sample_state
  = (Ok tt, sample_run).
Proof.
  unfold sample_run. rewrite (surjective_pairing (Configure _ _ _ _ _)) at 1. f_equal.
Qed.

Lemma configure_routes_witness :
  ∃ text, files (cs_os sample_run) !! "/cfg" = Some text ∧
    route_to (read_config text) 80 "app.example.com" =
    server_texts sample_tls <$> table_serving plain_range table3 80 "app.example.com".
Proof.
  destruct (configure_routes plain_marshal plain_range sample_h table3 false sample_state sample_run
    plain_marshal_ok plain_range_ok table3_plain sample_tls_plain ltac:(done) sample_run_ok)
    as (base & text & Hb & Hf & Hroute).
  exists text. split; [exact Hf|]. apply Hroute.
  injection Hb as <-. apply sample_base_leaves.
Defined.

Definition sample_updater :
    @UState _ sample_api (haproxy_configurer plain_marshal plain_range sample_h) :=
  @NewUpdater _ sample_api (haproxy_configurer plain_marshal plain_range sample_h)
    NewRoutingTable 120 ([], []) sample_state.
Definition sample_event : TcpEvent := mkTcpEvent mapping1 "Upsert".
Definition sample_table : RoutingTable := (UpsertBackendServerKey NewRoutingTable key80 info1 0).1.
Lemma sample_table_plain : plain_table sample_table.
Proof.
  intros rk bk Hbk Htls. exfalso. apply Upsert_present in Hbk as [Hbk | [d Hd]].
  - injection Hbk as -> ->. vm_compute in Htls. discriminate Htls.
  - unfold lookup_backend in Hd. simpl in Hd. rewrite lookup_empty in Hd. discriminate Hd.
Qed.

Definition sample_after : @UState _ sample_api (haproxy_configurer plain_marshal plain_range sample_h) :=
  (HandleEvent sample_now sample_event sample_updater).2.
Lemma sample_event_ok : HandleEvent sample_now sample_event sample_updater = (None, sample_after).
Proof.
  unfold sample_after. rewrite (surjective_pairing (HandleEvent _ _ _)) at 1. f_equal.
Qed.

Lemma event_reaches_haproxy_witness :
  ∃ text, files (cs_os (u_conf sample_after)) !! "/cfg" = Some text ∧
    route_to (read_config text) 80 "" =
    Some [["server"; "server_host-1.internal_8080"; "host-1.internal:8080"]].
Proof.
  destruct (event_reaches_haproxy plain_marshal plain_range sample_h sample_api sample_now sample_event
    (OpUpsert key80 info1 0) sample_updater sample_after
    plain_marshal_ok plain_range_ok sample_tls_plain ltac:(done) eq_refl eq_refl
    sample_event_ok sample_table_plain ltac:(vm_compute; reflexivity))
    as (base & text & Hb & Hf & Hroute).
  exists text. split; [exact Hf|]. rewrite Hroute.
  - vm_compute. reflexivity.
  - injection Hb as <-. apply sample_base_leaves.
Defined.

End Sample.
