(* ===== verification/Csv.v ===== *)
(** Go's [encoding/csv] reader with its default settings: comma separated
    fields, quoting, every record as long as the first. *)
From Stdlib Require Import Ascii.
From S2P Require Import Prelude GoStrings.
#[local] Open Scope Z_scope.

(** * The reader *)

Definition LF : ascii := ascii_of_nat 10.
Definition CR : ascii := ascii_of_nat 13.
Definition QUOTE : ascii := ascii_of_nat 34.
Definition COMMA : ascii := ",".

(** [readLine] turns every CR LF into LF and drops a CR at the very end. *)
Fixpoint normalize_lines (s : string) : string :=
  match s with
  | EmptyString => EmptyString
  | String c s' =>
      if decide (c = CR) then
        match s' with
        | EmptyString => EmptyString
        | String c' _ => if decide (c' = LF) then normalize_lines s' else String c (normalize_lines s')
        end
      else String c (normalize_lines s')
  end.

(** Where in a record the reader is: before a field, in a bare field, in a
    quoted one, or behind a quote in a quoted one. *)
Inductive csv_mode := FieldStart | Bare | Quoted | QuoteSeen.

(** What has been read: complete records and fields, each latest first, and
    the bytes of the field at hand. *)
Record csv_state := mkCsv {
  csv_records : list (list string);
  csv_fields : list string;
  csv_field : string;
  csv_at : csv_mode
}.

Definition end_field (st : csv_state) : csv_state :=
  mkCsv (csv_records st) (csv_field st :: csv_fields st) "" FieldStart.
Definition end_record (st : csv_state) : csv_state :=
  mkCsv (reverse (csv_field st :: csv_fields st) :: csv_records st) [] "" FieldStart.
Definition add_byte (c : ascii) (m : csv_mode) (st : csv_state) : csv_state :=
  mkCsv (csv_records st) (csv_fields st) (csv_field st +:+ String c "") m.

(** One byte; [None] is one of the two quoting errors. *)
Definition csv_step (st : csv_state) (c : ascii) : option csv_state :=
  match csv_at st with
  | FieldStart =>
      if decide (c = LF) then
        Some (match csv_fields st with [] => st | _ => end_record st end)
      else if decide (c = COMMA) then Some (end_field st)
      else if decide (c = QUOTE) then Some (mkCsv (csv_records st) (csv_fields st) "" Quoted)
      else Some (add_byte c Bare st)
  | Bare =>
      if decide (c = LF) then Some (end_record st)
      else if decide (c = COMMA) then Some (end_field st)
      else if decide (c = QUOTE) then None
      else Some (add_byte c Bare st)
  | Quoted =>
      if decide (c = QUOTE) then Some (mkCsv (csv_records st) (csv_fields st) (csv_field st) QuoteSeen)
      else Some (add_byte c Quoted st)
  | QuoteSeen =>
      if decide (c = QUOTE) then Some (add_byte c Quoted st)
      else if decide (c = COMMA) then Some (end_field st)
      else if decide (c = LF) then Some (end_record st)
      else None
  end.

Fixpoint csv_run (st : csv_state) (s : string) : option csv_state :=
  match s with
  | EmptyString => Some st
  | String c s' => st' ← csv_step st c; csv_run st' s'
  end.

(** The records at the end of the input. *)
Definition csv_eof (st : csv_state) : option (list (list string)) :=
  match csv_at st with
  | FieldStart => Some (reverse (csv_records (match csv_fields st with [] => st | _ => end_record st end)))
  | Bare | QuoteSeen => Some (reverse (csv_records (end_record st)))
  | Quoted => None
  end.

Definition same_lengths (records : list (list string)) : bool :=
  match records with
  | [] => true
  | r :: rs => bool_decide (Forall (λ r', length r' = length r) rs)
  end.

(** [Reader.ReadAll]: [None] stands for a parse error. *)
Definition ReadAll (s : string) : option (list (list string)) :=
  st ← csv_run (mkCsv [] [] "" FieldStart) (normalize_lines s);
  records ← csv_eof st;
  if same_lengths records then Some records else None.

(** * Reading back plain records *)

Definition csv_plain_char (c : ascii) : bool :=
  bool_decide (c ≠ LF) && bool_decide (c ≠ CR) && bool_decide (c ≠ QUOTE) && bool_decide (c ≠ COMMA).
Definition csv_plain (f : string) : bool := str_forall csv_plain_char f.

(** A line of the text: the fields with commas between them. *)
Definition csv_line (fields : list string) : string := Join fields "," +:+ String LF "".
Definition csv_text (records : list (list string)) : string := concat_strings (csv_line <$> records).

(** A record the format can show: one empty field alone is a blank line. *)
Definition csv_record_ok (fields : list string) : Prop :=
  fields ≠ [] ∧ fields ≠ [""] ∧ Forall (λ f, csv_plain f = true) fields.

Lemma csv_run_app st s1 s2 : csv_run st (s1 +:+ s2) = st' ← csv_run st s1; csv_run st' s2.
Proof.
  revert st. induction s1 as [|c s1 IH]; intros st; simpl; [done|].
  destruct (csv_step st c); simpl; [apply IH|done].
Qed.

Lemma csv_run_bare rs fs f s :
  csv_plain s = true → csv_run (mkCsv rs fs f Bare) s = Some (mkCsv rs fs (f +:+ s) Bare).
Proof.
  unfold csv_plain. revert f. induction s as [|c s IH]; intros f; simpl; [by rewrite app_empty_r|].
  intros. bool_simpl. unfold csv_plain_char in *. bool_simpl.
  unfold csv_step; simpl. rewrite !decide_False by done. simpl. unfold add_byte; simpl.
  rewrite IH by done. by rewrite <-app_assoc_str.
Qed.

Lemma csv_run_field rs fs s :
  csv_plain s = true →
  csv_run (mkCsv rs fs "" FieldStart) s =
  Some (mkCsv rs fs s (match s with EmptyString => FieldStart | _ => Bare end)).
Proof.
  destruct s as [|c s]; simpl; [done|]. unfold csv_plain. simpl. intros. bool_simpl.
  unfold csv_plain_char in *. bool_simpl. unfold csv_step; simpl. rewrite !decide_False by done. simpl.
  unfold add_byte; simpl. by rewrite csv_run_bare.
Qed.

Lemma csv_run_fields rs fs fields :
  fields ≠ [] → (fs ≠ [] ∨ fields ≠ [""]) → Forall (λ f, csv_plain f = true) fields →
  csv_run (mkCsv rs fs "" FieldStart) (csv_line fields) =
  Some (mkCsv ((reverse fs ++ fields) :: rs) [] "" FieldStart).
Proof.
  intros Hne Hsome Hpl. revert fs Hsome. induction Hpl as [|f fields Hf Hpl IH]; intros fs Hsome; [done|].
  destruct fields as [|f' fields].
  - unfold csv_line; simpl. rewrite csv_run_app, csv_run_field by done. simpl.
    destruct f as [|c f]; unfold csv_step; simpl.
    + destruct fs as [|x fs]; [naive_solver|]. simpl. unfold end_record; simpl. by rewrite reverse_cons.
    + unfold end_record; simpl. by rewrite reverse_cons.
  - unfold csv_line. rewrite Join_cons, <-!app_assoc_str, csv_run_app, csv_run_field by done.
    cbn [mbind option_bind]. change ("," +:+ ?s) with (String COMMA s). cbn [csv_run].
    assert (csv_step (mkCsv rs fs f (match f with EmptyString => FieldStart | _ => Bare end)) COMMA
      = Some (mkCsv rs (f :: fs) "" FieldStart)) as Hstep by (by destruct f).
    rewrite Hstep. cbn [mbind option_bind].
    pose proof (IH ltac:(done) (f :: fs) ltac:(by left)) as Hr. unfold csv_line in Hr. rewrite Hr.
    by rewrite reverse_cons, <-app_assoc.
Qed.

Lemma normalize_plain s : str_forall (λ c, bool_decide (c ≠ CR)) s = true → normalize_lines s = s.
Proof. induction s as [|c s IH]; simpl; intros; [done|]. bool_simpl. by rewrite decide_False, IH. Qed.

Lemma csv_text_no_cr records :
  Forall csv_record_ok records → str_forall (λ c, bool_decide (c ≠ CR)) (csv_text records) = true.
Proof.
  unfold csv_text. induction 1 as [|r records (_ & _ & Hr) _ IH]; [done|].
  rewrite fmap_cons. cbn [concat_strings]. rewrite str_forall_app, IH, andb_true_r. unfold csv_line. rewrite str_forall_app. apply andb_true_iff.
  split; [|done]. induction Hr as [|f r Hf Hr IHr]; simpl; [done|].
  assert (str_forall (λ c, bool_decide (c ≠ CR)) f = true) as Hf'.
  { eapply str_forall_impl; [|exact Hf]. unfold csv_plain_char. intros c Hc. bool_simpl. by apply bool_decide_eq_true. }
  destruct r as [|f' r]; [done|]. rewrite !str_forall_app, Hf'. simpl. apply IHr.
Qed.

Lemma csv_run_text rs records :
  Forall csv_record_ok records →
  csv_run (mkCsv rs [] "" FieldStart) (csv_text records) =
  Some (mkCsv (reverse records ++ rs) [] "" FieldStart).
Proof.
  intros Hr. revert rs. induction Hr as [|r records (Hne & Hne' & Hpl) _ IH]; intros rs; [done|].
  unfold csv_text in *. rewrite fmap_cons. cbn [concat_strings].
  rewrite csv_run_app, csv_run_fields by auto. cbn [mbind option_bind].
  rewrite IH. by rewrite reverse_cons, <-app_assoc.
Qed.

Lemma ReadAll_text records :
  Forall csv_record_ok records → same_lengths records = true →
  ReadAll (csv_text records) = Some records.
Proof.
  intros Hr Hl. unfold ReadAll. rewrite normalize_plain, csv_run_text by (done || by apply csv_text_no_cr).
  simpl. unfold csv_eof; simpl. rewrite app_nil_r, reverse_involutive. by rewrite Hl.
Qed.
