(* ===== verification/Metrics.v ===== *)
(** [metrics_reporter/]: the statistics HAProxy reports on its socket, the
    report made of them and the metrics sent. *)
From Stdlib Require Import Ascii.
From S2P Require Import Prelude GoStrings RoutingTable Csv Marshaller MarshallerCorrect.
#[local] Open Scope Z_scope.

(** * [haproxy_client/haproxy_client.go] *)

Record HaproxyStat := mkHaproxyStat {
  ProxyName : string;
  CurrentQueued : Z;
  st_CurrentSessions : Z;
  ErrorConnecting : Z;
  AverageQueueTimeMs : Z;
  AverageConnectTimeMs : Z;
  AverageSessionTimeMs : Z
}.

(** The error of [ParseUint] is dropped: its value is 0 for a text that is no
    number and the largest [uint64] for a number out of range. *)
Definition convertToInt (s : string) : Z := (ParseUint s 64).1.

(** [None]: an index is out of range. *)
Definition csvToHaproxyStat (row : list string) : option HaproxyStat :=
  pxname ← row !! 0%nat;
  qcur ← row !! 2%nat;
  scur ← row !! 4%nat;
  econ ← row !! 13%nat;
  qtime ← row !! 58%nat;
  ctime ← row !! 59%nat;
  ttime ← row !! 61%nat;
  Some (mkHaproxyStat pxname (convertToInt qcur) (convertToInt scur) (convertToInt econ)
    (convertToInt qtime) (convertToInt ctime) (convertToInt ttime)).

Fixpoint readCsv_loop (stats : list HaproxyStat) (lines : list (list string)) :
    outcome (list HaproxyStat) :=
  match lines with
  | [] => Returned stats
  | line :: rest =>
      match csvToHaproxyStat line with
      | None => Panicked "index out of range"
      | Some stat => readCsv_loop (stats ++ [stat]) rest
      end
  end.
Definition readCsv (buffer : string) : outcome (list HaproxyStat) :=
  match ReadAll buffer with
  | None => Returned []
  | Some [] => Returned []
  | Some (_ :: lines) => readCsv_loop [] lines
  end.

(** The connection: the errors of [DialTimeout] and [Write], and what the
    calls of [Read] give in turn.  Once these are used up a call blocks; no
    deadline is set on the connection. *)
Inductive read_error := EOF | OtherError (e : error).
Record connection := mkConnection {
  dial_error : option error;
  write_error : option error;
  reads : list (string * option read_error)
}.

(** [None] for a read that does not return, an error text for one that fails. *)
Fixpoint read_to_eof (buffer : string) (rs : list (string * option read_error)) :
    option (result string) :=
  match rs with
  | [] => None
  | (_, Some EOF) :: _ => Some (Ok buffer)
  | (_, Some (OtherError e)) :: _ => Some (Err e)
  | (chunk, None) :: rest => read_to_eof (buffer +:+ chunk) rest
  end.

Definition GetStats (conn : connection) : outcome (list HaproxyStat) :=
  match dial_error conn with
  | Some _ => Returned []
  | None =>
      match write_error conn with
      | Some _ => Returned []
      | None =>
          match read_to_eof "" (reads conn) with
          | None => Blocked
          | Some (Err _) => Returned []
          | Some (Ok buffer) =>
              if (0 <? String.length buffer)%nat then readCsv buffer else Returned []
          end
      end
  end.

(** The client of the statistics socket; a connection is what dialling gives. *)
Record HaproxyStatsClient := mkHaproxyStatsClient { haproxyUnixSocket : string; timeout : Z }.
Definition NewClient (haproxyUnixSocket : string) (timeout : Z) : HaproxyStatsClient :=
  mkHaproxyStatsClient haproxyUnixSocket timeout.
Definition dialler : Type := string → string → Z → connection.
Definition dial (r : HaproxyStatsClient) (DialTimeout : dialler) : connection :=
  DialTimeout "unix" (haproxyUnixSocket r) (timeout r).

(** * [metrics_converter.go] *)

Record ProxyStats := mkProxyStats { ConnectionTime : Z; CurrentSessions : Z }.

Record MetricsReport := mkMetricsReport {
  TotalCurrentQueuedRequests : Z;
  TotalBackendConnectionErrors : Z;
  mr_AverageQueueTimeMs : Z;
  mr_AverageConnectTimeMs : Z;
  ProxyMetrics : gmap RoutingKey ProxyStats;
  RouteErrorMap : gmap string Z
}.

Definition proxyKey (proxy : string) : result RoutingKey :=
  match Split proxy "_" with
  | [_; _; part2] =>
      match ParseUint part2 16 with
      | (_, Some e) => Err (NumError_text "ParseUint" part2 e)
      | (port, None) => Ok (mkRoutingKey port "")
      end
  | _ => Err "not a valid proxy name"
  end.

Definition populateProxyStats (proxyStat : HaproxyStat) (proxyStatsMap : gmap RoutingKey ProxyStats) :
    gmap RoutingKey ProxyStats :=
  match proxyKey (ProxyName proxyStat) with
  | Err _ => proxyStatsMap
  | Ok key =>
      let v := match proxyStatsMap !! key with Some v => v | None => mkProxyStats 0 0 end in
      <[key := mkProxyStats (wrap_u64 (ConnectionTime v + AverageConnectTimeMs proxyStat))
                 (wrap_u64 (CurrentSessions v + st_CurrentSessions proxyStat))]> proxyStatsMap
  end.

(** The loop's variables. *)
Record convert_state := mkConvert {
  cv_queued : Z;
  cv_errors : Z;
  cv_connect : Z;
  cv_queue : Z;
  cv_proxies : gmap RoutingKey ProxyStats;
  cv_routes : gmap string Z
}.

Definition Convert_step (st : convert_state) (proxyStat : HaproxyStat) : convert_state :=
  mkConvert
    (wrap_u64 (cv_queued st + CurrentQueued proxyStat))
    (wrap_u64 (cv_errors st + ErrorConnecting proxyStat))
    (wrap_u64 (cv_connect st + AverageConnectTimeMs proxyStat))
    (wrap_u64 (cv_queue st + AverageQueueTimeMs proxyStat))
    (populateProxyStats proxyStat (cv_proxies st))
    (<[ProxyName proxyStat :=
        wrap_u64 (default 0 (cv_routes st !! ProxyName proxyStat) + ErrorConnecting proxyStat)]>
      (cv_routes st)).

Definition Convert (proxyStats : list HaproxyStat) : option MetricsReport :=
  if decide (length proxyStats = 0%nat) then None
  else
    let len := wrap_u64 (Z.of_nat (length proxyStats)) in
    let st := foldl Convert_step (mkConvert 0 0 0 0 ∅ ∅) proxyStats in
    Some (mkMetricsReport (cv_queued st) (cv_errors st)
      (cv_queue st `div` len) (cv_connect st `div` len) (cv_proxies st) (cv_routes st)).

(** * [metrics_emitter.go] and [metrics.go]

    The calls of the metrics library in order: the name, the value before its
    conversion to a float, and the unit. *)

Definition sent : Type := string * Z * string.
Definition Value_Send (name : string) (value : Z) : sent := (name, value, "Metric").
Definition ProxyValue_Send (name proxyName : string) (value : Z) : sent :=
  (proxyName +:+ "." +:+ name, value, "Metric").
Definition ProxyDurationMs_Send (name proxyName : string) (duration : Z) : sent :=
  (proxyName +:+ "." +:+ name, duration, "ms").
Definition DurationMs_Send (name : string) (duration : Z) : sent := (name, duration, "ms").

Definition Emit (range_proxies : range_order RoutingKey ProxyStats) (range_routes : range_order string Z)
    (r : option MetricsReport) : list sent :=
  match r with
  | None => []
  | Some r =>
      [Value_Send "TotalCurrentQueuedRequests" (TotalCurrentQueuedRequests r);
       Value_Send "TotalBackendConnectionErrors" (TotalBackendConnectionErrors r);
       DurationMs_Send "AverageQueueTimeMs" (mr_AverageQueueTimeMs r);
       DurationMs_Send "AverageConnectTimeMs" (mr_AverageConnectTimeMs r)]
      ++ (range_proxies (ProxyMetrics r) ≫= λ kv,
           [ProxyDurationMs_Send "ConnectionTime" (RoutingKey_String kv.1) (ConnectionTime kv.2);
            ProxyValue_Send "CurrentSessions" (RoutingKey_String kv.1) (CurrentSessions kv.2)])
      ++ ((λ kv, ProxyValue_Send "ProxyConnectionErrors" kv.1 kv.2) <$> range_routes (RouteErrorMap r))
  end.

(** * [metrics_reporter.go]: one tick of the reporter *)

Definition emitStats (range_proxies : range_order RoutingKey ProxyStats)
    (range_routes : range_order string Z) (conn : connection) : outcome (list sent) :=
  match GetStats conn with
  | Panicked p => Panicked p
  | Blocked => Blocked
  | Returned stats =>
      if (0 <? length stats)%nat then Returned (Emit range_proxies range_routes (Convert stats))
      else Returned []
  end.

(** * Facts *)

Definition sum_of {A} (f : A → Z) (l : list A) : Z := foldr (λ x a, f x + a) 0 l.

(** The statistics of one proxy name, and those counted for a routing key. *)
Definition of_name (name : string) (s : HaproxyStat) : bool := bool_decide (ProxyName s = name).
Definition of_key (key : RoutingKey) (s : HaproxyStat) : bool :=
  match proxyKey (ProxyName s) with Ok k => bool_decide (k = key) | Err _ => false end.

Lemma sum_of_cons {A} (f : A → Z) x l : sum_of f (x :: l) = f x + sum_of f l.
Proof. done. Qed.

Lemma wrap_sum {A} (f : A → Z) a l :
  is_u64 a → foldl (λ a x, wrap_u64 (a + f x)) a l = wrap_u64 (a + sum_of f l).
Proof.
  revert a. induction l as [|x l IH]; intros a Ha; simpl.
  - rewrite Z.add_0_r. by rewrite wrap_u64_small.
  - rewrite IH by apply wrap_u64_range. autorewrite with go_int. f_equal. lia.
Qed.

(** A counter of the loop is the fold of its own updates. *)
Lemma Convert_loop_counter (proj : convert_state → Z) (f : HaproxyStat → Z) st l :
  (∀ st s, proj (Convert_step st s) = wrap_u64 (proj st + f s)) → is_u64 (proj st) →
  proj (foldl Convert_step st l) = wrap_u64 (proj st + sum_of f l).
Proof.
  intros Hstep Hst. rewrite <-wrap_sum by done. clear Hst.
  revert st. induction l as [|s l IH]; intros st; simpl; [done|]. by rewrite IH, Hstep.
Qed.

Lemma Convert_loop_routes st l name :
  cv_routes (foldl Convert_step st l) !! name =
  match base.filter (λ s, of_name name s) l with
  | [] => cv_routes st !! name
  | l' => Some (wrap_u64 (default 0 (cv_routes st !! name) + sum_of ErrorConnecting l'))
  end.
Proof.
  revert st. induction l as [|s l IH]; intros st; [done|]. cbn [foldl]. rewrite IH, filter_cons.
  simpl cv_routes. rewrite lookup_insert.
  destruct (decide (ProxyName s = name)) as [Heq|Hne].
  - rewrite Heq, (decide_True (P := Is_true (of_name name s))) by (by apply bool_decide_pack).
    rewrite sum_of_cons. destruct (base.filter _ l) as [|s' l'].
    + simpl. by rewrite Z.add_0_r.
    + simpl default at 1. autorewrite with go_int. do 2 f_equal. lia.
  - by rewrite (decide_False (P := Is_true (of_name name s))) by (by intros Hd%bool_decide_unpack).
Qed.

Lemma Convert_loop_proxies st l key :
  let old := default (mkProxyStats 0 0) (cv_proxies st !! key) in
  cv_proxies (foldl Convert_step st l) !! key =
  match base.filter (λ s, of_key key s) l with
  | [] => cv_proxies st !! key
  | l' => Some (mkProxyStats (wrap_u64 (ConnectionTime old + sum_of AverageConnectTimeMs l'))
                  (wrap_u64 (CurrentSessions old + sum_of st_CurrentSessions l')))
  end.
Proof.
  revert st. induction l as [|s l IH]; intros st; [done|]. cbn [foldl]. rewrite IH, filter_cons. clear IH.
  simpl cv_proxies. unfold populateProxyStats.
  assert (of_key key s = match proxyKey (ProxyName s) with Ok k => bool_decide (k = key) | Err _ => false end)
    as Hkey by done.
  destruct (proxyKey (ProxyName s)) as [k|e]; [|by rewrite Hkey].
  rewrite Hkey, lookup_insert. destruct (decide (k = key)) as [->|Hne].
  - rewrite (decide_True (P := Is_true _)) by (by apply bool_decide_pack). rewrite !sum_of_cons.
    change (match cv_proxies st !! key with Some v => v | None => mkProxyStats 0 0 end)
      with (default (mkProxyStats 0 0) (cv_proxies st !! key)).
    destruct (base.filter _ l) as [|s' l']; simpl default at 1; simpl.
    + by rewrite !Z.add_0_r.
    + autorewrite with go_int. do 2 f_equal; f_equal; lia.
  - rewrite (decide_False (P := Is_true _)) by (intros Hd%bool_decide_unpack; done). done.
Qed.

(** Short rows. *)
Lemma csvToHaproxyStat_some row : (62 ≤ length row)%nat ↔ is_Some (csvToHaproxyStat row).
Proof.
  unfold csvToHaproxyStat. split.
  - intros Hl.
    assert (∀ i, (i < 62)%nat → ∃ x, row !! i = Some x) as Hi.
    { intros i Hi. apply lookup_lt_is_Some. lia. }
    destruct (Hi 0%nat ltac:(lia)) as [x0 ->], (Hi 2%nat ltac:(lia)) as [x2 ->],
      (Hi 4%nat ltac:(lia)) as [x4 ->], (Hi 13%nat ltac:(lia)) as [x13 ->],
      (Hi 58%nat ltac:(lia)) as [x58 ->], (Hi 59%nat ltac:(lia)) as [x59 ->],
      (Hi 61%nat ltac:(lia)) as [x61 ->]. by eexists.
  - intros [st Hst]. destruct (row !! 61%nat) as [x|] eqn:H61; [by apply lookup_lt_Some in H61|].
    repeat (match type of Hst with context [row !! ?i] => destruct (row !! i); [|done] end; simpl in Hst). done.
Qed.

Lemma readCsv_loop_spec stats lines :
  readCsv_loop stats lines =
  match mapM csvToHaproxyStat lines with
  | Some l => Returned (stats ++ l)
  | None => Panicked "index out of range"
  end.
Proof.
  revert stats. induction lines as [|row lines IH]; intros stats; simpl; [by rewrite app_nil_r|].
  destruct (csvToHaproxyStat row) as [s|]; simpl; [|done]. rewrite IH.
  destruct (mapM csvToHaproxyStat lines); simpl; [|done]. by rewrite <-app_assoc.
Qed.


Lemma read_to_eof_app buffer chunks :
  read_to_eof buffer (((λ c, (c, None)) <$> chunks) ++ [("", Some EOF)]) =
  Some (Ok (buffer +:+ concat_strings chunks)).
Proof.
  revert buffer. induction chunks as [|c chunks IH]; intros buffer; simpl; [by rewrite app_empty_r|].
  rewrite IH. by rewrite <-app_assoc_str.
Qed.

Lemma csv_text_nonempty records : records ≠ [] → (0 < String.length (csv_text records))%nat.
Proof.
  destruct records as [|r rs]; [done|]. intros _. unfold csv_text. rewrite fmap_cons. cbn [concat_strings].
  unfold csv_line. rewrite !length_app_str. simpl. lia.
Qed.

(** The statistics of a complete and well-formed answer. *)
Lemma GetStats_csv header rows chunks :
  Forall csv_record_ok (header :: rows) → same_lengths (header :: rows) = true →
  concat_strings chunks = csv_text (header :: rows) →
  GetStats (mkConnection None None (((λ c, (c, None)) <$> chunks) ++ [("", Some EOF)])) =
  match mapM csvToHaproxyStat rows with
  | Some stats => Returned stats
  | None => Panicked "index out of range"
  end.
Proof.
  intros Hr Hl Hc. unfold GetStats. simpl dial_error. simpl write_error. simpl reads.
  rewrite read_to_eof_app, Hc. simpl String.append.
  pose proof (csv_text_nonempty (header :: rows) ltac:(done)) as Hlen. apply Nat.ltb_lt in Hlen. rewrite Hlen.
  unfold readCsv. rewrite ReadAll_text by done. by rewrite readCsv_loop_spec.
Qed.

Lemma mapM_short rows :
  Exists (λ row, (length row < 62)%nat) rows → mapM csvToHaproxyStat rows = None.
Proof.
  induction 1 as [row rows Hrow|row rows _ IH]; simpl.
  - destruct (csvToHaproxyStat row) eqn:Hs; [|done].
    assert (62 ≤ length row)%nat by (apply csvToHaproxyStat_some; by eexists). lia.
  - rewrite IH. by destruct (csvToHaproxyStat row).
Qed.

(** A row of HAProxy's statistics: pxname, qcur, scur, econ, qtime, ctime and
    ttime in their columns of the format. *)
Record reports (row : list string) (stat : HaproxyStat) : Prop := {
  rp_name : row !! 0%nat = Some (ProxyName stat);
  rp_queued : row !! 2%nat = Some (Sprintf_d (CurrentQueued stat));
  rp_sessions : row !! 4%nat = Some (Sprintf_d (st_CurrentSessions stat));
  rp_errors : row !! 13%nat = Some (Sprintf_d (ErrorConnecting stat));
  rp_queue_time : row !! 58%nat = Some (Sprintf_d (AverageQueueTimeMs stat));
  rp_connect_time : row !! 59%nat = Some (Sprintf_d (AverageConnectTimeMs stat));
  rp_session_time : row !! 61%nat = Some (Sprintf_d (AverageSessionTimeMs stat));
  rp_numbers : Forall (λ n, 0 ≤ n < 2 ^ 64)
    [CurrentQueued stat; st_CurrentSessions stat; ErrorConnecting stat; AverageQueueTimeMs stat;
     AverageConnectTimeMs stat; AverageSessionTimeMs stat]
}.

Lemma convertToInt_Sprintf_d n : 0 ≤ n < 2 ^ 64 → convertToInt (Sprintf_d n) = n.
Proof. intros Hn. unfold convertToInt. by rewrite ParseUint_Sprintf_d by lia. Qed.
Lemma reports_read rows stats : Forall2 reports rows stats → mapM csvToHaproxyStat rows = Some stats.
Proof.
  induction 1 as [|row stat rows stats [H0 H2 H4 H13 H58 H59 H61 Hn] _ IH]; [done|]. cbn [mapM].
  rewrite IH. rewrite !Forall_cons in Hn. destruct Hn as (? & ? & ? & ? & ? & ? & _).
  assert (csvToHaproxyStat row = Some stat) as ->; [|done].
  unfold csvToHaproxyStat. rewrite H0, H2, H4, H13, H58, H59, H61. cbn [mbind option_bind].
  rewrite !convertToInt_Sprintf_d by done. by destruct stat.
Qed.

(** * Properties *)

(** A report's totals are the sums of the statistics modulo 2^64, its
    averages these sums divided by their number, and for every proxy name and
    every routing key it has the sums of the statistics of that name and of
    that key, and nothing for a name or key without statistics; no report is
    made of no statistics. *)
Theorem convert_sums (stats : list HaproxyStat) :
  match Convert stats with
  | None => stats = []
  | Some r =>
      stats ≠ [] ∧
      TotalCurrentQueuedRequests r = wrap_u64 (sum_of CurrentQueued stats) ∧
      TotalBackendConnectionErrors r = wrap_u64 (sum_of ErrorConnecting stats) ∧
      mr_AverageQueueTimeMs r =
        wrap_u64 (sum_of AverageQueueTimeMs stats) `div` wrap_u64 (Z.of_nat (length stats)) ∧
      mr_AverageConnectTimeMs r =
        wrap_u64 (sum_of AverageConnectTimeMs stats) `div` wrap_u64 (Z.of_nat (length stats)) ∧
      (∀ name, RouteErrorMap r !! name =
        match base.filter (λ s, of_name name s) stats with
        | [] => None
        | l => Some (wrap_u64 (sum_of ErrorConnecting l))
        end) ∧
      (∀ key, ProxyMetrics r !! key =
        match base.filter (λ s, of_key key s) stats with
        | [] => None
        | l => Some (mkProxyStats (wrap_u64 (sum_of AverageConnectTimeMs l))
                       (wrap_u64 (sum_of st_CurrentSessions l)))
        end)
  end.
Proof.
  unfold Convert. case_decide as Hl; [by apply nil_length_inv in Hl|].
  assert (is_u64 0) as H0 by (unfold is_u64; lia). cbn [TotalCurrentQueuedRequests
    TotalBackendConnectionErrors mr_AverageQueueTimeMs mr_AverageConnectTimeMs RouteErrorMap ProxyMetrics].
  split; [by intros ->|].
  rewrite (Convert_loop_counter cv_queued CurrentQueued),
    (Convert_loop_counter cv_errors ErrorConnecting),
    (Convert_loop_counter cv_queue AverageQueueTimeMs),
    (Convert_loop_counter cv_connect AverageConnectTimeMs) by done.
  simpl. repeat (split; [done|]). split.
  - intros name. rewrite Convert_loop_routes. simpl. rewrite lookup_empty. by case_match.
  - intros key. rewrite Convert_loop_proxies. simpl. rewrite lookup_empty. by case_match.
Qed.

(** C33. The statistics HAProxy writes are the statistics the client returns.
    If HAProxy answers, in chunks of any size, with a header and rows of plain
    words, and each row has the name of its proxy, its queued requests, its
    sessions, its connection errors and its three average times as decimal
    numbers of 64 bits in the columns of the statistics format (the 1st, 3rd, 5th,
    14th, 59th, 60th and 62nd), whatever is in the other columns, then the client
    returns exactly these names and numbers, row by row and in order. *)
Theorem get_stats_roundtrip (header : list string) (rows : list (list string)) (stats : list HaproxyStat)
    (chunks : list string) :
  Forall csv_record_ok (header :: rows) → same_lengths (header :: rows) = true →
  concat_strings chunks = csv_text (header :: rows) →
  Forall2 reports rows stats →
  GetStats (mkConnection None None (((λ c, (c, None)) <$> chunks) ++ [("", Some EOF)])) = Returned stats.
Proof. intros Hr Hl Hc Hrows. rewrite (GetStats_csv header rows chunks) by done. by rewrite (reports_read _ _ Hrows). Qed.

(** A row with fewer than 62 columns, in an answer that is well formed
    otherwise, makes the client panic. *)
Theorem get_stats_panics (header : list string) (rows : list (list string)) (chunks : list string) :
  Forall csv_record_ok (header :: rows) → same_lengths (header :: rows) = true →
  concat_strings chunks = csv_text (header :: rows) →
  Exists (λ row, (length row < 62)%nat) rows →
  GetStats (mkConnection None None (((λ c, (c, None)) <$> chunks) ++ [("", Some EOF)]))
    = Panicked "index out of range".
Proof.
  intros Hr Hl Hc Hshort. rewrite (GetStats_csv header rows chunks) by done. by rewrite mapM_short.
Qed.

(** The metrics of single proxies are never recorded for the proxies this
    program configures: the name of a frontend, and that of the backend of a
    route without a host name, do not have the three parts the converter looks
    for, whatever the port; and the backend of a host name that spells a
    number is counted for that number as its port. *)
Theorem own_names_not_recognised (port : Z) :
  proxyKey (backendCfgName port "") = Err "not a valid proxy name" ∧
  proxyKey ("frontend_" +:+ Sprintf_d port) = Err "not a valid proxy name" ∧
  (∀ host, 0 ≤ host < 2 ^ 16 →
    proxyKey (backendCfgName port (Sprintf_d host)) = Ok (mkRoutingKey host "")).
Proof.
  pose proof (Sprintf_d_no_underscore port) as Hp.
  assert (∀ w, no_char "_" w = true → proxyKey (w +:+ String "_" (Sprintf_d port)) = Err "not a valid proxy name") as Hw.
  { intros w Hw. unfold proxyKey. by rewrite Split_app, Split_no_char. }
  split; [by apply (Hw "backend")|]. split; [by apply (Hw "frontend")|].
  intros host Hhost. unfold backendCfgName, proxyKey.
  rewrite bool_decide_false by apply Sprintf_d_nonempty.
  change ("backend_" +:+ ?s) with ("backend" +:+ String "_" s).
  rewrite Split_app by done. change ("_" +:+ ?s) with (String "_" s). rewrite Split_app by done.
  rewrite Split_no_char by apply Sprintf_d_no_underscore. by rewrite ParseUint_Sprintf_d by lia.
Qed.

(** * Concrete instances *)
Module Sample.

(** A header and two rows of 62 columns, sent in two chunks; what the other
    columns hold is of no interest. *)
Definition header : list string := replicate 62 "h".
Definition row (name : string) (n : Z) : list string :=
  [name; "-"; Sprintf_d n; "-"; Sprintf_d (n + 1)] ++ replicate 8 "x" ++ [Sprintf_d (n + 2)] ++ replicate 44 "y" ++
  [Sprintf_d (n + 3); Sprintf_d (n + 4); "-"; Sprintf_d (n + 5)].
Definition stat (name : string) (n : Z) : HaproxyStat := mkHaproxyStat name n (n + 1) (n + 2) (n + 3) (n + 4) (n + 5).
Definition answer : string := csv_text [header; row "backend_80" 7; row "frontend_80" 90].
Definition chunks : list string := [String.substring 0 100 answer; String.substring 100 1000 answer].

Lemma answer_ok rows : rows = [row "backend_80" 7; row "frontend_80" 90] →
  Forall csv_record_ok (header :: rows) ∧ same_lengths (header :: rows) = true.
Proof.
  intros ->. split; [|reflexivity].
  repeat (constructor; [split; [done|split; [done|repeat constructor]]|]). constructor.
Qed.
Lemma row_reports name n : 0 ≤ n ≤ 2 ^ 60 → reports (row name n) (stat name n).
Proof. intros Hn. split; [reflexivity..|]. simpl. repeat (apply List.Forall_cons; [lia|]). apply List.Forall_nil. Qed.

Lemma get_stats_roundtrip_witness :
  GetStats (mkConnection None None (((λ c, (c, None)) <$> chunks) ++ [("", Some EOF)])) =
  Returned [mkHaproxyStat "backend_80" 7 8 9 10 11 12; mkHaproxyStat "frontend_80" 90 91 92 93 94 95].
Proof.
  destruct (answer_ok _ eq_refl) as [Hr Hl].
  apply (get_stats_roundtrip header [row "backend_80" 7; row "frontend_80" 90] [stat "backend_80" 7; stat "frontend_80" 90]
    chunks Hr Hl); [vm_compute; reflexivity|].
  constructor; [apply row_reports; lia|]. constructor; [apply row_reports; lia|constructor].
Defined.

(** An answer of another kind: a header and one row of two columns. *)
Lemma get_stats_panics_witness :
  GetStats (mkConnection None None (((λ c, (c, None)) <$> [csv_text [["a"; "b"]; ["c"; "d"]]]) ++ [("", Some EOF)]))
  = Panicked "index out of range".
Proof.
  apply (get_stats_panics ["a"; "b"] [["c"; "d"]]); [|reflexivity|reflexivity|repeat constructor; simpl; lia].
  repeat (constructor; [split; [done|split; [done|repeat constructor]]|]). constructor.
Defined.

Example dropped_and_hung :
  GetStats (mkConnection None None [("", Some (OtherError "reset"))]) = Returned [] ∧
  GetStats (mkConnection None None [("# pxname", None)]) = Blocked ∧
  convertToInt "" = 0 ∧ convertToInt "99999999999999999999" = 2 ^ 64 - 1.
Proof. repeat split. Qed.

End Sample.
