(* ===== verification/PortChecker.v ===== *)
(** [router_group_port_checker/router_group_port_checker.go]: router groups
    whose reservable ports collide with reserved system component ports. *)
From S2P Require Import Prelude GoStrings.
#[local] Open Scope Z_scope.

(** * The routing API

    The calls the checker makes; [Parse] and [Endpoints] are methods of the
    client library's port ranges. *)
Class RouterGroupsAPI := {
  pc_state : Type;
  pc_FetchToken : bool → pc_state → result string * pc_state;
  pc_SetToken : string → pc_state → pc_state;
  ReservablePorts : Type;
  PortRange : Type;
  Parse : ReservablePorts → list PortRange * option error;
  Endpoints : PortRange → Z * Z;
  RouterGroups : pc_state → result (list (string * ReservablePorts)) * pc_state
}.

Section checker.
Context `{RouterGroupsAPI}.

(** * The checker *)

Definition numRetries : nat := 3.

(** The loop over the token: the error of the last attempt, if all fail. *)
Fixpoint token_loop (attempts : nat) (err : option error) (s : pc_state) : option error * pc_state :=
  match attempts with
  | O => (err, s)
  | S attempts' =>
      match pc_FetchToken false s with
      | (Err e, s') => token_loop attempts' (Some e) s'
      | (Ok token, s') => (None, pc_SetToken token s')
      end
  end.

Fixpoint groups_loop (attempts : nat) (err : option error) (s : pc_state) :
    (list (string * ReservablePorts) + option error) * pc_state :=
  match attempts with
  | O => (inr err, s)
  | S attempts' =>
      match RouterGroups s with
      | (Ok routerGroups, s') => (inl routerGroups, s')
      | (Err e, s') => groups_loop attempts' (Some e) s'
      end
  end.

Definition getRouterGroups (s : pc_state) : result (list (string * ReservablePorts)) * pc_state :=
  match token_loop numRetries None s with
  | (Some err, s) => (Err ("error-fetching-uaa-token: " +:+ quoted err), s)
  | (None, s) =>
      match groups_loop numRetries None s with
      | (inl routerGroups, s) => (Ok routerGroups, s)
      | (inr err, s) => (Err ("error-fetching-routing-groups: " +:+ quoted (default "" err)), s)
      end
  end.

Definition overlappingPorts (systemComponentPorts : list Z) (r : PortRange) : list Z :=
  let '(start, end_) := Endpoints r in
  base.filter (λ port, start ≤ port ∧ port ≤ end_) systemComponentPorts.

Definition overlap_error (name : string) (ports : list Z) : string :=
  "The reserved ports for router group '" +:+ name
  +:+ "' contains the following reserved system component port(s): '"
  +:+ Join (Sprintf_d <$> ports) ", " +:+ "'. Please update your router group accordingly.".

Definition range_step (name : string) (systemComponentPorts : list Z)
    (acc : bool * list string) (r : PortRange) : bool * list string :=
  let '(shouldExit, errors) := acc in
  let overlapping := overlappingPorts systemComponentPorts r in
  if (0 <? length overlapping)%nat then (true, errors ++ [overlap_error name overlapping])
  else (shouldExit, errors).
Definition group_step (systemComponentPorts : list Z) (acc : bool * list string)
    (group : string * ReservablePorts) : bool * list string :=
  let '(ranges, _) := Parse group.2 in
  foldl (range_step group.1 systemComponentPorts) acc ranges.
Definition validateRouterGroups (routerGroups : list (string * ReservablePorts))
    (systemComponentPorts : list Z) : bool * list string :=
  foldl (group_step systemComponentPorts) (false, []) routerGroups.

Definition Check_ports (systemComponentPorts : list Z) (s : pc_state) : (bool * option error) * pc_state :=
  match getRouterGroups s with
  | (Err err, s) => ((false, Some err), s)
  | (Ok routerGroups, s) =>
      let '(shouldExit, portErrors) := validateRouterGroups routerGroups systemComponentPorts in
      if (length portErrors =? 0)%nat then ((false, None), s)
      else ((shouldExit, Some (Join portErrors nl)), s)
  end.

(** * Facts *)

(** The colliding ports, range by range in the order of the loops. *)
Definition collisions (groups : list (string * ReservablePorts)) (ports : list Z) :
    list (string * list Z) :=
  groups ≫= λ g, base.filter (λ c : string * list Z, c.2 ≠ [])
    ((λ r, (g.1, overlappingPorts ports r)) <$> (Parse g.2).1).

Lemma range_loop name ports acc rs :
  foldl (range_step name ports) acc rs =
  let cs := base.filter (λ c : string * list Z, c.2 ≠ []) ((λ r, (name, overlappingPorts ports r)) <$> rs) in
  (acc.1 || negb (bool_decide (cs = [])), acc.2 ++ ((λ c, overlap_error c.1 c.2) <$> cs)).
Proof.
  revert acc. induction rs as [|r rs IH]; intros [b es]; simpl.
  { by rewrite orb_false_r, app_nil_r. }
  rewrite IH. rewrite filter_cons. simpl. destruct (overlappingPorts ports r) as [|p ps] eqn:Ho; simpl; [done|].
  rewrite orb_true_r. by rewrite <-app_assoc.
Qed.

Lemma groups_validated ports acc groups :
  foldl (group_step ports) acc groups =
  let cs := collisions groups ports in
  (acc.1 || negb (bool_decide (cs = [])), acc.2 ++ ((λ c, overlap_error c.1 c.2) <$> cs)).
Proof.
  revert acc. induction groups as [|g groups IH]; intros [b es].
  { simpl. by rewrite orb_false_r, app_nil_r. }
  cbn [foldl]. rewrite IH. unfold group_step. destruct (Parse g.2) as [ranges err] eqn:Hp.
  rewrite range_loop. unfold collisions. rewrite bind_cons, Hp. cbn [fst snd].
  set (c1 := base.filter _ _). set (c2 := groups ≫= _).
  rewrite fmap_app, app_assoc. f_equal.
  destruct c1, c2; simpl; by rewrite ?orb_false_r, ?orb_true_r.
Qed.

(** [n] calls in a row fail and leave the state [s']. *)
Fixpoint fails {A} (call : pc_state → result A * pc_state) (n : nat) (s s' : pc_state) : Prop :=
  match n with
  | O => s' = s
  | S n' => ∃ e s1, call s = (Err e, s1) ∧ fails call n' s1 s'
  end.

Lemma token_loop_ok n err s s' :
  (token_loop n err s = (None, s') ∧ (n ≠ 0%nat ∨ err ≠ None)) ↔
  ∃ i token s1 s2, (i < n)%nat ∧ fails (pc_FetchToken false) i s s1 ∧
    pc_FetchToken false s1 = (Ok token, s2) ∧ s' = pc_SetToken token s2.
Proof.
  revert err s. induction n as [|n IH]; intros err s; simpl.
  { split; [intros [? [?|?]]; simplify_eq|intros (?&?&?&?&?&_); lia]. }
  destruct (pc_FetchToken false s) as [[token|e] s1] eqn:Hf.
  - split.
    + intros [? _]. simplify_eq. exists 0%nat, token, s, s1. split; [lia|]. done.
    + intros (i & token' & s1' & s2 & _ & Hi & Ht & ->). destruct i as [|i]; simpl in Hi.
      * subst s1'. rewrite Hf in Ht. injection Ht as <- <-. split; [done|by left].
      * destruct Hi as (e & s3 & ? & _). congruence.
  - specialize (IH (Some e) s1). split.
    + intros [Hl _]. destruct IH as [(i & token & s2 & s3 & Hi & Hfails & Ht & ->) _]; [by split; [|right]|].
      exists (S i), token, s2, s3. split; [lia|]. split; [|done]. simpl. eauto.
    + intros (i & token & s2 & s3 & Hi & Hfails & Ht & ->). destruct i as [|i]; simpl in Hfails; [congruence|].
      destruct Hfails as (e' & s4 & Hc & Hfails). rewrite Hf in Hc. simplify_eq. split; [|by left].
      apply IH. exists i, token, s2, s3. split; [lia|]. done.
Qed.

Lemma groups_loop_ok n err s groups s' :
  groups_loop n err s = (inl groups, s') ↔
  ∃ j s1, (j < n)%nat ∧ fails RouterGroups j s s1 ∧ RouterGroups s1 = (Ok groups, s').
Proof.
  revert err s. induction n as [|n IH]; intros err s; simpl.
  { split; [done|intros (?&?&?&_); lia]. }
  destruct (RouterGroups s) as [[gs|e] s1] eqn:Hf.
  - split.
    + intros ?. simplify_eq. exists 0%nat, s. split; [lia|]. done.
    + intros (j & s2 & _ & Hj & Hg). destruct j as [|j]; simpl in Hj; [subst s2; congruence|].
      destruct Hj as (e & s3 & ? & _). congruence.
  - rewrite IH. split.
    + intros (j & s2 & ? & Hj & ?). exists (S j), s2. split; [lia|]. split; [|done]. simpl. eauto.
    + intros (j & s2 & ? & Hj & ?). destruct j as [|j]; simpl in Hj; [congruence|].
      destruct Hj as (e' & s3 & Hc & Hj). rewrite Hf in Hc. simplify_eq.
      exists j, s2. split; [lia|]. done.
Qed.

(** A system component port lies in a reservable range of a router group. *)
Definition port_conflict (groups : list (string * ReservablePorts)) (ports : list Z) : Prop :=
  ∃ g r p, g ∈ groups ∧ r ∈ (Parse g.2).1 ∧ p ∈ ports ∧ (Endpoints r).1 ≤ p ≤ (Endpoints r).2.

Lemma elem_of_overlapping ports r p :
  p ∈ overlappingPorts ports r ↔ p ∈ ports ∧ (Endpoints r).1 ≤ p ≤ (Endpoints r).2.
Proof.
  unfold overlappingPorts. destruct (Endpoints r). rewrite list_elem_of_filter. simpl. tauto.
Qed.
Lemma collisions_conflict groups ports : collisions groups ports ≠ [] ↔ port_conflict groups ports.
Proof.
  unfold collisions, port_conflict. split.
  - intros Hne. destruct (_ ≫= _) as [|c cs] eqn:Hc; [done|].
    assert (c ∈ c :: cs) as Hin by apply list_elem_of_here. rewrite <-Hc in Hin.
    apply list_elem_of_bind in Hin as (g & Hin & Hg). apply list_elem_of_filter in Hin as [Hne' Hin].
    apply list_elem_of_fmap in Hin as (r & -> & Hr). simpl in Hne'.
    destruct (overlappingPorts ports r) as [|p ps] eqn:Ho; [done|].
    assert (p ∈ overlappingPorts ports r) as Hp by (rewrite Ho; apply list_elem_of_here).
    apply elem_of_overlapping in Hp as [? ?]. by exists g, r, p.
  - intros (g & r & p & Hg & Hr & Hp & Hin) Hnil.
    assert ((g.1, overlappingPorts ports r) ∈ ([] : list (string * list Z))) as Hc; [|by apply elem_of_nil in Hc].
    rewrite <-Hnil. apply list_elem_of_bind. exists g. split; [|done].
    apply list_elem_of_filter. split; [|apply list_elem_of_fmap; by exists r].
    simpl. intros Ho. assert (p ∈ overlappingPorts ports r) as Hp' by by apply elem_of_overlapping.
    rewrite Ho in Hp'. by apply elem_of_nil in Hp'.
Qed.

Lemma validated_conflict groups ports :
  let '(shouldExit, portErrors) := validateRouterGroups groups ports in
  (port_conflict groups ports ↔ portErrors ≠ []) ∧ (port_conflict groups ports → shouldExit = true).
Proof.
  unfold validateRouterGroups. rewrite groups_validated. cbn [fst snd app].
  rewrite <-collisions_conflict. by destruct (collisions groups ports).
Qed.

(** * Properties *)

(** C32. With the router groups at hand the check asks for an exit exactly when
    some reserved system component port lies in a reservable range of a group,
    and then its error names the group and the ports of every such range, one
    line each in order. *)
Theorem check_ports_verdict (ports : list Z) (groups : list (string * ReservablePorts)) (s s' : pc_state) :
  getRouterGroups s = (Ok groups, s') →
  (port_conflict groups ports ∧ Check_ports ports s =
     ((true, Some (Join ((λ c, overlap_error c.1 c.2) <$> collisions groups ports) nl)), s')) ∨
  (¬ port_conflict groups ports ∧ Check_ports ports s = ((false, None), s')).
Proof.
  intros Hg. unfold Check_ports. rewrite Hg. unfold validateRouterGroups. rewrite groups_validated.
  cbn [fst snd]. rewrite app_nil_l, length_fmap. rewrite <-collisions_conflict.
  destruct (collisions groups ports) as [|c cs]; [by right; split; [intros []|]|by left].
Qed.

(** The router groups are fetched exactly when one of the first three
    attempts at a token succeeds and then one of the first three attempts at
    the groups, made with that token; no call is made after a success. *)
Theorem router_groups_retries (s s' : pc_state) (groups : list (string * ReservablePorts)) :
  getRouterGroups s = (Ok groups, s') ↔
  ∃ i j token s1 s2 s3, (i < 3)%nat ∧ (j < 3)%nat ∧
    fails (pc_FetchToken false) i s s1 ∧ pc_FetchToken false s1 = (Ok token, s2) ∧
    fails RouterGroups j (pc_SetToken token s2) s3 ∧ RouterGroups s3 = (Ok groups, s').
Proof.
  unfold getRouterGroups. destruct (token_loop numRetries None s) as [err s0] eqn:Ht. split.
  - destruct err as [err|]; [done|]. intros Hg.
    destruct (groups_loop numRetries None s0) as [[gs|e] s4] eqn:Hl; [|done]. simplify_eq.
    apply groups_loop_ok in Hl as (j & s3 & Hj & Hfj & Hg).
    assert (∃ i token s1 s2, (i < numRetries)%nat ∧ fails (pc_FetchToken false) i s s1 ∧
      pc_FetchToken false s1 = (Ok token, s2) ∧ s0 = pc_SetToken token s2) as (i & token & s1 & s2 & Hi & ? & ? & ->).
    { apply (token_loop_ok numRetries None). split; [done|by left]. }
    exists i, j, token, s1, s2, s3. done.
  - intros (i & j & token & s1 & s2 & s3 & Hi & Hj & Hfi & Htok & Hfj & Hg).
    assert (token_loop numRetries None s = (None, pc_SetToken token s2) ∧ (numRetries ≠ 0%nat ∨ (None : option error) ≠ None))
      as [Hl _] by (apply token_loop_ok; by exists i, token, s1, s2).
    rewrite Ht in Hl. simplify_eq.
    assert (groups_loop numRetries None (pc_SetToken token s2) = (inl groups, s')) as ->; [|done].
    apply groups_loop_ok. by exists j, s3.
Qed.

End checker.

(** * A concrete instance *)
Module Sample.

(** Tokens and groups that fail a number of times first; ranges are pairs. *)
Instance sample_api : RouterGroupsAPI := {|
  pc_state := nat * nat;
  pc_FetchToken := λ _ s, match s.1 with O => (Ok "token", s) | S n => (Err "no token", (n, s.2)) end;
  pc_SetToken := λ _ s, s;
  ReservablePorts := list (Z * Z);
  PortRange := Z * Z;
  Parse := λ l, (l, None);
  Endpoints := λ r, r;
  RouterGroups := λ s,
    match s.2 with
    | O => (Ok [("default-tcp", [(1024, 1123); (2822, 2825)])], s)
    | S n => (Err "unreachable", (s.1, n))
    end
|}.

Definition sample_groups : list (string * @ReservablePorts sample_api) :=
  [("default-tcp", [(1024, 1123); (2822, 2825)])].

Lemma check_ports_verdict_witness :
  @Check_ports sample_api [2822; 2825; 8853] (2, 1)%nat =
  ((true, Some ("The reserved ports for router group 'default-tcp' contains the following reserved system component port(s): '2822, 2825'. Please update your router group accordingly.")),
   (0, 0)%nat).
Proof.
  destruct (@check_ports_verdict sample_api [2822; 2825; 8853] sample_groups (2, 1)%nat (0, 0)%nat eq_refl) as [[_ Hc] | [Hn _]].
  - rewrite Hc. vm_compute. reflexivity.
  - exfalso. apply Hn. exists ("default-tcp", [(1024, 1123); (2822, 2825)]), (2822, 2825), 2822.
    split; [apply list_elem_of_here|]. split; [apply list_elem_of_further, list_elem_of_here|].
    split; [apply list_elem_of_here|]. vm_compute. split; discriminate.
Defined.

Example three_failures : (@getRouterGroups sample_api (3, 0)%nat).1 = Err ("error-fetching-uaa-token: " +:+ quoted "no token").
Proof. reflexivity. Qed.

End Sample.
