(* ===== verification/Concurrency.v ===== *)
(** The updater's goroutines interleaved: bulk syncs started by the watcher,
    events, pruning and drains, in steps that hold the lock or run between
    two locked regions. *)
From S2P Require Import Prelude GoStrings RoutingTable Updater.
#[local] Open Scope Z_scope.

(** * Goroutines *)

Section concurrency.
Context {tags : ModificationTags} {api : RoutingAPI} {rc : RouterConfigurer}.
Context (time_Now : nat → Z).

(** Where a goroutine that runs [Sync] is: before the first locked region, in
    the fetch, in the loop over the mappings, before the comparison of the
    sizes, before the deferred locked region. *)
Inductive sync_pc :=
  | SyncStart
  | SyncFetching
  | SyncMerging (mappings : list TcpRouteMapping) (freshRoutingTable : RoutingTable) (tableChanged : bool)
  | SyncReplacing (freshRoutingTable : RoutingTable) (tableChanged : bool)
  | SyncEnding (tableChanged : bool)
  | SyncDone.

(** One step.  The fetch is one step: it touches the API client only. *)
Definition sync_step (pc : sync_pc) (s : UState) : option (sync_pc * UState) :=
  match pc with
  | SyncStart => Some (SyncFetching, Sync_begin s)
  | SyncFetching =>
      match Sync_fetch 2 true None s with
      | (Some (mappings, None), s) => Some (SyncMerging mappings NewRoutingTable false, s)
      | (_, s) => Some (SyncEnding false, s)
      end
  | SyncMerging [] fresh ch => Some (SyncReplacing fresh ch, s)
  | SyncMerging (m :: ms) fresh ch =>
      let '(s, fresh, ch) := Sync_merge_step time_Now (s, fresh, ch) m in
      Some (SyncMerging ms fresh ch, s)
  | SyncReplacing fresh ch =>
      let '(s, ch) := Sync_replace (s, fresh, ch) in Some (SyncEnding ch, s)
  | SyncEnding ch => Some (SyncDone, Sync_end time_Now ch s)
  | SyncDone => None
  end.

(** A goroutine in [Drain]: polling until no sync is in progress, the check
    and the setting of the flag, the evaluation of the arguments of the call of
    the configurer, the call, without the lock, and the sleep of the drain wait
    duration.  [*u.routingTable] copies the struct, that is the reference of
    its map: [copy] is [None] as long as the updater's table is that map, and
    the table the map holds once a sync has put another map in its place.  A
    goroutine keeps its copy to the end. *)
Inductive drain_pc :=
  | DrainWaiting
  | DrainChecking
  | DrainSetting
  | DrainConfiguring
  | DrainCalling (copy : option RoutingTable) (draining : bool)
  | DrainSleeping (copy : option RoutingTable)
  | DrainDone (copy : option RoutingTable).
Definition drain_step (pc : drain_pc) (s : UState) : option (drain_pc * UState) :=
  match pc with
  | DrainWaiting => Some (if Syncing s then DrainWaiting else DrainChecking, s)
  | DrainChecking => Some (if IsDraining s then DrainDone None else DrainSetting, s)
  | DrainSetting => Some (DrainConfiguring, set_draining s)
  | DrainConfiguring => Some (DrainCalling None (IsDraining s), s)
  | DrainCalling copy draining =>
      let '(err, s) := call_configurer_with (default (u_routingTable s) copy) draining s in
      Some (match err with Some _ => DrainDone copy | None => DrainSleeping copy end, s)
  | DrainSleeping copy => Some (DrainDone copy, s)
  | DrainDone _ => None
  end.

(** [Sync_replace] gives the updater's table another map: a drain that has
    copied the struct is left with the old one. *)
Definition replaces (pc : sync_pc) (s : UState) : bool :=
  match pc with
  | SyncReplacing freshRoutingTable _ => bool_decide (Size freshRoutingTable ≠ Size (u_routingTable s))
  | _ => false
  end.
Definition detach (t : RoutingTable) (pc : drain_pc) : drain_pc :=
  match pc with DrainCalling None draining => DrainCalling (Some t) draining | _ => pc end.
Definition drains_after (pc : sync_pc) (s : UState) (ds : list drain_pc) : list drain_pc :=
  if replaces pc s then detach (u_routingTable s) <$> ds else ds.

(** A drain whose call was given a table that was no longer the updater's. *)
Definition handed_stale (pc : drain_pc) : bool :=
  match pc with DrainSleeping (Some _) | DrainDone (Some _) => true | _ => false end.

(** * The whole *)

Record state := mkState {
  shared : UState;
  syncs : list sync_pc;
  drains : list drain_pc
}.

(** [go watcher.updater.Sync()], [Drain] in a goroutine, the next step of one
    of these, an event, a run of the pruner. *)
Inductive label :=
  | SpawnSync
  | SpawnDrain
  | StepSync (i : nat)
  | StepDrain (i : nat)
  | DoEvent (e : TcpEvent)
  | DoPrune (tr : TableRange).

Definition step (st : state) (l : label) : option state :=
  match l with
  | SpawnSync => Some (mkState (shared st) (syncs st ++ [SyncStart]) (drains st))
  | SpawnDrain => Some (mkState (shared st) (syncs st) (drains st ++ [DrainWaiting]))
  | StepSync i =>
      pc ← syncs st !! i;
      '(pc', s) ← sync_step pc (shared st);
      Some (mkState s (<[i := pc']> (syncs st)) (drains_after pc (shared st) (drains st)))
  | StepDrain i =>
      pc ← drains st !! i;
      '(pc', s) ← drain_step pc (shared st);
      Some (mkState s (syncs st) (<[i := pc']> (drains st)))
  | DoEvent e => Some (mkState (HandleEvent time_Now e (shared st)).2 (syncs st) (drains st))
  | DoPrune tr => Some (mkState (PruneStaleRoutes time_Now tr (shared st)) (syncs st) (drains st))
  end.

Fixpoint run (st : state) (ls : list label) : option state :=
  match ls with
  | [] => Some st
  | l :: ls' => st' ← step st l; run st' ls'
  end.

Lemma drains_after_length pc s ds : length (drains_after pc s ds) = length ds.
Proof. unfold drains_after. destruct (replaces pc s); by rewrite ?length_fmap. Qed.
Lemma drains_after_still pc s ds : replaces pc s = false → drains_after pc s ds = ds.
Proof. unfold drains_after. by intros ->. Qed.
Lemma drains_after_Forall (P : drain_pc → Prop) pc s ds :
  (∀ d, P d → P (detach (u_routingTable s) d)) → Forall P ds → Forall P (drains_after pc s ds).
Proof. intros HP Hds. unfold drains_after. destruct (replaces pc s); [|done]. apply Forall_fmap. by eapply Forall_impl. Qed.
Lemma drains_after_filter (P : drain_pc → bool) pc s ds :
  (∀ t d, P (detach t d) = P d) →
  length (base.filter (λ d, P d = true) (drains_after pc s ds)) = length (base.filter (λ d, P d = true) ds).
Proof.
  intros HP. unfold drains_after. destruct (replaces pc s); [|done].
  rewrite filter_fmap, length_fmap. f_equal. apply list_filter_iff. intros d. by rewrite HP.
Qed.
Lemma handed_stale_detach t pc : handed_stale (detach t pc) = handed_stale pc.
Proof. by destruct pc as [| | | |[] ?| |]. Qed.
Lemma drains_after_stale pc s ds :
  Exists (λ d, handed_stale d = true) ds → Exists (λ d, handed_stale d = true) (drains_after pc s ds).
Proof.
  unfold drains_after. destruct (replaces pc s); [|done]. rewrite Exists_fmap.
  intros Hds. eapply Exists_impl; [exact Hds|]. intros d. simpl. by rewrite handed_stale_detach.
Qed.

Lemma run_app ls ls' st : run st (ls ++ ls') = st' ← run st ls; run st' ls'.
Proof.
  revert st. induction ls as [|l ls IH]; intros st; [done|]. cbn [app run].
  by destruct (step st l) as [st1|]; [apply IH|].
Qed.

(** * One sync among events *)

(** What is left of the unlocked part of a sync. *)
Definition sync_rest (pc : sync_pc) (s : UState) : UState * bool :=
  match pc with
  | SyncStart | SyncFetching => Sync_body time_Now s
  | SyncMerging ms fresh ch => Sync_replace (foldl (Sync_merge_step time_Now) (s, fresh, ch) ms)
  | SyncReplacing fresh ch => Sync_replace (s, fresh, ch)
  | SyncEnding ch => (s, ch)
  | SyncDone => (s, false)
  end.

(** The goroutine is between the two locked regions. *)
Definition in_body (pc : sync_pc) : bool :=
  match pc with SyncStart | SyncDone => false | _ => true end.

(** The body neither reads nor changes the cache. *)
Lemma Sync_fetch_cache n cached err b es s :
  Sync_fetch n cached err (set_sync b es s) =
  ((Sync_fetch n cached err s).1, set_sync b es (Sync_fetch n cached err s).2).
Proof.
  revert cached err s. induction n as [|n IH]; intros cached err s; [done|]. simpl.
  destruct (FetchToken _ _) as [[token|e] a]; [|done].
  destruct (TcpRouteMappings _) as [[ms|e] a']; [done|].
  case_bool_decide; [|done]. change (set_api a' (set_sync b es s)) with (set_sync b es (set_api a' s)).
  by rewrite IH.
Qed.
Lemma Sync_fetch_length n k cached err s ms e s1 :
  (∀ a ms a', TcpRouteMappings a = (Ok ms, a') → (length ms ≤ n)%nat) →
  Sync_fetch k cached err s = (Some (ms, e), s1) → (length ms ≤ n)%nat.
Proof.
  intros Hn. revert cached err s. induction k as [|k IH]; intros cached err s Hf; simpl in Hf; [simplify_eq; simpl; lia|].
  destruct (FetchToken _ _) as [[token|e'] a]; [|done].
  destruct (TcpRouteMappings _) as [[ms'|e'] a'] eqn:Hm; [simplify_eq; by eapply Hn|].
  case_bool_decide; [by eapply IH|done].
Qed.
#[local] Arguments Sync_fetch : simpl never.
#[local] Arguments Sync_merge_step : simpl never.
#[local] Arguments Sync_replace : simpl never.
#[local] Arguments Sync_body : simpl never.
#[local] Arguments Sync_end : simpl never.

Lemma sync_step_rest pc s pc' s' :
  in_body pc = true → in_body pc' = true → sync_step pc s = Some (pc', s') →
  sync_rest pc' s' = sync_rest pc s.
Proof.
  destruct pc as [| |[|m ms] fresh ch|fresh ch|ch|]; intros Hpc Hpc' Hs; simpl in *; try done.
  - unfold Sync_body, Sync_merge. destruct (Sync_fetch 2 true None s) as [[[ms [e|]]|] s1]; by simplify_eq/=.
  - by simplify_eq/=.
  - destruct (Sync_merge_step time_Now (s, fresh, ch) m) as [[s1 f1] c1] eqn:Hm. by simplify_eq/=.
  - destruct (Sync_replace (s, fresh, ch)) as [s1 c1]. by simplify_eq/=.
  - by simplify_eq/=.
Qed.

Lemma Sync_merge_cache ms b es s fresh ch :
  foldl (Sync_merge_step time_Now) (set_sync b es s, fresh, ch) ms =
  let r := foldl (Sync_merge_step time_Now) (s, fresh, ch) ms in (set_sync b es r.1.1, r.1.2, r.2).
Proof.
  revert s fresh ch. induction ms as [|m ms IH]; intros s fresh ch; [done|]. cbn [foldl].
  rewrite !Sync_merge_step_eq. destruct (toRoutingTableEntry m) as [rk info]. cbv zeta. simpl u_routingTable.
  by rewrite <-IH.
Qed.
Lemma Sync_replace_cache b es s fresh ch :
  Sync_replace (set_sync b es s, fresh, ch) =
  (set_sync b es (Sync_replace (s, fresh, ch)).1, (Sync_replace (s, fresh, ch)).2).
Proof. unfold Sync_replace. simpl. by case_decide. Qed.
Lemma sync_rest_cache pc b es s :
  sync_rest pc (set_sync b es s) = (set_sync b es (sync_rest pc s).1, (sync_rest pc s).2).
Proof.
  assert (∀ s, Sync_body time_Now (set_sync b es s) =
    (set_sync b es (Sync_body time_Now s).1, (Sync_body time_Now s).2)) as Hbody.
  { intros s'. unfold Sync_body, Sync_merge. rewrite Sync_fetch_cache.
    destruct (Sync_fetch 2 true None s') as [[[ms [e|]]|] s1]; simpl; [done| |done].
    rewrite Sync_merge_cache. cbv zeta. rewrite Sync_replace_cache. by rewrite <-!surjective_pairing. }
  destruct pc as [| |ms fresh ch|fresh ch|ch|]; simpl sync_rest; [apply Hbody..| | |done|done].
  - rewrite Sync_merge_cache. cbv zeta. rewrite Sync_replace_cache. by rewrite <-!surjective_pairing.
  - apply Sync_replace_cache.
Qed.

Lemma sync_step_cache pc s pc' s' :
  in_body pc = true → in_body pc' = true → sync_step pc s = Some (pc', s') →
  u_syncing s' = u_syncing s ∧ u_cachedEvents s' = u_cachedEvents s.
Proof.
  destruct pc as [| |[|m ms] fresh ch|fresh ch|ch|]; intros Hpc Hpc' Hs; simpl in *; try done.
  - pose proof (Sync_fetch_state 2 true None s) as Hf.
    destruct (Sync_fetch 2 true None s) as [[[ms [e|]]|] s1]; simpl in Hf; simplify_eq/=; by rewrite Hf.
  - by simplify_eq/=.
  - rewrite Sync_merge_step_eq in Hs. destruct (toRoutingTableEntry m) as [rk info]. by simplify_eq/=.
  - unfold Sync_replace in Hs. case_decide; by simplify_eq/=.
  - by simplify_eq/=.
Qed.

Lemma sync_step_calls pc s pc' s' :
  in_body pc' = true → sync_step pc s = Some (pc', s') → u_configured s' = u_configured s.
Proof.
  destruct pc as [| |[|m ms] fresh ch|fresh ch|ch|]; intros Hpc' Hs; cbn [sync_step] in Hs; simplify_eq; try done.
  - pose proof (Sync_fetch_state 2 true None s) as Hf.
    destruct (Sync_fetch 2 true None s) as [[[ms [e|]]|] s1]; simpl in Hf; simplify_eq/=; by rewrite Hf.
  - rewrite Sync_merge_step_eq in Hs. destruct (toRoutingTableEntry m) as [rk info]. by simplify_eq/=.
  - unfold Sync_replace in Hs. case_decide; by simplify_eq/=.
Qed.

Lemma sync_step_in_body pc s pc' s' :
  in_body pc = true → sync_step pc s = Some (pc', s') →
  in_body pc' = true ∨ ∃ ch, pc = SyncEnding ch ∧ pc' = SyncDone ∧ s' = Sync_end time_Now ch s.
Proof.
  destruct pc as [| |[|m ms] fresh ch|fresh ch|ch|]; intros Hpc Hs; simpl in *; try done.
  - left. destruct (Sync_fetch 2 true None s) as [[[ms [e|]]|] s1]; by simplify_eq.
  - left. by simplify_eq.
  - left. destruct (Sync_merge_step _ _ _) as [[s1 f1] c1]. by simplify_eq.
  - left. destruct (Sync_replace _) as [s1 c1]. by simplify_eq.
  - right. simplify_eq. eauto.
Qed.

(** The steps of one sync and the events among them. *)
Definition sync_label (l : label) : Prop := l = StepSync 0 ∨ ∃ e, l = DoEvent e.
Definition events_of (ls : list label) : list TcpEvent :=
  omap (λ l, match l with DoEvent e => Some e | _ => None end) ls.

Lemma set_sync_same s : u_syncing s = true → set_sync true (u_cachedEvents s) s = s.
Proof. intros Hs. unfold set_sync. rewrite <-Hs. by destruct s. Qed.
Lemma HandleEvent_syncing e s :
  u_syncing s = true → (HandleEvent time_Now e s).2 = set_sync true (u_cachedEvents s ++ [e]) s.
Proof. intros Hs. unfold HandleEvent. rewrite Hs. done. Qed.

Lemma run_sync0 s pc ds ls :
  run (mkState s [pc] ds) (StepSync 0 :: ls) =
  r ← sync_step pc s; run (mkState r.2 [r.1] (drains_after pc s ds)) ls.
Proof. cbn [run step]. simpl. by destruct (sync_step pc s) as [[pc' s1]|]. Qed.
Lemma run_event s pcs ds e ls :
  run (mkState s pcs ds) (DoEvent e :: ls) = run (mkState (HandleEvent time_Now e s).2 pcs ds) ls.
Proof. done. Qed.

Lemma run_done ls s ds s' pcs ds' :
  Forall sync_label ls → run (mkState s [SyncDone] ds) ls = Some (mkState s' pcs ds') →
  s' = HandleEvents time_Now (events_of ls) s.
Proof.
  intros Hls. revert s. induction Hls as [|l ls [-> | [e ->]] _ IH]; intros s Hr.
  - simpl in Hr. by simplify_eq.
  - by rewrite run_sync0 in Hr.
  - rewrite run_event in Hr. by apply IH in Hr.
Qed.

Lemma run_body ls pc s ds s' ds' :
  Forall sync_label ls → in_body pc = true → u_syncing s = true →
  run (mkState s [pc] ds) ls = Some (mkState s' [SyncDone] ds') →
  ∃ es1 es2, events_of ls = es1 ++ es2 ∧
    s' = HandleEvents time_Now es2 (Sync_end time_Now (sync_rest pc s).2
           (set_sync true (u_cachedEvents s ++ es1) (sync_rest pc s).1)).
Proof.
  intros Hls. revert pc s ds. induction Hls as [|l ls [-> | [e ->]] Hls IH]; intros pc s ds Hpc Hs Hr.
  - simpl in Hr. by simplify_eq.
  - rewrite run_sync0 in Hr.
    destruct (sync_step pc s) as [[pc' s1]|] eqn:Hstep; [|done]. cbn [mbind option_bind fst snd] in Hr.
    destruct (sync_step_in_body _ _ _ _ Hpc Hstep) as [Hpc' | (ch & -> & -> & ->)].
    + destruct (sync_step_cache _ _ _ _ Hpc Hpc' Hstep) as [Hs1 Hc1].
      destruct (IH pc' s1 _ Hpc' ltac:(congruence) Hr) as (es1 & es2 & Hes & ->).
      exists es1, es2. split; [done|]. by rewrite (sync_step_rest _ _ _ _ Hpc Hpc' Hstep), Hc1.
    + exists [], (events_of ls). split; [done|]. simpl sync_rest. rewrite app_nil_r.
      cbn [fst snd]. rewrite set_sync_same by done. by apply run_done in Hr.
  - rewrite run_event, HandleEvent_syncing in Hr by done.
    destruct (IH pc (set_sync true (u_cachedEvents s ++ [e]) s) _ Hpc eq_refl Hr) as (es1 & es2 & Hes & ->).
    exists (e :: es1), es2. split; [simpl; f_equal; exact Hes|].
    rewrite sync_rest_cache. cbn [fst snd]. simpl u_cachedEvents. by rewrite <-app_assoc.
Qed.

(** * The flag of a sync *)

Lemma handleEvent_flag e s : u_syncing (handleEvent time_Now e s).2 = u_syncing s.
Proof.
  rewrite handleEvent_eq. destruct (event_op _ _) as [op|]; [|done]. cbv zeta.
  destruct (_ && _); [|done]. by rewrite call_configurer_state.
Qed.
Lemma HandleEvent_flag e s : u_syncing (HandleEvent time_Now e s).2 = u_syncing s.
Proof.
  unfold HandleEvent. destruct (u_syncing s) eqn:Hs; [done|]. pose proof (handleEvent_flag e s) as He.
  destruct (handleEvent time_Now e s) as [[ch err] s']. simpl in *. congruence.
Qed.
Lemma PruneStaleRoutes_flag tr s : u_syncing (PruneStaleRoutes time_Now tr s) = u_syncing s.
Proof. unfold PruneStaleRoutes. by destruct (PruneEntries _ _ _ _). Qed.
Lemma drain_step_flag pc s pc' s' : drain_step pc s = Some (pc', s') → u_syncing s' = u_syncing s.
Proof.
  destruct pc as [| | | |copy draining|copy|copy]; cbn [drain_step]; intros Hs; simplify_eq; try done.
  pose proof (call_configurer_with_state (default (u_routingTable s) copy) draining s) as Hc.
  destruct (call_configurer_with _ _ s) as [err s1]. simpl in Hc. by simplify_eq.
Qed.
Lemma Sync_end_flag ch s : u_syncing (Sync_end time_Now ch s) = false.
Proof. unfold Sync_end. destruct (applyCachedEvents time_Now s) as [b s1]. by destruct (if b then _ else _). Qed.

(** One step of a sync moves the flag with the goroutine. *)
Lemma sync_step_flag pc s pc' s' :
  sync_step pc s = Some (pc', s') →
  match in_body pc, in_body pc' with
  | true, true => u_syncing s' = u_syncing s
  | false, true => u_syncing s' = true
  | true, false => u_syncing s' = false
  | false, false => False
  end.
Proof.
  destruct (in_body pc) eqn:Hpc; intros Hs.
  - destruct (sync_step_in_body _ _ _ _ Hpc Hs) as [Hpc' | (ch & -> & -> & ->)].
    + rewrite Hpc'. by destruct (sync_step_cache _ _ _ _ Hpc Hpc' Hs).
    + apply Sync_end_flag.
  - destruct pc; try done. simpl in Hs. by simplify_eq.
Qed.

(** The flag is set only while some sync is between its locked regions. *)
Definition flagged (st : state) : Prop :=
  u_syncing (shared st) = true → Exists (λ pc, in_body pc = true) (syncs st).

Lemma flagged_step st l st' : flagged st → step st l = Some st' → flagged st'.
Proof.
  unfold flagged. intros Hf Hs. destruct l as [| |i|i|e|tr]; simpl in Hs.
  - simplify_eq. simpl. intros Hsy. apply Exists_app. left. by apply Hf.
  - by simplify_eq.
  - destruct (syncs st !! i) as [pc|] eqn:Hi; [|done]. simpl in Hs.
    destruct (sync_step pc (shared st)) as [[pc' s']|] eqn:Hstep; [|done]. simpl in Hs. simplify_eq. simpl.
    apply sync_step_flag in Hstep. intros Hsy.
    destruct (in_body pc') eqn:Hpc'; [by eapply Exists_insert_new|].
    destruct (in_body pc); [congruence|done].
  - destruct (drains st !! i) as [pc|]; [|done]. simpl in Hs.
    destruct (drain_step pc (shared st)) as [[pc' s']|] eqn:Hstep; [|done]. simpl in Hs. simplify_eq. simpl.
    apply drain_step_flag in Hstep. by rewrite Hstep.
  - simplify_eq. simpl. by rewrite HandleEvent_flag.
  - simplify_eq. simpl. by rewrite PruneStaleRoutes_flag.
Qed.
Lemma flagged_run ls st st' : flagged st → run st ls = Some st' → flagged st'.
Proof.
  revert st. induction ls as [|l ls IH]; intros st Hf Hr; simpl in Hr; [by simplify_eq|].
  destruct (step st l) as [st1|] eqn:Hs; [|done]. eapply IH; [|exact Hr]. by eapply flagged_step.
Qed.
Lemma flagged_idle st : flagged st → Forall (eq SyncDone) (syncs st) → u_syncing (shared st) = false.
Proof.
  intros Hf Hd. destruct (u_syncing (shared st)) eqn:Hs; [|done]. exfalso.
  apply Exists_exists in Hf as (pc & Hin & Hpc); [|done]. rewrite Forall_forall in Hd. by rewrite <-(Hd pc Hin) in Hpc.
Qed.

(** * What the calls of the configurer preserve

    An invariant of the configurer's state and of the calls made of it holds
    through every step if it holds through a call; where no drain calls, through
    a call with the draining flag as it is. *)
Record conf_invariant (P : UState → Prop) : Prop := {
  ci_frame s s' : u_conf s' = u_conf s → u_configured s' = u_configured s →
    u_isDraining s' = u_isDraining s → P s → P s';
  ci_call t draining s : P s → P (call_configurer_with t draining s).2
}.
Record own_invariant (P : UState → Prop) : Prop := {
  oi_frame s s' : u_conf s' = u_conf s → u_configured s' = u_configured s →
    u_isDraining s' = u_isDraining s → P s → P s';
  oi_call s : P s → P (call_configurer s).2
}.
Lemma conf_own_invariant P : conf_invariant P → own_invariant P.
Proof. intros HP. split; [apply HP|]. intros s. apply (ci_call _ HP). Qed.

Section own_invariant.
Context (P : UState → Prop) (HP : own_invariant P).

Lemma handleEvent_conf e s : P s → P (handleEvent time_Now e s).2.
Proof.
  intros Hs. rewrite handleEvent_eq. destruct (event_op _ _) as [op|]; [|done]. cbv zeta.
  assert (P (add_readings 1 (set_table (run_op (u_routingTable s) op).1 s))) as Hs1 by by eapply (oi_frame _ HP s).
  destruct (_ && _); [by apply (oi_call _ HP)|done].
Qed.
Lemma HandleEvent_conf e s : P s → P (HandleEvent time_Now e s).2.
Proof.
  intros Hs. unfold HandleEvent. destruct (u_syncing s); [by eapply (oi_frame _ HP s)|].
  pose proof (handleEvent_conf e s Hs) as He. by destruct (handleEvent time_Now e s) as [[ch err] s'].
Qed.
Lemma applyCachedEvents_conf s : P s → P (applyCachedEvents time_Now s).2.
Proof.
  unfold applyCachedEvents. generalize false. generalize (u_cachedEvents s). intros es. revert s.
  induction es as [|e es IH]; intros s b Hs; [done|]. cbn [foldl applyCachedEvents_step].
  pose proof (handleEvent_conf e s Hs) as He. destruct (handleEvent time_Now e s) as [[ch err] s1]. by apply IH.
Qed.
Lemma Sync_end_conf ch s : P s → P (Sync_end time_Now ch s).
Proof.
  intros Hs. unfold Sync_end. pose proof (applyCachedEvents_conf s Hs) as Ha.
  destruct (applyCachedEvents time_Now s) as [b s1]. simpl in Ha.
  destruct (if b then true else ch); [|by eapply (oi_frame _ HP s1)].
  by eapply (oi_frame _ HP (call_configurer s1).2), (oi_call _ HP).
Qed.
Lemma sync_step_conf pc s pc' s' : sync_step pc s = Some (pc', s') → P s → P s'.
Proof.
  destruct pc as [| |[|m ms] fresh ch|fresh ch|ch|]; cbn [sync_step]; intros Hs HPs; simplify_eq; try done.
  - by eapply (oi_frame _ HP s).
  - pose proof (Sync_fetch_state 2 true None s) as Hst.
    assert (P (set_api (u_api (Sync_fetch 2 true None s).2) s)) as Hg by by eapply (oi_frame _ HP s).
    rewrite <-Hst in Hg. clear Hst. destruct (Sync_fetch 2 true None s) as [o s1]. simpl in Hg.
    by destruct o as [[ms [e|]]|]; simplify_eq.
  - rewrite Sync_merge_step_eq in Hs. destruct (toRoutingTableEntry m) as [rk info]. cbv zeta in Hs.
    injection Hs as _ <-. by eapply (oi_frame _ HP s).
  - unfold Sync_replace in Hs. case_decide; simplify_eq; [|done]. by eapply (oi_frame _ HP s).
  - by apply Sync_end_conf.
Qed.
Lemma PruneStaleRoutes_conf tr s : P s → P (PruneStaleRoutes time_Now tr s).
Proof. intros Hs. unfold PruneStaleRoutes. destruct (PruneEntries _ _ _ _). by eapply (oi_frame _ HP s). Qed.

End own_invariant.

Section conf_invariant.
Context (P : UState → Prop) (HP : conf_invariant P).

Lemma drain_step_conf pc s pc' s' : (P s → P (set_draining s)) → drain_step pc s = Some (pc', s') → P s → P s'.
Proof.
  intros Hset Hs HPs. destruct pc as [| | | |copy draining|copy|copy]; cbn [drain_step] in Hs; simplify_eq;
    [done|done|by apply Hset|done| |done].
  pose proof (ci_call _ HP (default (u_routingTable s) copy) draining s HPs) as Hc.
  destruct (call_configurer_with _ _ s). by simplify_eq.
Qed.

Lemma run_conf ls st st' :
  (∀ s, P s → P (set_draining s)) → run st ls = Some st' → P (shared st) → P (shared st').
Proof.
  intros Hset. revert st. induction ls as [|l ls IH]; intros st Hr HPs; [by injection Hr as <-|]. cbn [run] in Hr.
  destruct (step st l) as [st1|] eqn:Hs; [|done]. eapply IH; [exact Hr|].
  pose proof (conf_own_invariant _ HP) as Hown.
  destruct l as [| |i|i|e|tr]; simpl in Hs; simplify_eq; simpl;
    try (done || by apply (HandleEvent_conf P Hown) || by apply (PruneStaleRoutes_conf P Hown)).
  - destruct (syncs st !! i) as [pc|]; [|done]. simpl in Hs.
    destruct (sync_step pc (shared st)) as [[pc' s']|] eqn:Hstep; [|done]. simpl in Hs. simplify_eq.
    by eapply (sync_step_conf P Hown).
  - destruct (drains st !! i) as [pc|]; [|done]. simpl in Hs.
    destruct (drain_step pc (shared st)) as [[pc' s']|] eqn:Hstep; [|done]. simpl in Hs. simplify_eq.
    eapply drain_step_conf; [apply Hset|exact Hstep|done].
Qed.

End conf_invariant.

(** * Properties *)

(** A sync that is alone is the sequential one. *)
Lemma sync_runs_alone (s : UState) ds :
  ∃ n ds', run (mkState s [SyncStart] ds) (replicate n (StepSync 0)) =
    Some (mkState (Sync time_Now s) [SyncDone] ds') ∧ length ds' = length ds.
Proof.
  assert (∀ ch s1, run (mkState s1 [SyncEnding ch] ds) (replicate 1 (StepSync 0)) =
    Some (mkState (Sync_end time_Now ch s1) [SyncDone] ds)) as Hend by done.
  assert (∀ ms s1 fresh ch, ∃ ds', run (mkState s1 [SyncMerging ms fresh ch] ds) (replicate (3 + length ms) (StepSync 0)) =
    (let r := Sync_replace (foldl (Sync_merge_step time_Now) (s1, fresh, ch) ms) in
    Some (mkState (Sync_end time_Now r.2 r.1) [SyncDone] ds')) ∧ length ds' = length ds) as Hmerge.
  { induction ms as [|m ms IH]; intros s1 fresh ch.
    - change (replicate _ _) with (StepSync 0 :: StepSync 0 :: replicate 1 (StepSync 0)).
      rewrite run_sync0. cbn [sync_step mbind option_bind fst snd]. rewrite (drains_after_still _ _ ds), run_sync0 by done.
      exists (drains_after (SyncReplacing fresh ch) s1 ds). rewrite drains_after_length. split; [|done].
      cbn [sync_step foldl]. by destruct (Sync_replace (s1, fresh, ch)) as [s2 c2].
    - replace (3 + length (m :: ms))%nat with (S (3 + length ms))%nat by (simpl; lia).
      cbn [replicate]. rewrite run_sync0, drains_after_still by done. cbn [sync_step foldl].
      destruct (Sync_merge_step time_Now (s1, fresh, ch) m) as [[s2 f2] c2].
      cbn [mbind option_bind fst snd]. apply IH. }
  unfold Sync, Sync_body, Sync_merge.
  assert (∀ n, run (mkState s [SyncStart] ds) (replicate (S (S n)) (StepSync 0)) =
    r ← sync_step SyncFetching (Sync_begin s); run (mkState r.2 [r.1] ds) (replicate n (StepSync 0))) as Hstart.
  { intros n. cbn [replicate]. rewrite run_sync0. cbn [sync_step mbind option_bind fst snd]. apply run_sync0. }
  cbn [sync_step] in Hstart.
  destruct (Sync_fetch 2 true None (Sync_begin s)) as [[[ms [e|]]|] s1] eqn:Hf.
  - exists 3%nat, ds. by rewrite Hstart.
  - destruct (Hmerge ms s1 NewRoutingTable false) as (ds' & Hr & Hlen). exists (S (S (3 + length ms)))%nat, ds'.
    rewrite (Hstart (3 + length ms)%nat). cbn [mbind option_bind fst snd].
    rewrite Hr. cbv zeta. by destruct (Sync_replace _) as [s2 c2].
  - exists 3%nat, ds. by rewrite Hstart.
Qed.

(** C19. One sync at a time is atomic: however the steps of a sync interleave
    with events, when the sync is done the updater is in the state of handling
    the events that came before it, then a sync that caches the events of its
    duration, then the rest of the events, in order and without a loss. *)
Theorem sync_interleaving (ls : list label) (s s' : UState) ds ds' :
  Forall sync_label ls →
  run (mkState s [SyncStart] ds) ls = Some (mkState s' [SyncDone] ds') →
  ∃ before during after, events_of ls = before ++ during ++ after ∧
    s' = HandleEvents time_Now after
           (Sync_during time_Now during (HandleEvents time_Now before s)).
Proof.
  intros Hls. revert s. induction Hls as [|l ls [-> | [e ->]] Hls IH]; intros s Hr.
  - simpl in Hr. by simplify_eq.
  - rewrite run_sync0, drains_after_still in Hr by done. cbn [sync_step mbind option_bind fst snd] in Hr.
    destruct (run_body ls SyncFetching (Sync_begin s) ds s' ds' Hls eq_refl eq_refl Hr) as (es1 & es2 & Hes & ->).
    exists [], es1, es2. split; [done|]. rewrite Sync_during_eq. done.
  - rewrite run_event in Hr. destruct (IH _ Hr) as (before & during & after & Hes & ->).
    exists (e :: before), during, after. split; [simpl; f_equal; exact Hes|done].
Qed.

(** A sync always comes to its end: some number of its steps, with nothing
    in between, completes it in the state of the sequential [Sync]. *)
Theorem sync_completes (s : UState) ds :
  ∃ n ds', run (mkState s [SyncStart] ds) (replicate n (StepSync 0)) =
    Some (mkState (Sync time_Now s) [SyncDone] ds') ∧ length ds' = length ds.
Proof. apply sync_runs_alone. Qed.

Lemma sync_step_enabled pc s : pc ≠ SyncDone → is_Some (sync_step pc s).
Proof.
  destruct pc as [| |[|m ms] fresh ch|fresh ch|ch|]; simpl; intros Hpc; try done.
  - by destruct (Sync_fetch 2 true None s) as [[[ms [e|]]|] s1].
  - by destruct (Sync_merge_step time_Now (s, fresh, ch) m) as [[s1 f1] c1].
  - by destruct (Sync_replace (s, fresh, ch)) as [s1 c1].
Qed.

End concurrency.

(** * Concrete runs *)
Module Sample.
Import RoutingTable.Sample Updater.Sample.

Definition one_sync : list label :=
  [DoEvent (mkTcpEvent mapping1 "Upsert"); StepSync 0; DoEvent (mkTcpEvent mapping2 "Upsert"); StepSync 0;
   StepSync 0; StepSync 0; StepSync 0; StepSync 0; DoEvent (mkTcpEvent mapping2 "Delete")].
Definition one_sync_start : state := mkState (start [Ok [mapping1]] []) [SyncStart] [].
Definition one_sync_end : UState := default (start [] []) (shared <$> run sample_now one_sync_start one_sync).
Lemma one_sync_run :
  run sample_now one_sync_start one_sync = Some (mkState one_sync_end [SyncDone] []).
Proof.
  assert (((λ st, (syncs st, drains st)) <$> run sample_now one_sync_start one_sync) = Some ([SyncDone], []))
    as Hpcs by (vm_compute; reflexivity).
  unfold one_sync_end. destruct (run _ _ _) as [[s pcs ds]|]; [|discriminate Hpcs].
  injection Hpcs as -> ->. reflexivity.
Qed.

Lemma sync_interleaving_witness :
  ∃ before during after, events_of one_sync = before ++ during ++ after ∧
    one_sync_end = HandleEvents sample_now after
      (Sync_during sample_now during (HandleEvents sample_now before (start [Ok [mapping1]] []))).
Proof.
  apply (sync_interleaving sample_now one_sync (start [Ok [mapping1]] []) one_sync_end [] []);
    [|exact one_sync_run].
  unfold one_sync, sync_label. repeat (apply List.Forall_cons; [eauto|]). apply List.Forall_nil.
Defined.

(** Two syncs overlap: the second one begins after an event has been cached
    for the first. *)
Definition overlapping_syncs : list label :=
  [SpawnSync; StepSync 0; DoEvent (mkTcpEvent mapping1 "Upsert"); SpawnSync; StepSync 1]
  ++ replicate 4 (StepSync 0) ++ replicate 4 (StepSync 1).

(** Two syncs at a time lose events: an event that arrives during a sync is
    accepted without an error, but when a second sync begins before the first
    one ends the event is discarded with the cache; at the end neither the
    table nor HAProxy knows it. *)
Theorem overlapping_syncs_lose_events :
  (λ st, (syncs st, u_syncing (shared st), u_cachedEvents (shared st),
          Size (u_routingTable (shared st)), length (u_configured (shared st)))) <$>
    run sample_now (mkState (start [Ok []; Ok []] []) [] []) overlapping_syncs =
  Some ([SyncDone; SyncDone], false, [], 0%nat, 0%nat).
Proof. vm_compute. reflexivity. Qed.

(** Two drains that both pass the check before either sets the flag. *)
Example two_drains_configure_twice :
  (λ st, snd <$> u_configured (shared st)) <$>
    run sample_now (mkState (start [] []) [] [])
      [SpawnDrain; SpawnDrain; StepDrain 0; StepDrain 1; StepDrain 0; StepDrain 1;
       StepDrain 0; StepDrain 1; StepDrain 0; StepDrain 1; StepDrain 0; StepDrain 1] =
  Some [true; true].
Proof. vm_compute. reflexivity. Qed.

(** A client that always lists the same two routes. *)
Definition two_routes_api : RoutingAPI := {|
  api_state := unit;
  FetchToken := λ _ a, (Ok "token", a);
  SetToken := λ _ a, a;
  TcpRouteMappings := λ a, (Ok [mapping1; mapping2], a)
|}.
End Sample.
