(* ===== verification/Interleaving.v ===== *)
(** The goroutines of the updater on the HAProxy configurer: what HAProxy's
    file says while syncs overlap, drains configure without the lock, and the
    table is pruned. *)
From S2P Require Import Prelude GoStrings RoutingTable HAProxyConfig Config HAProxyReader.
From S2P Require Import Marshaller MarshallerCorrect OS FileUtils Configurer Updater System Concurrency.
#[local] Open Scope Z_scope.

(** * Tables HAProxy may be behind *)

Section tracks.
Context {tags : ModificationTags}.

(** [t] has every backend of [table]. *)
Definition covers (t table : RoutingTable) : Prop :=
  ∀ rk bk, is_Some (lookup_backend table rk bk) → is_Some (lookup_backend t rk bk).
(** What can be said of the table HAProxy was given: pruning takes backends
    from the table and does not tell HAProxy. *)
Definition tracks (pruned : bool) : RoutingTable → RoutingTable → Prop :=
  if pruned then covers else same_backends.

Lemma tracks_refl pruned t : tracks pruned t t.
Proof. destruct pruned; [by intros rk bk|by intros rk bk]. Qed.
Lemma tracks_same pruned t table table' :
  tracks pruned t table → same_backends table' table → tracks pruned t table'.
Proof.
  destruct pruned; simpl; intros Ht Hs rk bk.
  - intros Hbk. by apply Ht, Hs.
  - by rewrite (Ht rk bk), <-(Hs rk bk).
Qed.

Lemma plain_table_empty : plain_table NewRoutingTable.
Proof. intros rk bk [d Hd]. unfold lookup_backend in Hd. simpl in Hd. by rewrite lookup_empty in Hd. Qed.

Lemma PruneEntries_removes tr t ttl clk rk bk d :
  IsTableRange tr →
  lookup_backend (PruneEntries tr t ttl clk).1 rk bk = Some d → lookup_backend t rk bk = Some d.
Proof.
  intros Htr. destruct (PruneEntries tr t ttl clk) as [t' n] eqn:Hp. simpl.
  pose proof (PruneEntries_entry _ _ _ _ _ _ Htr Hp rk) as He. unfold lookup_backend.
  destruct (Entries t !! rk) as [e|]; simpl; [|by rewrite He].
  destruct He as (a & b & e' & _ & Hb & ->). case_decide; simpl; [done|].
  pose proof (PruneBackends_lookup_gen ttl clk (range_backends tr rk (Backends e)) e a bk
    (NoDup_range_keys (range_backends tr rk) _)) as Hl.
  unfold PruneBackends in Hb. rewrite Hb in Hl. simpl in Hl. rewrite Hl. by repeat case_match.
Qed.

Lemma PruneStaleRoutes_covers {api : RoutingAPI} {rc : RouterConfigurer} time_Now tr (s : UState) t :
  IsTableRange tr → covers t (u_routingTable s) → covers t (u_routingTable (PruneStaleRoutes time_Now tr s)).
Proof.
  intros Htr Ht rk bk [d Hd]. apply Ht. unfold PruneStaleRoutes in Hd.
  set (clk := λ i, time_Now (u_readings s + i)%nat) in Hd.
  destruct (PruneEntries tr _ _ clk) as [t' n] eqn:Hp. simpl in Hd.
  exists d. eapply (PruneEntries_removes tr _ (u_defaultTTL s) clk); [done|]. by rewrite Hp.
Qed.

End tracks.

(** * The invariant *)

Section interleaving.
Context {tags : ModificationTags}.
Context (mr : MarshalRange) (tr : TableRange) (h : Configurer) (api : RoutingAPI) (time_Now : nat → Z).

#[local] Abbreviation U := (@UState tags api (haproxy_configurer mr tr h)).

(** HAProxy reads the configuration file as the routes of [t]. *)
Definition file_says (base : string) (c : CState) (t : RoutingTable) : Prop :=
  ∃ text, files (cs_os c) !! configFilePath h = Some text ∧
    ∀ port sni, leaves_port base port →
      route_to (read_config text) port sni = server_texts (backendTlsCfg h) <$> table_serving tr t port sni.

(** HAProxy has a table that tracks the updater's; before the first
    configuration that is the empty one. *)
Definition tracked (pruned : bool) (base : string) (s : U) : Prop :=
  u_configured s = [] ∧ tracks pruned NewRoutingTable (u_routingTable s) ∨
  ∃ t, tracks pruned t (u_routingTable s) ∧ file_says base (u_conf s) t.

(** A sync that has changed the table and not yet called the configurer. *)
Definition pending (pc : sync_pc) : Prop :=
  match pc with SyncMerging _ _ ch | SyncReplacing _ ch | SyncEnding ch => ch = true | _ => False end.
Definition plain_pc (pc : sync_pc) : Prop :=
  match pc with
  | SyncMerging ms fresh _ => Forall plain_mapping ms ∧ plain_table fresh
  | SyncReplacing fresh _ => plain_table fresh
  | _ => True
  end.

Definition plain_copy (pc : drain_pc) : Prop :=
  match pc with DrainCalling (Some t) _ => plain_table t | _ => True end.

(** The updater outside of what HAProxy was told. *)
Record healthy (base : string) (s : U) : Prop := {
  healthy_table : plain_table (u_routingTable s);
  healthy_files : quiet h base (u_conf s);
  healthy_cache : Forall plain_event (u_cachedEvents s);
  healthy_idle : u_syncing s = false → u_cachedEvents s = []
}.
Record invariant (pruned : bool) (base : string) (st : state) : Prop := {
  inv_healthy : healthy base (shared st : U);
  inv_plain : Forall plain_pc (syncs st);
  inv_copies : Forall plain_copy (drains st);
  inv_tracked : tracked pruned base (shared st : U) ∨ Exists pending (syncs st) ∨
    Exists (λ pc, handed_stale pc = true) (drains st)
}.

Definition plain_label (pruned : bool) (l : label) : Prop :=
  match l with
  | DoEvent e => plain_event e
  | DoPrune tr' => pruned = true ∧ IsTableRange tr'
  | _ => True
  end.

Context (Hmr : IsMarshalRange mr) (Htr : IsTableRange tr) (Htls : plain_tls (backendTlsCfg h)).
Context (Hown : baseConfigFilePath h ∉ own_files h) (Hsr : script_succeeds h).
Context (Hapi : ∀ a ms a', TcpRouteMappings a = (Ok ms, a') → Forall plain_mapping ms).

(** ** What a step of the updater's state preserves *)

Lemma tracked_unchanged pruned base (s s' : U) :
  tracked pruned base s → u_configured s' = u_configured s → u_conf s' = u_conf s →
  same_backends (u_routingTable s') (u_routingTable s) → tracked pruned base s'.
Proof.
  unfold tracked. intros [[Hc Hn]|(t & Ht & Hf)] -> -> Hsame; [left|right].
  - split; [done|]. by eapply tracks_same.
  - exists t. split; [by eapply tracks_same|done].
Qed.

(** A call of the configurer brings HAProxy up to date. *)
Lemma call_configurer_with_says base t draining (s : U) :
  healthy base s → plain_table t →
  healthy base (call_configurer_with t draining s).2 ∧ file_says base (u_conf (call_configurer_with t draining s).2) t.
Proof.
  intros [Ht Hq Hc Hi] Hplain. rewrite call_configurer_with_state.
  destruct (call_configurer_steady mr tr h api Hmr Htr Htls Hown Hsr Hapi base t draining (u_conf s) Hplain Hq)
    as (c' & Hcall & Hq' & Hsays).
  rewrite Hcall. split; [by split|exact Hsays].
Qed.
Lemma call_configurer_tracked pruned base draining (s : U) :
  healthy base s →
  let s' := (call_configurer_with (u_routingTable s) draining s).2 in healthy base s' ∧ tracked pruned base s'.
Proof.
  intros Hs. destruct (call_configurer_with_says base _ draining s Hs (healthy_table _ _ Hs)) as [Hs' Hsays].
  split; [done|]. right. exists (u_routingTable s). split; [|done].
  rewrite call_configurer_with_state. apply tracks_refl.
Qed.

Lemma set_table_healthy base n t (s : U) :
  healthy base s → plain_table t → healthy base (add_readings n (set_table t s)).
Proof. intros [? ? ? ?] Ht. by split. Qed.

Lemma handleEvent_healthy base e (s : U) :
  healthy base s → plain_event e → healthy base (handleEvent time_Now e s).2.
Proof.
  intros Hs He. rewrite handleEvent_eq.
  destruct (event_op e (time_Now (u_readings s))) as [op|] eqn:Hop; [|done]. cbv zeta.
  pose proof (run_op_plain _ _ _ _ (healthy_table _ _ Hs) He Hop) as Ht.
  pose proof (set_table_healthy base 1 _ s Hs Ht) as Hs1.
  destruct (_ && _); simpl; [|done]. by apply (call_configurer_tracked true base _ (add_readings 1 _)).
Qed.
Lemma handleEvent_tracked pruned base e (s : U) :
  healthy base s → plain_event e → u_syncing s = false →
  tracked pruned base s → tracked pruned base (handleEvent time_Now e s).2.
Proof.
  intros Hs He Hsync Htr1. rewrite handleEvent_eq, Hsync.
  destruct (event_op e (time_Now (u_readings s))) as [op|] eqn:Hop; [|done]. cbv zeta. rewrite andb_true_r.
  pose proof (run_op_plain _ _ _ _ (healthy_table _ _ Hs) He Hop) as Ht.
  destruct ((run_op (u_routingTable s) op).2) eqn:Hflag; simpl.
  - by apply call_configurer_tracked, set_table_healthy.
  - eapply tracked_unchanged; [exact Htr1|done..|]. by apply run_op_same_backends.
Qed.

Lemma HandleEvent_keeps pruned base e (s : U) :
  healthy base s → plain_event e →
  healthy base (HandleEvent time_Now e s).2 ∧
  (tracked pruned base s → tracked pruned base (HandleEvent time_Now e s).2).
Proof.
  intros Hs He. unfold HandleEvent. destruct (u_syncing s) eqn:Hsync.
  - destruct Hs as [? ? ? ?]. split; [|done]. split; simpl; try done. apply Forall_app. by repeat constructor.
  - pose proof (handleEvent_healthy base e s Hs He) as Hs'.
    pose proof (handleEvent_tracked pruned base e s Hs He Hsync) as Htr'.
    by destruct (handleEvent time_Now e s) as [[ch err] s'].
Qed.

Lemma PruneStaleRoutes_keeps base tr' (s : U) :
  IsTableRange tr' → healthy base s →
  healthy base (PruneStaleRoutes time_Now tr' s) ∧
  (tracked true base s → tracked true base (PruneStaleRoutes time_Now tr' s)).
Proof.
  intros Htr' [Ht Hq Hc Hi].
  assert (plain_table (u_routingTable (PruneStaleRoutes time_Now tr' s))) as Ht'.
  { intros rk bk Hbk. apply (Ht rk bk).
    by apply (PruneStaleRoutes_covers time_Now tr' s (u_routingTable s) Htr' (tracks_refl true _)). }
  assert (∀ t, covers t (u_routingTable s) → covers t (u_routingTable (PruneStaleRoutes time_Now tr' s))) as Hcov
    by (intros; by apply PruneStaleRoutes_covers).
  revert Ht' Hcov. unfold PruneStaleRoutes. destruct (PruneEntries _ _ _ _) as [t' n]. simpl.
  intros Ht' Hcov. split; [by split|].
  intros [[Hcf Hn]|(t & Htt & Hf)]; [left|right].
  - split; [done|]. by apply Hcov.
  - exists t. split; [by apply Hcov|done].
Qed.

Lemma drain_step_keeps pruned base pc (s : U) pc' s' :
  drain_step pc s = Some (pc', s') → healthy base s → plain_copy pc →
  healthy base s' ∧ plain_copy pc' ∧
  (tracked pruned base s → tracked pruned base s' ∨ handed_stale pc' = true) ∧
  (handed_stale pc = true → handed_stale pc' = true).
Proof.
  intros Hstep Hs Hpc. destruct pc as [| | | |copy draining|copy|copy]; cbn [drain_step] in Hstep; simplify_eq.
  - split; [done|]. split; [by destruct (Syncing s')|]. split; [by left|done].
  - split; [done|]. split; [by destruct (IsDraining s')|]. split; [by left|done].
  - split; [by destruct Hs|]. split; [done|]. split; [by left|done].
  - split; [done|]. split; [done|]. split; [by left|done].
  - assert (plain_table (default (u_routingTable s) copy)) as Hplain
      by (destruct copy; [exact Hpc|apply (healthy_table _ _ Hs)]).
    pose proof (call_configurer_with_says base _ draining s Hs Hplain) as [Hs1 _].
    pose proof (call_configurer_tracked pruned base draining s Hs) as [_ Htk].
    destruct copy as [t|]; simpl in *; destruct (call_configurer_with _ draining s) as [err s1]; simplify_eq; simpl in *;
      (split; [done|]); (split; [by destruct err|]); (split; [|done]); intros _; [right; by destruct err|by left].
  - split; [done|]. split; [done|]. split; [by left|]. by destruct copy.
Qed.

(** The cached events of a sync that is over in a moment. *)
Lemma Sync_end_keeps pruned base ch (s : U) :
  healthy base s →
  healthy base (Sync_end time_Now ch s) ∧
  (tracked pruned base s ∨ ch = true → tracked pruned base (Sync_end time_Now ch s)).
Proof.
  intros Hs. destruct (u_syncing s) eqn:Hsync.
  - destruct (Sync_end_spec time_Now ch s Hsync) as (Ht & Hsy & Hc & _ & _ & _ & Hconf).
    pose proof (apply_events_plain time_Now _ _ (u_readings s) (healthy_table _ _ Hs) (healthy_cache _ _ Hs)) as Hpl.
    rewrite <-Ht in Hpl. destruct Hconf as [(H1 & H2 & -> & H3) | [H1 H2]].
    + split; [split; [done|rewrite H2; apply Hs|by rewrite Hc|done]|].
      intros [Htr1|?]; [|done]. by eapply tracked_unchanged.
    + destruct (call_configurer_steady mr tr h api Hmr Htr Htls Hown Hsr Hapi base _ (u_isDraining s) (u_conf s) Hpl
        (healthy_files _ _ Hs)) as (c' & Hcall & Hq' & text & Hf & Hroute).
      assert (u_conf (Sync_end time_Now ch s) = c') as Hc' by (etrans; [exact H2|exact (f_equal snd Hcall)]).
      split; [split; [done|by rewrite Hc'|by rewrite Hc|done]|]. intros _. right. eexists.
      split; [apply tracks_refl|]. exists text. by rewrite Hc'.
  - unfold Sync_end, applyCachedEvents. rewrite (healthy_idle _ _ Hs Hsync). simpl. destruct ch.
    + destruct (call_configurer_tracked pruned base (u_isDraining s) s Hs) as [[? ? ? ?] Htr1]. split; [by split|]. intros _. exact Htr1.
    + destruct Hs. split; [by split|]. intros [Htr1|?]; [exact Htr1|done].
Qed.

#[local] Arguments Sync_fetch : simpl never.
#[local] Arguments Sync_merge_step : simpl never.
#[local] Arguments Sync_replace : simpl never.
#[local] Arguments Sync_end : simpl never.

Lemma sync_step_keeps pruned base pc (s : U) pc' s' :
  sync_step time_Now pc s = Some (pc', s') → healthy base s → plain_pc pc →
  healthy base s' ∧ plain_pc pc' ∧ (tracked pruned base s ∨ pending pc → tracked pruned base s' ∨ pending pc').
Proof.
  intros Hstep Hs Hpc. pose proof Hs as [Ht Hq Hc Hi].
  destruct pc as [| |[|m ms] fresh ch|fresh ch|ch|]; simpl in Hstep; simplify_eq; try done.
  - pose proof (Sync_fetch_state 2 true None s) as Hst.
    pose proof (Sync_fetch_plain mr tr h api Hapi 2 true None s) as Hpl.
    assert (∀ a, healthy base (set_api a s)) as Hs1 by (intros a; by split).
    assert (∀ a, tracked pruned base s → tracked pruned base (set_api a s)) as Htr1 by (intros a Htr1; exact Htr1).
    specialize (Hs1 (u_api (Sync_fetch 2 true None s).2)). specialize (Htr1 (u_api (Sync_fetch 2 true None s).2)).
    rewrite <-Hst in Hs1, Htr1.
    clear Hst. destruct (Sync_fetch 2 true None s) as [o s1]. cbn [snd] in Hs1, Htr1.
    assert (s' = s1 ∧ plain_pc pc') as [-> Hpc'].
    { destruct o as [[ms [e|]]|]; simplify_eq; [done| |done]. split; [done|].
      split; [by eapply Hpl|]. apply plain_table_empty. }
    split; [done|]. split; [done|]. intros [Htr2|[]]. left. by apply Htr1.
  - split; [done|]. split; [by destruct Hpc|done].
  - rewrite Sync_merge_step_eq in Hstep. destruct Hpc as [[Hm Hms]%Forall_cons Hfresh].
    unfold plain_mapping, mapping_target in Hm.
    destruct (toRoutingTableEntry m) as [rk info]. cbv zeta in Hstep. injection Hstep as <- <-. simpl in Hm.
    assert (∀ t now, plain_table t → plain_table (UpsertBackendServerKey t rk info now).1) as Hup.
    { intros t now Htt rk' bk' Hbk. apply Upsert_present in Hbk as [Hbk|Hbk]; [by simplify_eq|by eapply Htt]. }
    split; [by apply set_table_healthy; [|apply Hup]|]. split; [by split; [|apply Hup]|].
    pose proof (run_op_same_backends (u_routingTable s) (OpUpsert rk info (time_Now (u_readings s)))) as Hflag.
    simpl in Hflag. simpl. destruct (UpsertBackendServerKey (u_routingTable s) rk info _) as [t []]; simpl in *; [by right|].
    intros [Htr1|Hp]; [left|by right]. eapply tracked_unchanged; [exact Htr1|done..|]. by apply Hflag.
  - unfold Sync_replace in Hstep. simpl in Hpc. case_decide; simplify_eq; [|done].
    split; [by split|]. split; [done|]. by right.
  - destruct (Sync_end_keeps pruned base ch s Hs) as [Hs' Htr1]. split; [done|]. split; [done|].
    intros Hp. left. by apply Htr1.
Qed.

(** ** Runs *)

Lemma step_invariant pruned base (st st' : state) l :
  plain_label pruned l → invariant pruned base st → step time_Now st l = Some st' → invariant pruned base st'.
Proof.
  intros Hl [Hs Hpl Hcp Htk] Hstep. destruct l as [| |i|i|e|tr']; simpl in Hstep, Hl.
  - simplify_eq. split; simpl; [done|apply Forall_app; by repeat constructor|done|].
    rewrite Exists_app. naive_solver.
  - simplify_eq. split; simpl; [done|done|apply Forall_app; by repeat constructor|].
    rewrite (Exists_app _ (drains st)). naive_solver.
  - destruct (syncs st !! i) as [pc|] eqn:Hi; [|done]. simpl in Hstep.
    destruct (sync_step time_Now pc (shared st)) as [[pc' s']|] eqn:Hst; [|done]. simpl in Hstep. simplify_eq.
    pose proof (Forall_lookup_1 _ _ _ _ Hpl Hi) as Hpc.
    destruct (sync_step_keeps pruned base pc _ pc' s' Hst Hs Hpc) as (Hs' & Hpc' & Hkeep).
    pose proof (Exists_insert_new pending _ _ _ pc' Hi) as Hnew.
    split; simpl; [done|by apply Forall_insert| |].
    + apply drains_after_Forall; [|done]. intros [| | | |[t|] d|copy|copy]; try done. intros _. apply (healthy_table _ _ Hs).
    + destruct Htk as [Htk|[Htk|Htk]]; [naive_solver| |right; right; by apply drains_after_stale].
      apply Exists_exists in Htk as (pc1 & [j Hj]%list_elem_of_lookup_1 & Hp).
      destruct (decide (i = j)) as [<-|Hne]; [simplify_eq; naive_solver|].
      right. left. apply Exists_exists. exists pc1. split; [|done]. eapply list_elem_of_lookup_2. by rewrite list_lookup_insert_ne.
  - destruct (drains st !! i) as [pc|] eqn:Hi; [|done]. simpl in Hstep.
    destruct (drain_step pc (shared st)) as [[pc' s']|] eqn:Hst; [|done]. simpl in Hstep. simplify_eq.
    destruct (drain_step_keeps pruned base pc _ pc' s' Hst Hs (Forall_lookup_1 _ _ _ _ Hcp Hi)) as (Hs' & Hpc' & Hkeep & Hst').
    split; simpl; [done|done|by apply Forall_insert|].
    destruct Htk as [Htk|[Htk|Htk]]; [|by right; left|].
    + destruct (Hkeep Htk) as [?|Hnew]; [by left|]. right. right. by eapply Exists_insert_new.
    + right. right. by eapply Exists_insert_keep.
  - simplify_eq. destruct (HandleEvent_keeps pruned base e _ Hs Hl). split; simpl; naive_solver.
  - simplify_eq. destruct Hl as [-> Htr']. destruct (PruneStaleRoutes_keeps base tr' _ Htr' Hs). split; simpl; naive_solver.
Qed.

Lemma run_invariant pruned base ls (st st' : state) :
  Forall (plain_label pruned) ls → invariant pruned base st → run time_Now st ls = Some st' →
  invariant pruned base st'.
Proof.
  intros Hls. revert st. induction Hls as [|l ls Hl _ IH]; intros st Hi Hr; simpl in Hr; [by simplify_eq|].
  destruct (step time_Now st l) as [st1|] eqn:Hst; [|done]. eapply IH; [|exact Hr]. by eapply step_invariant.
Qed.

(** ** What was pruned since HAProxy was last told

    [b] at the start; a prune sets it and a call of the configurer takes it
    back. *)
Definition pruned_after (b : bool) (st : state) (l : label) (st' : state) : bool :=
  match l with
  | DoPrune _ => true
  | _ => b && (length (u_configured (shared st' : U)) =? length (u_configured (shared st : U)))%nat
  end.
Fixpoint pruned_since (b : bool) (st : state) (ls : list label) : bool :=
  match ls with
  | [] => b
  | l :: ls' =>
      match step time_Now st l with
      | Some st' => pruned_since (pruned_after b st l st') st' ls'
      | None => b
      end
  end.

Lemma pruned_since_none ls (st : state) :
  Forall (λ l, match l with DoPrune _ => False | _ => True end) ls → pruned_since false st ls = false.
Proof.
  intros Hls. revert st. induction Hls as [|l ls Hl _ IH]; intros st; [done|]. simpl.
  destruct (step time_Now st l) as [st1|]; [|done].
  assert (pruned_after false st l st1 = false) as -> by by destruct l. apply IH.
Qed.
Lemma tracked_weaken pruned base (s : U) : tracked pruned base s → tracked true base s.
Proof.
  assert (∀ t, tracks pruned t (u_routingTable s) → tracks true t (u_routingTable s)) as Ht.
  { intros t Ht rk bk Hbk. destruct pruned; [by apply Ht|]. by apply (Ht rk bk). }
  intros [[? ?]|(t & ? & ?)]; [left|right]; eauto.
Qed.
Lemma invariant_weaken pruned base (st : state) : invariant pruned base st → invariant true base st.
Proof. intros [? ? ? [?|?]]; split; try done; [left; by eapply tracked_weaken|by right]. Qed.

(** A step that calls the configurer with the updater's own table. *)
Lemma Sync_end_called base ch (s : U) :
  healthy base s → u_syncing s = true → length (u_configured (Sync_end time_Now ch s)) ≠ length (u_configured s) →
  tracked false base (Sync_end time_Now ch s).
Proof.
  intros Hs Hsync Hne. destruct (Sync_end_spec time_Now ch s Hsync) as (Ht & _ & _ & _ & _ & _ & [(H1 & _)|[_ H2]]);
    [by rewrite H1 in Hne|].
  pose proof (apply_events_plain time_Now _ _ (u_readings s) (healthy_table _ _ Hs) (healthy_cache _ _ Hs)) as Hpl.
  rewrite <-Ht in Hpl.
  destruct (call_configurer_steady mr tr h api Hmr Htr Htls Hown Hsr Hapi base _ (u_isDraining s) (u_conf s) Hpl
    (healthy_files _ _ Hs)) as (c' & Hcall & _ & Hsays).
  assert (u_conf (Sync_end time_Now ch s) = c') as Hc' by (etrans; [exact H2|exact (f_equal snd Hcall)]).
  right. eexists. split; [apply tracks_refl|]. rewrite Hc'. exact Hsays.
Qed.
Lemma HandleEvent_called base e (s : U) :
  healthy base s → plain_event e →
  length (u_configured (HandleEvent time_Now e s).2) ≠ length (u_configured s) →
  tracked false base (HandleEvent time_Now e s).2.
Proof.
  intros Hs He. unfold HandleEvent. destruct (u_syncing s) eqn:Hsync; [done|].
  rewrite handleEvent_eq, Hsync.
  destruct (event_op e (time_Now (u_readings s))) as [op|] eqn:Hop; [|done]. cbv zeta. rewrite andb_true_r.
  pose proof (run_op_plain _ _ _ _ (healthy_table _ _ Hs) He Hop) as Ht.
  destruct ((run_op (u_routingTable s) op).2) eqn:Hflag; simpl; [|done].
  intros _. by apply call_configurer_tracked, set_table_healthy.
Qed.

Lemma step_called base (st st' : state) l :
  plain_label true l → healthy base (shared st : U) → step time_Now st l = Some st' →
  pruned_after true st l st' = false →
  tracked false base (shared st' : U) ∨ Exists (λ pc, handed_stale pc = true) (drains st').
Proof.
  intros Hl Hs Hstep Hb. destruct l as [| |i|i|e|tr']; simpl in Hstep, Hl, Hb; try apply Nat.eqb_neq in Hb; try done.
  - by simplify_eq.
  - by simplify_eq.
  - destruct (syncs st !! i) as [pc|] eqn:Hi; [|done]. simpl in Hstep.
    destruct (sync_step time_Now pc (shared st)) as [[pc' s']|] eqn:Hst; [|done]. simpl in Hstep. simplify_eq. simpl in *. left.
    destruct (in_body pc') eqn:Hpc'; [by rewrite (sync_step_calls _ _ _ _ _ Hpc' Hst) in Hb|].
    destruct pc as [| |[|m ms] fresh ch|fresh ch|ch|]; cbn [sync_step] in Hst; simplify_eq.
    + destruct (Sync_fetch 2 true None (shared st)) as [[[ms [e|]]|] s1]; by simplify_eq.
    + destruct (Sync_merge_step time_Now _ m) as [[s1 f1] c1]. by simplify_eq.
    + destruct (Sync_replace _) as [s1 c1]. by simplify_eq.
    + destruct (u_syncing (shared st)) eqn:Hsync; [by apply Sync_end_called|].
      revert Hb. unfold Sync_end, applyCachedEvents. rewrite (healthy_idle _ _ Hs Hsync). simpl. destruct ch; simpl; [|done].
      intros _. destruct (call_configurer_tracked false base (u_isDraining (shared st)) (shared st) Hs) as [_ Htk]. exact Htk.
  - destruct (drains st !! i) as [pc|] eqn:Hi; [|done]. simpl in Hstep.
    destruct (drain_step pc (shared st)) as [[pc' s']|] eqn:Hst; [|done]. simpl in Hstep. simplify_eq. simpl in *.
    destruct pc as [| | | |copy draining|copy|copy]; cbn [drain_step] in Hst; simplify_eq.
    destruct (call_configurer_tracked false base draining (shared st) Hs) as [_ Htk].
    destruct copy as [t|]; simpl in *; destruct (call_configurer_with _ draining (shared st)) as [err s1]; simplify_eq.
    + right. eapply Exists_insert_new; [exact Hi|]. by destruct err.
    + left. exact Htk.
  - simplify_eq. left. by apply HandleEvent_called.
Qed.

Lemma step_since b base (st st' : state) l :
  plain_label true l → invariant b base st → step time_Now st l = Some st' → invariant (pruned_after b st l st') base st'.
Proof.
  intros Hl Hi Hs.
  assert (plain_label b l → invariant b base st') as Hsame by (intros; by eapply step_invariant).
  assert (invariant true base st') as Htrue by (eapply step_invariant; [exact Hl|by eapply invariant_weaken|done]).
  destruct b; [|destruct l; simpl in *; by auto].
  destruct (pruned_after true st l st') eqn:Hb; [done|].
  destruct Htrue as [Hh Hpl Hcp _]. split; [done..|].
  destruct (step_called base st st' l Hl (inv_healthy _ _ _ Hi) Hs Hb) as [?|?]; auto.
Qed.
Lemma run_since b base ls (st st' : state) :
  Forall (plain_label true) ls → invariant b base st → run time_Now st ls = Some st' →
  invariant (pruned_since b st ls) base st'.
Proof.
  intros Hls. revert b st. induction Hls as [|l ls Hl _ IH]; intros b st Hi Hr; simpl in Hr |- *; [by simplify_eq|].
  destruct (step time_Now st l) as [st1|] eqn:Hst; [|done]. eapply IH; [|exact Hr]. by eapply step_since.
Qed.

Lemma tracked_in_force base (s : U) : tracked false base s → in_force mr tr h api base s.
Proof.
  intros [[Hc Hn]|(t & Ht & text & Hf)]; [left|right]; [|by exists t, text].
  split; [done|]. by symmetry.
Qed.

(** Every valid backend the table has is a server of its route in the file. *)
Lemma tracked_serves pruned base (s : U) rk bk ws :
  tracked pruned base s → is_Some (lookup_backend (u_routingTable s) rk bk) →
  valid_route rk = true → valid_backend bk = true → leaves_port base (rk_Port rk) →
  server_words (backendTlsCfg h) bk = Some ws →
  ∃ text servers, files (cs_os (u_conf s)) !! configFilePath h = Some text ∧
    route_to (read_config text) (rk_Port rk) (rk_SniHostname rk) = Some servers ∧ ws ∈ servers.
Proof.
  intros Htk Hbk Hrk Hvb Hport Hws.
  assert (∀ t, tracks pruned t (u_routingTable s) → is_Some (lookup_backend t rk bk)) as Hhas.
  { intros t Ht. destruct pruned; by apply Ht. }
  destruct Htk as [[_ Hn]|(t & Ht & text & Hf & Hroute)].
  { exfalso. apply Hhas in Hn as [d Hd]. unfold lookup_backend in Hd. simpl in Hd. by rewrite lookup_empty in Hd. }
  apply Hhas in Ht. exists text, (server_texts (backendTlsCfg h) (servers_of tr t rk)). split; [done|].
  assert (bk ∈ servers_of tr t rk) as Hin by by apply elem_of_servers_of.
  split; [|by apply list_elem_of_omap; exists bk].
  rewrite Hroute by done. unfold table_serving, route_conf. destruct rk as [port sni]. simpl.
  rewrite Hrk, bool_decide_true; [done|]. intros Hnil. rewrite Hnil in Hin. by apply elem_of_nil in Hin.
Qed.

End interleaving.

(** No sync holds a change it has yet to hand on, and no drain was given a
    table that a sync had replaced by the time of the call. *)
Definition settled {tags : ModificationTags} {api : RoutingAPI} {rc : RouterConfigurer} (st : state) : Prop :=
  Forall (λ pc, ¬ pending pc) (syncs st) ∧ Forall (λ pc, handed_stale pc = false) (drains st).
