(* ===== verification/DrainConc.v ===== *)
(** [Drain] calls the configurer without the updater's lock: the call itself
    cut in two, so that the steps of other goroutines get in between the
    reading of the table and the writing of the files. *)
From S2P Require Import Prelude GoStrings RoutingTable HAProxyConfig Config HAProxyReader.
From S2P Require Import Marshaller MarshallerCorrect OS FileUtils Configurer Updater System Concurrency Interleaving.
#[local] Open Scope Z_scope.

Section drain_conc.
Context {tags : ModificationTags} {api : RoutingAPI} {rc : RouterConfigurer}.
Context (time_Now : nat → Z).

(** * A drain that writes *)

(** The drain that holds the configurer's lock: which one, its copy, and the
    table and the flag its call works with. *)
Record writer := mkWriter {
  wr_drain : nat;
  wr_copy : option RoutingTable;
  wr_table : RoutingTable;
  wr_draining : bool
}.
Record cut_state := mkCut { cut_st : state; cut_writer : option writer }.

Definition calling (st : state) (i : nat) : option (option RoutingTable * bool) :=
  match drains st !! i with Some (DrainCalling copy draining) => Some (copy, draining) | _ => None end.
Definition asks (st : state) (l : label) : option (nat * (option RoutingTable * bool)) :=
  match l with StepDrain i => pair i <$> calling st i | _ => None end.
Definition returned_pc (err : option error) (copy : option RoutingTable) : drain_pc :=
  match err with Some _ => DrainDone copy | None => DrainSleeping copy end.

(** The writer's files and reload, then its return. *)
Definition finish (w : writer) (st : state) : state :=
  let '(err, s) := call_configurer_with (wr_table w) (wr_draining w) (shared st) in
  mkState s (syncs st) (<[wr_drain w := returned_pc err (wr_copy w)]> (drains st)).

(** No call of the configurer was made. *)
Definition uncalled (s s' : UState) : bool := (length (u_configured s') =? length (u_configured s))%nat.

(** A drain that calls takes the configurer's lock and reads the table, or
    finishes if it has the lock; a step that calls the configurer waits for the
    lock; every other step goes on. *)
Definition cut_step (c : cut_state) (l : label) : option cut_state :=
  let st := cut_st c in
  match asks st l with
  | Some (i, (copy, draining)) =>
      match cut_writer c with
      | None => Some (mkCut st (Some (mkWriter i copy (default (u_routingTable (shared st)) copy) draining)))
      | Some w => if (wr_drain w =? i)%nat then Some (mkCut (finish w st) None) else None
      end
  | None =>
      st' ← step time_Now st l;
      if bool_decide (cut_writer c = None) || uncalled (shared st) (shared st')
      then Some (mkCut st' (cut_writer c)) else None
  end.
Fixpoint cut_run (c : cut_state) (ls : list label) : option cut_state :=
  match ls with
  | [] => Some c
  | l :: ls' => c' ← cut_step c l; cut_run c' ls'
  end.

(** The same with the call in one step, made when the table is read. *)
Definition whole (c : cut_state) : state :=
  match cut_writer c with None => cut_st c | Some w => finish w (cut_st c) end.
Definition whole_label (c : cut_state) (l : label) : list label :=
  match l, cut_writer c with
  | StepDrain i, Some w => if (wr_drain w =? i)%nat then [] else [l]
  | _, _ => [l]
  end.
Fixpoint whole_labels (c : cut_state) (ls : list label) : list label :=
  match ls with
  | [] => []
  | l :: ls' => whole_label c l ++ match cut_step c l with Some c' => whole_labels c' ls' | None => [] end
  end.

(** * Steps that do not call the configurer do not look at it *)

Definition set_conf (c : conf_state) (cs : list (RoutingTable * bool)) (s : UState) : UState :=
  mkUState (u_routingTable s) (u_syncing s) (u_cachedEvents s) (u_isDraining s) (u_defaultTTL s) (u_api s) c
    (u_readings s) cs.
Definition more_calls (s s' : UState) : Prop := (length (u_configured s) ≤ length (u_configured s'))%nat.

Lemma more_calls_invariant s0 : conf_invariant (more_calls s0).
Proof.
  split; unfold more_calls; [by intros s s' _ -> _|].
  intros t d s Hs. rewrite call_configurer_with_state. simpl. lia.
Qed.
Lemma call_configurer_more s : length (u_configured (call_configurer s).2) = S (length (u_configured s)).
Proof. by rewrite call_configurer_state. Qed.

Definition framed (f : UState → UState) : Prop :=
  ∀ c cs s, length (u_configured (f s)) = length (u_configured s) → f (set_conf c cs s) = set_conf c cs (f s).

Lemma handleEvent_framed e c cs s :
  length (u_configured (handleEvent time_Now e s).2) = length (u_configured s) →
  (∀ ch err, (handleEvent time_Now e s).1 = (ch, err) →
    handleEvent time_Now e (set_conf c cs s) = ((ch, err), set_conf c cs (handleEvent time_Now e s).2)).
Proof.
  rewrite !handleEvent_eq. cbn [u_readings u_routingTable u_syncing set_conf].
  destruct (event_op _ _) as [op|]; [|by intros _ ch err [= <- <-]]. cbv zeta.
  destruct (_ && _); [|by intros _ ch err [= <- <-]].
  cbn [snd]. rewrite call_configurer_more. simpl. lia.
Qed.
Lemma HandleEvent_framed e : framed (λ s, (HandleEvent time_Now e s).2).
Proof.
  intros c cs s. unfold HandleEvent. simpl u_syncing. destruct (u_syncing s); [done|].
  pose proof (handleEvent_framed e c cs s) as Hf. destruct (handleEvent time_Now e s) as [[ch err] s'].
  intros Hl. by rewrite (Hf Hl ch err eq_refl).
Qed.
Lemma applyCachedEvents_framed c cs s :
  length (u_configured (applyCachedEvents time_Now s).2) = length (u_configured s) →
  applyCachedEvents time_Now (set_conf c cs s) =
    ((applyCachedEvents time_Now s).1, set_conf c cs (applyCachedEvents time_Now s).2).
Proof.
  unfold applyCachedEvents. generalize false. simpl u_cachedEvents. generalize (u_cachedEvents s). intros es. revert s.
  induction es as [|e es IH]; intros s b Hl; [done|]. cbn [foldl applyCachedEvents_step] in *.
  pose proof (handleEvent_framed e c cs s) as Hf.
  pose proof (handleEvent_conf time_Now _ (conf_own_invariant _ (more_calls_invariant s)) e s (Nat.le_refl _)) as Hle.
  destruct (handleEvent time_Now e s) as [[ch err] s1]. unfold more_calls in Hle. cbn [fst snd] in *.
  assert (length (u_configured s1) ≤ length (u_configured (foldl (applyCachedEvents_step time_Now)
    (if ch then true else b, s1) es).2))%nat as Hle'.
  { clear. generalize (if ch then true else b). clear b ch. revert s1.
    induction es as [|e es IH]; intros s b; [done|]. cbn [foldl applyCachedEvents_step].
    pose proof (handleEvent_conf time_Now _ (conf_own_invariant _ (more_calls_invariant s)) e s (Nat.le_refl _)) as Hle.
    destruct (handleEvent time_Now e s) as [[ch err] s1]. unfold more_calls in Hle. cbn [snd] in Hle.
    etrans; [exact Hle|apply IH]. }
  rewrite (Hf ltac:(lia) ch err eq_refl). apply IH. lia.
Qed.
Lemma Sync_end_framed ch : framed (Sync_end time_Now ch).
Proof.
  intros c cs s Hl. unfold Sync_end in *.
  pose proof (applyCachedEvents_framed c cs s) as Hf.
  pose proof (applyCachedEvents_conf time_Now _ (conf_own_invariant _ (more_calls_invariant s)) s (Nat.le_refl _)) as Hle.
  destruct (applyCachedEvents time_Now s) as [b s1]. unfold more_calls in Hle. cbn [fst snd] in *.
  destruct (if b then true else ch) eqn:Hb.
  - cbn [set_sync u_configured] in Hl. rewrite call_configurer_more in Hl. lia.
  - rewrite (Hf Hl), Hb. done.
Qed.
Lemma PruneStaleRoutes_framed tr : framed (PruneStaleRoutes time_Now tr).
Proof.
  intros c cs s _. unfold PruneStaleRoutes. cbn [set_conf u_routingTable u_defaultTTL u_readings].
  by destruct (PruneEntries _ _ _ _).
Qed.
Lemma Sync_fetch_framed n cached err c cs s :
  Sync_fetch n cached err (set_conf c cs s) =
    ((Sync_fetch n cached err s).1, set_conf c cs (Sync_fetch n cached err s).2).
Proof.
  revert cached err s. induction n as [|n IH]; intros cached err s; [done|]. simpl.
  destruct (FetchToken _ _) as [[token|e] a]; [|done].
  destruct (TcpRouteMappings _) as [[ms|e] a']; [done|].
  case_bool_decide; [|done]. change (set_api a' (set_conf c cs s)) with (set_conf c cs (set_api a' s)).
  by rewrite IH.
Qed.
#[local] Arguments Sync_fetch : simpl never.
#[local] Arguments Sync_merge_step : simpl never.
#[local] Arguments Sync_replace : simpl never.
#[local] Arguments Sync_end : simpl never.

Lemma sync_step_framed pc s pc' s' c cs :
  sync_step time_Now pc s = Some (pc', s') → length (u_configured s') = length (u_configured s) →
  sync_step time_Now pc (set_conf c cs s) = Some (pc', set_conf c cs s').
Proof.
  destruct pc as [| |[|m ms] fresh ch|fresh ch|ch|]; intros Hs Hl; cbn [sync_step] in *; simplify_eq; try done.
  - rewrite Sync_fetch_framed. destruct (Sync_fetch 2 true None s) as [[[ms [e|]]|] s1]; by simplify_eq/=.
  - rewrite Sync_merge_step_eq in *. destruct (toRoutingTableEntry m) as [rk info]. cbv zeta in *.
    injection Hs as <- <-. done.
  - unfold Sync_replace in *. cbn [set_conf u_routingTable]. case_decide; by simplify_eq/=.
  - by rewrite Sync_end_framed.
Qed.

Lemma call_configurer_with_set_conf t d s :
  call_configurer_with t d s =
    let '(err, c) := router_Configure t d (u_conf s) in (err, set_conf c ((t, d) :: u_configured s) s).
Proof. unfold call_configurer_with. by destruct (router_Configure t d (u_conf s)). Qed.

Lemma step_framed st l st' c cs :
  (∀ i, l = StepDrain i → calling st i = None) →
  step time_Now st l = Some st' → length (u_configured (shared st')) = length (u_configured (shared st)) →
  step time_Now (mkState (set_conf c cs (shared st)) (syncs st) (drains st)) l =
    Some (mkState (set_conf c cs (shared st')) (syncs st') (drains st')).
Proof.
  intros Hc Hs Hl. destruct l as [| |i|i|e|tr]; cbn [step syncs drains shared] in *; simplify_eq; simpl in Hl; simpl.
  - done.
  - done.
  - destruct (syncs st !! i) as [pc|]; [|done]. simpl in *.
    destruct (sync_step time_Now pc (shared st)) as [[pc' s']|] eqn:Hst; [|done]. simpl in Hs. simplify_eq. simpl in *.
    rewrite (sync_step_framed _ _ _ _ c cs Hst Hl). done.
  - specialize (Hc i eq_refl). unfold calling in Hc. destruct (drains st !! i) as [pc|]; [|done]. simpl in *.
    by destruct pc; simpl in *; simplify_eq; simpl.
  - by rewrite (HandleEvent_framed e).
  - by rewrite PruneStaleRoutes_framed.
Qed.
Lemma step_conf st l st' :
  (∀ i, l = StepDrain i → calling st i = None) →
  step time_Now st l = Some st' → length (u_configured (shared st')) = length (u_configured (shared st)) →
  u_conf (shared st') = u_conf (shared st) ∧ u_configured (shared st') = u_configured (shared st).
Proof.
  intros Hc Hs Hl. pose proof (step_framed _ _ _ (u_conf (shared st)) (u_configured (shared st)) Hc Hs Hl) as Hf.
  assert (mkState (set_conf (u_conf (shared st)) (u_configured (shared st)) (shared st)) (syncs st) (drains st) = st) as Heq
    by by destruct st as [[] ? ?].
  rewrite Heq, Hs in Hf. destruct st' as [s' pcs' ds']. injection Hf as Hf. simpl. by rewrite Hf.
Qed.

(** A drain that is done with the table is left alone by the others. *)
Lemma step_insert st l st' i pc :
  (∀ t, detach t pc = pc) → l ≠ StepDrain i → is_Some (drains st !! i) → step time_Now st l = Some st' →
  step time_Now (mkState (shared st) (syncs st) (<[i := pc]> (drains st))) l =
    Some (mkState (shared st') (syncs st') (<[i := pc]> (drains st'))).
Proof.
  intros Hpc Hne Hi Hs. destruct l as [| |j|j|e|tr]; cbn [step syncs drains shared] in *; simplify_eq; simpl.
  - done.
  - rewrite insert_app_l; [done|]. by apply lookup_lt_is_Some.
  - destruct (syncs st !! j) as [pc1|]; [|done]. simpl in *.
    destruct (sync_step time_Now pc1 (shared st)) as [[pc' s']|]; [|done]. simpl in *. simplify_eq. simpl.
    do 2 f_equal. unfold drains_after. destruct (replaces _ _); [|done]. by rewrite list_fmap_insert, Hpc.
  - assert (i ≠ j) as Hij by congruence. rewrite list_lookup_insert_ne by done.
    destruct (drains st !! j) as [pc1|]; [|done]. simpl in *.
    destruct (drain_step pc1 (shared st)) as [[pc' s']|]; [|done]. simpl in *. simplify_eq. simpl.
    by rewrite list_insert_insert_ne.
  - done.
  - done.
Qed.

Lemma step_finish w st l st' :
  is_Some (drains st !! wr_drain w) → l ≠ StepDrain (wr_drain w) → (∀ i, l = StepDrain i → calling st i = None) →
  step time_Now st l = Some st' → length (u_configured (shared st')) = length (u_configured (shared st)) →
  step time_Now (finish w st) l = Some (finish w st').
Proof.
  intros Hi Hne Hc Hs Hl. destruct (step_conf _ _ _ Hc Hs Hl) as [Hconf Hcs].
  unfold finish. rewrite !call_configurer_with_set_conf, Hconf, Hcs.
  destruct (router_Configure (wr_table w) (wr_draining w) (u_conf (shared st))) as [err c].
  apply (step_framed _ _ _ c ((wr_table w, wr_draining w) :: u_configured (shared st)) Hc) in Hs; [|done].
  apply (step_insert _ _ _ (wr_drain w) (returned_pc err (wr_copy w))) in Hs; [exact Hs| |done|done].
  intros t. by destruct err.
Qed.

(** The drain that has the lock stays where it is. *)
Definition writer_calls (c : cut_state) : Prop :=
  match cut_writer c with None => True | Some w => is_Some (calling (cut_st c) (wr_drain w)) end.

Lemma step_calling st l st' i :
  l ≠ StepDrain i → is_Some (calling st i) → step time_Now st l = Some st' → is_Some (calling st' i).
Proof.
  unfold calling. intros Hne [x Hx] Hs. destruct (drains st !! i) as [pc|] eqn:Hi; [|done].
  destruct l as [| |j|j|e|tr]; cbn [step] in Hs; simplify_eq; simpl; try (by rewrite Hi; eauto).
  - rewrite (lookup_app_l_Some _ _ _ _ Hi). eauto.
  - destruct (syncs st !! j) as [pc1|]; [|done]. simpl in Hs.
    destruct (sync_step time_Now pc1 (shared st)) as [[pc' s']|]; [|done]. simpl in Hs. simplify_eq. simpl.
    unfold drains_after. destruct (replaces _ _); [|by rewrite Hi; eauto].
    rewrite list_lookup_fmap, Hi. by destruct pc as [| | | |[] ?| |]; simpl; eauto.
  - destruct (drains st !! j) as [pc1|]; [|done]. simpl in Hs.
    destruct (drain_step pc1 (shared st)) as [[pc' s']|]; [|done]. simpl in Hs. simplify_eq. simpl.
    rewrite list_lookup_insert_ne by congruence. rewrite Hi. eauto.
Qed.

(** A step of the cut machine is at most one step of the whole one. *)
Lemma cut_step_whole c l c' :
  writer_calls c → cut_step c l = Some c' →
  writer_calls c' ∧ run time_Now (whole c) (whole_label c l) = Some (whole c').
Proof.
  intros Hw Hs. unfold cut_step in Hs. destruct c as [st wr]. cbn [cut_st cut_writer] in Hs.
  destruct (asks st l) as [[i [copy draining]]|] eqn:Hcall.
  - destruct l as [| |j|j|e|tr]; try done. simpl in Hcall.
    destruct (calling st j) as [cd|] eqn:Hj; [|done]. simpl in Hcall. simplify_eq. rename Hj into Hcall. destruct wr as [w|].
    + destruct (wr_drain w =? i)%nat eqn:Hi; [|done]. injection Hs as <-. split; [done|].
      unfold whole_label. cbn [cut_writer]. by rewrite Hi.
    + injection Hs as <-. split; [unfold writer_calls; cbn [cut_st cut_writer wr_drain]; by rewrite Hcall|].
      unfold whole, whole_label. cbn [cut_st cut_writer run]. unfold finish. cbn [wr_table wr_draining wr_drain wr_copy].
      unfold calling in Hcall. destruct (drains st !! i) as [pc|] eqn:Hi; [|done]. destruct pc; simplify_eq.
      cbn [step]. rewrite Hi. cbn [mbind option_bind drain_step].
      by destruct (call_configurer_with _ draining (shared st)) as [err s1].
  - assert (∀ i, l = StepDrain i → calling st i = None) as Hc by (intros i ->; simpl in Hcall; by destruct (calling st i)).
    apply bind_Some in Hs as (st' & Hst & Hs').
    destruct (bool_decide (wr = None) || uncalled (shared st) (shared st')) eqn:Hb; [|done]. injection Hs' as <-.
    destruct wr as [w|].
    + apply orb_true_iff in Hb as [Hb%bool_decide_eq_true|Hb%Nat.eqb_eq]; [done|].
      unfold writer_calls in *. cbn [cut_st cut_writer] in *.
      assert (l ≠ StepDrain (wr_drain w)) as Hne by (intros ->; rewrite (Hc _ eq_refl) in Hw; by destruct Hw).
      split; [by eapply step_calling|].
      assert (whole_label (mkCut st (Some w)) l = [l]) as ->.
      { unfold whole_label. cbn [cut_writer]. destruct l; try done. by rewrite (proj2 (Nat.eqb_neq _ _)) by congruence. }
      unfold whole. cbn [cut_st cut_writer run]. rewrite (step_finish w st l st'); try done.
      unfold calling in Hw. destruct (drains st !! wr_drain w); [done|by destruct Hw].
    + split; [done|]. unfold whole, whole_label. cbn [cut_st cut_writer].
      assert (run time_Now st [l] = Some st') as Hrun by (simpl; by rewrite Hst). by destruct l.
Qed.

Lemma cut_run_whole c ls c' :
  writer_calls c → cut_run c ls = Some c' →
  writer_calls c' ∧ run time_Now (whole c) (whole_labels c ls) = Some (whole c').
Proof.
  revert c. induction ls as [|l ls IH]; intros c Hw Hr; [by injection Hr as <-|]. cbn [cut_run whole_labels] in *.
  destruct (cut_step c l) as [c1|] eqn:Hs; [|done]. cbn [mbind option_bind] in Hr.
  destruct (cut_step_whole _ _ _ Hw Hs) as [Hw1 Hr1]. destruct (IH _ Hw1 Hr) as [Hw' Hr'].
  split; [done|]. by rewrite run_app, Hr1.
Qed.

(** What is left out of the whole run are the steps that finish a call. *)
Lemma whole_label_cases c l : whole_label c l = [l] ∨ (whole_label c l = [] ∧ ∃ i, l = StepDrain i).
Proof. unfold whole_label. destruct l as [| |i|i|e|tr], (cut_writer c) as [w|]; auto. destruct (_ =? _)%nat; eauto. Qed.
Lemma whole_labels_sublist c ls : sublist (whole_labels c ls) ls.
Proof.
  revert c. induction ls as [|l ls IH]; intros c; [done|]. cbn [whole_labels].
  change (l :: ls) with ([l] ++ ls). apply sublist_app.
  - destruct (whole_label_cases c l) as [-> |[-> _]]; [done|apply sublist_nil_l].
  - destruct (cut_step c l); [apply IH|apply sublist_nil_l].
Qed.
Lemma whole_labels_events c ls c' : cut_run c ls = Some c' → events_of (whole_labels c ls) = events_of ls.
Proof.
  revert c. induction ls as [|l ls IH]; intros c Hr; [done|]. cbn [cut_run whole_labels] in *.
  destruct (cut_step c l) as [c1|]; [|done]. unfold events_of in *. rewrite omap_app, (IH _ Hr).
  change (omap ?f (l :: ls)) with (omap f ([l] ++ ls)). rewrite omap_app. f_equal.
  by destruct (whole_label_cases c l) as [-> |[-> [i ->]]].
Qed.

(** * Property *)

(** C7. [Drain] calls the configurer without the updater's lock, and still it is
    as if it did so in one step: whatever the other goroutines do while a drain
    reads the table, writes the files and reloads, the run is one of the
    machine where the call is made whole at the moment the table is read, with
    the same events in the same order; a drain that has the configurer's lock
    can always finish, and when none has it the two states are the same. *)
Theorem drain_linearizes (st : state) (ls : list label) (c : cut_state) :
  cut_run (mkCut st None) ls = Some c →
  let whole_ls := whole_labels (mkCut st None) ls in
  run time_Now st whole_ls = Some (whole c) ∧ sublist whole_ls ls ∧ events_of whole_ls = events_of ls ∧
  match cut_writer c with
  | None => whole c = cut_st c
  | Some w => cut_step c (StepDrain (wr_drain w)) = Some (mkCut (whole c) None)
  end.
Proof.
  intros Hr. cbv zeta. destruct (cut_run_whole (mkCut st None) _ _ I Hr) as [Hw Hrun].
  split; [exact Hrun|]. split; [apply whole_labels_sublist|]. split; [by eapply whole_labels_events|].
  unfold writer_calls, whole, cut_step in *. destruct (cut_writer c) as [w|]; [|done].
  simpl. destruct Hw as [[copy draining] ->]. simpl. by rewrite Nat.eqb_refl.
Qed.

End drain_conc.

(** * On HAProxy's configurer *)

Section haproxy.
Context {tags : ModificationTags}.
Context (mr : MarshalRange) (tr : TableRange) (h : Configurer) (api : RoutingAPI) (time_Now : nat → Z).
Context (Hmr : IsMarshalRange mr) (Htr : IsTableRange tr) (Htls : plain_tls (backendTlsCfg h)).
Context (Hown : baseConfigFilePath h ∉ own_files h) (Hsr : script_succeeds h).
Context (Hapi : ∀ a ms a', TcpRouteMappings a = (Ok ms, a') → Forall plain_mapping ms).
#[local] Abbreviation st := (@state tags api (haproxy_configurer mr tr h)).
#[local] Abbreviation cut := (@cut_state tags api (haproxy_configurer mr tr h)).

(** The invariant of the interleaved updater holds with the calls of drains cut
    in two, whenever no drain is writing. *)
Theorem cut_in_force (base : string) (start : st) (ls : list label) (c : cut) :
  Forall (plain_label false) ls → invariant mr tr h api false base start →
  cut_run time_Now (mkCut start None) ls = Some c → cut_writer c = None → settled (cut_st c) →
  in_force mr tr h api base (shared (cut_st c)).
Proof.
  intros Hls Hi Hr Hw [Hs Hd]. apply tracked_in_force.
  destruct (cut_run_whole time_Now (mkCut start None) ls c I Hr) as [_ Hrun].
  assert (whole c = cut_st c) as Hc by (unfold whole; by rewrite Hw). rewrite Hc in Hrun.
  assert (Forall (plain_label false) (whole_labels time_Now (mkCut start None) ls)) as Hls'.
  { rewrite Forall_forall in Hls |- *. intros l Hl. apply Hls. eapply elem_of_sublist; [exact Hl|apply whole_labels_sublist]. }
  destruct (run_invariant mr tr h api time_Now Hmr Htr Htls Hown Hsr Hapi false base _ _ _ Hls' Hi Hrun)
    as [_ _ _ [Ht|[Hp|Hst]]]; [done|exfalso..].
  - by apply (Forall_not_Exists _ _ Hs).
  - apply Exists_exists in Hst as (pc & Hpc & Hp). rewrite Forall_forall in Hd. by rewrite (Hd pc Hpc) in Hp.
Qed.

End haproxy.

(** * Concrete runs *)
Module Sample.
Import RoutingTable.Sample Updater.Sample.

(** While the drain writes, a sync goes through its fetch and its merge; its
    last step, which calls the configurer, has to wait. *)
Definition busy_drain : list label :=
  [SpawnDrain; StepDrain 0; StepDrain 0; StepDrain 0; StepDrain 0; StepDrain 0; SpawnSync]
  ++ replicate 5 (StepSync 0) ++ [StepDrain 0; StepSync 0].
Definition busy_start : state := mkState (start [Ok [mapping1]] []) [] [].
Definition busy_end : cut_state := default (mkCut busy_start None) (cut_run sample_now (mkCut busy_start None) busy_drain).
Lemma busy_run : cut_run sample_now (mkCut busy_start None) busy_drain = Some busy_end.
Proof.
  assert ((λ c, length (syncs (cut_st c))) <$> cut_run sample_now (mkCut busy_start None) busy_drain = Some 1%nat) as Hs
    by (vm_compute; reflexivity).
  unfold busy_end. destruct (cut_run _ _ _); [reflexivity|discriminate Hs].
Qed.
Lemma drain_linearizes_witness :
  run sample_now busy_start
    ([SpawnDrain; StepDrain 0; StepDrain 0; StepDrain 0; StepDrain 0; StepDrain 0; SpawnSync] ++ replicate 6 (StepSync 0)) =
  Some (whole busy_end).
Proof.
  destruct (drain_linearizes sample_now busy_start busy_drain busy_end busy_run) as [Hr _].
  assert (whole_labels sample_now (mkCut busy_start None) busy_drain =
    [SpawnDrain; StepDrain 0; StepDrain 0; StepDrain 0; StepDrain 0; StepDrain 0; SpawnSync] ++ replicate 6 (StepSync 0)) as Heq
    by (vm_compute; reflexivity).
  rewrite <-Heq. exact Hr.
Defined.

(** The sync cannot end while the drain writes; in the end the drain has told
    HAProxy the empty table and the sync the table it fetched. *)
Example sync_waits_for_drain :
  cut_run sample_now (mkCut busy_start None) (take 12 busy_drain ++ [StepSync 0]) = None ∧
  (λ call, (Size call.1, call.2)) <$> u_configured (shared (cut_st busy_end)) = [(1%nat, true); (0%nat, true)].
Proof. split; vm_compute; reflexivity. Qed.

End Sample.
