(* ===== verification/Locks.v ===== *)
(** The mutex of [routing_table/updater.go] as a state: every region between
    [u.lock.Lock()] and [u.lock.Unlock()] in three steps, what the goroutines
    do outside of them, the wait for the configurer's lock and for the routing
    API.  Who can block whom, and who touches the maps of the table at the same
    time. *)
From stdpp Require Import functions.
From S2P Require Import Prelude GoStrings RoutingTable Updater Concurrency DrainConc.
#[local] Open Scope Z_scope.

(** * Goroutines *)

(** A goroutine that runs [Sync], one that runs [Drain], and a caller of
    [HandleEvent] or [PruneStaleRoutes]. *)
Inductive who := ASync (i : nat) | ADrain (i : nat) | ACall (i : nat).
#[export] Instance who_eq_dec : EqDecision who.
Proof. solve_decision. Defined.

(** Where a goroutine is with the region it enters next: before [Lock], in the
    region, before [Unlock]. *)
Inductive stage := Outside | Inside | Leaving.
#[export] Instance stage_eq_dec : EqDecision stage.
Proof. solve_decision. Defined.

Section locks.
Context {tags : ModificationTags} {api : RoutingAPI} {rc : RouterConfigurer}.
Context (time_Now : nat → Z).

Inductive caller :=
  | CallsHandleEvent (e : TcpEvent)
  | CallsPrune (tr : TableRange)
  | HasReturned.

(** The updater with its goroutines and the configurer's lock, the callers, the
    updater's mutex, which knows no owner, and where each goroutine is. *)
Record locked_state := mkLocked {
  lk_cut : cut_state;
  lk_callers : list caller;
  lk_locked : bool;
  lk_stage : who → stage
}.
#[local] Abbreviation lk_st s := (cut_st (lk_cut s)).
#[local] Abbreviation lk_shared s := (shared (cut_st (lk_cut s))).

Definition locked_start (u : UState) : locked_state :=
  mkLocked (mkCut (mkState u [] []) None) [] false (λ _, Outside).

(** What a goroutine does next, if it has not returned. *)
Definition next_label (s : locked_state) (w : who) : option label :=
  match w with
  | ASync i => match syncs (lk_st s) !! i with Some SyncDone | None => None | Some _ => Some (StepSync i) end
  | ADrain i => match drains (lk_st s) !! i with Some (DrainDone _) | None => None | Some _ => Some (StepDrain i) end
  | ACall i =>
      match lk_callers s !! i with
      | Some (CallsHandleEvent e) => Some (DoEvent e)
      | Some (CallsPrune tr) => Some (DoPrune tr)
      | _ => None
      end
  end.

(** Whether it does so between [Lock] and [Unlock]. *)
Definition sync_locks (pc : sync_pc) : bool :=
  match pc with SyncStart | SyncEnding _ => true | _ => false end.
Definition drain_locks (pc : drain_pc) : bool :=
  match pc with DrainWaiting | DrainChecking | DrainSetting | DrainConfiguring => true | _ => false end.
Definition caller_locks (c : caller) : bool :=
  match c with CallsHandleEvent _ | CallsPrune _ => true | HasReturned => false end.
Definition takes_lock (s : locked_state) (w : who) : bool :=
  match w with
  | ASync i => default false (sync_locks <$> syncs (lk_st s) !! i)
  | ADrain i => default false (drain_locks <$> drains (lk_st s) !! i)
  | ACall i => default false (caller_locks <$> lk_callers s !! i)
  end.

(** A sync whose requests are not answered stays where it is. *)
Definition is_fetching (pc : sync_pc) : bool := match pc with SyncFetching => true | _ => false end.
Definition waits_for_api (s : locked_state) (w : who) : bool :=
  match w with ASync i => default false (is_fetching <$> syncs (lk_st s) !! i) | _ => false end.

Definition set_stage (w : who) (g : stage) (s : locked_state) : locked_state :=
  mkLocked (lk_cut s) (lk_callers s) (lk_locked s) (<[w := g]> (lk_stage s)).
Definition set_locked (b : bool) (s : locked_state) : locked_state :=
  mkLocked (lk_cut s) (lk_callers s) b (lk_stage s).

(** The goroutine's own work.  A call of the configurer waits for the
    configurer's lock, in [cut_step]. *)
Definition act (s : locked_state) (w : who) : option locked_state :=
  l ← next_label s w;
  c ← cut_step time_Now (lk_cut s) l;
  Some (mkLocked c (match w with ACall i => <[i := HasReturned]> (lk_callers s) | _ => lk_callers s end)
    (lk_locked s) (lk_stage s)).

(** [Lock], which waits for the mutex to be free; [Unlock]. *)
Definition Lock (s : locked_state) (w : who) : option locked_state :=
  if lk_locked s then None else Some (set_stage w Inside (set_locked true s)).
Definition Unlock (s : locked_state) (w : who) : option locked_state :=
  Some (set_stage w Outside (set_locked false s)).

(** One step of a goroutine. *)
Definition goes (s : locked_state) (w : who) : option locked_state :=
  match lk_stage s w with
  | Outside => if takes_lock s w then Lock s w else if waits_for_api s w then None else act s w
  | Inside => set_stage w Leaving <$> act s w
  | Leaving => Unlock s w
  end.

(** A step of a goroutine, the answers of the routing API to a sync, and the
    start of a goroutine or of a call. *)
Inductive llabel :=
  | Goes (w : who)
  | Answers (i : nat)
  | StartsSync
  | StartsDrain
  | StartsCall (c : caller).

Definition spawns (s : locked_state) (l : label) : option locked_state :=
  c ← cut_step time_Now (lk_cut s) l; Some (mkLocked c (lk_callers s) (lk_locked s) (lk_stage s)).
Definition lstep (s : locked_state) (l : llabel) : option locked_state :=
  match l with
  | Goes w => goes s w
  | Answers i => if waits_for_api s (ASync i) && bool_decide (lk_stage s (ASync i) = Outside) then act s (ASync i) else None
  | StartsSync => spawns s SpawnSync
  | StartsDrain => spawns s SpawnDrain
  | StartsCall c => Some (mkLocked (lk_cut s) (lk_callers s ++ [c]) (lk_locked s) (lk_stage s))
  end.
Fixpoint lrun (s : locked_state) (ls : list llabel) : option locked_state :=
  match ls with
  | [] => Some s
  | l :: ls' => s' ← lstep s l; lrun s' ls'
  end.

(** The goroutine that holds the configurer's lock without the mutex. *)
Definition writes (s : locked_state) (w : who) : Prop :=
  ∃ wr, cut_writer (lk_cut s) = Some wr ∧ w = ADrain (wr_drain wr).

(** * Facts *)

(** ** What a step leaves of the other goroutines *)

Lemma act_inv s w s' :
  act s w = Some s' →
  ∃ l, next_label s w = Some l ∧ cut_step time_Now (lk_cut s) l = Some (lk_cut s') ∧
    lk_locked s' = lk_locked s ∧ lk_stage s' = lk_stage s ∧
    lk_callers s' = match w with ACall i => <[i := HasReturned]> (lk_callers s) | _ => lk_callers s end.
Proof.
  unfold act. destruct (next_label s w) as [l|]; [|done]. cbn [mbind option_bind].
  destruct (cut_step time_Now (lk_cut s) l) as [c|] eqn:Hc; [|done]. intros [= <-]. by exists l.
Qed.

Lemma cut_step_inv c l c' :
  cut_step time_Now c l = Some c' →
  (∃ i copy draining, l = StepDrain i ∧ drains (cut_st c) !! i = Some (DrainCalling copy draining) ∧
     (cut_writer c = None ∧
        c' = mkCut (cut_st c) (Some (mkWriter i copy (default (u_routingTable (shared (cut_st c))) copy) draining)) ∨
      ∃ wr, cut_writer c = Some wr ∧ wr_drain wr = i ∧ c' = mkCut (finish wr (cut_st c)) None)) ∨
  (step time_Now (cut_st c) l = Some (cut_st c') ∧ cut_writer c' = cut_writer c ∧ asks (cut_st c) l = None).
Proof.
  unfold cut_step. destruct (asks (cut_st c) l) as [[i [copy draining]]|] eqn:Ha.
  - intros Hs. left. exists i, copy, draining. destruct l as [| |j|j|e|tr]; try done. simpl in Ha. unfold calling in Ha.
    destruct (drains (cut_st c) !! j) as [[| | | |cp dr|cp|cp]|] eqn:Hj; simplify_eq/=.
    split; [done|]. split; [done|]. destruct (cut_writer c) as [wr|]; simplify_eq; [|by left].
    destruct (wr_drain wr =? i)%nat eqn:Hi; simplify_eq. right. exists wr. apply Nat.eqb_eq in Hi. done.
  - destruct (step time_Now (cut_st c) l) as [st'|] eqn:Hs; [|done]. cbn [mbind option_bind].
    destruct (_ || _); [|done]. intros [= <-]. by right.
Qed.

Lemma lookup_drains_after pc s ds i d :
  ds !! i = Some d → ∃ d', drains_after pc s ds !! i = Some d' ∧ (d' = d ∨ d' = detach (u_routingTable s) d).
Proof.
  intros Hi. unfold drains_after. destruct (replaces pc s); [|by eauto].
  rewrite list_lookup_fmap, Hi. eauto.
Qed.

(** The others stay where they are; a drain about to call may be left with the
    old map. *)
Lemma step_others st l st' :
  step time_Now st l = Some st' →
  (∀ i pc, l ≠ StepSync i → syncs st !! i = Some pc → syncs st' !! i = Some pc) ∧
  (∀ i d, l ≠ StepDrain i → drains st !! i = Some d → ∃ d' t, drains st' !! i = Some d' ∧ (d' = d ∨ d' = detach t d)).
Proof.
  intros Hs. destruct l as [| |j|j|e|tr]; simpl in Hs.
  - simplify_eq. simpl. split; [intros i pc _ Hi; by apply lookup_app_l_Some|intros i d _ Hi; exists d, NewRoutingTable; auto].
  - simplify_eq. simpl. split; [done|]. intros i d _ Hi. exists d, NewRoutingTable. split; [by apply lookup_app_l_Some|by left].
  - destruct (syncs st !! j) as [pcj|]; [|done]. simpl in Hs.
    destruct (sync_step time_Now pcj (shared st)) as [[pc' s']|]; [|done]. simpl in Hs. simplify_eq. simpl. split.
    + intros i pc Hne Hi. rewrite list_lookup_insert_ne by congruence. done.
    + intros i d _ Hi. destruct (lookup_drains_after pcj (shared st) _ _ _ Hi) as (d' & Hd & Hor). eauto.
  - destruct (drains st !! j) as [pcj|]; [|done]. simpl in Hs.
    destruct (drain_step pcj (shared st)) as [[pc' s']|]; [|done]. simpl in Hs. simplify_eq. simpl. split; [done|].
    intros i d Hne Hi. exists d, NewRoutingTable. rewrite list_lookup_insert_ne by congruence. auto.
  - simplify_eq. simpl. split; [done|]. intros i d _ Hi. exists d, NewRoutingTable. auto.
  - simplify_eq. simpl. split; [done|]. intros i d _ Hi. exists d, NewRoutingTable. auto.
Qed.
Lemma cut_step_others c l c' :
  cut_step time_Now c l = Some c' →
  (∀ i pc, l ≠ StepSync i → syncs (cut_st c) !! i = Some pc → syncs (cut_st c') !! i = Some pc) ∧
  (∀ i d, l ≠ StepDrain i → drains (cut_st c) !! i = Some d →
     ∃ d' t, drains (cut_st c') !! i = Some d' ∧ (d' = d ∨ d' = detach t d)).
Proof.
  intros [(j & copy & draining & -> & Hj & [[_ ->]|(wr & _ & <- & ->)])|(Hs & _ & _)]%cut_step_inv.
  - split; [done|]. intros i d _ Hi. exists d, NewRoutingTable. auto.
  - unfold finish. destruct (call_configurer_with _ _ _) as [err s']. simpl. split; [done|].
    intros i d Hne Hi. exists d, NewRoutingTable. rewrite list_lookup_insert_ne by congruence. auto.
  - by apply step_others.
Qed.
Lemma drain_locks_detach t d : drain_locks (detach t d) = drain_locks d.
Proof. by destruct d as [| | | |[] ?| |]. Qed.

Lemma next_label_own s w l : next_label s w = Some l →
  match w with ASync i => l = StepSync i | ADrain i => l = StepDrain i
  | ACall _ => (∃ e, l = DoEvent e) ∨ (∃ tr, l = DoPrune tr) end.
Proof. destruct w as [i|i|i]; simpl; intros Hl; repeat case_match; simplify_eq; eauto. Qed.

Lemma act_takes_lock s w s' w' :
  act s w = Some s' → w' ≠ w → takes_lock s w' = true → takes_lock s' w' = true.
Proof.
  intros (l & Hl & Hc & _ & _ & Hcallers)%act_inv Hne. apply cut_step_others in Hc as [Hs Hd].
  apply next_label_own in Hl. destruct w' as [i|i|i]; simpl.
  - destruct (syncs (lk_st s) !! i) as [pc|] eqn:Hi; [|done]. simpl.
    assert (l ≠ StepSync i) as Hl' by (intros ->; destruct w; naive_solver). by rewrite (Hs i pc Hl' Hi).
  - destruct (drains (lk_st s) !! i) as [d|] eqn:Hi; [|done]. simpl.
    assert (l ≠ StepDrain i) as Hl' by (intros ->; destruct w; naive_solver).
    destruct (Hd i d Hl' Hi) as (d' & t & -> & [->| ->]); [done|]. simpl. by rewrite drain_locks_detach.
  - rewrite Hcallers. destruct w as [j|j|j]; [done..|]. rewrite list_lookup_insert_ne by congruence. done.
Qed.

(** ** The mutex

    It is locked exactly while one goroutine is in its region, and never more
    than one is; the configurer's writer is a drain outside of its regions. *)
Record lock_inv (s : locked_state) : Prop := {
  li_one w w' : lk_stage s w ≠ Outside → lk_stage s w' ≠ Outside → w = w';
  li_locked : lk_locked s = true ↔ ∃ w, lk_stage s w ≠ Outside;
  li_inside w : lk_stage s w = Inside → takes_lock s w = true;
  li_writer : writer_calls (lk_cut s);
  li_writing w : writes s w → lk_stage s w = Outside
}.

Lemma lock_inv_start u : lock_inv (locked_start u).
Proof.
  split; simpl; [done| |done|done|].
  - split; [done|]. by intros [w Hw].
  - by intros w (wr & Hwr & _).
Qed.

Lemma stage_insert w g s w' : (<[w := g]> (lk_stage s)) w' = if decide (w' = w) then g else lk_stage s w'.
Proof. case_decide as Hd; [subst; apply fn_lookup_insert|by apply fn_lookup_insert_ne]. Qed.

(** What [act] does to the part of the state that is not the mutex. *)
Lemma act_writer s w s' :
  lock_inv s → act s w = Some s' →
  writer_calls (lk_cut s') ∧
  ∀ w', writes s' w' → writes s w' ∨ (w' = w ∧ ∃ i copy d, w = ADrain i ∧ drains (lk_st s) !! i = Some (DrainCalling copy d)).
Proof.
  intros Hi (l & Hl & Hc & _)%act_inv. split; [by eapply cut_step_whole, Hc; apply Hi|].
  intros w' (wr & Hwr & ->). apply cut_step_inv in Hc as [(i & copy & d & -> & Hd & [[_ Hc]|(wr0 & _ & _ & Hc)])|(_ & Hc & _)].
  - rewrite Hc in Hwr. injection Hwr as <-. right. simpl. apply next_label_own in Hl.
    destruct w as [j|j|j]; [done| |naive_solver]. injection Hl as <-. eauto 10.
  - by rewrite Hc in Hwr.
  - left. exists wr. rewrite <-Hc. done.
Qed.

Lemma calling_not_locks s i copy d : drains (lk_st s) !! i = Some (DrainCalling copy d) → takes_lock s (ADrain i) = false.
Proof. simpl. by intros ->. Qed.

(** A step outside of the regions. *)
Lemma act_outside_inv s w s' :
  lock_inv s → lk_stage s w = Outside → act s w = Some s' → lock_inv s'.
Proof.
  intros Hi Hout Ha. destruct (act_writer _ _ _ Hi Ha) as [Hw Hws].
  pose proof Ha as (l & _ & _ & Hlk & Hst & _)%act_inv. destruct Hi as [H1 H2 H3 H4 H5].
  split; rewrite ?Hlk, ?Hst; try done.
  - intros w' Hin. eapply act_takes_lock; [exact Ha| |by apply H3]. intros ->. congruence.
  - intros w' [Hw'|[-> _]]%Hws; [by apply H5|done].
Qed.
Lemma act_inside_inv s w s' :
  lock_inv s → lk_stage s w = Inside → act s w = Some s' → lock_inv (set_stage w Leaving s').
Proof.
  intros Hi Hin Ha. destruct (act_writer _ _ _ Hi Ha) as [Hw Hws].
  pose proof Ha as (l & _ & _ & Hlk & Hst & _)%act_inv. destruct Hi as [H1 H2 H3 H4 H5].
  assert (∀ w', (<[w := Leaving]> (lk_stage s')) w' ≠ Outside ↔ lk_stage s w' ≠ Outside) as Hsame.
  { intros w'. rewrite stage_insert, Hst. case_decide; [subst; by rewrite Hin|done]. }
  split; unfold set_stage; cbn [lk_stage lk_locked lk_cut lk_callers].
  - intros w1 w2. rewrite !Hsame. apply H1.
  - rewrite Hlk, H2. by setoid_rewrite Hsame.
  - intros w'. rewrite stage_insert, Hst. case_decide as Hd; [done|]. intros Hin'.
    destruct Hd. apply H1; congruence.
  - done.
  - intros w' Hw'. rewrite stage_insert, Hst. destruct (Hws w' Hw') as [Hold|[-> (i & copy & d & -> & Hd)]].
    + case_decide as Hd; [subst; apply H5 in Hold; congruence|by apply H5].
    + apply calling_not_locks in Hd. rewrite (H3 _ Hin) in Hd. done.
Qed.

(** A start. *)
Lemma spawns_inv s l s' :
  (l = SpawnSync ∨ l = SpawnDrain) → lock_inv s → spawns s l = Some s' → lock_inv s'.
Proof.
  intros Hl Hi Hs. unfold spawns in Hs. destruct (cut_step time_Now (lk_cut s) l) as [c|] eqn:Hc; [|done].
  simpl in Hs. simplify_eq. destruct Hi as [H1 H2 H3 H4 H5].
  pose proof (cut_step_others _ _ _ Hc) as [Hsy Hdr]. pose proof (cut_step_whole _ _ _ _ H4 Hc) as [Hw _].
  split; cbn [lk_stage lk_locked lk_cut lk_callers]; try done.
  - intros w Hin%H3. destruct w as [i|i|i]; simpl in *; [..|done].
    + destruct (syncs (lk_st s) !! i) as [pc|] eqn:Hpc; [|done]. by rewrite (Hsy i pc ltac:(by intros ->; destruct Hl) Hpc).
    + destruct (drains (lk_st s) !! i) as [d|] eqn:Hd; [|done].
      destruct (Hdr i d ltac:(by intros ->; destruct Hl) Hd) as (d' & t & -> & [->| ->]); [done|]. simpl. by rewrite drain_locks_detach.
  - intros w (wr & Hwr & ->). apply H5. exists wr. split; [|done].
    apply cut_step_inv in Hc as [(i & copy & d & -> & _)|(_ & Hc & _)]; [by destruct Hl|by rewrite <-Hc].
Qed.
Lemma call_inv s c : lock_inv s → lock_inv (mkLocked (lk_cut s) (lk_callers s ++ [c]) (lk_locked s) (lk_stage s)).
Proof.
  intros [H1 H2 H3 H4 H5]. split; cbn [lk_stage lk_locked lk_cut lk_callers]; try done.
  intros w Hin%H3. destruct w as [i|i|i]; simpl in *; [done..|].
  destruct (lk_callers s !! i) as [c0|] eqn:Hc; [|done]. by rewrite (lookup_app_l_Some _ _ _ _ Hc).
Qed.

Lemma lstep_inv s l s' : lock_inv s → lstep s l = Some s' → lock_inv s'.
Proof.
  intros Hi Hs. destruct l as [w|i| | |c]; cbn [lstep] in Hs.
  - unfold goes in Hs. destruct (lk_stage s w) eqn:Hst.
    + destruct (takes_lock s w) eqn:Ht.
      * unfold Lock in Hs. destruct (lk_locked s) eqn:Hl; simplify_eq.
        assert (∀ w', lk_stage s w' = Outside) as Hfree.
        { intros w'. destruct (decide (lk_stage s w' = Outside)) as [|Hne]; [done|].
          assert (lk_locked s = true) by (apply Hi; by exists w'). congruence. }
        destruct Hi as [H1 H2 H3 H4 H5]. split; unfold set_stage, set_locked; cbn [lk_stage lk_locked lk_cut lk_callers].
        -- intros w1 w2. rewrite !stage_insert, !Hfree. repeat case_decide; congruence.
        -- split; [|done]. intros _. exists w. rewrite stage_insert. by case_decide.
        -- intros w'. rewrite stage_insert, Hfree. case_decide; [|done]. by subst.
        -- done.
        -- intros w' (wr & Hwr & ->). rewrite stage_insert. case_decide as Hd; [|by apply H5; exists wr].
           exfalso. cbn [lk_cut] in Hwr. unfold writer_calls in H4. rewrite Hwr in H4. unfold calling in H4. subst w. simpl in Ht.
           destruct (drains (lk_st s) !! wr_drain wr) as [[| | | |? ?| |]|]; try done; by destruct H4.
      * destruct (waits_for_api s w); [done|]. by eapply act_outside_inv.
    + destruct (act s w) as [s1|] eqn:Ha; [|done]. simpl in Hs. simplify_eq. by eapply act_inside_inv.
    + unfold Unlock in Hs. simplify_eq. destruct Hi as [H1 H2 H3 H4 H5].
      assert (∀ w', w' ≠ w → lk_stage s w' = Outside) as Hfree.
      { intros w' Hne. destruct (decide (lk_stage s w' = Outside)) as [|Hne']; [done|].
        destruct Hne. apply H1; congruence. }
      split; unfold set_stage, set_locked; cbn [lk_stage lk_locked lk_cut lk_callers].
      * intros w1 w2. rewrite !stage_insert. repeat case_decide; try done. by rewrite Hfree.
      * split; [done|]. intros [w' Hw']. rewrite stage_insert in Hw'. case_decide; [done|]. by rewrite Hfree in Hw'.
      * intros w'. rewrite stage_insert. case_decide as Hd; [done|]. by rewrite (Hfree w' Hd).
      * done.
      * intros w' Hw'. rewrite stage_insert. case_decide; [done|]. by apply Hfree.
  - case_bool_decide as Ho; [|by rewrite andb_false_r in Hs]. rewrite andb_true_r in Hs.
    destruct (waits_for_api s (ASync i)); [|done]. by eapply act_outside_inv.
  - eapply spawns_inv; [by left|done..].
  - eapply spawns_inv; [by right|done..].
  - simplify_eq. by apply call_inv.
Qed.
Lemma lrun_inv ls s s' : lock_inv s → lrun s ls = Some s' → lock_inv s'.
Proof.
  revert s. induction ls as [|l ls IH]; intros s Hi Hr; simpl in Hr; [by simplify_eq|].
  destruct (lstep s l) as [s1|] eqn:Hs; [|done]. eapply IH; [|exact Hr]. by eapply lstep_inv.
Qed.

(** ** Nobody is blocked for good *)

Lemma next_label_step s w l : next_label s w = Some l → is_Some (step time_Now (lk_st s) l).
Proof.
  destruct w as [i|i|i]; simpl; intros Hl.
  - destruct (syncs (lk_st s) !! i) as [pc|] eqn:Hi; [|done].
    assert (pc ≠ SyncDone ∧ l = StepSync i) as [Hne ->] by (destruct pc; by simplify_eq). simpl. rewrite Hi. simpl.
    destruct (sync_step_enabled time_Now pc (lk_shared s) Hne) as [[pc' s'] ->]. simpl. by eexists.
  - destruct (drains (lk_st s) !! i) as [d|] eqn:Hi; [|done].
    assert (l = StepDrain i) as -> by (destruct d; by simplify_eq). simpl. rewrite Hi. simpl.
    destruct d as [| | | |copy draining|copy|copy]; simplify_eq; simpl; try (by eexists).
    destruct (call_configurer_with _ draining _) as [err s']. simpl. by eexists.
  - destruct (lk_callers s !! i) as [[e|tr|]|]; simplify_eq; simpl; by eexists.
Qed.

Lemma writer_goes s w : lock_inv s → writes s w → is_Some (goes s w).
Proof.
  intros Hi Hw. pose proof (li_writing _ Hi w Hw) as Hout. destruct Hw as (wr & Hwr & ->).
  pose proof (li_writer _ Hi) as Hc. unfold writer_calls in Hc. rewrite Hwr in Hc. unfold goes. rewrite Hout.
  destruct (calling (lk_st s) (wr_drain wr)) as [[copy d]|] eqn:Hcall; [|by destruct Hc].
  pose proof Hcall as Hd. unfold calling in Hd.
  destruct (drains (lk_st s) !! wr_drain wr) as [[| | | |cp dr|cp|cp]|] eqn:Hdr; simplify_eq.
  rewrite (calling_not_locks _ _ _ _ Hdr). unfold act. simpl. rewrite Hdr. cbn [mbind option_bind].
  unfold cut_step. simpl. rewrite Hcall, Hwr. simpl. rewrite Nat.eqb_refl. simpl. by eexists.
Qed.

Lemma act_enabled s w l :
  lock_inv s → next_label s w = Some l → is_Some (act s w) ∨ ∃ w', writes s w' ∧ is_Some (goes s w').
Proof.
  intros Hi Hl. destruct (next_label_step s w l Hl) as [st' Hst].
  destruct (cut_writer (lk_cut s)) as [wr|] eqn:Hwr.
  - right. exists (ADrain (wr_drain wr)). assert (writes s (ADrain (wr_drain wr))) as Hw by by exists wr.
    split; [done|by apply writer_goes].
  - left. unfold act. rewrite Hl. cbn [mbind option_bind]. unfold cut_step. rewrite Hwr, Hst. simpl.
    destruct (asks (lk_st s) l) as [[i [copy d]]|]; by eexists.
Qed.

(** The fetch does not call the configurer, so it needs the answer only. *)
Lemma fetch_enabled s i : waits_for_api s (ASync i) = true → lk_stage s (ASync i) = Outside → is_Some (lstep s (Answers i)).
Proof.
  intros Hw Ho. unfold lstep. rewrite Hw, bool_decide_true by done. simpl in *. unfold act. simpl.
  destruct (syncs (lk_st s) !! i) as [pc|] eqn:Hi; [|done]. destruct pc; try done. cbn [mbind option_bind].
  unfold cut_step. simpl. rewrite Hi. cbn [mbind option_bind].
  destruct (sync_step time_Now SyncFetching (lk_shared s)) as [[pc' s']|] eqn:Hs;
    [|by destruct (sync_step_enabled time_Now SyncFetching (lk_shared s) ltac:(done)); congruence].
  simpl. assert (in_body pc' = true) as Hb.
  { destruct (sync_step_in_body _ SyncFetching _ _ _ eq_refl Hs) as [?|(ch & ? & _)]; done. }
  unfold uncalled. simpl. rewrite (sync_step_calls _ _ _ _ _ Hb Hs), Nat.eqb_refl, orb_true_r. simpl. by eexists.
Qed.

Lemma goroutine_progress s w :
  lock_inv s → is_Some (next_label s w) →
  (∃ i, w = ASync i ∧ waits_for_api s w = true ∧ is_Some (lstep s (Answers i))) ∨
  ∃ w', (w' = w ∨ lk_stage s w' ≠ Outside ∨ writes s w') ∧ is_Some (goes s w').
Proof.
  intros Hi [l Hl].
  assert (∀ w', takes_lock s w' = true → lk_stage s w' = Inside → ∃ w'', (lk_stage s w'' ≠ Outside ∨ writes s w'') ∧ is_Some (goes s w'')) as Hin.
  { intros w' Ht Hst. assert (is_Some (next_label s w')) as [l' Hl'].
    { clear -Ht. destruct w' as [i|i|i]; simpl in *.
      - destruct (syncs (lk_st s) !! i) as [[]|]; try done; by eexists.
      - destruct (drains (lk_st s) !! i) as [[]|]; try done; by eexists.
      - destruct (lk_callers s !! i) as [[]|]; try done; by eexists. }
    destruct (act_enabled s w' l' Hi Hl') as [[s' Ha]|(w'' & Hw & Hg)]; [|eauto].
    exists w'. split; [left; congruence|]. unfold goes. rewrite Hst, Ha. by eexists. }
  destruct (lk_stage s w) eqn:Hst.
  - destruct (takes_lock s w) eqn:Ht.
    + right. destruct (lk_locked s) eqn:Hlk.
      * apply (li_locked _ Hi) in Hlk as [w' Hw']. destruct (lk_stage s w') eqn:Hst'; [done|..].
        -- destruct (Hin w' (li_inside _ Hi w' Hst') Hst') as (w'' & Hor & Hg). exists w''. split; [tauto|done].
        -- exists w'. split; [right; left; congruence|]. unfold goes. rewrite Hst'. by eexists.
      * exists w. split; [by left|]. unfold goes, Lock. rewrite Hst, Ht, Hlk. by eexists.
    + destruct (waits_for_api s w) eqn:Hw.
      * left. destruct w as [i|i|i]; [|done..]. exists i. split; [done|]. split; [done|by apply fetch_enabled].
      * right. destruct (act_enabled s w l Hi Hl) as [[s' Ha]|(w' & Hw' & Hg)]; [|eauto].
        exists w. split; [by left|]. unfold goes. rewrite Hst, Ht, Hw, Ha. by eexists.
  - right. destruct (Hin w (li_inside _ Hi w Hst) Hst) as (w'' & Hor & Hg). exists w''. split; [tauto|done].
  - right. exists w. split; [by left|]. unfold goes. rewrite Hst. by eexists.
Qed.

(** ** How many steps a sync makes *)

Definition left_outside (n : nat) (pc : sync_pc) : nat :=
  match pc with
  | SyncStart => n + 9
  | SyncFetching => n + 6
  | SyncMerging ms _ _ => length ms + 5
  | SyncReplacing _ _ => 4
  | SyncEnding _ => 3
  | SyncDone => 0
  end.
Definition sync_at (s : locked_state) (i : nat) : sync_pc := default SyncStart (syncs (lk_st s) !! i).
Definition sync_left (n : nat) (s : locked_state) (i : nat) : nat :=
  match lk_stage s (ASync i) with
  | Outside => left_outside n (sync_at s i)
  | Inside => left_outside n (sync_at s i) - 1
  | Leaving => left_outside n (sync_at s i) + 1
  end.
Definition own_lstep (i : nat) (l : llabel) : nat :=
  match l with
  | Goes (ASync j) | Answers j => if (j =? i)%nat then 1 else 0
  | _ => 0
  end.
Definition own_lsteps (i : nat) (ls : list llabel) : nat := sum_list (own_lstep i <$> ls).

Lemma cut_step_sync_at c l c' i :
  l ≠ StepSync i → cut_step time_Now c l = Some c' →
  default SyncStart (syncs (cut_st c') !! i) = default SyncStart (syncs (cut_st c) !! i).
Proof.
  intros Hne [(j & copy & draining & -> & Hj & [[_ ->]|(wr & _ & <- & ->)])|(Hs & _ & _)]%cut_step_inv; [done|..].
  - unfold finish. by destruct (call_configurer_with _ _ _) as [err s'].
  - destruct l as [| |j|j|e|tr]; simpl in Hs.
    + injection Hs as <-. simpl. destruct (syncs (cut_st c) !! i) as [pc|] eqn:Hi; [by rewrite (lookup_app_l_Some _ _ _ _ Hi)|].
      rewrite lookup_app_r by by apply lookup_ge_None. by destruct (_ - _)%nat.
    + by injection Hs as <-.
    + destruct (syncs (cut_st c) !! j) as [pcj|]; [|done]. simpl in Hs.
      destruct (sync_step time_Now pcj _) as [[pc' s']|]; [|done]. simpl in Hs. injection Hs as <-. simpl.
      by rewrite list_lookup_insert_ne by congruence.
    + destruct (drains (cut_st c) !! j) as [pcj|]; [|done]. simpl in Hs.
      destruct (drain_step pcj _) as [[pc' s']|]; [|done]. simpl in Hs. by injection Hs as <-.
    + by injection Hs as <-.
    + by injection Hs as <-.
Qed.
Lemma act_sync_at s w s' i :
  w ≠ ASync i → act s w = Some s' → sync_at s' i = sync_at s i ∧ lk_stage s' = lk_stage s.
Proof.
  intros Hne (l & Hl & Hc & _ & Hst & _)%act_inv. split; [|done]. apply (cut_step_sync_at _ l); [|done].
  apply next_label_own in Hl. intros ->. destruct w as [j|j|j]; naive_solver.
Qed.
Lemma act_sync_own s i s' :
  act s (ASync i) = Some s' →
  ∃ u, sync_step time_Now (sync_at s i) (lk_shared s) = Some (sync_at s' i, u) ∧ lk_stage s' = lk_stage s ∧
    syncs (lk_st s) !! i = Some (sync_at s i).
Proof.
  intros (l & Hl & Hc & _ & Hst & _)%act_inv. apply next_label_own in Hl. subst l. unfold sync_at.
  apply cut_step_inv in Hc as [(j & copy & draining & ? & _)|(Hs & _ & _)]; [done|]. simpl in Hs.
  destruct (syncs (lk_st s) !! i) as [pc|] eqn:Hi; [|done]. simpl in Hs |- *.
  destruct (sync_step time_Now pc _) as [[pc' u]|]; [|done]. simpl in Hs. injection Hs as Hs. exists u.
  rewrite <-Hs. simpl. rewrite list_lookup_insert_eq by by eapply lookup_lt_Some. done.
Qed.

Lemma Sync_fetch_table k cached err t s :
  Sync_fetch k cached err (set_table t s) = ((Sync_fetch k cached err s).1, set_table t (Sync_fetch k cached err s).2).
Proof.
  revert cached err s. induction k as [|k IH]; intros cached err s; [done|]. simpl.
  destruct (FetchToken _ _) as [[token|e] a]; [|done].
  destruct (TcpRouteMappings _) as [[ms|e] a']; [done|].
  case_bool_decide; [|done]. change (set_api a' (set_table t s)) with (set_table t (set_api a' s)). by rewrite IH.
Qed.

#[local] Arguments Sync_fetch : simpl never.
#[local] Arguments Sync_merge_step : simpl never.
#[local] Arguments Sync_replace : simpl never.
#[local] Arguments Sync_end : simpl never.

Section bound.
Context (n : nat) (Hn : ∀ a ms a', TcpRouteMappings a = (Ok ms, a') → (length ms ≤ n)%nat).

Lemma sync_step_outside pc s pc' s' :
  sync_step time_Now pc s = Some (pc', s') →
  if sync_locks pc then (S (S (S (left_outside n pc'))) ≤ left_outside n pc)%nat
  else (S (left_outside n pc') ≤ left_outside n pc)%nat.
Proof.
  destruct pc as [| |[|m ms] fresh ch|fresh ch|ch|]; simpl; intros Hs; simplify_eq; simpl; try lia.
  - destruct (Sync_fetch 2 true None s) as [[[ms [e|]]|] s1] eqn:Hfe; simplify_eq; simpl; try lia.
    apply (Sync_fetch_length n) in Hfe; [lia|done].
  - destruct (Sync_merge_step time_Now (s, fresh, ch) m) as [[s1 f1] c1]. simplify_eq. simpl. lia.
  - destruct (Sync_replace (s, fresh, ch)) as [s1 c1]. simplify_eq. simpl. lia.
Qed.

Lemma takes_lock_sync s i : takes_lock s (ASync i) = true → sync_locks (sync_at s i) = true.
Proof. simpl. unfold sync_at. by destruct (syncs (lk_st s) !! i). Qed.

Lemma goes_left s s' i :
  lock_inv s → goes s (ASync i) = Some s' → (S (sync_left n s' i) ≤ sync_left n s i)%nat.
Proof.
  intros Hi Hg. unfold goes in Hg. unfold sync_left. destruct (lk_stage s (ASync i)) eqn:Hst.
  - destruct (takes_lock s (ASync i)) eqn:Ht.
    + unfold Lock in Hg. destruct (lk_locked s); [done|]. injection Hg as <-. unfold set_stage. cbn [lk_stage].
      rewrite fn_lookup_insert. unfold sync_at. simpl. apply takes_lock_sync in Ht. unfold sync_at in Ht.
      destruct (default SyncStart (syncs (lk_st s) !! i)); simpl in *; done || lia.
    + destruct (waits_for_api s (ASync i)); [done|]. apply act_sync_own in Hg as (u & Hs & Hst' & Hi'). rewrite Hst', Hst.
      apply sync_step_outside in Hs. cbv iota. destruct (sync_locks (sync_at s i)); lia.
  - pose proof (takes_lock_sync s i (li_inside _ Hi _ Hst)) as Hl.
    destruct (act s (ASync i)) as [s1|] eqn:Ha; [|done]. injection Hg as <-.
    apply act_sync_own in Ha as (u & Hs & _ & _). unfold set_stage. cbn [lk_stage]. rewrite fn_lookup_insert.
    apply sync_step_outside in Hs. rewrite Hl in Hs. change (sync_at (mkLocked (lk_cut s1) _ _ _) i) with (sync_at s1 i). lia.
  - injection Hg as <-. unfold set_stage. cbn [lk_stage]. rewrite fn_lookup_insert.
    change (sync_at (mkLocked _ _ _ _) i) with (sync_at s i). lia.
Qed.

Lemma goes_other s w s' i :
  w ≠ ASync i → goes s w = Some s' → sync_left n s' i = sync_left n s i.
Proof.
  intros Hne Hg. unfold sync_left.
  assert (sync_at s' i = sync_at s i ∧ lk_stage s' (ASync i) = lk_stage s (ASync i)) as [-> ->]; [|done].
  unfold goes in Hg. destruct (lk_stage s w) eqn:Hst.
  - destruct (takes_lock s w).
    + unfold Lock in Hg. destruct (lk_locked s); [done|]. injection Hg as <-. split; [done|].
      unfold set_stage. cbn [lk_stage]. by rewrite fn_lookup_insert_ne.
    + destruct (waits_for_api s w); [done|]. by destruct (act_sync_at _ _ _ i Hne Hg) as [-> ->].
  - destruct (act s w) as [s1|] eqn:Ha; [|done]. injection Hg as <-.
    destruct (act_sync_at _ _ _ i Hne Ha) as [<- Hs]. split; [done|].
    unfold set_stage. cbn [lk_stage]. by rewrite fn_lookup_insert_ne, Hs.
  - injection Hg as <-. split; [done|]. unfold set_stage. cbn [lk_stage]. by rewrite fn_lookup_insert_ne.
Qed.

Lemma lstep_left s l s' i :
  lock_inv s → lstep s l = Some s' → (own_lstep i l + sync_left n s' i ≤ sync_left n s i)%nat.
Proof.
  intros Hi Hs. destruct l as [w|j| | |c]; cbn [lstep] in Hs.
  - destruct (decide (w = ASync i)) as [->|Hne].
    + apply goes_left in Hs; [|done]. simpl. rewrite Nat.eqb_refl. lia.
    + rewrite (goes_other _ _ _ _ Hne Hs). destruct w as [j|j|j]; simpl; [|lia..].
      rewrite (proj2 (Nat.eqb_neq j i)) by congruence. lia.
  - destruct (waits_for_api s (ASync j)) eqn:Hw; [|done]. case_bool_decide as Hst; [|done]. simpl in Hs.
    destruct (decide (j = i)) as [->|Hne].
    + unfold own_lstep. rewrite Nat.eqb_refl. unfold sync_left.
      apply act_sync_own in Hs as (u & Hs & -> & Hi'). rewrite Hst. simpl in Hw. rewrite Hi' in Hw. simpl in Hw.
      apply sync_step_outside in Hs. destruct (sync_at s i); done || (simpl in *; lia).
    + unfold own_lstep. rewrite (proj2 (Nat.eqb_neq j i)) by done.
      unfold sync_left. destruct (act_sync_at s (ASync j) s' i ltac:(congruence) Hs) as [-> ->]. lia.
  - unfold spawns in Hs. destruct (cut_step _ _ _) as [c|] eqn:Hc; [|done]. injection Hs as <-. simpl.
    unfold sync_left, sync_at. cbn [lk_cut lk_stage]. rewrite (cut_step_sync_at _ SpawnSync _ i ltac:(done) Hc). lia.
  - unfold spawns in Hs. destruct (cut_step _ _ _) as [c|] eqn:Hc; [|done]. injection Hs as <-. simpl.
    unfold sync_left, sync_at. cbn [lk_cut lk_stage]. rewrite (cut_step_sync_at _ SpawnDrain _ i ltac:(done) Hc). lia.
  - injection Hs as <-. unfold sync_left, sync_at. simpl. lia.
Qed.

Lemma lrun_left ls s s' i :
  lock_inv s → lrun s ls = Some s' → (own_lsteps i ls + sync_left n s' i ≤ sync_left n s i)%nat.
Proof.
  revert s. induction ls as [|l ls IH]; intros s Hi Hr; simpl in Hr; [by simplify_eq|].
  destruct (lstep s l) as [s1|] eqn:Hs; [|done]. pose proof (lstep_left _ _ _ i Hi Hs).
  specialize (IH _ (lstep_inv _ _ _ Hi Hs) Hr). unfold own_lsteps in *. rewrite fmap_cons. simpl. lia.
Qed.

End bound.

(** ** Accesses to the table

    What a step does with the table is read off the step: it touches the table
    if it does not commute with putting another table in its place, and it
    changes the table if the table is another one afterwards. *)
Definition with_table_st (t : RoutingTable) (st : state) : state :=
  mkState (set_table t (shared st)) (syncs st) (drains st).
Definition with_table_cut (t : RoutingTable) (c : cut_state) : cut_state :=
  mkCut (with_table_st t (cut_st c)) (cut_writer c).
Definition with_table (t : RoutingTable) (s : locked_state) : locked_state :=
  mkLocked (with_table_cut t (lk_cut s)) (lk_callers s) (lk_locked s) (lk_stage s).
Definition touches (s : locked_state) (w : who) : Prop :=
  ¬ ∀ t, goes (with_table t s) w = with_table t <$> goes s w.
Definition changes (s : locked_state) (w : who) : Prop :=
  ∃ s', goes s w = Some s' ∧ u_routingTable (lk_shared s') ≠ u_routingTable (lk_shared s).

(** Two goroutines that can both go on touch the table, and one changes it. *)
Definition races (s : locked_state) (w1 w2 : who) : Prop :=
  w1 ≠ w2 ∧ is_Some (goes s w1) ∧ is_Some (goes s w2) ∧ touches s w1 ∧ touches s w2 ∧ (changes s w1 ∨ changes s w2).

(** The steps that touch the table: without the mutex a sync that merges or
    replaces, and a drain that hands the table to the configurer; with it a
    sync that ends, an event outside of a sync, and a prune. *)
Definition merging (pc : sync_pc) : bool :=
  match pc with SyncMerging (_ :: _) _ _ | SyncReplacing _ _ => true | _ => false end.
Definition merges (s : locked_state) (w : who) : Prop :=
  ∃ i pc, w = ASync i ∧ syncs (lk_st s) !! i = Some pc ∧ merging pc = true.
Definition hands (s : locked_state) (w : who) : Prop :=
  ∃ i d, w = ADrain i ∧ drains (lk_st s) !! i = Some (DrainCalling None d) ∧ cut_writer (lk_cut s) = None.
Definition ends (s : locked_state) (w : who) : Prop :=
  lk_stage s w = Inside ∧ ∃ i ch, w = ASync i ∧ syncs (lk_st s) !! i = Some (SyncEnding ch).
Definition handles (s : locked_state) (w : who) : Prop :=
  lk_stage s w = Inside ∧ u_syncing (lk_shared s) = false ∧
  ∃ i e, w = ACall i ∧ lk_callers s !! i = Some (CallsHandleEvent e).
Definition prunes (s : locked_state) (w : who) : Prop :=
  lk_stage s w = Inside ∧ ∃ i tr, w = ACall i ∧ lk_callers s !! i = Some (CallsPrune tr).

(** A label whose step has nothing to do with the table. *)
Definition table_free (st : state) (l : label) : bool :=
  match l with
  | SpawnSync | SpawnDrain => true
  | StepSync i =>
      match syncs st !! i with Some pc => negb (merging pc) && match pc with SyncEnding _ => false | _ => true end | None => true end
  | StepDrain i => match drains st !! i with Some (DrainCalling None _) => false | _ => true end
  | DoEvent _ => u_syncing (shared st)
  | DoPrune _ => false
  end.

Lemma step_table t st l :
  table_free st l = true → step time_Now (with_table_st t st) l = with_table_st t <$> step time_Now st l.
Proof.
  intros Hf. destruct l as [| |i|i|e|tr]; simpl in Hf; try done.
  - simpl. destruct (syncs st !! i) as [pc|]; [|done]. cbn [mbind option_bind].
    destruct pc as [| |[|m ms] fresh ch|fresh ch|ch|]; try done. cbn [sync_step with_table_st shared].
    rewrite Sync_fetch_table. by destruct (Sync_fetch 2 true None (shared st)) as [[[ms [e|]]|] s1].
  - simpl. destruct (drains st !! i) as [d|]; [|done]. cbn [mbind option_bind].
    destruct d as [| | | |[copy|] draining|copy|copy]; try done. cbn [drain_step with_table_st shared default].
    unfold call_configurer_with. simpl. by destruct (router_Configure copy draining (u_conf (shared st))) as [[err|] c].
  - simpl. unfold HandleEvent. cbn [with_table_st shared set_table u_syncing]. by rewrite Hf.
Qed.

Lemma finish_table t wr st : finish wr (with_table_st t st) = with_table_st t (finish wr st).
Proof.
  unfold finish, call_configurer_with. simpl. by destruct (router_Configure (wr_table wr) (wr_draining wr) _) as [err c].
Qed.

Lemma cut_step_table t c l :
  table_free (cut_st c) l = true ∨ (cut_writer c ≠ None ∧ ∃ i, l = StepDrain i) →
  cut_step time_Now (with_table_cut t c) l = with_table_cut t <$> cut_step time_Now c l.
Proof.
  intros Hf. unfold cut_step. assert (asks (cut_st (with_table_cut t c)) l = asks (cut_st c) l) as -> by by destruct l.
  destruct (asks (cut_st c) l) as [[i [copy d]]|] eqn:Ha.
  - assert (∃ j, l = StepDrain j ∧ drains (cut_st c) !! j = Some (DrainCalling copy d)) as (j & -> & Hj).
    { destruct l as [| |j|j|e|tr]; try done. simpl in Ha. unfold calling in Ha. exists j.
      by destruct (drains (cut_st c) !! j) as [[| | | |cp dr|cp|cp]|]; simplify_eq/=. }
    cbn [with_table_cut cut_writer cut_st]. destruct (cut_writer c) as [wr|].
    + destruct (wr_drain wr =? i)%nat; [|done]. by rewrite finish_table.
    + destruct Hf as [Hf|[? _]]; [|done]. simpl in Hf. rewrite Hj in Hf. by destruct copy.
  - assert (table_free (cut_st c) l = true) as Hfree.
    { destruct Hf as [|[_ [i ->]]]; [done|]. simpl in Ha |- *. unfold calling in Ha.
      by destruct (drains (cut_st c) !! i) as [[| | | |[]| |]|]. }
    cbn [with_table_cut cut_writer cut_st]. rewrite (step_table t _ _ Hfree).
    destruct (step time_Now (cut_st c) l) as [st'|]; [|done]. cbn [fmap option_fmap option_map mbind option_bind].
    unfold uncalled. cbn [with_table_st shared set_table u_configured]. by destruct (_ || _).
Qed.

Lemma act_table t s w :
  match next_label s w with
  | Some l => table_free (lk_st s) l = true ∨ (cut_writer (lk_cut s) ≠ None ∧ ∃ i, l = StepDrain i)
  | None => True
  end → act (with_table t s) w = with_table t <$> act s w.
Proof.
  unfold act. assert (next_label (with_table t s) w = next_label s w) as -> by by destruct w.
  destruct (next_label s w) as [l|]; [|done]. intros Hf. cbn [mbind option_bind with_table lk_cut].
  rewrite (cut_step_table t _ _ Hf). by destruct (cut_step time_Now (lk_cut s) l).
Qed.

Lemma touches_cases s w : lock_inv s → touches s w → merges s w ∨ hands s w ∨ ends s w ∨ handles s w ∨ prunes s w.
Proof.
  intros Hi Ht.
  assert (lk_stage s w = Outside ∧ takes_lock s w = false ∨ lk_stage s w = Inside ∧ takes_lock s w = true) as Hst.
  { destruct (lk_stage s w) eqn:Hst; [|right; split; [done|by apply Hi]|].
    - left. split; [done|]. destruct (takes_lock s w) eqn:Hl; [|done]. exfalso. apply Ht. intros t. unfold goes.
      cbn [with_table lk_stage]. rewrite Hst. assert (takes_lock (with_table t s) w = true) as -> by (rewrite <-Hl; by destruct w).
      rewrite Hl. unfold Lock. cbn [with_table lk_locked]. by destruct (lk_locked s).
    - exfalso. apply Ht. intros t. unfold goes. cbn [with_table lk_stage]. by rewrite Hst. }
  assert (∃ l, next_label s w = Some l ∧ table_free (lk_st s) l = false ∧
    ((∃ i, l = StepDrain i) → cut_writer (lk_cut s) = None)) as (l & Hl & Hfree & Hwr).
  { assert (¬ ∀ t, act (with_table t s) w = with_table t <$> act s w) as Ha.
    { intros Ha. apply Ht. intros t. unfold goes. cbn [with_table lk_stage].
      assert (takes_lock (with_table t s) w = takes_lock s w) as -> by by destruct w.
      assert (waits_for_api (with_table t s) w = waits_for_api s w) as -> by by destruct w.
      destruct Hst as [[-> ->]|[-> _]]; rewrite Ha; [by destruct (waits_for_api s w)|]. by destruct (act s w). }
    destruct (next_label s w) as [l|] eqn:Hl; [|exfalso; apply Ha; intros t; apply act_table; by rewrite Hl].
    exists l. split; [done|]. destruct (table_free (lk_st s) l) eqn:Hf.
    { exfalso. apply Ha. intros t. apply act_table. rewrite Hl. by left. }
    split; [done|]. intros Hd. destruct (cut_writer (lk_cut s)) eqn:Hwr; [|done].
    exfalso. apply Ha. intros t. apply act_table. rewrite Hl. right. by rewrite Hwr. }
  clear Ht Hi. destruct w as [i|i|i]; simpl in Hl.
  - destruct (syncs (lk_st s) !! i) as [pc|] eqn:Hpc; [|done].
    assert (l = StepSync i) as -> by (destruct pc; by simplify_eq). simpl in Hfree. rewrite Hpc in Hfree.
    destruct (merging pc) eqn:Hm; [left; by exists i, pc|]. destruct pc; try done. right. right. left.
    destruct Hst as [[_ Hst]|[Hst _]]; [simpl in Hst; by rewrite Hpc in Hst|]. split; [done|]. eauto.
  - destruct (drains (lk_st s) !! i) as [d|] eqn:Hd; [|done].
    assert (l = StepDrain i) as -> by (destruct d; by simplify_eq). simpl in Hfree. rewrite Hd in Hfree.
    destruct d as [| | | |[] dr| |]; try done. right. left. exists i, dr. split; [done|]. split; [done|]. apply Hwr. eauto.
  - right. right. right. destruct (lk_callers s !! i) as [[e|tr|]|] eqn:Hc; simplify_eq; simpl in Hfree;
      (destruct Hst as [[_ Hst]|[Hst _]]; [simpl in Hst; by rewrite Hc in Hst|]).
    + left. split; [done|]. split; [done|]. eauto.
    + right. split; [done|]. eauto.
Qed.

(** ** Syncs that overlap *)

Definition active (pcs : list sync_pc) : nat := length (base.filter (λ pc, in_body pc = true) pcs).
Definition overlap (st : state) : Prop :=
  (2 ≤ active (syncs st))%nat ∨ (1 ≤ active (syncs st))%nat ∧ u_syncing (shared st) = false.
Fixpoint one_at_a_time (s : locked_state) (ls : list llabel) : Prop :=
  (active (syncs (lk_st s)) ≤ 1)%nat ∧
  match ls with
  | [] => True
  | l :: ls' => match lstep s l with Some s' => one_at_a_time s' ls' | None => True end
  end.

Lemma active_app pcs pcs' : active (pcs ++ pcs') = (active pcs + active pcs')%nat.
Proof. unfold active. by rewrite filter_app, length_app. Qed.
Lemma active_one pc : active [pc] = if in_body pc then 1%nat else 0%nat.
Proof. unfold active. rewrite filter_cons. by destruct (in_body pc). Qed.
Lemma active_split pcs i pc :
  pcs !! i = Some pc →
  ∃ n, active pcs = ((if in_body pc then 1 else 0) + n)%nat ∧
    ∀ pc', active (<[i := pc']> pcs) = ((if in_body pc' then 1 else 0) + n)%nat.
Proof.
  intros Hi. pose proof (take_drop_middle _ _ _ Hi) as Heq.
  exists (active (take i pcs) + active (drop (S i) pcs))%nat. split.
  - rewrite <-Heq at 1. change (pc :: ?l) with ([pc] ++ l). rewrite !active_app, active_one. lia.
  - intros pc'. rewrite insert_take_drop by (by eapply lookup_lt_Some).
    change (pc' :: ?l) with ([pc'] ++ l). rewrite !active_app, active_one. lia.
Qed.
Lemma active_two pcs i j pc pc' :
  i ≠ j → pcs !! i = Some pc → pcs !! j = Some pc' → in_body pc = true → in_body pc' = true → (2 ≤ active pcs)%nat.
Proof.
  intros Hne Hi Hj Hpc Hpc'. destruct (active_split _ _ _ Hi) as (n & -> & Hn). rewrite Hpc.
  assert (<[i := SyncDone]> pcs !! j = Some pc') as Hj' by by rewrite list_lookup_insert_ne.
  destruct (active_split _ _ _ Hj') as (m & Hm & _). rewrite Hn, Hpc' in Hm. simpl in Hm. lia.
Qed.

(** With one sync at a time the flag is set exactly while it is between its
    regions. *)
Definition flag_tells (st : state) : Prop := active (syncs st) = 1%nat ↔ u_syncing (shared st) = true.

Lemma step_flag_tells st l st' :
  flag_tells st → (active (syncs st) ≤ 1)%nat → (active (syncs st') ≤ 1)%nat →
  step time_Now st l = Some st' → flag_tells st'.
Proof.
  unfold flag_tells. intros Hflag Hle Hle' Hstep. destruct l as [| |i|i|e|tr]; simpl in Hstep.
  - simplify_eq. simpl. by rewrite active_app, active_one, Nat.add_0_r.
  - by simplify_eq.
  - destruct (syncs st !! i) as [pc|] eqn:Hi; [|done]. simpl in Hstep.
    destruct (sync_step time_Now pc (shared st)) as [[pc' s']|] eqn:Hs; [|done]. simpl in Hstep. simplify_eq. simpl in *.
    apply sync_step_flag in Hs. destruct (active_split _ _ _ Hi) as (n & Hn & Hn'). rewrite Hn in *. rewrite Hn' in *.
    destruct (in_body pc), (in_body pc'); rewrite ?Hs; try done.
    + split; [lia|done].
    + split; [done|lia].
  - destruct (drains st !! i) as [pc|] eqn:Hi; [|done]. simpl in Hstep.
    destruct (drain_step pc (shared st)) as [[pc' s']|] eqn:Hs; [|done]. simpl in Hstep. simplify_eq. simpl in *.
    apply drain_step_flag in Hs. by rewrite Hs.
  - simplify_eq. simpl. by rewrite HandleEvent_flag.
  - simplify_eq. simpl. by rewrite PruneStaleRoutes_flag.
Qed.
Lemma cut_step_flag_tells c l c' :
  flag_tells (cut_st c) → (active (syncs (cut_st c)) ≤ 1)%nat → (active (syncs (cut_st c')) ≤ 1)%nat →
  cut_step time_Now c l = Some c' → flag_tells (cut_st c').
Proof.
  intros Hf Hle Hle' [(j & copy & draining & -> & Hj & [[_ ->]|(wr & _ & _ & ->)])|(Hs & _ & _)]%cut_step_inv; [done| |].
  - simpl. unfold finish, call_configurer_with. by destruct (router_Configure _ _ _).
  - by eapply step_flag_tells.
Qed.
Lemma lstep_cut s l s' :
  lstep s l = Some s' → lk_cut s' = lk_cut s ∨ ∃ l', cut_step time_Now (lk_cut s) l' = Some (lk_cut s').
Proof.
  destruct l as [w|i| | |c]; cbn [lstep]; unfold goes, spawns, Lock, Unlock; intros Hs.
  - destruct (lk_stage s w); [destruct (takes_lock s w); [destruct (lk_locked s); [done|]|destruct (waits_for_api s w); [done|]]| |].
    + left. by injection Hs as <-.
    + right. apply act_inv in Hs as (l & _ & Hc & _). eauto.
    + right. destruct (act s w) as [s1|] eqn:Ha; [|done]. injection Hs as <-. apply act_inv in Ha as (l & _ & Hc & _). eauto.
    + left. by injection Hs as <-.
  - destruct (_ && _); [|done]. right. apply act_inv in Hs as (l & _ & Hc & _). eauto.
  - right. destruct (cut_step _ _ _) as [c|] eqn:Hc; [|done]. injection Hs as <-. eauto.
  - right. destruct (cut_step _ _ _) as [c|] eqn:Hc; [|done]. injection Hs as <-. eauto.
  - left. by injection Hs as <-.
Qed.
Lemma one_at_a_time_flag s ls s' :
  flag_tells (lk_st s) → one_at_a_time s ls → lrun s ls = Some s' →
  (active (syncs (lk_st s')) ≤ 1)%nat ∧ flag_tells (lk_st s').
Proof.
  revert s. induction ls as [|l ls IH]; intros s Hf [Hle Hone] Hr; simpl in Hr; [by simplify_eq|].
  destruct (lstep s l) as [s1|] eqn:Hs; [|done]. apply (IH s1); [|done|done].
  assert (active (syncs (lk_st s1)) ≤ 1)%nat as Hle1 by (destruct ls; apply Hone).
  destruct (lstep_cut _ _ _ Hs) as [->|[l' Hc]]; [done|]. by eapply cut_step_flag_tells.
Qed.

(** Every run is one of the machine without the mutex. *)
Lemma lrun_cut ls s s' : lrun s ls = Some s' → ∃ ls', cut_run time_Now (lk_cut s) ls' = Some (lk_cut s').
Proof.
  revert s. induction ls as [|l ls IH]; intros s Hr; simpl in Hr; [simplify_eq; by exists []|].
  destruct (lstep s l) as [s1|] eqn:Hs; [|done]. destruct (IH _ Hr) as [ls' Hls'].
  destruct (lstep_cut _ _ _ Hs) as [<-|[l' Hc]]; [by exists ls'|]. exists (l' :: ls'). simpl. by rewrite Hc.
Qed.

(** * Properties *)

(** What is proved of the updater's goroutines with each locked region as one
    step holds with the mutex as a state: a run with the mutex is one without
    it, and so, by the linearization of [Drain], one with whole calls. *)
Theorem locked_runs_are_runs (u : UState) (ls : list llabel) (s : locked_state) :
  lrun (locked_start u) ls = Some s →
  ∃ ls', run time_Now (mkState u [] []) ls' = Some (whole (lk_cut s)).
Proof.
  intros (cls & Hc)%lrun_cut. exists (whole_labels time_Now (mkCut (mkState u [] []) None) cls).
  by destruct (cut_run_whole time_Now (mkCut (mkState u [] []) None) _ _ I Hc) as [_ Hr].
Qed.

(** C24. A sync is never blocked for good.  Take any run of any number of syncs,
    drains, events and prunes under the updater's mutex and the configurer's
    lock, and a routing API that lists at most [n] mappings.  A sync makes at
    most [n + 9] steps, its locking and unlocking included, and has returned
    when it has made that many.  Until then it waits for the answer of the
    routing API, and with the answer it goes on; or it can go on itself; or it
    waits, and then some goroutine that holds the mutex or the configurer's lock
    can go on. *)
Theorem sync_progresses (n : nat) (u : UState) (ls : list llabel) (s : locked_state) (i : nat) (pc : sync_pc) :
  (∀ a ms a', TcpRouteMappings a = (Ok ms, a') → (length ms ≤ n)%nat) →
  lrun (locked_start u) ls = Some s → syncs (lk_st s) !! i = Some pc →
  (own_lsteps i ls ≤ n + 9)%nat ∧ (own_lsteps i ls = (n + 9)%nat → pc = SyncDone) ∧
  (pc ≠ SyncDone →
    pc = SyncFetching ∧ is_Some (lstep s (Answers i)) ∨
    ∃ w, (w = ASync i ∨ lk_stage s w ≠ Outside ∨ writes s w) ∧ is_Some (lstep s (Goes w))).
Proof.
  intros Hn Hr Hi. pose proof (lrun_inv _ _ _ (lock_inv_start u) Hr) as Hinv.
  pose proof (lrun_left n Hn _ _ _ i (lock_inv_start u) Hr) as Hle.
  assert (sync_left n (locked_start u) i = (n + 9)%nat) as Hstart by done. rewrite Hstart in Hle.
  split; [lia|]. split.
  - intros Heq. assert (sync_left n s i = 0%nat) as Hz by lia. unfold sync_left, sync_at in Hz. rewrite Hi in Hz. simpl in Hz.
    destruct (lk_stage s (ASync i)) eqn:Hst; [| |lia].
    + destruct pc; simpl in Hz; (done || lia).
    + apply (li_inside _ Hinv) in Hst. simpl in Hst. rewrite Hi in Hst. destruct pc; simpl in Hz, Hst; (done || lia).
  - intros Hne. assert (is_Some (next_label s (ASync i))) as Hl by (simpl; rewrite Hi; destruct pc; try done; by eexists).
    destruct (goroutine_progress s (ASync i) Hinv Hl) as [(j & [= <-] & Hw & Ha)|(w & Hor & Hg)]; [left|right; by exists w].
    split; [|done]. simpl in Hw. rewrite Hi in Hw. by destruct pc.
Qed.

(** C40. Who touches the table at the same time.  In any run of syncs, drains,
    events and prunes under the mutex, if two goroutines can both go on, both touch the routing table and one of them
    changes it, then one of them is a drain that hands the table to the
    configurer without the mutex, or one is a sync that merges or replaces
    without the mutex and the other one prunes, or two syncs overlap, or
    have overlapped so that the flag is down while one goes on.  In a run with
    one sync at a time the last case does not occur: then events and other
    syncs never touch the table together with anything but a drain. *)
Theorem table_races (u : UState) (ls : list llabel) (s : locked_state) (w1 w2 : who) :
  u_syncing u = false → lrun (locked_start u) ls = Some s → races s w1 w2 →
  ((hands s w1 ∨ hands s w2) ∨ (merges s w1 ∧ prunes s w2 ∨ prunes s w1 ∧ merges s w2) ∨ overlap (lk_st s)) ∧
  (one_at_a_time (locked_start u) ls → ¬ overlap (lk_st s)).
Proof.
  intros Hu Hr (Hne & _ & _ & H1 & H2 & _). pose proof (lrun_inv _ _ _ (lock_inv_start u) Hr) as Hinv. split.
  - assert (∀ w w', w ≠ w' → merges s w → merges s w' ∨ ends s w' ∨ handles s w' → overlap (lk_st s)) as Hover.
    { intros w w' Hww (i & pc & -> & Hi & Hpc) Hw'.
      assert (in_body pc = true) as Hb by by destruct pc as [| |[|]| | |].
      destruct Hw' as [(j & pc' & -> & Hj & Hpc')|[(_ & j & ch & -> & Hj)|(_ & Hflag & _)]].
      - left. eapply (active_two _ i j); [congruence|done..|]. by destruct pc' as [| |[|]| | |].
      - left. eapply (active_two _ i j); [congruence|done..].
      - right. split; [|done]. destruct (active_split _ _ _ Hi) as (n & -> & _). rewrite Hb. lia. }
    assert (∀ w, ends s w ∨ handles s w ∨ prunes s w → lk_stage s w ≠ Outside) as Hin
      by (unfold ends, handles, prunes; naive_solver congruence).
    pose proof (li_one _ Hinv w1 w2) as Hone.
    apply touches_cases in H1; [|done]. apply touches_cases in H2; [|done].
    destruct H1 as [H1|[H1|H1]]; [|by left; left|].
    + destruct H2 as [H2|[H2|[H2|[H2|H2]]]]; [|by left; right|..].
      * right. right. eapply (Hover w1 w2); auto.
      * right. right. eapply (Hover w1 w2); auto.
      * right. right. eapply (Hover w1 w2); auto.
      * right. left. by left.
    + destruct H2 as [H2|[H2|H2]]; [|by left; right|].
      * destruct H1 as [H1|[H1|H1]]; [right; right; eapply (Hover w2 w1); auto..|]. right. left. by right.
      * destruct Hne. apply Hone; by apply Hin.
  - intros Hone. assert (flag_tells (lk_st (locked_start u))) as Hstart by (unfold flag_tells; simpl; by rewrite Hu).
    destruct (one_at_a_time_flag _ _ _ Hstart Hone Hr) as [Hle Hf].
    intros [?|[? Hflag]]; [lia|]. assert (active (syncs (lk_st s)) = 1%nat) as Ha by lia. apply Hf in Ha. congruence.
Qed.

End locks.

(** * Concrete runs *)
Module Sample.
Import RoutingTable.Sample Updater.Sample Concurrency.Sample.

#[local] Abbreviation lk_shared s := (shared (cut_st (lk_cut s))).

(** A sync and an event: the event is in its region when the sync has its
    listing and wants to end. *)
#[local] Abbreviation two_routes_state := (@locked_state _ two_routes_api sample_configurer).
Definition updater0 : @UState _ two_routes_api sample_configurer :=
  @NewUpdater _ two_routes_api sample_configurer NewRoutingTable 120 tt [].
Definition busy : list llabel :=
  [StartsSync; StartsCall (CallsHandleEvent (mkTcpEvent mapping1 "Delete"))] ++ replicate 3 (Goes (ASync 0))
  ++ Answers 0 :: replicate 4 (Goes (ASync 0)) ++ [Goes (ACall 0)].
Definition busy_state : two_routes_state :=
  default (locked_start updater0) (lrun sample_now (locked_start updater0) busy).
Lemma busy_shape : (λ s : two_routes_state, (lk_locked s, lk_stage s (ACall 0), takes_lock s (ASync 0))) <$>
  lrun sample_now (locked_start updater0) busy = Some (true, Inside, true).
Proof. vm_compute. reflexivity. Qed.
Lemma busy_lrun : lrun sample_now (locked_start updater0) busy = Some busy_state.
Proof. unfold busy_state. pose proof busy_shape as Hs. destruct (lrun _ _ busy); [reflexivity|discriminate Hs]. Qed.
Lemma sync_progresses_witness :
  (own_lsteps 0 busy ≤ 11)%nat ∧
  ∃ w, (w = ASync 0 ∨ lk_stage busy_state w ≠ Outside ∨ writes busy_state w) ∧
    is_Some (lstep sample_now busy_state (Goes w)).
Proof.
  assert (∃ ch, syncs (cut_st (lk_cut busy_state)) !! 0%nat = Some (SyncEnding ch)) as [ch Hpc]
    by (eexists; vm_compute; reflexivity).
  destruct (sync_progresses sample_now 2 updater0 busy busy_state 0 (SyncEnding ch)) as (Hle & _ & Hgo);
    [intros a ms a' Hms; injection Hms as <- _; simpl; lia|exact busy_lrun|exact Hpc|].
  split; [exact Hle|]. destruct Hgo as [[Hf _]|Hw]; [discriminate|discriminate Hf|exact Hw].
Defined.
(** The sync waits for the event to leave its region. *)
Example sync_waits_for_event :
  match lstep sample_now busy_state (Goes (ASync 0)) with None => true | Some _ => false end = true ∧
  (λ s : two_routes_state, syncs (cut_st (lk_cut s))) <$>
    lrun sample_now busy_state ([Goes (ACall 0); Goes (ACall 0)] ++ replicate 3 (Goes (ASync 0))) = Some [SyncDone].
Proof. split; vm_compute; reflexivity. Qed.

(** A routing API that does not answer: the sync has set the flag and waits, so
    an event is cached, a drain polls, and the table stays as it is; the code
    sets no deadline for the requests. *)
Theorem unanswered_sync_holds_everything :
  (λ s : two_routes_state,
     (syncs (cut_st (lk_cut s)), drains (cut_st (lk_cut s)), length (u_cachedEvents (lk_shared s)),
      Size (u_routingTable (lk_shared s)),
      match lstep sample_now s (Goes (ASync 0)) with None => true | Some _ => false end)) <$>
    lrun sample_now (locked_start updater0)
      (StartsSync :: replicate 3 (Goes (ASync 0)) ++
       [StartsCall (CallsHandleEvent (mkTcpEvent mapping1 "Upsert")); StartsDrain] ++
       replicate 3 (Goes (ACall 0)) ++ replicate 30 (Goes (ADrain 0))) =
  Some ([SyncFetching], [DrainWaiting], 1%nat, 0%nat, true).
Proof. vm_compute. reflexivity. Qed.

(** The table is pruned in the middle of a merge. *)
#[local] Abbreviation sample_state := (@locked_state _ sample_api sample_configurer).
Definition table90 : RoutingTable :=
  (UpsertBackendServerKey NewRoutingTable (mkRoutingKey 90 "") info1 (- 100000 * Second)).1.
Definition updater1 : @UState _ sample_api sample_configurer := set_table table90 (start [Ok [mapping1]] []).
Definition merging_prune : list llabel :=
  [StartsSync; StartsCall (CallsPrune plain_range)] ++ replicate 3 (Goes (ASync 0)) ++ [Answers 0; Goes (ACall 0)].
Definition merging_state : sample_state :=
  default (locked_start updater1) (lrun sample_now (locked_start updater1) merging_prune).
Lemma merging_shape : (λ s : sample_state, (lk_stage s (ACall 0), length (syncs (cut_st (lk_cut s))))) <$>
  lrun sample_now (locked_start updater1) merging_prune = Some (Inside, 1%nat).
Proof. vm_compute. reflexivity. Qed.
Lemma merging_run : lrun sample_now (locked_start updater1) merging_prune = Some merging_state.
Proof. unfold merging_state. pose proof merging_shape as Hs. destruct (lrun _ _ merging_prune); [reflexivity|discriminate Hs]. Qed.

(** How many routes there are after a step. *)
Definition size_after (s : sample_state) : nat := Size (u_routingTable (lk_shared s)).
Lemma size_touches (s : sample_state) w t :
  size_after <$> goes sample_now (with_table t s) w ≠ (λ _, Size t) <$> goes sample_now s w → touches sample_now s w.
Proof. intros Hne Ht. apply Hne. rewrite (Ht t). by destruct (goes sample_now s w). Qed.
Lemma size_changes (s : sample_state) w n :
  size_after <$> goes sample_now s w = Some n → n ≠ size_after s → changes sample_now s w.
Proof.
  destruct (goes sample_now s w) as [s'|] eqn:Hg; [|done]. intros [= <-] Hne. exists s'. split; [done|].
  intros Ht. apply Hne. unfold size_after. by rewrite Ht.
Qed.
Lemma goes_some (s : sample_state) w n : size_after <$> goes sample_now s w = Some n → is_Some (goes sample_now s w).
Proof. destruct (goes sample_now s w); [by eexists|done]. Qed.

Lemma prune_races_merge : races sample_now merging_state (ASync 0) (ACall 0).
Proof.
  split; [discriminate|]. split; [apply (goes_some _ _ 2); vm_compute; reflexivity|].
  split; [apply (goes_some _ _ 0); vm_compute; reflexivity|].
  split; [apply (size_touches _ _ table90); vm_compute; discriminate|].
  split; [apply (size_touches _ _ table90); vm_compute; discriminate|].
  left. apply (size_changes _ _ 2); vm_compute; [reflexivity|discriminate].
Qed.
Lemma table_races_witness :
  (merges merging_state (ASync 0) ∧ prunes merging_state (ACall 0)) ∨ hands merging_state (ASync 0) ∨
  hands merging_state (ACall 0) ∨ prunes merging_state (ASync 0) ∨ overlap (cut_st (lk_cut merging_state)).
Proof.
  destruct (table_races sample_now updater1 merging_prune merging_state (ASync 0) (ACall 0) eq_refl merging_run
    prune_races_merge) as [[[?|?]|[[?|[? _]]|?]] _]; tauto.
Defined.

(** A drain hands the table to the configurer while an event changes it. *)
Definition draining_event : list llabel :=
  StartsDrain :: replicate 12 (Goes (ADrain 0)) ++ [StartsCall (CallsHandleEvent (mkTcpEvent mapping1 "Upsert")); Goes (ACall 0)].
Definition draining_state : sample_state :=
  default (locked_start updater1) (lrun sample_now (locked_start updater1) draining_event).
Definition handed_size (s : sample_state) : option nat := Size ∘ wr_table <$> cut_writer (lk_cut s).
Theorem drain_races_event :
  lrun sample_now (locked_start updater1) draining_event = Some draining_state ∧
  races sample_now draining_state (ADrain 0) (ACall 0).
Proof.
  assert ((λ s : sample_state, lk_stage s (ACall 0)) <$> lrun sample_now (locked_start updater1) draining_event
    = Some Inside) as Hs by (vm_compute; reflexivity).
  split; [unfold draining_state; destruct (lrun _ _ draining_event); [reflexivity|discriminate Hs]|].
  split; [discriminate|]. split; [apply (goes_some _ _ 1); vm_compute; reflexivity|].
  split; [apply (goes_some _ _ 2); vm_compute; reflexivity|].
  split; [|split; [apply (size_touches _ _ table90); vm_compute; discriminate|]].
  - intros Ht. specialize (Ht NewRoutingTable). apply (f_equal (fmap handed_size)) in Ht. vm_compute in Ht. discriminate Ht.
  - right. apply (size_changes _ _ 2); vm_compute; [reflexivity|discriminate].
Qed.

End Sample.
