(* ===== verification/Watcher.v ===== *)
(** [watcher/watcher.go]: the goroutine that subscribes to the routing API's
    event stream, and the loop that passes on events, syncs and signals. *)
From S2P Require Import Prelude GoStrings RoutingTable Updater Monitor.
#[local] Open Scope Z_scope.

Section watcher.
Context {tags : ModificationTags}.

(** * State

    Where the subscriber is: at the top of its loop, about to fetch a token,
    about to subscribe, in [es.Next()] of an event source, blocked in the send
    of an event, or gone.  Event sources are numbered in the order they are
    opened. *)
Inductive subscriber_pc :=
  | SubTop
  | SubToken
  | SubSubscribing
  | SubNext (source : nat)
  | SubSending (source : nat) (event : TcpEvent)
  | SubExited.

(** What the subscriber did: a fetch of a token, forced or not, the error of a
    subscription, a sleep. *)
Inductive attempt :=
  | FetchedToken (forceUpdate : bool)
  | Subscribed (err : option error)
  | Slept (d : Z).

(** The fields of the struct that are not clients, the variables of [Run] (the
    token flag of the subscriber, the two atomics, the event sources opened so
    far and those still open, whether the loop runs), and what was done: the
    events handed to the updater, the syncs and drains started, the drains
    ended, the interrupts sent to the process, and the attempts to subscribe,
    the latest first. *)
Record watcher := mkWatcher {
  w_subscriptionRetryInterval : Z;
  w_process : bool;
  w_pc : subscriber_pc;
  w_canUseCachedToken : bool;
  w_stopEventSource : bool;
  w_eventSource : option nat;
  w_open : list nat;
  w_opened : nat;
  w_running : bool;
  w_handled : list TcpEvent;
  w_syncs : nat;
  w_drains : nat;
  w_drained : nat;
  w_interrupts : nat;
  w_attempts : list attempt
}.

(** [New], and [Run] up to its two loops. *)
Definition Watcher_New (subscriptionRetryInterval : Z) : watcher :=
  mkWatcher subscriptionRetryInterval false SubTop true false None [] 0 true [] 0 0 0 0 [].

(** * Steps

    The steps of the subscriber carry what the calls they make return; a send
    is a rendezvous with the loop, which hands the event to [HandleEvent].
    [Drain_returned] is the end of the goroutine a [SIGUSR2] started. *)
Inductive wlabel :=
  | Sub_check
  | Sub_token (r : result string)
  | Sub_subscribe (r : result unit)
  | Sub_next (r : result TcpEvent)
  | Sub_send
  | Main_sync
  | Main_signal (sig : Z)
  | Drain_returned
  | Set_process.

Definition set_pc (pc : subscriber_pc) (w : watcher) : watcher :=
  mkWatcher (w_subscriptionRetryInterval w) (w_process w)
    pc (w_canUseCachedToken w) (w_stopEventSource w) (w_eventSource w) (w_open w) (w_opened w)
    (w_running w) (w_handled w) (w_syncs w) (w_drains w) (w_drained w) (w_interrupts w) (w_attempts w).
Definition log_attempt (a : attempt) (w : watcher) : watcher :=
  mkWatcher (w_subscriptionRetryInterval w) (w_process w)
    (w_pc w) (w_canUseCachedToken w) (w_stopEventSource w) (w_eventSource w) (w_open w) (w_opened w)
    (w_running w) (w_handled w) (w_syncs w) (w_drains w) (w_drained w) (w_interrupts w) (a :: w_attempts w).
Definition set_token_use (b : bool) (w : watcher) : watcher :=
  mkWatcher (w_subscriptionRetryInterval w) (w_process w)
    (w_pc w) b (w_stopEventSource w) (w_eventSource w) (w_open w) (w_opened w)
    (w_running w) (w_handled w) (w_syncs w) (w_drains w) (w_drained w) (w_interrupts w) (w_attempts w).
Definition close_source (source : nat) (w : watcher) : watcher :=
  mkWatcher (w_subscriptionRetryInterval w) (w_process w)
    (w_pc w) (w_canUseCachedToken w) (w_stopEventSource w) (w_eventSource w)
    (base.filter (λ s, s ≠ source) (w_open w)) (w_opened w)
    (w_running w) (w_handled w) (w_syncs w) (w_drains w) (w_drained w) (w_interrupts w) (w_attempts w).
Definition open_source (w : watcher) : watcher :=
  mkWatcher (w_subscriptionRetryInterval w) (w_process w)
    (SubNext (w_opened w)) (w_canUseCachedToken w) (w_stopEventSource w) (Some (w_opened w))
    (w_opened w :: w_open w) (S (w_opened w))
    (w_running w) (w_handled w) (w_syncs w) (w_drains w) (w_drained w) (w_interrupts w) (w_attempts w).
Definition handle (e : TcpEvent) (w : watcher) : watcher :=
  mkWatcher (w_subscriptionRetryInterval w) (w_process w)
    (w_pc w) (w_canUseCachedToken w) (w_stopEventSource w) (w_eventSource w) (w_open w) (w_opened w)
    (w_running w) (w_handled w ++ [e]) (w_syncs w) (w_drains w) (w_drained w) (w_interrupts w) (w_attempts w).
Definition spawn (syncs drains : nat) (w : watcher) : watcher :=
  mkWatcher (w_subscriptionRetryInterval w) (w_process w)
    (w_pc w) (w_canUseCachedToken w) (w_stopEventSource w) (w_eventSource w) (w_open w) (w_opened w)
    (w_running w) (w_handled w) (w_syncs w + syncs)%nat (w_drains w + drains)%nat (w_drained w) (w_interrupts w)
    (w_attempts w).
Definition stop (w : watcher) : watcher :=
  mkWatcher (w_subscriptionRetryInterval w) (w_process w)
    (w_pc w) (w_canUseCachedToken w) true (w_eventSource w) (w_open w) (w_opened w)
    false (w_handled w) (w_syncs w) (w_drains w) (w_drained w) (w_interrupts w) (w_attempts w).

(** The subscriber sleeps and goes back to the top of its loop. *)
Definition retry (w : watcher) : watcher :=
  set_pc SubTop (log_attempt (Slept (Duration_mul (w_subscriptionRetryInterval w) Second)) w).

(** The goroutine of a drain after [Drain] has returned, with an error or not. *)
Definition drain_returned (w : watcher) : watcher :=
  mkWatcher (w_subscriptionRetryInterval w) (w_process w)
    (w_pc w) (w_canUseCachedToken w) (w_stopEventSource w) (w_eventSource w) (w_open w) (w_opened w)
    (w_running w) (w_handled w) (w_syncs w) (w_drains w) (S (w_drained w))
    (if w_process w then S (w_interrupts w) else w_interrupts w) (w_attempts w).

Definition SetProcess (w : watcher) : watcher :=
  mkWatcher (w_subscriptionRetryInterval w) true
    (w_pc w) (w_canUseCachedToken w) (w_stopEventSource w) (w_eventSource w) (w_open w) (w_opened w)
    (w_running w) (w_handled w) (w_syncs w) (w_drains w) (w_drained w) (w_interrupts w) (w_attempts w).

Definition watcher_step (w : watcher) (l : wlabel) : option watcher :=
  match l, w_pc w with
  | Sub_check, SubTop => Some (set_pc (if w_stopEventSource w then SubExited else SubToken) w)
  | Sub_token r, SubToken =>
      let w := log_attempt (FetchedToken (negb (w_canUseCachedToken w))) w in
      match r with
      | Err _ => Some (retry w)
      | Ok _ => Some (set_pc SubSubscribing w)
      end
  | Sub_subscribe r, SubSubscribing =>
      match r with
      | Err e =>
          let w := log_attempt (Subscribed (Some e)) w in
          if bool_decide (e = "unauthorized") then Some (retry (set_token_use false w))
          else Some (retry (set_token_use true w))
      | Ok _ => Some (open_source (set_token_use true (log_attempt (Subscribed None) w)))
      end
  | Sub_next r, SubNext source =>
      match r with
      | Err _ => Some (set_pc SubTop (close_source source w))
      | Ok event => Some (set_pc (SubSending source event) w)
      end
  | Sub_send, SubSending source event =>
      if w_running w then Some (set_pc (SubNext source) (handle event w)) else None
  | Main_sync, _ => if w_running w then Some (spawn 1 0 w) else None
  | Main_signal sig, _ =>
      if w_running w then
        if sig =? SIGUSR2 then Some (spawn 0 1 w)
        else Some (match w_eventSource w with
          | Some source => close_source source (stop w)
          | None => stop w
          end)
      else None
  | Drain_returned, _ => if (w_drained w <? w_drains w)%nat then Some (drain_returned w) else None
  | Set_process, _ => Some (SetProcess w)
  | _, _ => None
  end.

Fixpoint watcher_run (w : watcher) (ls : list wlabel) : option watcher :=
  match ls with
  | [] => Some w
  | l :: ls' => w' ← watcher_step w l; watcher_run w' ls'
  end.

(** * Specification *)

(** The events the event sources gave, and the one being sent. *)
Definition events_read (ls : list wlabel) : list TcpEvent :=
  omap (λ l, match l with Sub_next (Ok e) => Some e | _ => None end) ls.
Definition in_flight (w : watcher) : list TcpEvent :=
  match w_pc w with SubSending _ e => [e] | _ => [] end.

(** The last subscription, latest attempt first, was refused. *)
Fixpoint last_refused (log : list attempt) : bool :=
  match log with
  | [] => false
  | Subscribed err :: _ => bool_decide (err = Some "unauthorized")
  | (FetchedToken _ | Slept _) :: log' => last_refused log'
  end.
(** Every fetch of a token is forced exactly when the subscription before it
    was refused. *)
Fixpoint well_forced (log : list attempt) : Prop :=
  match log with
  | [] => True
  | FetchedToken forced :: log' => forced = last_refused log' ∧ well_forced log'
  | (Subscribed _ | Slept _) :: log' => well_forced log'
  end.

(** An attempt that failed is followed by a sleep of the given duration, and
    only the loss of a stream by another attempt at once. *)
Fixpoint well_spaced (d : Z) (log : list attempt) : Prop :=
  match log with
  | [] => True
  | FetchedToken _ :: log' =>
      match log' with [] | Slept _ :: _ | Subscribed None :: _ => True | _ => False end ∧ well_spaced d log'
  | Subscribed _ :: log' =>
      match log' with FetchedToken _ :: _ => True | _ => False end ∧ well_spaced d log'
  | Slept d' :: log' =>
      d' = d ∧ match log' with FetchedToken _ :: _ | Subscribed (Some _) :: _ => True | _ => False end ∧
      well_spaced d log'
  end.
(** What the subscriber did last fits the place where it is. *)
Definition spaced_pc (pc : subscriber_pc) (log : list attempt) : Prop :=
  match pc, log with
  | (SubTop | SubToken), ([] | Slept _ :: _ | Subscribed None :: _) => True
  | SubSubscribing, FetchedToken _ :: _ => True
  | (SubNext _ | SubSending _ _), Subscribed None :: _ => True
  | SubExited, _ => True
  | _, _ => False
  end.

(** The drains that ended, and the steps after [SetProcess] was called. *)
Definition is_drain_end (l : wlabel) : bool := match l with Drain_returned => true | _ => false end.
Definition drains_ended (ls : list wlabel) : nat := length (base.filter (λ l, is_drain_end l) ls).
Fixpoint after_set (ls : list wlabel) : list wlabel :=
  match ls with
  | [] => []
  | Set_process :: ls' => ls'
  | _ :: ls' => after_set ls'
  end.

(** The subscriptions among some steps. *)
Definition is_subscription (l : wlabel) : bool :=
  match l with Sub_subscribe _ => true | _ => false end.
Definition subscriptions (ls : list wlabel) : nat := length (base.filter (λ l, is_subscription l) ls).

(** * Facts *)

Lemma events_read_app ls ls' : events_read (ls ++ ls') = events_read ls ++ events_read ls'.
Proof. apply omap_app. Qed.

Lemma watcher_step_events w l w' :
  watcher_step w l = Some w' →
  (w_handled w ++ in_flight w) ++ events_read [l] = w_handled w' ++ in_flight w'.
Proof.
  unfold watcher_step, in_flight. destruct w as [interval proc pc cached stopped source opens opened running handled nsyncs ndrains ndrained nints log]; simpl.
  destruct l as [|[]|[|e]|[]| | |sig| |], pc; intros Hs; try done.
  all: repeat case_match; simplify_eq/=; by rewrite ?app_nil_r.
Qed.

Lemma events_handled w0 ls w :
  watcher_run w0 ls = Some w →
  (w_handled w0 ++ in_flight w0) ++ events_read ls = w_handled w ++ in_flight w.
Proof.
  revert w0. induction ls as [|l ls IH]; intros w0 Hr; simpl in Hr; [simplify_eq; apply app_nil_r|].
  destruct (watcher_step w0 l) as [w1|] eqn:Hs; [|done]. simpl in Hr.
  rewrite <-(IH _ Hr), <-(watcher_step_events _ _ _ Hs).
  change (l :: ls) with ([l] ++ ls). by rewrite events_read_app, (assoc_L (++)).
Qed.

Lemma watcher_step_attempts w l w' :
  watcher_step w l = Some w' →
  negb (w_canUseCachedToken w) = last_refused (w_attempts w) → well_forced (w_attempts w) →
  negb (w_canUseCachedToken w') = last_refused (w_attempts w') ∧ well_forced (w_attempts w').
Proof.
  unfold watcher_step. destruct w as [interval proc pc cached stopped source opens opened running handled nsyncs ndrains ndrained nints log]; simpl.
  destruct l as [|[]|[|e]|[]| | |sig| |], pc; intros Hs Hr Hw; try done.
  all: repeat case_match; simplify_eq/=; try done.
  all: split; [|done]; rewrite ?bool_decide_eq_true, ?bool_decide_eq_false in *; symmetry.
  - apply bool_decide_eq_true. by subst.
  - apply bool_decide_eq_false. by intros [= ->].
Qed.

Lemma watcher_step_spaced d w l w' :
  watcher_step w l = Some w' → Duration_mul (w_subscriptionRetryInterval w) Second = d →
  spaced_pc (w_pc w) (w_attempts w) ∧ well_spaced d (w_attempts w) →
  Duration_mul (w_subscriptionRetryInterval w') Second = d ∧
  spaced_pc (w_pc w') (w_attempts w') ∧ well_spaced d (w_attempts w').
Proof.
  unfold watcher_step. destruct w as [interval proc pc cached stopped source opens opened running handled nsyncs ndrains ndrained nints log]; simpl.
  destruct l as [|[]|[|e]|[]| | |sig| |], pc; intros Hs Hd [Hp Hw]; try done.
  all: destruct log as [|[|[]|] log]; try done.
  all: repeat case_match; simplify_eq/=; try done; tauto.
Qed.

Lemma watcher_step_drains w l w' :
  watcher_step w l = Some w' →
  w_drained w' = (w_drained w + drains_ended [l])%nat ∧
  w_interrupts w' = (w_interrupts w + if w_process w then drains_ended [l] else 0)%nat ∧
  ((w_drained w ≤ w_drains w)%nat → (w_drained w' ≤ w_drains w')%nat) ∧
  w_process w' = match l with Set_process => true | _ => w_process w end.
Proof.
  unfold watcher_step. destruct w as [interval proc pc cached stopped source opens opened running handled nsyncs ndrains ndrained nints log]; simpl.
  destruct l as [|[]|[|e]|[]| | |sig| |], pc; intros Hs; try done.
  all: repeat case_match; simplify_eq/=; unfold drains_ended; simpl;
    rewrite ?Nat.ltb_lt in *; repeat split; (done || lia).
Qed.

(** After the stop flag is set a subscriber at the top of its loop subscribes
    no more, and any other one once at most. *)
Definition may_subscribe (pc : subscriber_pc) : nat :=
  match pc with SubToken | SubSubscribing => 1 | _ => 0 end.
Lemma watcher_step_stopped w l w' :
  watcher_step w l = Some w' → w_stopEventSource w = true →
  w_stopEventSource w' = true ∧ (subscriptions [l] + may_subscribe (w_pc w') ≤ may_subscribe (w_pc w))%nat.
Proof.
  unfold watcher_step. destruct w as [interval proc pc cached stopped source opens opened running handled nsyncs ndrains ndrained nints log]; simpl.
  destruct l as [|[]|[|e]|[]| | |sig| |], pc; intros Hs Hstop; try done.
  all: subst; repeat case_match; simplify_eq/=; split; (done || (unfold subscriptions; simpl; lia)).
Qed.

(** * Properties *)

(** C27. Every event an event source gives is passed to [HandleEvent] once and
    in order, whatever else happens in between; at most one of them is still
    on its way. *)
Theorem events_handled_in_order (interval : Z) (ls : list wlabel) (w : watcher) :
  watcher_run (Watcher_New interval) ls = Some w →
  events_read ls = w_handled w ++ in_flight w.
Proof.
  apply (events_handled (Watcher_New interval)).
Qed.

(** C28. The subscriber fetches a token by force exactly when its last
    subscription was refused as unauthorized, and uses the cached token
    otherwise. *)
Theorem tokens_forced_when_refused (interval : Z) (ls : list wlabel) (w : watcher) :
  watcher_run (Watcher_New interval) ls = Some w → well_forced (w_attempts w).
Proof.
  assert (∀ ls w0 w, negb (w_canUseCachedToken w0) = last_refused (w_attempts w0) →
    well_forced (w_attempts w0) → watcher_run w0 ls = Some w → well_forced (w_attempts w)) as Hgen.
  { clear ls w. induction ls as [|l ls IH]; intros w0 w H0 Hw Hr; simpl in Hr; [by simplify_eq|].
    destruct (watcher_step w0 l) as [w1|] eqn:Hs; [|done].
    destruct (watcher_step_attempts _ _ _ Hs H0 Hw). by eapply IH. }
  by apply Hgen.
Qed.

(** After a token it could not fetch or a subscription that failed, the
    subscriber sleeps for the retry interval before it tries again; only a
    stream that was lost is opened anew at once. *)
Theorem retries_are_spaced (interval : Z) (ls : list wlabel) (w : watcher) :
  watcher_run (Watcher_New interval) ls = Some w →
  well_spaced (Duration_mul interval Second) (w_attempts w).
Proof.
  assert (∀ ls w0 w, Duration_mul (w_subscriptionRetryInterval w0) Second = Duration_mul interval Second →
    spaced_pc (w_pc w0) (w_attempts w0) ∧ well_spaced (Duration_mul interval Second) (w_attempts w0) →
    watcher_run w0 ls = Some w → well_spaced (Duration_mul interval Second) (w_attempts w)) as Hgen.
  { clear ls w. induction ls as [|l ls IH]; intros w0 w Hd Hw Hr; simpl in Hr; [simplify_eq; by destruct Hw|].
    destruct (watcher_step w0 l) as [w1|] eqn:Hs; [|done].
    destruct (watcher_step_spaced _ _ _ _ Hs Hd Hw) as (Hd1 & Hw1). by eapply IH. }
  by apply Hgen.
Qed.

(** A drain ends the process: the goroutine of every drain that ends after
    [SetProcess] was called interrupts the process, one that ends before does
    not, and nothing else interrupts it. *)
Theorem drains_interrupt (interval : Z) (ls : list wlabel) (w : watcher) :
  watcher_run (Watcher_New interval) ls = Some w →
  (w_drained w ≤ w_drains w)%nat ∧ w_drained w = drains_ended ls ∧
  w_interrupts w = drains_ended (after_set ls).
Proof.
  assert (∀ ls w0 w, watcher_run w0 ls = Some w → (w_drained w0 ≤ w_drains w0)%nat →
    (w_drained w ≤ w_drains w)%nat ∧ w_drained w = (w_drained w0 + drains_ended ls)%nat ∧
    w_interrupts w = (w_interrupts w0 + drains_ended (if w_process w0 then ls else after_set ls))%nat) as Hgen.
  { clear ls w. induction ls as [|l ls IH]; intros w0 w Hr Hle; simpl in Hr.
    - simplify_eq. destruct (w_process w); unfold drains_ended; simpl; repeat split; (done || lia).
    - destruct (watcher_step w0 l) as [w1|] eqn:Hs; [|done].
      destruct (watcher_step_drains _ _ _ Hs) as (H1 & H2 & H3 & H4).
      destruct (IH _ _ Hr (H3 Hle)) as (H5 & H6 & H7). rewrite H1 in H6. rewrite H2, H4 in H7.
      change (l :: ls) with ([l] ++ ls). unfold drains_ended in *. rewrite filter_app, length_app.
      split; [done|]. split; [lia|]. destruct (w_process w0).
      + rewrite filter_app, length_app. destruct l; lia.
      + destruct l; simpl in *; lia. }
  intros Hr. by apply (Hgen _ (Watcher_New interval)).
Qed.

(** Once the watcher has been told to stop, the subscriber subscribes at
    most once more, and not at all if it was not already past the check at the
    top of its loop. *)
Theorem stop_ends_subscribing (ls : list wlabel) (w w' : watcher) :
  watcher_run w ls = Some w' → w_stopEventSource w = true →
  (subscriptions ls ≤ may_subscribe (w_pc w))%nat.
Proof.
  revert w. induction ls as [|l ls IH]; intros w Hr Hstop; simpl in Hr; [unfold subscriptions; simpl; lia|].
  destruct (watcher_step w l) as [w1|] eqn:Hs; [|done].
  destruct (watcher_step_stopped _ _ _ Hs Hstop) as [Hstop1 Hle].
  specialize (IH _ Hr Hstop1). unfold subscriptions in *.
  change (l :: ls) with ([l] ++ ls). rewrite filter_app, length_app. lia.
Qed.

End watcher.

(** * Concrete runs *)
Module Sample.
Import RoutingTable.Sample Updater.Sample.

Definition ev1 : TcpEvent := mkTcpEvent mapping1 "Upsert".
Definition ev2 : TcpEvent := mkTcpEvent mapping2 "Upsert".

(** Refused once, then two events, a sync in between, and a lost stream. *)
Definition session : list wlabel :=
  [Sub_check; Sub_token (Ok "t1"); Sub_subscribe (Err "unauthorized");
   Sub_check; Sub_token (Ok "t2"); Sub_subscribe (Ok tt);
   Sub_next (Ok ev1); Main_sync; Sub_send; Sub_next (Ok ev2); Main_signal SIGUSR2; Sub_send;
   Sub_next (Err "EOF"); Sub_check].
Definition session_end : watcher :=
  Eval vm_compute in default (Watcher_New 5) (watcher_run (Watcher_New 5) session).
Lemma session_run : watcher_run (Watcher_New 5) session = Some session_end.
Proof. vm_compute. reflexivity. Qed.

Lemma events_handled_in_order_witness :
  events_read session = [ev1; ev2] ∧ w_handled session_end ++ in_flight session_end = [ev1; ev2].
Proof.
  split; [reflexivity|]. rewrite <-(events_handled_in_order 5 session session_end session_run). reflexivity.
Defined.

Lemma tokens_forced_when_refused_witness :
  w_attempts session_end =
    [Subscribed None; FetchedToken true; Slept (5 * Second); Subscribed (Some "unauthorized");
     FetchedToken false] ∧
  well_forced (w_attempts session_end).
Proof.
  split; [reflexivity|]. apply (tokens_forced_when_refused 5 session session_end session_run).
Defined.

Lemma retries_are_spaced_witness : well_spaced (5 * Second) (w_attempts session_end).
Proof. exact (retries_are_spaced 5 session session_end session_run). Defined.

(** A drain requested and ended before [SetProcess] does not end the process;
    the next one does. *)
Definition drained : list wlabel :=
  [Main_signal SIGUSR2; Drain_returned; Set_process; Main_signal SIGUSR2; Drain_returned; Main_signal 2].
Definition drained_end : watcher :=
  Eval vm_compute in default (Watcher_New 5) (watcher_run (Watcher_New 5) drained).
Lemma drains_interrupt_witness : w_drained drained_end = 2%nat ∧ w_interrupts drained_end = 1%nat.
Proof.
  destruct (drains_interrupt 5 drained drained_end) as (_ & Hd & Hi); [vm_compute; reflexivity|].
  rewrite Hd, Hi. split; reflexivity.
Defined.

(** A stop between the check and the subscription: the late event source is
    opened and stays open. *)
Definition late : list wlabel := [Sub_check; Main_signal 15].
Definition after_stop : list wlabel := [Sub_token (Ok "t"); Sub_subscribe (Ok tt); Sub_next (Ok ev1)].
Definition late_state : watcher :=
  Eval vm_compute in default (Watcher_New 5) (watcher_run (Watcher_New 5) late).
Definition late_end : watcher :=
  Eval vm_compute in default (Watcher_New 5) (watcher_run late_state after_stop).
Lemma stop_ends_subscribing_witness : subscriptions after_stop = 1%nat ∧ (subscriptions after_stop ≤ 1)%nat.
Proof.
  split; [reflexivity|]. apply (stop_ends_subscribing after_stop late_state late_end); vm_compute; reflexivity.
Defined.
Example late_source_stays_open :
  w_running late_end = false ∧ w_open late_end = [0%nat] ∧ watcher_step late_end Sub_send = None.
Proof. vm_compute. repeat split. Qed.

End Sample.
