(* ===== verification/Runners.v ===== *)
(** [syncer/syncer.go] and the loop of
    [metrics_reporter/metrics_reporter.go]: the two timers of the process. *)
From S2P Require Import Prelude GoStrings RoutingTable Monitor Csv Metrics.
#[local] Open Scope Z_scope.

(** What the [select] of a timer's loop receives. *)
Inductive timer_event (T : Type) : Type :=
  | Tick (t : T)
  | Signalled (sig : Z).
Arguments Tick {T} _.
Arguments Signalled {T} _.

(** The events that come before the first signal that stops a loop, and
    whether there is one. *)
Fixpoint before_stop {T} (es : list (timer_event T)) : list T :=
  match es with
  | [] => []
  | Tick t :: es' => t :: before_stop es'
  | Signalled sig :: es' => if sig =? SIGUSR2 then before_stop es' else []
  end.
Definition stops {T} (e : timer_event T) : bool :=
  match e with Tick _ => false | Signalled sig => negb (sig =? SIGUSR2) end.

(** * The syncer *)
Module Syncer.

(** How many times the channel took a sync and how many times it did not, and
    whether the ticker and the loop run. *)
Record syncer := mkSyncer {
  sy_sent : nat;
  sy_dropped : nat;
  sy_ticking : bool;
  sy_running : bool
}.

(** The send of [sync]: [receiving] tells whether the watcher waits in its
    [select], as the channel has no buffer. *)
Definition sync (receiving : bool) (s : syncer) : syncer :=
  if receiving then mkSyncer (S (sy_sent s)) (sy_dropped s) (sy_ticking s) (sy_running s)
  else mkSyncer (sy_sent s) (S (sy_dropped s)) (sy_ticking s) (sy_running s).

(** [Run] up to its loop: it is started, asks for the first sync and
    makes its ticker.  Then one round of the loop. *)
Definition syncer_new : syncer := mkSyncer 0 0 false true.
Definition syncer_ask (receiving : bool) (s : syncer) : syncer :=
  let s := sync receiving s in mkSyncer (sy_sent s) (sy_dropped s) true (sy_running s).
Definition syncer_start (receiving : bool) : syncer := syncer_ask receiving syncer_new.
Definition syncer_round (s : syncer) (e : timer_event bool) : syncer :=
  if sy_running s then
    match e with
    | Tick receiving => sync receiving s
    | Signalled sig =>
        if negb (sig =? SIGUSR2) then mkSyncer (sy_sent s) (sy_dropped s) false false else s
    end
  else s.
Definition syncer_Run (receiving : bool) (es : list (timer_event bool)) : syncer :=
  foldl syncer_round (syncer_start receiving) es.

(** The struct and [Run] as a whole: the ticker of the clock may panic. *)
Record Syncer := mkSyncerStruct { syncInterval : Z }.
Definition Syncer_New (syncInterval : Z) : Syncer := mkSyncerStruct syncInterval.
Definition Syncer_Run (NewTicker : Z → option string) (s : Syncer) (receiving : bool) (es : list (timer_event bool)) :
    outcome syncer :=
  match NewTicker (syncInterval s) with
  | Some what => Panicked what
  | None => Returned (syncer_Run receiving es)
  end.

Definition count (b : bool) (l : list bool) : nat := length (base.filter (λ x, x = b) l).

Lemma count_cons b x l : count b (x :: l) = ((if eqb x b then 1 else 0) + count b l)%nat.
Proof. unfold count. rewrite filter_cons. by destruct x, b. Qed.

Lemma syncer_rounds es s :
  sy_running s = true → sy_ticking s = true →
  foldl syncer_round s es =
  let running := negb (existsb stops es) in
  mkSyncer (sy_sent s + count true (before_stop es)) (sy_dropped s + count false (before_stop es))
    running running.
Proof.
  assert (∀ s es, sy_running s = false → foldl syncer_round s es = s) as Hstopped.
  { clear s es. intros s es Hs. induction es as [|e es IH]; [done|]. simpl. unfold syncer_round at 2. by rewrite Hs. }
  revert s. induction es as [|e es IH]; intros [n d tk r] Hr Ht; simpl in Hr, Ht; subst r tk.
  { unfold count. cbn. by rewrite !Nat.add_0_r. }
  cbn [foldl]. destruct e as [[]|sig]; cbn [syncer_round sy_running sync].
  - rewrite IH by done. cbn [before_stop existsb stops orb sync sy_sent sy_dropped]. rewrite !count_cons.
    cbn [eqb]. f_equal; lia.
  - rewrite IH by done. cbn [before_stop existsb stops orb sync sy_sent sy_dropped]. rewrite !count_cons.
    cbn [eqb]. f_equal; lia.
  - cbn [before_stop existsb stops]. destruct (sig =? SIGUSR2); cbn [negb orb].
    + by rewrite IH.
    + rewrite Hstopped by done. unfold count. cbn. by rewrite !Nat.add_0_r.
Qed.

(** C30. The syncer asks for one sync at its start and one at every tick until
    a signal other than [SIGUSR2] stops it and its ticker; it never waits for
    the watcher: a sync the watcher does not wait for is dropped, the first one
    included, and the loop goes on. *)
Theorem syncer_never_blocks (receiving : bool) (es : list (timer_event bool)) :
  let s := syncer_Run receiving es in
  let asked := receiving :: before_stop es in
  sy_sent s = count true asked ∧ sy_dropped s = count false asked ∧
  sy_running s = negb (existsb stops es) ∧ sy_ticking s = sy_running s.
Proof.
  cbv zeta. unfold syncer_Run. rewrite syncer_rounds; [|by destruct receiving..]. rewrite !count_cons.
  by destruct receiving.
Qed.

(** A first sync that the watcher does not wait for yet. *)
Example first_sync_dropped : syncer_Run false [] = mkSyncer 0 1 true true.
Proof. reflexivity. Qed.

End Syncer.

(** * The metrics reporter *)
Module Reporter.

Section reporter.
Context (range_proxies : range_order RoutingKey ProxyStats) (range_routes : range_order string Z).

(** What was emitted so far, and what became of the goroutine. *)
Inductive phase := Looping | Finished | Crashed (what : string) | Stuck.
Record reporter := mkReporter { rp_emitted : list sent; rp_phase : phase }.

Definition reporter_round (r : reporter) (e : timer_event connection) : reporter :=
  match rp_phase r with
  | Looping =>
      match e with
      | Tick conn =>
          match emitStats range_proxies range_routes conn with
          | Returned out => mkReporter (rp_emitted r ++ out) Looping
          | Panicked what => mkReporter (rp_emitted r) (Crashed what)
          | Blocked => mkReporter (rp_emitted r) Stuck
          end
      | Signalled sig =>
          if negb (sig =? SIGUSR2) then mkReporter (rp_emitted r) Finished else r
      end
  | _ => r
  end.
Definition reporter_Run (es : list (timer_event connection)) : reporter :=
  foldl reporter_round (mkReporter [] Looping) es.

(** The struct and [Run] as a whole: the ticker of the clock may panic, and a
    tick dials. *)
Record MetricsReporter := mkMetricsReporter { emitInterval : Z; haproxyClient : HaproxyStatsClient }.
Definition NewMetricsReporter (haproxyClient : HaproxyStatsClient) (interval : Z) : MetricsReporter :=
  mkMetricsReporter interval haproxyClient.
Definition dialled (r : MetricsReporter) (e : timer_event dialler) : timer_event connection :=
  match e with Tick d => Tick (dial (haproxyClient r) d) | Signalled sig => Signalled sig end.
Definition Reporter_Run (NewTicker : Z → option string) (r : MetricsReporter) (es : list (timer_event dialler)) :
    outcome reporter :=
  match NewTicker (emitInterval r) with
  | Some what => Panicked what
  | None => Returned (reporter_Run (dialled r <$> es))
  end.

(** What one answer of HAProxy adds. *)
Definition emitted_for (conn : connection) : list sent :=
  match emitStats range_proxies range_routes conn with Returned out => out | _ => [] end.

Lemma reporter_over es r : rp_phase r ≠ Looping → foldl reporter_round r es = r.
Proof.
  intros Hr. induction es as [|e es IH]; [done|]. simpl. unfold reporter_round at 2.
  by destruct (rp_phase r).
Qed.

Lemma reporter_answered es out :
  Forall (λ conn, ∃ o, emitStats range_proxies range_routes conn = Returned o) (before_stop es) →
  foldl reporter_round (mkReporter out Looping) es =
  mkReporter (out ++ (before_stop es ≫= emitted_for)) (if existsb stops es then Finished else Looping).
Proof.
  revert out. induction es as [|e es IH]; intros out Hall; [by rewrite app_nil_r|].
  cbn [foldl]. destruct e as [conn|sig]; unfold reporter_round at 2; cbn [rp_phase rp_emitted].
  - cbn [before_stop] in Hall. apply Forall_cons in Hall as [[o Ho] Hall]. rewrite Ho.
    rewrite IH by done. cbn. unfold emitted_for at 2. rewrite Ho. by rewrite (assoc_L (++)).
  - cbn [before_stop existsb stops] in *. destruct (sig =? SIGUSR2); cbn [negb orb]; [by apply IH|].
    rewrite reporter_over by done. by rewrite app_nil_r.
Qed.

(** As long as HAProxy's answers can be read, the reporter emits the
    metrics of each tick in order, and ends at the first signal other than
    [SIGUSR2]. *)
Theorem reporter_emits (es : list (timer_event connection)) :
  Forall (λ conn, ∃ out, emitStats range_proxies range_routes conn = Returned out) (before_stop es) →
  reporter_Run es = mkReporter (before_stop es ≫= emitted_for) (if existsb stops es then Finished else Looping).
Proof. intros Hall. unfold reporter_Run. by rewrite reporter_answered. Qed.

(** An answer that never ends stops the reporter for good: whatever comes
    later, no metric is emitted any more and no signal ends the goroutine. *)
Theorem unanswered_reporter_is_stuck (es later : list (timer_event connection)) (conn : connection) :
  Forall (λ c, ∃ out, emitStats range_proxies range_routes c = Returned out) (before_stop es) →
  existsb stops es = false →
  emitStats range_proxies range_routes conn = Blocked →
  reporter_Run (es ++ Tick conn :: later) = mkReporter (before_stop es ≫= emitted_for) Stuck.
Proof.
  intros Hall Hstop Hb. unfold reporter_Run. rewrite foldl_app, reporter_answered, Hstop by done.
  cbn [foldl]. unfold reporter_round at 2. cbn [rp_phase rp_emitted]. rewrite Hb. by apply reporter_over.
Qed.

End reporter.

(** ** Concrete runs *)
Section runs.
Context (range_proxies : range_order RoutingKey ProxyStats) (range_routes : range_order string Z).

Definition refused : connection := mkConnection (Some "connection refused") None [].
Definition hung : connection := mkConnection None None [("# pxname", None)].

Lemma refused_returns : emitStats range_proxies range_routes refused = Returned [].
Proof. reflexivity. Qed.
Lemma hung_blocks : emitStats range_proxies range_routes hung = Blocked.
Proof. reflexivity. Qed.

End runs.

Definition no_proxies : range_order RoutingKey ProxyStats := λ _, [].
Definition no_routes : range_order string Z := λ _, [].

Lemma reporter_emits_witness :
  reporter_Run no_proxies no_routes [Tick refused; Signalled SIGUSR2; Signalled 15; Tick hung] = mkReporter [] Finished.
Proof.
  apply (reporter_emits no_proxies no_routes [Tick refused; Signalled SIGUSR2; Signalled 15; Tick hung]).
  constructor; [|constructor]. exists []. reflexivity.
Defined.

Lemma unanswered_reporter_is_stuck_witness :
  reporter_Run no_proxies no_routes [Tick refused; Tick hung; Signalled 15] = mkReporter [] Stuck.
Proof.
  apply (unanswered_reporter_is_stuck no_proxies no_routes [Tick refused] [Signalled 15] hung);
    [|reflexivity|reflexivity].
  constructor; [|constructor]. exists []. reflexivity.
Defined.

End Reporter.
