(* ===== verification/Reaper.v ===== *)
(** [main.go]: the goroutine that reaps child processes, beside the wait of
    [script_runner.go] for the reloader. *)
From S2P Require Import Prelude.
#[local] Open Scope Z_scope.

(** * Children

    What the kernel keeps of the children of the process, as [wait] and
    [SIGCHLD] are documented: a child runs, or has exited and waits to be
    reaped.  [signalled] is the channel of the reaper, which holds one signal;
    a signal that finds it full is dropped.  [waited] lists what the waits for
    a reloader returned, the latest first. *)
Inductive child := Running | Exited (err : option error).
Record processes := mkProcesses {
  children : gmap Z child;
  signalled : bool;
  waited : list (Z * option error)
}.
Definition no_processes : processes := mkProcesses ∅ false [].

(** A child starts or exits; the reaper receives a signal and [Wait4] gives it
    a child that has exited, or none; [CombinedOutput] waits for its child. *)
Inductive plabel :=
  | Starts (pid : Z)
  | Exits (pid : Z) (err : option error)
  | Reaps (pid : option Z)
  | Waits (pid : Z).

Definition is_zombie (c : child) : bool := match c with Exited _ => true | Running => false end.
Definition zombies (m : gmap Z child) : gmap Z child := filter (λ kv, is_zombie kv.2 = true) m.

(** One round of the reaper's loop: it takes the signal from its channel and
    asks [Wait4] for any child without waiting; [pid] is the child it is given,
    if one has exited. *)
Definition reap (pid : option Z) (s : processes) : option processes :=
  if signalled s then
    match pid with
    | Some pid =>
        match children s !! pid with
        | Some (Exited _) => Some (mkProcesses (delete pid (children s)) false (waited s))
        | _ => None
        end
    | None =>
        if bool_decide (zombies (children s) = ∅) then Some (mkProcesses (children s) false (waited s)) else None
    end
  else None.

Section reaper.
(** The error of a wait for a child that is gone. *)
Context (ECHILD : error).

Definition pstep (s : processes) (l : plabel) : option processes :=
  match l with
  | Starts pid =>
      match children s !! pid with
      | Some _ => None
      | None => Some (mkProcesses (<[pid := Running]> (children s)) (signalled s) (waited s))
      end
  | Exits pid err =>
      match children s !! pid with
      | Some Running => Some (mkProcesses (<[pid := Exited err]> (children s)) true (waited s))
      | _ => None
      end
  | Reaps pid => reap pid s
  | Waits pid =>
      match children s !! pid with
      | Some Running => None
      | Some (Exited err) => Some (mkProcesses (delete pid (children s)) (signalled s) ((pid, err) :: waited s))
      | None => Some (mkProcesses (children s) (signalled s) ((pid, Some ECHILD) :: waited s))
      end
  end.
Fixpoint prun (s : processes) (ls : list plabel) : option processes :=
  match ls with
  | [] => Some s
  | l :: ls' => s' ← pstep s l; prun s' ls'
  end.

(** ** When exits do not crowd *)

(** No child exits while a signal is waiting. *)
Fixpoint spaced (s : processes) (ls : list plabel) : Prop :=
  match ls with
  | [] => True
  | l :: ls' =>
      match l with Exits _ _ => signalled s = false | _ => True end ∧
      match pstep s l with Some s' => spaced s' ls' | None => True end
  end.
(** No child is waited for but by the reaper. *)
Definition only_reaped (ls : list plabel) : Prop := Forall (λ l, match l with Waits _ => False | _ => True end) ls.

Definition zombies_bound (s : processes) : Prop :=
  (size (zombies (children s)) ≤ if signalled s then 1 else 0)%nat.

Lemma zombies_insert_running m pid : m !! pid = None → zombies (<[pid := Running]> m) = zombies m.
Proof. intros Hm. unfold zombies. rewrite (map_filter_insert_False (λ kv : Z * child, is_zombie kv.2 = true)) by done.
  by rewrite delete_id.
Qed.
Lemma zombies_insert_exited m pid err :
  (size (zombies (<[pid := Exited err]> m)) ≤ S (size (zombies m)))%nat.
Proof.
  unfold zombies. rewrite (map_filter_insert_True (λ kv : Z * child, is_zombie kv.2 = true)) by done.
  rewrite map_size_insert. case_match; simpl; lia.
Qed.
Lemma zombies_delete m pid err :
  m !! pid = Some (Exited err) → S (size (zombies (delete pid m))) = size (zombies m).
Proof.
  intros Hm. unfold zombies. rewrite map_filter_delete.
  rewrite map_size_delete_Some by (exists (Exited err); by apply map_lookup_filter_Some_2).
  assert (size (filter (λ kv : Z * child, is_zombie kv.2 = true) m) ≠ 0%nat); [|lia].
  rewrite map_size_ne_0_lookup. exists pid. exists (Exited err). by apply map_lookup_filter_Some_2.
Qed.

Lemma pstep_bound s l s' :
  pstep s l = Some s' → match l with Exits _ _ => signalled s = false | Waits _ => False | _ => True end →
  zombies_bound s → zombies_bound s'.
Proof.
  unfold zombies_bound. destruct l as [pid|pid err|[pid|]|pid]; simpl; intros Hs Hl Hb.
  - destruct (children s !! pid) eqn:Hc; simplify_eq. simpl. by rewrite zombies_insert_running.
  - destruct (children s !! pid) as [[]|]; simplify_eq. simpl.
    pose proof (zombies_insert_exited (children s) pid err). rewrite Hl in Hb. lia.
  - unfold reap in Hs. destruct (signalled s); [|done].
    destruct (children s !! pid) as [[|err]|] eqn:Hc; simplify_eq. simpl. apply zombies_delete in Hc. lia.
  - unfold reap in Hs. destruct (signalled s); [|done]. case_bool_decide as Hz; simplify_eq. simpl.
    rewrite Hz. by rewrite map_size_empty.
  - done.
Qed.

(** Reaping keeps up when exits do not crowd: if no child exits while the
    signal of another one is waiting, then after the reaper has taken its
    signal no dead child is left, and otherwise at most one. *)
Theorem reaper_keeps_up (ls : list plabel) (s : processes) :
  only_reaped ls → spaced no_processes ls → prun no_processes ls = Some s →
  (size (zombies (children s)) ≤ if signalled s then 1 else 0)%nat.
Proof.
  assert (∀ s0, zombies_bound s0 → only_reaped ls → spaced s0 ls → prun s0 ls = Some s → zombies_bound s) as Hgen.
  { induction ls as [|l ls IH]; intros s0 Hb Ho Hsp Hr; simpl in *; [by simplify_eq|].
    apply Forall_cons in Ho as [Hl Ho]. destruct Hsp as [He Hsp].
    destruct (pstep s0 l) as [s1|] eqn:Hs; [|done]. eapply IH; [|done|exact Hsp|exact Hr].
    eapply pstep_bound; [exact Hs| |done]. by destruct l. }
  intros. apply (Hgen no_processes); [|done..]. unfold zombies_bound. simpl.
  assert (zombies ∅ = ∅) as -> by apply map_filter_empty. by rewrite map_size_empty.
Qed.

End reaper.

(** * Concrete runs *)
Module Sample.

Definition echild : error := "waitid: no child processes".

(** An orphan exits and is reaped while the reloader runs. *)
Definition only_orphans : list plabel := [Starts 7; Starts 8; Exits 7 None; Reaps (Some 7); Exits 8 (Some "exit status 1")].
Definition orphans_end : processes := default no_processes (prun echild no_processes only_orphans).
Lemma orphans_run : prun echild no_processes only_orphans = Some orphans_end.
Proof. vm_compute. reflexivity. Qed.

Lemma reaper_keeps_up_witness : (size (zombies (children orphans_end)) ≤ 1)%nat.
Proof.
  apply (reaper_keeps_up echild only_orphans orphans_end); [|vm_compute; tauto|exact orphans_run].
  unfold only_reaped, only_orphans. repeat (apply List.Forall_cons; [exact I|]). apply List.Forall_nil.
Defined.

Definition with_reloader : processes := mkProcesses {[ 8 := Running ]} false [].
(** The reaper takes the reloader before the wait for it: the reload is an
    error though the reloader succeeded. *)
Theorem reaper_steals_status :
  waited <$> prun echild with_reloader [Exits 8 None; Reaps (Some 8); Waits 8] = Some [(8, Some echild)].
Proof. vm_compute. reflexivity. Qed.

(** Two children exit before the reaper has taken the signal of the first: one
    stays dead and no signal is left for it. *)
Theorem crowded_exits_leave_a_zombie :
  (λ s, (signalled s, size (zombies (children s)))) <$>
    prun echild no_processes [Starts 7; Starts 8; Exits 7 None; Exits 8 None; Reaps (Some 7)] = Some (false, 1%nat).
Proof. vm_compute. reflexivity. Qed.

End Sample.
