(* ===== verification/Main.v ===== *)
(** [main.go]: the start of the process, from the flags to the group of
    goroutines. *)
From S2P Require Import Prelude GoStrings RoutingTable HAProxyConfig Config OS FileUtils Monitor.
From S2P Require Import Marshaller MarshallerCorrect Configurer Updater System PortChecker.
#[local] Open Scope Z_scope.

(** * Flags

    Durations in nanoseconds; [statsCollectionInterval], [syncInterval] and
    the like are handed on to the timers. *)
Record Flags := mkFlags {
  tcpLoadBalancer : string;
  tcpLoadBalancerBaseCfg : string;
  tcpLoadBalancerCfg : string;
  tcpLoadBalancerStatsUnixSocket : string;
  subscriptionRetryInterval : Z;
  configFile : string;
  routingGroupCheckExit : bool;
  haproxyReloader : string;
  syncInterval : Z;
  tokenFetchMaxRetries : Z;
  tokenFetchRetryInterval : Z;
  tokenFetchExpirationBufferTime : Z;
  statsCollectionInterval : Z;
  dropsondePort : Z;
  staleRouteCheckInterval : Z;
  defaultRouteExpiry : Z
}.
Definition Minute : Z := 60 * Second.
Definition default_flags : Flags := {|
  tcpLoadBalancer := HaProxyConfigurer;
  tcpLoadBalancerBaseCfg := "";
  tcpLoadBalancerCfg := "";
  tcpLoadBalancerStatsUnixSocket := "/var/vcap/jobs/haproxy/config/haproxy.sock";
  subscriptionRetryInterval := 5;
  configFile := "/var/vcap/jobs/tcp_router/config/tcp_router.yml";
  routingGroupCheckExit := false;
  haproxyReloader := "/var/vcap/jobs/tcp_router/bin/haproxy_reloader";
  syncInterval := Minute;
  tokenFetchMaxRetries := 3;
  tokenFetchRetryInterval := 5 * Second;
  tokenFetchExpirationBufferTime := 30;
  statsCollectionInterval := Minute;
  dropsondePort := 3457;
  staleRouteCheckInterval := 30 * Second;
  defaultRouteExpiry := 2 * Minute
|}.

(** [Duration.Seconds] compared and converted.  The code compares [float64]
    numbers of seconds; up to 48 days (2^22 seconds) these keep apart any two
    durations that differ, and the conversion back to [int] cuts the same way
    as the division. *)
Definition longer_than (d d' : Z) : bool := d' <? d.
Definition whole_seconds (d : Z) : Z := Z.quot d Second.

(** * Libraries

    The token fetcher, the TLS configuration made of files, the ticker of the
    clock (which may panic), and the running of the reloader. *)
Class MainLibraries `{RouterGroupsAPI} {tags : ModificationTags} {api : RoutingAPI} := {
  NewTokenFetcher : bool → OAuthConfig → Z → Z → Z → option error;
  FetchKey : pc_state → option error * pc_state;
  tls_Client : string → string → string → gmap string string → option error;
  NewTicker : Z → option string;
  exec : string → list string → gmap string string → string * option error;
  shared_client : pc_state → api_state
}.

Section main.
Context `{ConfigLibraries} `{MainLibraries} (mr : MarshalRange) (tr : TableRange).

(** How [main] goes on: an exit code, a panic (of [logger.Fatal] or of the
    ticker), or the group of goroutines around an updater. *)
Record process := mkProcess {
  pr_config : Config;
  pr_configurer : Configurer;
  pr_updater : @UState tags api (haproxy_configurer mr tr pr_configurer)
}.
Inductive stopped :=
  | Exits (code : Z) (message : string)
  | Dies (message : string).
Inductive startup :=
  | Stops (how : stopped)
  | Runs (p : process).

(** [checkPorts]: whether it exits. *)
Definition checkPorts (flags : Flags) (cfg : Config) (s : pc_state) : bool * pc_state :=
  let '((shouldExit, err), s) := Check_ports (cfg_ReservedSystemComponentPorts cfg) s in
  match err with
  | Some _ => (shouldExit && routingGroupCheckExit flags, s)
  | None => (false, s)
  end.

(** From the token fetcher to the check of the ports. *)
Definition connect (flags : Flags) (cfg : Config) (fs : gmap string string) (s : pc_state) : stopped + pc_state :=
  if (2 ^ 63 - 1 <? tokenFetchExpirationBufferTime flags) then
    inl (Dies "initialize-token-fetcher")
  else
  match NewTokenFetcher (api_AuthDisabled (cfg_RoutingAPI cfg)) (cfg_OAuth cfg)
          (tokenFetchMaxRetries flags) (tokenFetchRetryInterval flags)
          (tokenFetchExpirationBufferTime flags) with
  | Some _ => inl (Dies "initialize-token-fetcher")
  | None =>
      match FetchKey s with
      | (Some _, _) => inl (Exits 1 "failed-connecting-to-uaa")
      | (None, s) =>
          match tls_Client (api_ClientCertificatePath (cfg_RoutingAPI cfg))
                  (api_ClientPrivateKeyPath (cfg_RoutingAPI cfg))
                  (api_CACertificatePath (cfg_RoutingAPI cfg)) fs with
          | Some _ => inl (Dies "failed-to-create-tls-config")
          | None =>
              let '(exit, s) := checkPorts flags cfg s in
              if (exit : bool) then inl (Exits 1 "router-group-port-checker-failure: Exiting now. ")
              else inr s
          end
      end
  end.

Definition main (flags : Flags) (os : OSState) (s : pc_state) : startup :=
  match NewConfig (configFile flags) os with
  | (Err _, _) => Stops (Exits 1 "failed-to-unmarshal-config-file")
  | (Ok cfg, os) =>
      let monitor := New (cfg_HaProxyPidFile cfg) in
      let routingTable := NewRoutingTable in
      let reloaderRunner := CreateCommandRunner exec (haproxyReloader flags) in
      match NewConfigurer (tcpLoadBalancer flags) (tcpLoadBalancerBaseCfg flags)
              (tcpLoadBalancerCfg flags) (Some reloaderRunner) (cfg_BackendTLS cfg) os with
      | (Panicked what, _) => Stops (Dies what)
      | (Blocked, _) => Stops (Dies "")
      | (Returned configurer, os) =>
          if longer_than (defaultRouteExpiry flags) (65535 * Second) then
            Stops (Exits 1 "invalid-route-expiry")
          else if longer_than (staleRouteCheckInterval flags) (defaultRouteExpiry flags) then
            Stops (Exits 1 "invalid-stale-route-check-interval")
          else
          match connect flags cfg (files os) s with
          | inl e => Stops e
          | inr s =>
              let updater := @NewUpdater _ _ (haproxy_configurer mr tr configurer) routingTable
                (whole_seconds (defaultRouteExpiry flags)) (shared_client s) (mkCState os monitor []) in
              match NewTicker (staleRouteCheckInterval flags) with
              | Some what => Stops (Dies what)
              | None => Runs (mkProcess cfg configurer updater)
              end
          end
      end
  end.

(** [initializeDropsonde]: what it logs; the start goes on either way. *)
Definition dropsondeOrigin : string := "tcp-router".
Definition initializeDropsonde (Initialize : string → string → option error) (flags : Flags) : list string :=
  let dropsondeDestination := "localhost:" +:+ Sprintf_d (dropsondePort flags) in
  match Initialize dropsondeDestination dropsondeOrigin with
  | Some _ => ["failed-to-initialize-dropsonde"]
  | None => []
  end.

(** The members of the group, in the order they are started; [dbgAddr] is the
    address of the debug server. *)
Inductive member := DebugServer | SyncerMember | MetricsReporterMember | MonitorMember | WatcherMember.
#[export] Instance member_eq_dec : EqDecision member.
Proof. solve_decision. Defined.
Definition members (dbgAddr : string) : list member :=
  let members := [SyncerMember; MetricsReporterMember; MonitorMember; WatcherMember] in
  if bool_decide (dbgAddr ≠ "") then [DebugServer] ++ members else members.

(** The exit of [main] when the group is over. *)
Definition main_exit (err : option error) : stopped :=
  match err with
  | Some _ => Exits 1 "exited-with-failure"
  | None => Exits 0 "exited"
  end.

(** * Facts *)

(** A conflict of ports keeps the process from starting exactly when the
    flag asks for it; without the flag, and when the router groups cannot be
    fetched, it starts all the same. *)
Lemma checkPorts_exits flags cfg s :
  (checkPorts flags cfg s).1 = true ↔
  routingGroupCheckExit flags = true ∧
  ∃ groups s', getRouterGroups s = (Ok groups, s') ∧
    port_conflict groups (cfg_ReservedSystemComponentPorts cfg).
Proof.
  unfold checkPorts, Check_ports. destruct (getRouterGroups s) as [[groups|e] s'].
  - pose proof (validated_conflict groups (cfg_ReservedSystemComponentPorts cfg)) as Hv.
    destruct (validateRouterGroups _ _) as [exit errors]. simpl in Hv. destruct Hv as [He Hx].
    destruct (length errors =? 0)%nat eqn:Hl; simpl.
    + apply Nat.eqb_eq in Hl. split; [done|]. intros (_ & g & s1 & [= <- <-] & Hc). apply He in Hc. by destruct errors.
    + apply Nat.eqb_neq in Hl. rewrite andb_true_iff.
      assert (port_conflict groups (cfg_ReservedSystemComponentPorts cfg)) as Hc by (apply He; by destruct errors).
      split; [intros [_ Hf]; split; [done|]; by exists groups, s'|].
      intros [Hf _]. split; [by apply Hx|done].
  - simpl. split; [done|]. intros (_ & g & s1 & ? & _). done.
Qed.

Lemma main_runs flags os s p :
  main flags os s = Runs p →
  ∃ os1 os2 s1, NewConfig (configFile flags) os = (Ok (pr_config p), os1) ∧
    NewConfigurer (tcpLoadBalancer flags) (tcpLoadBalancerBaseCfg flags) (tcpLoadBalancerCfg flags)
      (Some (CreateCommandRunner exec (haproxyReloader flags))) (cfg_BackendTLS (pr_config p)) os1
      = (Returned (pr_configurer p), os2) ∧
    defaultRouteExpiry flags ≤ 65535 * Second ∧
    staleRouteCheckInterval flags ≤ defaultRouteExpiry flags ∧
    connect flags (pr_config p) (files os2) s = inr s1 ∧
    NewTicker (staleRouteCheckInterval flags) = None ∧
    pr_updater p = @NewUpdater _ _ (haproxy_configurer mr tr (pr_configurer p)) NewRoutingTable
      (whole_seconds (defaultRouteExpiry flags)) (shared_client s1)
      (mkCState os2 (New (cfg_HaProxyPidFile (pr_config p))) []).
Proof.
  unfold main. destruct (NewConfig _ os) as [[cfg|e] os1] eqn:Hcfg; [|done].
  destruct (NewConfigurer _ _ _ _ _ os1) as [[h|what|] os2] eqn:Hh; [|done..].
  unfold longer_than. destruct (_ <? _) eqn:Hexp; [done|]. destruct (_ <? staleRouteCheckInterval _) eqn:Hst; [done|].
  destruct (connect _ _ _ s) as [e|s1] eqn:Hc; [done|].
  destruct (NewTicker _) eqn:Ht; [done|]. intros [= <-]. simpl.
  apply Z.ltb_ge in Hexp, Hst. exists os1, os2, s1. done.
Qed.

(** * Properties *)

(** C25. A process that starts was given a route expiry of at most 65535
    seconds that is not shorter than the interval of the pruning, so that the
    updater's default time-to-live is a number of seconds an unsigned 16-bit
    integer holds; it runs on the configuration of its file, with the load
    balancer the flags name, an empty table and a monitor that watches. *)
Theorem started_within_bounds (flags : Flags) (os : OSState) (s : pc_state) (p : process) :
  (∀ d, d ≤ 0 → NewTicker d ≠ None) →
  main flags os s = Runs p →
  0 < staleRouteCheckInterval flags ≤ defaultRouteExpiry flags ∧
  0 ≤ u_defaultTTL (pr_updater p) ≤ 65535 ∧
  u_defaultTTL (pr_updater p) * Second ≤ defaultRouteExpiry flags < (u_defaultTTL (pr_updater p) + 1) * Second ∧
  tcpLoadBalancer flags = HaProxyConfigurer ∧
  pr_configurer p = mkConfigurer (tcpLoadBalancerBaseCfg flags) (tcpLoadBalancerCfg flags)
    (cfg_BackendTLS (pr_config p)) (Some (CreateCommandRunner exec (haproxyReloader flags))) ∧
  u_routingTable (pr_updater p) = NewRoutingTable ∧ u_syncing (pr_updater p) = false ∧
  u_isDraining (pr_updater p) = false ∧ u_configured (pr_updater p) = [] ∧
  cs_monitor (u_conf (pr_updater p)) = New (cfg_HaProxyPidFile (pr_config p)) ∧
  files (cs_os (u_conf (pr_updater p))) = files os.
Proof.
  intros Htick (os1 & os2 & s1 & Hcfg & Hh & Hexp & Hst & _ & Ht & ->)%main_runs.
  apply NewConfigurer_returned in Hh as (Hlb & Hh & Hf).
  assert (0 < staleRouteCheckInterval flags).
  { destruct (Z.le_gt_cases (staleRouteCheckInterval flags) 0) as [Hle|]; [|lia]. by apply Htick in Hle. }
  cbn [NewUpdater u_defaultTTL u_routingTable u_syncing u_isDraining u_configured u_conf cs_monitor cs_os].
  unfold whole_seconds. rewrite Z.quot_div_nonneg by (unfold Second; lia).
  assert (files os2 = files os) as ->.
  { rewrite Hf. eapply keeps_files; [apply NewConfig_keeps|done]. }
  unfold Second in *. pose proof (Z.div_mod (defaultRouteExpiry flags) 1000000000 ltac:(done)).
  pose proof (Z.mod_pos_bound (defaultRouteExpiry flags) 1000000000 ltac:(done)).
  repeat split; try done; lia.
Qed.

(** From the start to HAProxy: after the events a started process has
    handled without error, the configuration file is the base file followed by
    text that HAProxy reads as the routes of the table, or the table is still
    empty and nothing was configured. *)
Theorem started_process_routes (flags : Flags) (os : OSState) (s : pc_state) (p : process)
    (time_Now : nat → Z) (es : list TcpEvent) (base : string) s' :
  IsMarshalRange mr → IsTableRange tr → plain_tls (cfg_BackendTLS (pr_config p)) →
  main flags os s = Runs p →
  files os !! tcpLoadBalancerBaseCfg flags = Some base →
  baseConfigFilePath (pr_configurer p) ∉ own_files (pr_configurer p) →
  Forall plain_event es →
  handle_all mr tr (pr_configurer p) api time_Now es (pr_updater p) = Some s' →
  in_force mr tr (pr_configurer p) api base s'.
Proof.
  intros Hmr Htr Htls Hm Hbase Hown Hes Hh.
  apply main_runs in Hm as (os1 & os2 & s1 & Hcfg & Hc & _ & _ & _ & _ & Hu).
  apply NewConfigurer_returned in Hc as (_ & Hc & Hf).
  assert (files os2 = files os) as Hfiles.
  { rewrite Hf. eapply keeps_files; [apply NewConfig_keeps|done]. }
  eapply handle_all_in_force; [done..|by rewrite Hc|done| |exact Hes|exact Hh].
  rewrite Hu. split; [done|]. split; [|split].
  - intros rk bk [d Hd]. unfold lookup_backend in Hd. simpl in Hd. by rewrite lookup_empty in Hd.
  - simpl. by rewrite Hfiles, Hc.
  - by left.
Qed.

(** A started process on a file system without faults and with a reloader
    that succeeds keeps HAProxy in step: after any events, bulk syncs and
    drains, the syncs failing or not and with events arriving meanwhile, the
    configuration file sends connections where the routing table says. *)
Theorem faultless_process_routes (flags : Flags) (os : OSState) (s : pc_state) (p : process)
    (time_Now : nat → Z) (acts : list activity) (base : string) :
  IsMarshalRange mr → IsTableRange tr → plain_tls (cfg_BackendTLS (pr_config p)) →
  (∀ a ms a', TcpRouteMappings a = (Ok ms, a') → Forall plain_mapping ms) →
  (∀ path env fs, (exec path env fs).2 = None) →
  faults os = [] → files os !! tcpLoadBalancerBaseCfg flags = Some base →
  is_Some (files os !! tcpLoadBalancerCfg flags) →
  baseConfigFilePath (pr_configurer p) ∉ own_files (pr_configurer p) →
  main flags os s = Runs p → Forall plain_activity acts →
  let s' := foldl (act mr tr (pr_configurer p) api time_Now) (pr_updater p) acts in
  in_force mr tr (pr_configurer p) api base s' ∧ u_syncing s' = false.
Proof.
  intros Hmr Htr Htls Hapi Hexec Hfl Hbase Hcfg Hown Hm Hacts.
  apply main_runs in Hm as (os1 & os2 & s1 & Hload & Hc & _ & _ & _ & _ & Hu).
  pose proof (NewConfigurer_calm _ _ _ _ _ _ _ _ Hc (NewConfig_calm _ _ _ _ Hload Hfl)) as Hfl2.
  apply NewConfigurer_returned in Hc as (_ & Hc & Hf).
  assert (files os2 = files os) as Hfiles.
  { rewrite Hf. eapply keeps_files; [apply NewConfig_keeps|done]. }
  assert (steady mr tr (pr_configurer p) api base (pr_updater p)) as Hst.
  { rewrite Hu. split; [done|]. split; [|split; [|by left]].
    - intros rk bk [d Hd]. unfold lookup_backend in Hd. simpl in Hd. by rewrite lookup_empty in Hd.
    - split; simpl; by rewrite ?Hfiles, ?Hc. }
  assert (script_succeeds (pr_configurer p)) as Hsr.
  { intros sr force fs. rewrite Hc. simpl. intros [= <-]. simpl.
    pose proof (Hexec (haproxyReloader flags) (runner_env force) fs) as He. by destruct (exec _ _ fs). }
  assert (plain_tls (backendTlsCfg (pr_configurer p))) as Htls' by by rewrite Hc.
  destruct (act_steady mr tr (pr_configurer p) api time_Now Hmr Htr Htls' Hown Hsr Hapi base acts
    (pr_updater p) Hst Hacts) as (Hs & _ & _ & Hin). done.
Qed.

End main.

Arguments Stops {tags api mr tr} _.
Arguments Runs {tags api mr tr} _.
Arguments pr_config {tags api mr tr} _.
Arguments pr_configurer {tags api mr tr} _.
Arguments pr_updater {tags api mr tr} _.

(** * A concrete instance *)
Module Sample.
Import RoutingTable.Sample HAProxyConfig.Sample MarshallerCorrect.Sample Updater.Sample System.Sample
  PortChecker.Sample.

(** Any text is a configuration without backend TLS and with port 2822
    reserved, which the router group of the API covers. *)
Instance main_config_libraries : ConfigLibraries := {|
  yaml_Unmarshal := λ b c, Ok (mkConfig (cfg_OAuth c) (cfg_RoutingAPI c) b [] [2822] 0 (cfg_BackendTLS c));
  pem_Decode := λ s, (None, "");
  pem_Encode := λ b, Ok "";
  ParseCertificate := λ _, None;
  X509KeyPair := λ _ _, None;
  show_headers := λ _, ""
|}.
Instance main_api : RoutingAPI := {|
  api_state := unit;
  FetchToken := λ _ s, (Ok "token", s);
  SetToken := λ _ s, s;
  TcpRouteMappings := λ s, (Ok [mapping1; mapping2], s)
|}.
Instance main_libraries : @MainLibraries sample_api _ main_api := {|
  NewTokenFetcher := λ _ _ _ _ _, None;
  FetchKey := λ s, (None, s);
  tls_Client := λ _ _ _ _, None;
  NewTicker := λ d, if d <=? 0 then Some "non-positive interval for NewTicker" else None;
  exec := λ _ _ _, ("", None);
  shared_client := λ _, tt
|}.

Definition main_flags (exit : bool) : Flags :=
  mkFlags HaProxyConfigurer "/base" "/cfg" "/sock" 5 "/yml" exit "/reload" Minute 3 (5 * Second) 30 Minute 3457
    (30 * Second) (2 * Minute).
Definition main_os : OSState := mkOS {[ "/base" := sample_base; "/cfg" := ""; "/yml" := "/pid" ]} 0 [] [].
Definition main_configurer : Configurer :=
  mkConfigurer "/base" "/cfg" (mkBackendTLSConfig false "" "")
    (Some (CreateCommandRunner (λ _ _ _, ("", None)) "/reload")).
Definition main_process : process plain_marshal plain_range :=
  mkProcess plain_marshal plain_range (mkConfig (cfg_OAuth zero_config) (cfg_RoutingAPI zero_config) "/pid" [] [2822] 0
      (mkBackendTLSConfig false "" "")) main_configurer
    (@NewUpdater _ _ (haproxy_configurer plain_marshal plain_range main_configurer) NewRoutingTable 120 tt
      (mkCState main_os (New "/pid") [])).

Definition main_pc : @pc_state PortChecker.Sample.sample_api := (2, 1)%nat.
Lemma main_starts : main plain_marshal plain_range (main_flags false) main_os main_pc = Runs main_process.
Proof. reflexivity. Qed.
Lemma ticker_panics d : d ≤ 0 → NewTicker d ≠ None.
Proof. intros Hd. simpl. by rewrite (proj2 (Z.leb_le d 0)). Qed.

Lemma started_within_bounds_witness : 0 ≤ u_defaultTTL (pr_updater main_process) ≤ 65535.
Proof.
  apply (started_within_bounds plain_marshal plain_range (main_flags false) main_os main_pc main_process
    ticker_panics main_starts).
Defined.

Definition main_event : TcpEvent := mkTcpEvent mapping1 "Upsert".
Definition after_event : @UState _ _ (haproxy_configurer plain_marshal plain_range main_configurer) :=
  (@HandleEvent _ _ (haproxy_configurer plain_marshal plain_range main_configurer) sample_now main_event
    (pr_updater main_process)).2.
Lemma main_event_ok :
  @HandleEvent _ _ (haproxy_configurer plain_marshal plain_range main_configurer) sample_now main_event
    (pr_updater main_process) = (None, after_event).
Proof.
  unfold after_event. rewrite (surjective_pairing (HandleEvent _ _ _)) at 1. f_equal.
Qed.
Lemma main_event_handled :
  handle_all plain_marshal plain_range main_configurer _ sample_now [main_event] (pr_updater main_process)
  = Some after_event.
Proof. cbn [handle_all]. by rewrite main_event_ok. Qed.

Lemma started_process_routes_witness :
  in_force plain_marshal plain_range main_configurer _ sample_base after_event.
Proof.
  assert (plain_tls (cfg_BackendTLS (pr_config main_process))) as Htls by (intros Htls; discriminate Htls).
  assert (files main_os !! tcpLoadBalancerBaseCfg (main_flags false) = Some sample_base) as Hbase by reflexivity.
  assert (baseConfigFilePath main_configurer ∉ own_files main_configurer) as Hown.
  { unfold own_files. simpl. set_solver. }
  assert (Forall plain_event [main_event]) as Hplain.
  { constructor; [|constructor]. intros Hp. vm_compute in Hp. discriminate Hp. }
  exact (started_process_routes plain_marshal plain_range (main_flags false) main_os main_pc main_process
    sample_now [main_event] sample_base after_event plain_marshal_ok plain_range_ok Htls main_starts Hbase Hown
    Hplain main_event_handled).
Defined.

Lemma faultless_process_routes_witness :
  in_force plain_marshal plain_range main_configurer _ sample_base
    (foldl (act plain_marshal plain_range main_configurer _ sample_now) (pr_updater main_process)
       [Handled main_event; Synced [main_event]; Drained]).
Proof.
  assert (plain_event main_event) as Hpe by (intros Hp; vm_compute in Hp; discriminate Hp).
  assert (∀ a ms a', TcpRouteMappings a = (Ok ms, a') → Forall plain_mapping ms) as Hapi.
  { intros a ms a' Hms. injection Hms as <- _.
    repeat (constructor; [intros Hp; vm_compute in Hp; discriminate Hp|]). constructor. }
  assert (plain_tls (cfg_BackendTLS (pr_config main_process))) as Htls by (intros Htls; discriminate Htls).
  assert (baseConfigFilePath main_configurer ∉ own_files main_configurer) as Hown.
  { unfold own_files. simpl. set_solver. }
  assert (Forall plain_activity [Handled main_event; Synced [main_event]; Drained]) as Hacts.
  { constructor; [exact Hpe|]. constructor; [|constructor; [exact I|constructor]]. constructor; [exact Hpe|constructor]. }
  exact (proj1 (faultless_process_routes plain_marshal plain_range (main_flags false) main_os main_pc main_process
    sample_now [Handled main_event; Synced [main_event]; Drained] sample_base plain_marshal_ok plain_range_ok Htls Hapi
    (λ _ _ _, eq_refl) eq_refl eq_refl (ex_intro _ "" eq_refl) Hown main_starts Hacts)).
Defined.

(** The same start with the flag set. *)
Example conflict_exits :
  main plain_marshal plain_range (main_flags true) main_os main_pc =
  Stops (Exits 1 "router-group-port-checker-failure: Exiting now. ").
Proof. reflexivity. Qed.

End Sample.
