(* ===== verification/Process.v ===== *)
(** The group of goroutines that [main.go] starts: the syncer, the watcher, the
    updater they drive, and the route pruner, as one system whose steps are
    steps of its parts. *)
From S2P Require Import Prelude GoStrings RoutingTable HAProxyConfig Config HAProxyReader.
From S2P Require Import Marshaller MarshallerCorrect OS FileUtils Monitor Configurer Updater System.
From S2P Require Import Concurrency Interleaving Watcher Runners PortChecker Main.
#[local] Open Scope Z_scope.

(** * The system *)

Section process.
Context {tags : ModificationTags} {api : RoutingAPI} {rc : RouterConfigurer}.
Context (time_Now : nat → Z).

Record system := mkSystem {
  sys_watcher : watcher;
  sys_syncer : Syncer.syncer;
  sys_updater : Concurrency.state
}.

(** A step of the subscriber alone, the watcher's loop receiving an event, the
    syncer's first request or a tick of it that finds the watcher receiving or
    not, a signal to the syncer or to the watcher, a step of a goroutine that
    syncs or drains, the end of a goroutine whose drain is done, [SetProcess], a
    tick of the pruner. *)
Inductive slabel :=
  | Subscriber (l : wlabel)
  | Deliver
  | SyncTick (receiving : bool)
  | SyncerSignal (sig : Z)
  | WatcherSignal (sig : Z)
  | SyncGoes (i : nat)
  | DrainGoes (i : nat)
  | DrainEnds
  | ProcessSet
  | PruneTick (tr : TableRange).

(** [startRoutePruner]: the ticks, one call of the updater for each. *)
Definition startRoutePruner (ticks : list TableRange) : list Concurrency.label := DoPrune <$> ticks.

(** What a step of the system is for each of its parts. *)
Definition watcher_label (l : slabel) : list wlabel :=
  match l with
  | Subscriber l => [l]
  | Deliver => [Sub_send]
  | SyncTick receiving => if receiving then [Main_sync] else []
  | WatcherSignal sig => [Main_signal sig]
  | DrainEnds => [Drain_returned]
  | ProcessSet => [Set_process]
  | _ => []
  end.
Definition syncer_after (y : Syncer.syncer) (l : slabel) : Syncer.syncer :=
  match l with
  | SyncTick receiving =>
      if Syncer.sy_ticking y then Syncer.syncer_round y (Tick receiving) else Syncer.syncer_ask receiving y
  | SyncerSignal sig => Syncer.syncer_round y (Signalled sig)
  | _ => y
  end.
Definition updater_label (w : watcher) (l : slabel) : list Concurrency.label :=
  match l with
  | Deliver => DoEvent <$> in_flight w
  | SyncTick receiving => if receiving then [SpawnSync] else []
  | WatcherSignal sig => if sig =? SIGUSR2 then [SpawnDrain] else []
  | SyncGoes i => [StepSync i]
  | DrainGoes i => [StepDrain i]
  | PruneTick tr => startRoutePruner [tr]
  | _ => []
  end.

Definition drains_done (ds : list drain_pc) : nat :=
  length (base.filter (λ pc, match pc with DrainDone _ => true | _ => false end = true) ds).

(** When a step can be made at all. *)
Definition enabled (sys : system) (l : slabel) : bool :=
  match l with
  | Subscriber l => match l with Sub_check | Sub_token _ | Sub_subscribe _ | Sub_next _ => true | _ => false end
  | SyncTick _ => Syncer.sy_running (sys_syncer sys)
  | SyncerSignal _ => Syncer.sy_ticking (sys_syncer sys)
  | DrainEnds => (w_drained (sys_watcher sys) <? drains_done (drains (sys_updater sys)))%nat
  | _ => true
  end.

Definition system_step (sys : system) (l : slabel) : option system :=
  if enabled sys l then
    w ← watcher_run (sys_watcher sys) (watcher_label l);
    u ← run time_Now (sys_updater sys) (updater_label (sys_watcher sys) l);
    Some (mkSystem w (syncer_after (sys_syncer sys) l) u)
  else None.
Fixpoint system_run (sys : system) (ls : list slabel) : option system :=
  match ls with
  | [] => Some sys
  | l :: ls' => sys' ← system_step sys l; system_run sys' ls'
  end.

(** The group starts the syncer and then the watcher, each when the one before
    is ready: the syncer is ready before it asks for its first sync, so that the
    watcher may or may not be receiving by then. *)
Definition system_start (subscriptionRetryInterval : Z) (u : UState) : system :=
  mkSystem (Watcher_New subscriptionRetryInterval) Syncer.syncer_new (mkState u [] []).

(** The steps of the updater's goroutines in a run of the system. *)
Fixpoint updater_labels (sys : system) (ls : list slabel) : list Concurrency.label :=
  match ls with
  | [] => []
  | l :: ls' =>
      updater_label (sys_watcher sys) l ++
      match system_step sys l with Some sys' => updater_labels sys' ls' | None => [] end
  end.

(** * Facts *)

Lemma watcher_run_app ls ls' w : watcher_run w (ls ++ ls') = w' ← watcher_run w ls; watcher_run w' ls'.
Proof.
  revert w. induction ls as [|l ls IH]; intros w; [done|]. cbn [app watcher_run].
  by destruct (watcher_step w l) as [w1|]; [apply IH|].
Qed.

Lemma system_step_inv sys l sys' :
  system_step sys l = Some sys' →
  enabled sys l = true ∧
  watcher_run (sys_watcher sys) (watcher_label l) = Some (sys_watcher sys') ∧
  run time_Now (sys_updater sys) (updater_label (sys_watcher sys) l) = Some (sys_updater sys') ∧
  sys_syncer sys' = syncer_after (sys_syncer sys) l.
Proof.
  unfold system_step. destruct (enabled sys l); [|done].
  destruct (watcher_run _ _) as [w|]; [|done]. cbn [mbind option_bind].
  destruct (run _ _ _) as [u|]; [|done]. cbn [mbind option_bind]. by intros [= <-].
Qed.

(** A run of the system is a run of the watcher and of the updater. *)
Lemma system_run_parts ls sys sys' :
  system_run sys ls = Some sys' →
  watcher_run (sys_watcher sys) (ls ≫= watcher_label) = Some (sys_watcher sys') ∧
  run time_Now (sys_updater sys) (updater_labels sys ls) = Some (sys_updater sys').
Proof.
  revert sys. induction ls as [|l ls IH]; intros sys Hr; [by injection Hr as <-|].
  cbn [system_run updater_labels] in *. rewrite bind_cons.
  destruct (system_step sys l) as [sys1|] eqn:Hs; [|done]. cbn [mbind option_bind] in Hr.
  apply system_step_inv in Hs as (_ & Hw & Hu & _). apply IH in Hr as [IHw IHu].
  rewrite watcher_run_app, Hw, run_app, Hu. done.
Qed.

Lemma system_run_app ls ls' sys : system_run sys (ls ++ ls') = sys' ← system_run sys ls; system_run sys' ls'.
Proof.
  revert sys. induction ls as [|l ls IH]; intros sys; [done|]. cbn [app system_run].
  by destruct (system_step sys l) as [sys1|]; [apply IH|].
Qed.

(** An invariant of the system is one every step preserves. *)
Lemma system_run_ind (P : system → Prop) ls sys sys' :
  (∀ s l s', P s → system_step s l = Some s' → P s') →
  P sys → system_run sys ls = Some sys' → P sys'.
Proof.
  intros Hstep. revert sys. induction ls as [|l ls IH]; intros sys HP Hr; [by injection Hr as <-|].
  cbn [system_run] in Hr. destruct (system_step sys l) as [sys1|] eqn:Hs; [|done]. eauto.
Qed.

(** ** What the parts hand to each other *)

Lemma watcher_step_run w l : watcher_run w [l] = watcher_step w l.
Proof. cbn. by destruct (watcher_step w l). Qed.
Lemma run_one st l : run time_Now st [l] = step time_Now st l.
Proof. cbn. by destruct (step time_Now st l). Qed.

(** The counters of the parts agree: what the syncer sent is what the watcher
    received and started, and so for drains. *)
Record agree (sys : system) : Prop := {
  agree_sent : w_syncs (sys_watcher sys) = Syncer.sy_sent (sys_syncer sys);
  agree_syncs : length (syncs (sys_updater sys)) = w_syncs (sys_watcher sys);
  agree_drains : length (drains (sys_updater sys)) = w_drains (sys_watcher sys);
  agree_drained : (w_drained (sys_watcher sys) ≤ drains_done (drains (sys_updater sys)))%nat
}.

(** A step of the updater's goroutines by itself starts none, and what is done
    stays done. *)
Lemma step_spawns st l st' :
  step time_Now st l = Some st' →
  length (syncs st') = (length (syncs st) + match l with SpawnSync => 1 | _ => 0 end)%nat ∧
  length (drains st') = (length (drains st) + match l with SpawnDrain => 1 | _ => 0 end)%nat ∧
  (drains_done (drains st) ≤ drains_done (drains st'))%nat.
Proof.
  destruct l as [| |i|i|e|tr]; simpl; intros Hs; simplify_eq; simpl.
  - rewrite length_app. simpl. lia.
  - rewrite length_app. unfold drains_done. rewrite filter_app, length_app. simpl. lia.
  - destruct (syncs st !! i) as [pc|]; [|done]. simpl in Hs. destruct (sync_step _ _ _) as [[pc' s']|]; [|done].
    simpl in Hs. simplify_eq. simpl. rewrite length_insert, drains_after_length.
    unfold drains_done. rewrite (drains_after_filter (λ pc, match pc with DrainDone _ => true | _ => false end)); [lia|].
    by intros t [| | | |[] ?| |].
  - destruct (drains st !! i) as [pc|] eqn:Hi; [|done]. simpl in Hs.
    destruct (drain_step pc (shared st)) as [[pc' s']|] eqn:Hd; [|done].
    simpl in Hs. simplify_eq. simpl. rewrite length_insert. split; [lia|]. split; [lia|].
    rewrite <-(take_drop_middle _ _ _ Hi) at 1. rewrite insert_take_drop by by eapply lookup_lt_Some.
    unfold drains_done. rewrite !filter_app, !filter_cons, !length_app. destruct pc; [simpl; case_decide; simpl; lia..|done].
  - lia.
  - lia.
Qed.

Lemma watcher_step_counts w l w' :
  watcher_step w l = Some w' →
  w_syncs w' = (w_syncs w + match l with Main_sync => 1 | _ => 0 end)%nat ∧
  w_drains w' = (w_drains w + match l with Main_signal sig => if Z.eqb sig SIGUSR2 then 1 else 0 | _ => 0 end)%nat ∧
  w_drained w' = (w_drained w + match l with Drain_returned => 1 | _ => 0 end)%nat.
Proof.
  intros Hl. unfold watcher_step in Hl. destruct w; simpl in *.
  destruct l as [|[]|[|e]|[]| | |sig| |]; simplify_eq/=; repeat case_match; simplify_eq/=; lia.
Qed.
Lemma watcher_step_handled w l w' :
  watcher_step w l = Some w' →
  w_handled w' = w_handled w ++ match l with Sub_send => in_flight w | _ => [] end.
Proof.
  unfold watcher_step, in_flight. intros Hl. destruct w; simpl in *.
  destruct l as [|[]|[|e]|[]| | |sig| |]; simplify_eq/=; repeat case_match; simplify_eq/=; by rewrite ?app_nil_r.
Qed.
Lemma syncer_after_sent y l : Syncer.sy_running y = true →
  Syncer.sy_sent (syncer_after y l) = (Syncer.sy_sent y + match l with SyncTick true => 1 | _ => 0 end)%nat.
Proof.
  intros Hy. destruct l as [l'| |[]|sig|sig|i|i| | |tr]; unfold syncer_after, Syncer.syncer_ask, Syncer.syncer_round;
    try (rewrite Hy); repeat case_match; simpl; lia.
Qed.

Lemma agree_step sys l sys' : agree sys → system_step sys l = Some sys' → agree sys'.
Proof.
  intros [H1 H2 H3 H4] (Hen & Hw & Hu & Hy)%system_step_inv.
  destruct sys' as [w' y' u']. simpl in Hw, Hu, Hy.
  assert (Syncer.sy_sent y' = (Syncer.sy_sent (sys_syncer sys) + match l with SyncTick true => 1 | _ => 0 end)%nat) as Hsent.
  { rewrite Hy. destruct (decide (Syncer.sy_running (sys_syncer sys) = true)) as [Hrun|Hoff]; [by apply syncer_after_sent|].
    apply not_true_is_false in Hoff. destruct l; simpl in *; try lia; congruence || (unfold Syncer.syncer_round; rewrite Hoff; lia). }
  clear Hy.
  destruct l as [l'| |[]|sig|sig|i|i| | |tr]; cbn [watcher_label updater_label enabled startRoutePruner fmap list_fmap] in Hw, Hu, Hen, Hsent.
  all: try (rewrite watcher_step_run in Hw; apply watcher_step_counts in Hw as (Hw1 & Hw2 & Hw3)).
  all: rewrite ?run_one in Hu; try (apply step_spawns in Hu as (Hu1 & Hu2 & Hu3)).
  all: try (injection Hw as <-).
  all: try (injection Hu as <-).
  - split; simpl; destruct l'; simpl in *; (done || lia).
  - unfold in_flight in Hu. destruct (w_pc (sys_watcher sys)); simpl in Hu; injection Hu as <-; split; simpl; lia.
  - split; simpl; lia.
  - split; simpl; lia.
  - split; simpl; lia.
  - destruct (sig =? SIGUSR2).
    + rewrite run_one in Hu. apply step_spawns in Hu as (Hu1 & Hu2 & Hu3). split; simpl; lia.
    + injection Hu as <-. split; simpl; lia.
  - split; simpl; lia.
  - split; simpl; lia.
  - apply Nat.ltb_lt in Hen. split; simpl; lia.
  - split; simpl; lia.
  - split; simpl; lia.
Qed.

(** What is delivered is what was in flight. *)
Lemma updater_labels_events ls sys sys' :
  system_run sys ls = Some sys' →
  w_handled (sys_watcher sys') = w_handled (sys_watcher sys) ++ events_of (updater_labels sys ls).
Proof.
  revert sys. induction ls as [|l ls IH]; intros sys Hr; [injection Hr as <-; by rewrite app_nil_r|].
  cbn [system_run updater_labels] in *. destruct (system_step sys l) as [sys1|] eqn:Hs; [|done].
  cbn [mbind option_bind] in Hr. rewrite (IH _ Hr). unfold events_of. rewrite omap_app, (assoc_L (++)). f_equal.
  apply system_step_inv in Hs as (Hen & Hw & Hu & _). destruct sys1 as [w1 y1 u1]. simpl in Hw.
  destruct l as [l'| |[]|sig|sig|i|i| | |tr];
    cbn [sys_watcher watcher_label updater_label enabled startRoutePruner fmap list_fmap omap list_omap] in Hw, Hen |- *; rewrite ?app_nil_r;
    rewrite ?watcher_step_run in Hw; try (by injection Hw as <-).
  all: try (apply watcher_step_handled in Hw; rewrite Hw).
  - destruct l'; by rewrite ?app_nil_r.
  - unfold in_flight. by destruct (w_pc (sys_watcher sys)).
  - by rewrite app_nil_r.
  - destruct (sig =? SIGUSR2); simpl; by rewrite app_nil_r.
  - by rewrite app_nil_r.
Qed.

(** ** A sync that runs alone *)

Lemma watcher_takes_sync w : w_running w = true → is_Some (watcher_step w Main_sync).
Proof. intros Hw. unfold watcher_step. rewrite Hw. eauto. Qed.

Lemma system_run_sync n i w y u u' :
  run time_Now u (replicate n (StepSync i)) = Some u' →
  system_run (mkSystem w y u) (replicate n (SyncGoes i)) = Some (mkSystem w y u').
Proof.
  revert u. induction n as [|n IH]; intros u Hr; [by injection Hr as <-|].
  change (replicate (S n) ?x) with (x :: replicate n x) in *. cbn [run] in Hr. cbn [system_run].
  destruct (step time_Now u (StepSync i)) as [u1|] eqn:Hs; [|done]. cbn [mbind option_bind] in Hr.
  unfold system_step. cbn [enabled watcher_label updater_label watcher_run syncer_after sys_watcher sys_syncer sys_updater].
  rewrite run_one, Hs. cbn [mbind option_bind]. by apply IH.
Qed.

(** The same among goroutines that stand still. *)
Lemma run_shift n pcs s pc ds s' pc' ds' :
  run time_Now (mkState s [pc] ds) (replicate n (StepSync 0)) = Some (mkState s' [pc'] ds') →
  run time_Now (mkState s (pcs ++ [pc]) ds) (replicate n (StepSync (length pcs))) = Some (mkState s' (pcs ++ [pc']) ds').
Proof.
  revert s pc ds. induction n as [|n IH]; intros s pc ds Hr; [by simplify_eq/=|].
  change (replicate (S n) ?x) with (x :: replicate n x) in *. rewrite run_sync0 in Hr. cbn [run step syncs shared drains].
  rewrite lookup_app_r, Nat.sub_diag by done. cbn [lookup list_lookup mbind option_bind] in *.
  destruct (sync_step time_Now pc s) as [[pc1 s1]|]; [|done]. cbn [mbind option_bind fst snd] in *.
  rewrite insert_app_r_alt, Nat.sub_diag by done. by apply IH.
Qed.

Lemma run_syncs_stale n i st st' :
  run time_Now st (replicate n (StepSync i)) = Some st' → handed_stale <$> drains st' = handed_stale <$> drains st.
Proof.
  revert st. induction n as [|n IH]; intros st Hr; [by simplify_eq/=|]. cbn [replicate run] in Hr.
  destruct (step time_Now st (StepSync i)) as [st1|] eqn:Hs; [|done]. rewrite (IH _ Hr). clear Hr. cbn [step] in Hs.
  destruct (syncs st !! i) as [pc|]; [|done]. cbn [mbind option_bind] in Hs.
  destruct (sync_step time_Now pc (shared st)) as [[pc1 s1]|]; [|done]. cbn [mbind option_bind] in Hs. simplify_eq. simpl.
  unfold drains_after. destruct (replaces pc (shared st)); [|done]. rewrite <-list_fmap_compose.
  apply list_fmap_ext. intros j d _. apply handed_stale_detach.
Qed.
Lemma sync_completes_among st : ∃ n ds,
  run time_Now (mkState (shared st) (syncs st ++ [SyncStart]) (drains st)) (replicate n (StepSync (length (syncs st)))) =
    Some (mkState (Sync time_Now (shared st)) (syncs st ++ [SyncDone]) ds) ∧
  (Forall (λ pc, handed_stale pc = false) (drains st) → Forall (λ pc, handed_stale pc = false) ds).
Proof.
  destruct (sync_runs_alone time_Now (shared st) (drains st)) as (n & ds & Hn & _).
  exists n, ds. apply run_syncs_stale in Hn as Hst. simpl in Hst. split; [by apply run_shift|].
  rewrite <-!(Forall_fmap handed_stale (λ b, b = false)). by rewrite Hst.
Qed.

(** What a sync leaves is the merge of the listing. *)
Lemma Sync_merged (s : UState) ms s1 :
  Sync_fetch 2 true None (Sync_begin s) = (Some (ms, None), s1) →
  merged ms (u_routingTable s) (u_routingTable (Sync time_Now s)).
Proof.
  intros Hf. assert (Sync time_Now s = Sync_during time_Now [] s) as -> by done. rewrite Sync_during_eq.
  unfold Sync_body. rewrite Hf. pose proof (Sync_fetch_state 2 true None (Sync_begin s)) as Hs1. rewrite Hf in Hs1. simpl in Hs1.
  destruct (Sync_merge_spec time_Now ms s1) as (_ & Hm & _).
  assert (u_routingTable s1 = u_routingTable s) as Ht1 by by rewrite Hs1. rewrite Ht1 in Hm.
  destruct (Sync_merge time_Now ms s1) as [s2 ch]. simpl in *.
  destruct (Sync_end_spec time_Now ch (set_sync true [] s2) eq_refl) as (Hend & _). simpl in Hend. by rewrite Hend.
Qed.
(** Of an empty table, the listing. *)
Lemma Sync_of_empty (s : UState) ms s1 :
  u_routingTable s = NewRoutingTable → Sync_fetch 2 true None (Sync_begin s) = (Some (ms, None), s1) →
  ∀ rk bk, is_Some (lookup_backend (u_routingTable (Sync time_Now s)) rk bk) ↔ (rk, bk) ∈ mapping_target <$> ms.
Proof.
  intros Ht [_ _ Hkept _]%Sync_merged rk bk. rewrite Ht in Hkept. rewrite Hkept by set_solver.
  unfold lookup_backend. simpl. rewrite lookup_empty. split; [intros [?|[? ?]]; done|by left].
Qed.

(** ** Draining *)

(** The draining flag is as it was, and the configurer was only called more,
    with that flag. *)
Definition grows (s s' : UState) : Prop :=
  u_isDraining s' = u_isDraining s ∧
  ∃ cs, u_configured s' = cs ++ u_configured s ∧ Forall (λ call, call.2 = u_isDraining s) cs.
#[local] Instance grows_refl : Reflexive grows.
Proof. intros s. split; [done|]. exists []. split; [done|constructor]. Qed.
#[local] Instance grows_trans : Transitive grows.
Proof.
  intros s1 s2 s3 [H1 (c1 & Hc1 & Hf1)] [H2 (c2 & Hc2 & Hf2)]. split; [congruence|].
  exists (c2 ++ c1). rewrite Hc2, Hc1, (assoc_L (++)). split; [done|]. apply Forall_app. split; [|done]. by rewrite <-H1.
Qed.

Lemma grows_invariant s0 : own_invariant (grows s0).
Proof.
  split.
  - intros s s' _ Hc Hd [H1 H2]. split; congruence || by rewrite Hc.
  - intros s Hs. etrans; [exact Hs|]. rewrite call_configurer_state. split; [done|].
    eexists [_]. split; [done|]. by repeat constructor.
Qed.
Lemma HandleEvent_grows e s : grows s (HandleEvent time_Now e s).2.
Proof. by apply HandleEvent_conf; [apply grows_invariant|]. Qed.
Lemma sync_step_grows pc s pc' s' : sync_step time_Now pc s = Some (pc', s') → grows s s'.
Proof. intros Hs. by eapply sync_step_conf; [apply grows_invariant|exact Hs|]. Qed.
Lemma PruneStaleRoutes_grows tr s : grows s (PruneStaleRoutes time_Now tr s).
Proof. by apply PruneStaleRoutes_conf; [apply grows_invariant|]. Qed.

(** How far the only drain is; [told]: the last call of the configurer was
    made with the draining flag. *)
Definition told (s : UState) : Prop := ∃ t cs, u_configured s = (t, true) :: cs.
Definition drain_stage (pc : drain_pc) (s : UState) : Prop :=
  match pc with
  | DrainWaiting | DrainChecking | DrainSetting => u_isDraining s = false
  | DrainConfiguring => u_isDraining s = true
  | DrainCalling _ draining => u_isDraining s = true ∧ draining = true
  | DrainSleeping _ | DrainDone _ => u_isDraining s = true ∧ told s
  end.
Definition one_drain (st : Concurrency.state) : Prop :=
  match drains st with
  | [] => u_isDraining (shared st) = false
  | [pc] => drain_stage pc (shared st)
  | _ => True
  end.

Lemma drain_stage_grows pc s s' : grows s s' → drain_stage pc s → drain_stage pc s'.
Proof.
  intros [Hd (cs & Hc & Hf)]. unfold drain_stage, told. rewrite Hd, Hc.
  assert (u_isDraining s = true → told s → ∃ t cs', cs ++ u_configured s = (t, true) :: cs') as Htold.
  { intros Hon (t & cs' & Ht). destruct cs as [|[t0 b] cs]; [by exists t, cs'|].
    apply Forall_cons in Hf as [Hb _]. simpl in Hb. rewrite Hb, Hon. by eexists _, _. }
  destruct pc; try done; intros [H Ht]; (split; [done|]; by apply Htold).
Qed.
Lemma one_drain_grows s s' pcs pcs' ds : grows s s' → one_drain (mkState s pcs ds) → one_drain (mkState s' pcs' ds).
Proof.
  intros Hg. unfold one_drain. destruct ds as [|pc [|]]; simpl; [|by apply drain_stage_grows|done].
  destruct Hg as [-> _]. done.
Qed.
Lemma one_drain_after pc s0 s pcs ds : one_drain (mkState s pcs ds) → one_drain (mkState s pcs (drains_after pc s0 ds)).
Proof.
  unfold drains_after. destruct (replaces pc s0); [|done]. unfold one_drain.
  destruct ds as [|[| | | |[] ?| |] [|]]; done.
Qed.
Lemma one_drain_step st l st' : one_drain st → step time_Now st l = Some st' → one_drain st'.
Proof.
  destruct st as [s pcs ds]. intros Ho Hs. destruct l as [| |i|i|e|tr]; simpl in Hs.
  - simplify_eq. done.
  - simplify_eq. unfold one_drain in *. simpl in *. by destruct ds as [|pc [|]].
  - destruct (pcs !! i) as [pc|]; [|done]. simpl in Hs.
    destruct (sync_step time_Now pc s) as [[pc' s']|] eqn:Hstep; [|done]. simpl in Hs. simplify_eq.
    eapply one_drain_grows; [by eapply sync_step_grows|by apply one_drain_after].
  - destruct (ds !! i) as [pc|] eqn:Hi; [|done]. simpl in Hs.
    destruct (drain_step pc s) as [[pc' s']|] eqn:Hstep; [|done]. simpl in Hs. simplify_eq.
    destruct ds as [|pc0 [|pc1 ds]]; [done| |destruct i as [|[|i]]; done].
    destruct i; [|done]. simpl in Hi. simplify_eq. unfold one_drain in *. simpl in *.
    destruct pc as [| | | |copy draining|copy|copy]; cbn [drain_step] in Hstep; simplify_eq; simpl in *.
    + by destruct (Syncing s').
    + unfold IsDraining. by rewrite Ho.
    + done.
    + done.
    + destruct Ho as [Ho ->].
      pose proof (call_configurer_with_state (default (u_routingTable s) copy) true s) as Hc.
      destruct (call_configurer_with _ true s) as [err s1]. simpl in Hc. injection Hstep as <- <-.
      assert (told s1) as Ht by (rewrite Hc; by eexists _, _).
      assert (u_isDraining s1 = true) as Hd by by rewrite Hc. by destruct err.
    + done.
  - simplify_eq. eapply one_drain_grows; [apply HandleEvent_grows|exact Ho].
  - simplify_eq. eapply one_drain_grows; [apply PruneStaleRoutes_grows|exact Ho].
Qed.
Lemma one_drain_run ls st st' : one_drain st → run time_Now st ls = Some st' → one_drain st'.
Proof.
  revert st. induction ls as [|l ls IH]; intros st Ho Hr; [by injection Hr as <-|]. cbn [run] in Hr.
  destruct (step time_Now st l) as [st1|] eqn:Hs; [|done]. eapply IH; [|exact Hr]. by eapply one_drain_step.
Qed.

Lemma interrupts_le_drained w l w' :
  watcher_step w l = Some w' → (w_interrupts w ≤ w_drained w)%nat → (w_interrupts w' ≤ w_drained w')%nat.
Proof.
  intros Hs Hle. destruct (watcher_step_drains _ _ _ Hs) as (-> & -> & _). destruct (w_process w); lia.
Qed.

Lemma system_start_agrees interval u : agree (system_start interval u).
Proof. by split. Qed.
Lemma system_run_agrees interval u ls sys : system_run (system_start interval u) ls = Some sys → agree sys.
Proof. apply system_run_ind; [by intros ???; apply agree_step|apply system_start_agrees]. Qed.
Lemma system_run_interrupts interval u ls sys :
  system_run (system_start interval u) ls = Some sys →
  (w_interrupts (sys_watcher sys) ≤ w_drained (sys_watcher sys))%nat.
Proof.
  intros [Hw _]%system_run_parts. revert Hw. generalize (ls ≫= watcher_label). clear ls. intros ls.
  assert (∀ w, (w_interrupts w ≤ w_drained w)%nat → watcher_run w ls = Some (sys_watcher sys) →
    (w_interrupts (sys_watcher sys) ≤ w_drained (sys_watcher sys))%nat) as Hgen; [|by apply Hgen].
  induction ls as [|l ls IH]; intros w Hle Hr; simpl in Hr; [by simplify_eq|].
  destruct (watcher_step w l) as [w1|] eqn:Hs; [|done]. eapply IH; [|exact Hr]. by eapply interrupts_le_drained.
Qed.

(** ** Plain steps *)

(** The events of the streams name plain instances, and the pruner ranges over
    the table in some order. *)
Definition plain_step (l : slabel) : Prop :=
  match l with
  | Subscriber (Sub_next (Ok e)) => plain_event e
  | PruneTick tr => IsTableRange tr
  | _ => True
  end.

Lemma step_in_flight w l w' e :
  watcher_step w l = Some w' → e ∈ in_flight w' → l = Sub_next (Ok e) ∨ e ∈ in_flight w.
Proof.
  unfold watcher_step, in_flight. intros Hl. destruct w; simpl in *.
  destruct l as [|[]|[|e']|[]| | |sig| |]; simplify_eq/=; repeat case_match; simplify_eq/=;
    rewrite ?elem_of_nil, ?list_elem_of_singleton; naive_solver.
Qed.

Lemma updater_labels_plain ls sys sys' :
  system_run sys ls = Some sys' → Forall plain_step ls →
  Forall plain_event (in_flight (sys_watcher sys)) → Forall (plain_label true) (updater_labels sys ls).
Proof.
  revert sys. induction ls as [|l ls IH]; intros sys Hr Hls He; [by constructor|].
  apply Forall_cons in Hls as [Hl Hls]. cbn [system_run updater_labels] in *.
  destruct (system_step sys l) as [sys1|] eqn:Hs; [|done]. cbn [mbind option_bind] in Hr.
  apply Forall_app. split.
  - destruct l as [l'| |[]|sig|sig|i|i| | |tr]; cbn [updater_label startRoutePruner fmap list_fmap];
      rewrite ?Forall_cons, ?Forall_nil; try done.
    + apply Forall_fmap. eapply Forall_impl; [exact He|done].
    + destruct (sig =? SIGUSR2); by rewrite ?Forall_cons, ?Forall_nil.
  - apply IH; [done|done|]. apply Forall_forall. intros e Hin.
    apply system_step_inv in Hs as (Hen & Hw & _). rewrite Forall_forall in He.
    destruct (watcher_label l) as [|l' [|]] eqn:Hwl.
    + injection Hw as Hw. rewrite <-Hw in Hin. by apply He.
    + rewrite watcher_step_run in Hw. destruct (step_in_flight _ _ _ _ Hw Hin) as [->|Hin']; [|by apply He].
      destruct l as [l''| |[]|sig|sig|i|i| | |tr]; simpl in Hwl; simplify_eq. exact Hl.
    + by destruct l as [l''| |[]|sig|sig|i|i| | |tr].
Qed.

(** ** Events between syncs *)

(** No sync is received and nothing is pruned. *)
Definition between_syncs (l : slabel) : Prop :=
  match l with SyncTick true | PruneTick _ => False | _ => True end.
Definition between_label (l : Concurrency.label) : Prop :=
  match l with SpawnSync | DoPrune _ => False | _ => True end.

Lemma updater_labels_between ls sys sys' :
  system_run sys ls = Some sys' → Forall between_syncs ls → Forall between_label (updater_labels sys ls).
Proof.
  revert sys. induction ls as [|l ls IH]; intros sys Hr Hls; [by constructor|].
  apply Forall_cons in Hls as [Hl Hls]. cbn [system_run updater_labels] in *.
  destruct (system_step sys l) as [sys1|]; [|done]. apply Forall_app. split; [|by apply IH].
  destruct l as [l'| |[]|sig|sig|i|i| | |tr]; cbn [updater_label]; try done; try (by repeat constructor).
  - apply Forall_fmap. by apply Forall_forall.
  - destruct (sig =? SIGUSR2); by repeat constructor.
Qed.

Lemma drain_step_table pc s pc' s' :
  drain_step pc s = Some (pc', s') → u_routingTable s' = u_routingTable s ∧ u_readings s' = u_readings s.
Proof.
  destruct pc as [| | | |copy draining|copy|copy]; cbn [drain_step]; intros Hs; simplify_eq; try done.
  pose proof (call_configurer_with_state (default (u_routingTable s) copy) draining s) as Hc.
  destruct (call_configurer_with _ _ s) as [err s1]. simpl in Hc. by simplify_eq.
Qed.
Lemma HandleEvent_applied e s :
  u_syncing s = false →
  let s' := (HandleEvent time_Now e s).2 in
  (u_routingTable s', u_readings s') = apply_event time_Now (u_routingTable s, u_readings s) e.
Proof.
  intros Hs. unfold HandleEvent. rewrite Hs. cbv zeta.
  assert ((let '((_, err), s') := handleEvent time_Now e s in (err, s')).2 = (handleEvent time_Now e s).2) as ->
    by by destruct (handleEvent time_Now e s) as [[ch err] s'].
  rewrite handleEvent_eq. unfold apply_event. simpl. destruct (event_op e _) as [op|]; [|done]. cbv zeta.
  destruct (_ && _); rewrite ?call_configurer_state; simpl; by rewrite Nat.add_1_r.
Qed.

(** Between syncs the updater's goroutines apply the events one by one. *)
Lemma run_events ls st st' :
  Forall between_label ls → Forall (eq SyncDone) (syncs st) → u_syncing (shared st) = false →
  run time_Now st ls = Some st' →
  (u_routingTable (shared st'), u_readings (shared st')) =
    foldl (apply_event time_Now) (u_routingTable (shared st), u_readings (shared st)) (events_of ls).
Proof.
  intros Hls. revert st. induction Hls as [|l ls Hl _ IH]; intros st Hd Hs Hr; simpl in Hr; [by simplify_eq|].
  destruct (step time_Now st l) as [st1|] eqn:Hst; [|done]. specialize (IH st1). simpl in Hr.
  destruct l as [| |i|i|e|tr]; simpl in Hl, Hst; try done.
  - simplify_eq. by apply IH.
  - destruct (syncs st !! i) as [pc|] eqn:Hi; [|done]. by rewrite <-(Forall_lookup_1 _ _ _ _ Hd Hi) in Hst.
  - destruct (drains st !! i) as [pc|]; [|done]. simpl in Hst.
    destruct (drain_step pc (shared st)) as [[pc' s']|] eqn:Hstep; [|done]. simpl in Hst. simplify_eq. simpl in IH.
    rewrite (drain_step_flag _ _ _ _ Hstep) in IH. destruct (drain_step_table _ _ _ _ Hstep) as [Ht Hn].
    rewrite (IH Hd Hs Hr). by rewrite Ht, Hn.
  - simplify_eq. simpl in IH. rewrite HandleEvent_flag in IH. rewrite (IH Hd Hs Hr). simpl.
    by rewrite <-(HandleEvent_applied e (shared st) Hs).
Qed.

End process.

(** * From [main] to HAProxy *)

Section routes.
Context `{ConfigLibraries} `{MainLibraries} (mr : MarshalRange) (tr : TableRange).

(** What [main] starts. *)
Definition started (flags : Flags) (p : process mr tr) : system :=
  system_start (subscriptionRetryInterval flags) (pr_updater p).

Lemma started_invariant flags os s p pruned base :
  main mr tr flags os s = Runs p →
  faults os = [] → files os !! tcpLoadBalancerBaseCfg flags = Some base →
  is_Some (files os !! tcpLoadBalancerCfg flags) →
  invariant mr tr (pr_configurer p) api pruned base (mkState (pr_updater p) [] []) ∧
  backendTlsCfg (pr_configurer p) = cfg_BackendTLS (pr_config p) ∧
  ((∀ path env fs, (exec path env fs).2 = None) → script_succeeds (pr_configurer p)).
Proof.
  intros (os1 & os2 & s1 & Hload & Hc & _ & _ & _ & _ & Hu)%main_runs Hfl Hbase Hcfg.
  pose proof (NewConfigurer_calm _ _ _ _ _ _ _ _ Hc (NewConfig_calm _ _ _ _ Hload Hfl)) as Hfl2.
  apply NewConfigurer_returned in Hc as (_ & Hc & Hf).
  assert (files os2 = files os) as Hfiles.
  { rewrite Hf. eapply keeps_files; [apply NewConfig_keeps|done]. }
  split; [|split; [by rewrite Hc|]].
  - rewrite Hu. split; [split|by constructor|by constructor|left; left; split; [done|apply tracks_refl]]; simpl.
    + apply plain_table_empty.
    + split; simpl; by rewrite ?Hfiles, ?Hc.
    + by constructor.
    + done.
  - intros Hexec sr force fs. rewrite Hc. simpl. intros [= <-]. simpl.
    pose proof (Hexec (haproxyReloader flags) (runner_env force) fs) as He. by destruct (exec _ _ fs).
Qed.

(** ** Whatever fails *)

Section any_faults.
Context (h : Configurer) (base : string) (start : OSState) (time_Now : nat → Z).
Context (Hown : baseConfigFilePath h ∉ own_files h).
#[local] Abbreviation U := (@UState tags api (haproxy_configurer mr tr h)).

(** A content of the configuration file: the one at the start, or the whole
    text of a table the configurer was called with. *)
Definition complete (calls : list (RoutingTable * bool)) (content : option string) : Prop :=
  content = files start !! configFilePath h ∨
  ∃ t drain, (t, drain) ∈ calls ∧ content = Some (@config_text _ (haproxy_marshaller mr) h tr t base).
Definition always_complete (s : U) : Prop :=
  let os := cs_os (u_conf s) in
  files os !! baseConfigFilePath h = Some base ∧
  complete (u_configured s) (files os !! configFilePath h) ∧
  ∃ new, history os = new ++ history start ∧
    Forall (λ fs, complete (u_configured s) (fs !! configFilePath h)) new.

Lemma complete_more calls call content : complete calls content → complete (call :: calls) content.
Proof. intros [?|(t & drain & Hin & ?)]; [by left|]. right. exists t, drain. split; [by right|done]. Qed.

Lemma always_complete_invariant : conf_invariant always_complete.
Proof.
  split; [unfold always_complete; by intros s s' -> -> _|].
  intros t draining s (Hb & Hc & new & Hn & Hall). rewrite call_configurer_with_state. unfold always_complete. cbn [u_conf u_configured].
  set (call := (t, draining)). simpl.
  destruct (Configure h tr t draining (u_conf s)) as [r c'] eqn:Hcall. simpl.
  assert (baseConfigFilePath h ≠ backup_path h) as Hne.
  { intros Heq. apply Hown. rewrite Heq. unfold own_files. set_solver. }
  pose proof (Configure_frame _ _ _ _ _ _ _ _ _ Hown Hown Hcall) as Hframe.
  pose proof (Configure_files _ _ _ _ _ _ _ Hne Hcall) as Hfiles.
  apply Configure_moments in Hcall as (new' & Hn' & Hall'); [|done].
  assert (∀ content, content = files (cs_os (u_conf s)) !! configFilePath h ∨
      (∃ base', files (cs_os (u_conf s)) !! baseConfigFilePath h = Some base' ∧
        content = Some (@config_text _ (haproxy_marshaller mr) h tr t base')) →
      complete (call :: u_configured s) content) as Hone.
  { intros content [->|(base' & Hb' & ->)]; [by apply complete_more|].
    right. exists t, draining. split; [by left|]. congruence. }
  split; [by rewrite Hframe|]. split; [by apply Hone|].
  exists (new' ++ new). rewrite Hn', Hn, (assoc_L (++)). split; [done|]. apply Forall_app. split.
  - eapply Forall_impl; [exact Hall'|]. intros fs. apply Hone.
  - eapply Forall_impl; [exact Hall|]. intros fs. apply complete_more.
Qed.

End any_faults.

(** C4. Whatever fails: however system calls, reloads and syncs fail and however
    the goroutines interleave, at every moment since the start HAProxy's
    configuration file is the one that was there at the start, or the base
    configuration followed by the complete text of a routing table the updater
    handed to the configurer. *)
Theorem file_always_complete (flags : Flags) (os : OSState) (s : pc_state) (p : process mr tr)
    (time_Now : nat → Z) (ls : list slabel) (sys : system) (base : string) :
  main mr tr flags os s = Runs p → files os !! tcpLoadBalancerBaseCfg flags = Some base →
  baseConfigFilePath (pr_configurer p) ∉ own_files (pr_configurer p) →
  system_run time_Now (started flags p) ls = Some sys →
  let u := shared (sys_updater sys) in
  let start := cs_os (u_conf (pr_updater p)) in
  ∃ new, history (cs_os (u_conf u)) = new ++ history start ∧
    Forall (λ fs, fs !! configFilePath (pr_configurer p) = files os !! tcpLoadBalancerCfg flags ∨
      ∃ t drain, (t, drain) ∈ u_configured u ∧
        fs !! configFilePath (pr_configurer p) =
          Some (@config_text _ (haproxy_marshaller mr) (pr_configurer p) tr t base))
      (files (cs_os (u_conf u)) :: new).
Proof.
  intros (os1 & os2 & s1 & Hload & Hc & _ & _ & _ & _ & Hu)%main_runs Hbase Hown Hr. cbv zeta.
  apply NewConfigurer_returned in Hc as (_ & Hc & Hf).
  assert (files os2 = files os) as Hfiles.
  { rewrite Hf. eapply keeps_files; [apply NewConfig_keeps|done]. }
  assert (cs_os (u_conf (pr_updater p)) = os2) as Hos by by rewrite Hu.
  assert (configFilePath (pr_configurer p) = tcpLoadBalancerCfg flags) as Hcfg by by rewrite Hc.
  apply system_run_parts in Hr as [_ Hrun].
  pose proof (run_conf time_Now _ (always_complete_invariant (pr_configurer p) base os2 Hown) _ _ _ ltac:(by intros ? H2)
    Hrun) as Hall.
  destruct Hall as (_ & Hnow & new & Hn & Hnew).
  - simpl. unfold always_complete. rewrite Hos. split; [rewrite Hfiles, Hc; exact Hbase|]. split; [by left|]. by exists [].
  - exists new. rewrite Hos. split; [done|]. unfold complete in *. rewrite Hfiles, Hcfg in *. by constructor.
Qed.

(** ** Reloads that succeed *)

Section reloads.
Context (h : Configurer) (base : string) (time_Now : nat → Z).
Context (Hown : baseConfigFilePath h ∉ own_files h) (Hsr : script_succeeds h) (Hrun : is_Some (scriptRunner h)).
#[local] Abbreviation U := (@UState tags api (haproxy_configurer mr tr h)).

(** Each call of the configurer was one successful reload, with the flag of
    the call. *)
Definition reloaded (s : U) : Prop :=
  quiet h base (u_conf s) ∧
  (λ r, (rl_force r, rl_error r)) <$> cs_reloads (u_conf s) = (λ call, (call.2, None)) <$> u_configured s.

Lemma reloaded_invariant : conf_invariant reloaded.
Proof.
  split; [unfold reloaded; by intros s s' -> -> _|].
  intros t draining s [Hq Hl]. rewrite call_configurer_with_state. unfold reloaded. cbn [u_conf u_configured].
  destruct (Configure_quiet mr tr h base t draining (u_conf s) Hown Hsr Hq) as (c' & Hc & Hq').
  simpl. rewrite Hc. simpl. split; [done|].
  apply Configure_cases in Hc as (rw & os' & _ & Hr). destruct rw as [u|e]; [|by destruct Hr].
  destruct Hrun as [sr Hsc]. rewrite Hsc in Hr. destruct Hr as [_ ->]. rewrite (Hsr sr _ _ Hsc). cbn [cs_reloads].
  rewrite fmap_cons, Hl. done.
Qed.

End reloads.

Section faultless.
Context (flags : Flags) (os : OSState) (s : pc_state) (p : process mr tr).
Context (time_Now : nat → Z) (base : string).
Context (Hmr : IsMarshalRange mr) (Htr : IsTableRange tr).
Context (Hapi : ∀ a ms a', TcpRouteMappings a = (Ok ms, a') → Forall plain_mapping ms).

(** [main] starts the process on a file system without faults, with the files
    it needs and a reloader that succeeds; the paths that reach the text of the
    configuration are plain words. *)
Record faultless : Prop := {
  fl_starts : main mr tr flags os s = Runs p;
  fl_faults : faults os = [];
  fl_base : files os !! tcpLoadBalancerBaseCfg flags = Some base;
  fl_config : is_Some (files os !! tcpLoadBalancerCfg flags);
  fl_paths : baseConfigFilePath (pr_configurer p) ∉ own_files (pr_configurer p);
  fl_reloader : ∀ path env fs, (exec path env fs).2 = None;
  fl_tls : plain_tls (cfg_BackendTLS (pr_config p))
}.

(** Whether the table was pruned since HAProxy was last told. *)
Definition table_pruned (sys : @system tags api (haproxy_configurer mr tr (pr_configurer p))) (ls : list slabel) : bool :=
  pruned_since mr tr (pr_configurer p) api time_Now false (sys_updater sys) (updater_labels time_Now sys ls).

Lemma process_tracked ls sys :
  faultless → Forall plain_step ls → system_run time_Now (started flags p) ls = Some sys →
  settled (sys_updater sys) →
  tracked mr tr (pr_configurer p) api (table_pruned (started flags p) ls) base (shared (sys_updater sys)).
Proof.
  intros [Hm Hfl Hbase Hcfg Hown Hexec Htls] Hls Hr [Hquiet Hcurrent].
  destruct (started_invariant _ _ _ _ false base Hm Hfl Hbase Hcfg) as (Hinv & Htls' & Hsr).
  rewrite <-Htls' in Htls.
  assert (Forall (plain_label true) (updater_labels time_Now (started flags p) ls)) as Hpl
    by (eapply updater_labels_plain; [exact Hr|exact Hls|by constructor]).
  apply system_run_parts in Hr as [_ Hu].
  destruct (run_since mr tr (pr_configurer p) api time_Now Hmr Htr Htls Hown (Hsr Hexec) Hapi
    false base _ _ _ Hpl Hinv Hu) as [_ _ _ [Ht|[Hpend|Hstale]]]; [done|exfalso..].
  - by apply (Forall_not_Exists _ _ Hquiet).
  - apply Exists_exists in Hstale as (pc & Hpc & Hp). rewrite Forall_forall in Hcurrent. by rewrite (Hcurrent pc Hpc) in Hp.
Qed.

(** C1. What HAProxy serves is what the table says.  Take a process that starts
    without faults on a file system without faults, whose reloads succeed, and
    any interleaving of its goroutines: any number of syncs, failing or not
    and overlapping, events, drains, prunes.  At every moment when no sync holds
    a change it has yet to hand on and no drain was given a table that a sync
    had replaced meanwhile, either the configurer was never called and the table
    has no backend, or HAProxy's configuration file sends the connections of
    every port the base configuration leaves free to exactly the servers of a
    table that has every backend of the routing table, and no other backend
    unless the routing table was pruned since the configurer was last called. *)
Theorem process_routes (ls : list slabel) (sys : system) :
  faultless → Forall plain_step ls →
  system_run time_Now (started flags p) ls = Some sys →
  settled (sys_updater sys) →
  let u := shared (sys_updater sys) in
  u_configured u = [] ∧ same_backends NewRoutingTable (u_routingTable u) ∨
  ∃ t text, covers t (u_routingTable u) ∧
    (table_pruned (started flags p) ls = false → same_backends t (u_routingTable u)) ∧
    files (cs_os (u_conf u)) !! configFilePath (pr_configurer p) = Some text ∧
    ∀ port sni, leaves_port base port →
      route_to (read_config text) port sni =
      server_texts (backendTlsCfg (pr_configurer p)) <$> table_serving tr t port sni.
Proof.
  intros Hfl Hls Hr Hquiet. cbv zeta. pose proof (process_tracked _ _ Hfl Hls Hr Hquiet) as Htk.
  destruct (table_pruned _ ls).
  - destruct Htk as [[Hc Hn]|(t & Ht & text & Hf)]; [left|right].
    + split; [done|]. intros rk bk. split; [|by apply Hn].
      intros [d Hd]. unfold lookup_backend in Hd. simpl in Hd. by rewrite lookup_empty in Hd.
    + exists t, text. done.
  - destruct Htk as [[Hc Hn]|(t & Ht & text & Hf)]; [by left|right].
    exists t, text. split; [|done]. intros rk bk. apply Ht.
Qed.

(** C3. No live route is lost.  In a process that starts without faults, on a
    file system without faults and with reloads that succeed, with any
    interleaving of syncs, events, drains and prunes: at every moment when no
    sync holds a change it has yet to hand on and no drain was given a table
    that a sync had replaced meanwhile, every backend of the routing table that
    is valid, is on a valid route of a port the base configuration leaves free,
    and has a server line under the TLS configuration, is a server of its route
    in HAProxy's configuration file. *)
Theorem live_routes_served (ls : list slabel) (sys : system) rk bk ws :
  faultless → Forall plain_step ls → system_run time_Now (started flags p) ls = Some sys →
  settled (sys_updater sys) →
  is_Some (lookup_backend (u_routingTable (shared (sys_updater sys))) rk bk) →
  valid_route rk = true → valid_backend bk = true → leaves_port base (rk_Port rk) →
  server_words (backendTlsCfg (pr_configurer p)) bk = Some ws →
  ∃ text servers,
    files (cs_os (u_conf (shared (sys_updater sys)))) !! configFilePath (pr_configurer p) = Some text ∧
    route_to (read_config text) (rk_Port rk) (rk_SniHostname rk) = Some servers ∧ ws ∈ servers.
Proof.
  intros Hfl Hls Hr Hquiet.
  by apply (tracked_serves mr tr _ api Htr (table_pruned (started flags p) ls)), process_tracked.
Qed.

(** C6. Events reach HAProxy.  In a process that starts without faults, on a
    file system without faults and with reloads that succeed, from a moment when
    all syncs are done, and as long as the watcher receives no other sync and
    the table is not pruned: the events the updater is given are, in order, those
    the routing API sends, less the one still on its way; the table is the old
    one with these events applied in their order; and, unless a drain was given
    a table that a sync had replaced meanwhile, every backend of the result that
    is valid, is on a valid route of a port the base configuration leaves free
    and has a server line, is a server of its route in HAProxy's file. *)
Theorem events_between_syncs (ls ls' : list slabel) (sys0 sys : system) :
  faultless → Forall plain_step (ls ++ ls') → Forall between_syncs ls' →
  system_run time_Now (started flags p) ls = Some sys0 → Forall (eq SyncDone) (syncs (sys_updater sys0)) →
  system_run time_Now sys0 ls' = Some sys →
  let u0 := shared (sys_updater sys0) in
  let u := shared (sys_updater sys) in
  ∃ given,
    in_flight (sys_watcher sys0) ++ events_read (ls' ≫= watcher_label) = given ++ in_flight (sys_watcher sys) ∧
    w_handled (sys_watcher sys) = w_handled (sys_watcher sys0) ++ given ∧
    u_routingTable u = (foldl (apply_event time_Now) (u_routingTable u0, u_readings u0) given).1 ∧
    (settled (sys_updater sys) → ∀ rk bk ws, is_Some (lookup_backend (u_routingTable u) rk bk) →
      valid_route rk = true → valid_backend bk = true → leaves_port base (rk_Port rk) →
      server_words (backendTlsCfg (pr_configurer p)) bk = Some ws →
      ∃ text servers, files (cs_os (u_conf u)) !! configFilePath (pr_configurer p) = Some text ∧
        route_to (read_config text) (rk_Port rk) (rk_SniHostname rk) = Some servers ∧ ws ∈ servers).
Proof.
  intros Hfl Hls Hbetween Hr Hdone Hr'. cbv zeta. exists (events_of (updater_labels time_Now sys0 ls')).
  pose proof (updater_labels_events _ _ _ _ Hr') as Hev. split; [|split; [exact Hev|split]].
  - apply (app_inv_head (w_handled (sys_watcher sys0))). rewrite !(assoc_L (++)), <-Hev.
    apply events_handled. by apply system_run_parts in Hr' as [Hw _].
  - assert (u_syncing (shared (sys_updater sys0)) = false) as Hidle.
    { apply flagged_idle; [|done]. apply system_run_parts in Hr as [_ Hu].
      eapply flagged_run; [|exact Hu]. unfold flagged. simpl.
      pose proof (fl_starts Hfl) as (os1 & os2 & s1 & _ & _ & _ & _ & _ & _ & ->)%main_runs. done. }
    pose proof (updater_labels_between _ _ _ _ Hr' Hbetween) as Hl.
    apply system_run_parts in Hr' as [_ Hu]. by rewrite <-(run_events _ _ _ _ Hl Hdone Hidle Hu).
  - intros Hset rk bk ws Hbk Hrk Hvb Hport Hws.
    apply (tracked_serves mr tr _ api Htr (table_pruned (started flags p) (ls ++ ls')) base _ rk bk ws); try done.
    apply process_tracked; [done|done| |done]. by rewrite system_run_app, Hr.
Qed.

Lemma first_sync_unpruned n : table_pruned (started flags p) (SyncTick true :: replicate n (SyncGoes 0)) = false.
Proof.
  apply pruned_since_none. cbn [updater_labels]. apply Forall_app. split; [by repeat constructor|].
  destruct (system_step _ _ _) as [sys|]; [|constructor]. revert sys.
  induction n as [|n IH]; intros sys; cbn [replicate updater_labels]; [constructor|].
  apply Forall_app. split; [by repeat constructor|]. destruct (system_step _ _ _); [apply IH|constructor].
Qed.

(** C38. The first sync brings the routes in.  In a process that starts without
    faults, on a file system without faults and with reloads that succeed, a
    first sync that the watcher receives, that gets a listing which is not empty
    and is left to itself ends with HAProxy's configuration file sending the
    connections of every port the base configuration leaves free to exactly
    the servers of a table whose backends are those listed. *)
Theorem first_sync_serves_listing (ms : list TcpRouteMapping) u1 :
  faultless → ms ≠ [] → Sync_fetch 2 true None (Sync_begin (pr_updater p)) = (Some (ms, None), u1) →
  ∃ n sys t text,
    system_run time_Now (started flags p) (SyncTick true :: replicate n (SyncGoes 0)) = Some sys ∧
    syncs (sys_updater sys) = [SyncDone] ∧
    (∀ rk bk, is_Some (lookup_backend t rk bk) ↔ (rk, bk) ∈ mapping_target <$> ms) ∧
    files (cs_os (u_conf (shared (sys_updater sys)))) !! configFilePath (pr_configurer p) = Some text ∧
    ∀ port sni, leaves_port base port →
      route_to (read_config text) port sni =
      server_texts (backendTlsCfg (pr_configurer p)) <$> table_serving tr t port sni.
Proof.
  intros Hfl Hms Hf. pose proof (fl_starts Hfl) as (os1 & os2 & s1 & _ & _ & _ & _ & _ & _ & Hu)%main_runs.
  destruct (sync_runs_alone time_Now (pr_updater p) []) as (n & ds & Hn & Hds). apply nil_length_inv in Hds as ->.
  eexists n, _.
  assert (system_run time_Now (started flags p) (SyncTick true :: replicate n (SyncGoes 0)) =
    Some (mkSystem (spawn 1 0 (Watcher_New (subscriptionRetryInterval flags)))
      (Syncer.syncer_ask true Syncer.syncer_new) (mkState (Sync time_Now (pr_updater p)) [SyncDone] []))) as Hr.
  { cbn [system_run]. unfold started, system_start. cbn.
    rewrite (system_run_sync time_Now n 0 _ _ _ _ Hn). done. }
  assert (Forall plain_step (SyncTick true :: replicate n (SyncGoes 0))) as Hplain
    by (constructor; [done|]; by apply Forall_replicate).
  pose proof (process_tracked _ _ Hfl Hplain Hr ltac:(split; repeat constructor; by intros [])) as Htk.
  rewrite first_sync_unpruned in Htk.
  apply tracked_in_force in Htk. simpl in Htk.
  pose proof (Sync_of_empty time_Now (pr_updater p) ms u1 ltac:(by rewrite Hu) Hf) as Hlisted.
  destruct Htk as [[_ Hempty]|(t & text & Hsame & Htext & Hroute)].
  - exfalso. destruct ms as [|m ms]; [done|]. destruct (mapping_target m) as [rk bk] eqn:Hm.
    assert (is_Some (lookup_backend NewRoutingTable rk bk)) as [d Hd].
    { apply Hempty, Hlisted. rewrite fmap_cons, Hm. by left. }
    unfold lookup_backend in Hd. simpl in Hd. by rewrite lookup_empty in Hd.
  - exists t, text. split; [exact Hr|]. split; [done|]. split; [|done]. intros rk bk. by rewrite (Hsame rk bk), Hlisted.
Qed.

(** C5. A sync brings HAProxy up to the routing API: in a process that starts
    without faults, on a file system without faults and with reloads that
    succeed, from any moment when no sync holds a change back and no drain was
    given a replaced table, with the syncer and the watcher running, whatever
    happened before: a sync that gets a listing and is left to itself ends with
    the listing merged into the table, with nothing held back, and with every
    valid backend listed that has a server line, on a valid route of a port the
    base leaves free, a server of its route in HAProxy's configuration file. *)
Theorem sync_catches_up (ls : list slabel) (sys : system) (ms : list TcpRouteMapping) u1 :
  faultless → Forall plain_step ls → system_run time_Now (started flags p) ls = Some sys →
  settled (sys_updater sys) →
  Syncer.sy_running (sys_syncer sys) = true → w_running (sys_watcher sys) = true →
  Sync_fetch 2 true None (Sync_begin (shared (sys_updater sys))) = (Some (ms, None), u1) →
  ∃ n sys',
    system_run time_Now sys (SyncTick true :: replicate n (SyncGoes (length (syncs (sys_updater sys))))) = Some sys' ∧
    settled (sys_updater sys') ∧
    merged ms (u_routingTable (shared (sys_updater sys))) (u_routingTable (shared (sys_updater sys'))) ∧
    ∀ rk bk ws, (rk, bk) ∈ mapping_target <$> ms →
      valid_route rk = true → valid_backend bk = true → leaves_port base (rk_Port rk) →
      server_words (backendTlsCfg (pr_configurer p)) bk = Some ws →
      ∃ text servers,
        files (cs_os (u_conf (shared (sys_updater sys')))) !! configFilePath (pr_configurer p) = Some text ∧
        route_to (read_config text) (rk_Port rk) (rk_SniHostname rk) = Some servers ∧ ws ∈ servers.
Proof.
  intros Hfl Hls Hr [Hquiet Hcurrent] Hsy Hw Hf.
  destruct (sync_completes_among time_Now (sys_updater sys)) as (n & ds & Hn & Hds).
  destruct (watcher_step (sys_watcher sys) Main_sync) as [w|] eqn:Hws; [|by apply watcher_takes_sync in Hw as [? ?]; congruence].
  set (sys' := mkSystem w (syncer_after (sys_syncer sys) (SyncTick true))
    (mkState (Sync time_Now (shared (sys_updater sys))) (syncs (sys_updater sys) ++ [SyncDone]) ds)).
  assert (system_run time_Now sys (SyncTick true :: replicate n (SyncGoes (length (syncs (sys_updater sys))))) = Some sys')
    as Hrun.
  { cbn [system_run]. unfold system_step at 1. cbn [enabled watcher_label updater_label].
    rewrite Hsy, watcher_step_run, Hws, run_one. cbn [mbind option_bind step]. by apply system_run_sync. }
  assert (settled (sys_updater sys')) as Hset.
  { split; simpl; [by apply Forall_app; repeat constructor; [|intros []]|by apply Hds]. }
  exists n, sys'. split; [exact Hrun|]. split; [exact Hset|].
  pose proof (Sync_merged time_Now _ _ _ Hf) as Hm. split; [exact Hm|].
  intros rk bk ws Hin Hrk Hbk Hport Hwords.
  set (ls' := ls ++ SyncTick true :: replicate n (SyncGoes (length (syncs (sys_updater sys))))).
  assert (system_run time_Now (started flags p) ls' = Some sys') as Hr'
    by (unfold ls'; by rewrite system_run_app, Hr).
  assert (Forall plain_step ls') as Hplain by (apply Forall_app; split; [done|constructor; [done|by apply Forall_replicate]]).
  apply (tracked_serves mr tr _ api Htr (table_pruned (started flags p) ls') base _ rk bk ws); try done.
  - by apply process_tracked.
  - by apply (merged_listed _ _ _ Hm).
Qed.

(** C26. A drained process tells HAProxy first.  In a process that starts
    without faults, on a file system without faults and with reloads that
    succeed, that got at most one [SIGUSR2]: when its watcher interrupts it, the
    draining flag is set and HAProxy's last reload, which succeeded, was one
    with the draining flag, so that HAProxy's health check fails; whatever
    syncs, events and prunes came during the drain or after it. *)
Theorem interrupted_after_drain (ls : list slabel) (sys : system) :
  faultless → system_run time_Now (started flags p) ls = Some sys →
  (w_drains (sys_watcher sys) ≤ 1)%nat → (0 < w_interrupts (sys_watcher sys))%nat →
  let u := shared (sys_updater sys) in
  u_isDraining u = true ∧
  ∃ r rs, cs_reloads (u_conf u) = r :: rs ∧ rl_force r = true ∧ rl_error r = None.
Proof.
  intros [Hm Hfl Hbase Hcfg Hown Hexec _] Hr Hone Hint. cbv zeta.
  pose proof (system_run_agrees _ _ _ _ _ Hr) as [_ _ H3 H4]. pose proof (system_run_interrupts _ _ _ _ _ Hr) as Hle.
  destruct (started_invariant _ _ _ _ false base Hm Hfl Hbase Hcfg) as ([[_ Hq _ _] _ _ _] & _ & Hsr).
  apply main_runs in Hm as (os1 & os2 & s1 & _ & (_ & Hc & _)%NewConfigurer_returned & _ & _ & _ & _ & Hu0).
  apply system_run_parts in Hr as [_ Hu].
  assert (reloaded (pr_configurer p) base (shared (sys_updater sys))) as [_ Hlog].
  { assert (is_Some (scriptRunner (pr_configurer p))) as Hsc by (rewrite Hc; by eexists).
    eapply (run_conf time_Now _ (reloaded_invariant (pr_configurer p) base Hown (Hsr Hexec) Hsc));
      [by intros ? Hs|exact Hu|]. split; [exact Hq|]. cbn. by rewrite Hu0. }
  apply one_drain_run in Hu; [|unfold one_drain; simpl; by rewrite Hu0].
  unfold one_drain in Hu. unfold drains_done in H4.
  destruct (drains (sys_updater sys)) as [|pc [|]]; simpl in *; [lia| |lia].
  assert (u_isDraining (shared (sys_updater sys)) = true ∧ told (shared (sys_updater sys))) as [Hd (t & cs & Ht)]
    by (destruct pc; simpl in *; (done || lia)).
  split; [exact Hd|]. rewrite Ht in Hlog. destruct (cs_reloads _) as [|r rs]; [done|].
  injection Hlog as Hforce Herr _. by exists r, rs.
Qed.

End faultless.

End routes.

(** * Concrete runs *)
Module Sample.
Import RoutingTable.Sample HAProxyConfig.Sample MarshallerCorrect.Sample Updater.Sample System.Sample
  PortChecker.Sample Watcher.Sample Main.Sample.

(** Two syncs overlap, an event arrives while they run and another one after,
    then the process is drained. *)
Definition day : list slabel :=
  [SyncTick true; SyncGoes 0; Subscriber Sub_check; Subscriber (Sub_token (Ok "t")); Subscriber (Sub_subscribe (Ok tt));
   Subscriber (Sub_next (Ok ev1)); Deliver; SyncGoes 0; SyncTick false; SyncTick true; SyncGoes 1; SyncGoes 0; SyncGoes 1]
  ++ replicate 4 (SyncGoes 0) ++ [Subscriber (Sub_next (Ok ev2)); Deliver] ++ replicate 5 (SyncGoes 1)
  ++ [ProcessSet; WatcherSignal SIGUSR2] ++ replicate 6 (DrainGoes 0) ++ [DrainEnds].

#[local] Abbreviation sample_rc := (haproxy_configurer plain_marshal plain_range main_configurer).
Definition day_start : @system _ main_api sample_rc :=
  started plain_marshal plain_range (main_flags false) main_process.
Definition day_end : @system _ main_api sample_rc := default day_start (system_run sample_now day_start day).
Lemma day_shape :
  (λ sys : @system _ main_api sample_rc, (syncs (sys_updater sys), drains (sys_updater sys))) <$> system_run sample_now day_start day
  = Some ([SyncDone; SyncDone], [DrainDone None]).
Proof. vm_compute. reflexivity. Qed.
Lemma day_run : system_run sample_now day_start day = Some day_end.
Proof. unfold day_end. pose proof day_shape as Hs. destruct (system_run sample_now day_start day); [reflexivity|discriminate Hs]. Qed.
Lemma day_settled : settled (sys_updater day_end).
Proof.
  assert (syncs (sys_updater day_end) = [SyncDone; SyncDone] ∧ drains (sys_updater day_end) = [DrainDone None]) as [Hs Hd]
    by (vm_compute; split; reflexivity).
  unfold settled. rewrite Hs, Hd. split; [|by repeat constructor].
  constructor; [intros []|constructor; [intros []|constructor]].
Qed.
Lemma day_plain : Forall plain_step day.
Proof.
  assert (∀ e, e = ev1 ∨ e = ev2 → plain_event e) as He by (intros e [-> | ->] Hp; vm_compute in Hp; discriminate Hp).
  unfold day. repeat (apply List.Forall_app; split); repeat (apply List.Forall_cons; [simpl; auto|]); apply List.Forall_nil.
Qed.
Lemma main_api_plain a ms a' : @TcpRouteMappings _ main_api a = (Ok ms, a') → Forall plain_mapping ms.
Proof.
  intros Hms. injection Hms as <- _.
  repeat (constructor; [intros Hp; vm_compute in Hp; discriminate Hp|]). constructor.
Qed.
Lemma sample_faultless :
  faultless plain_marshal plain_range (main_flags false) main_os main_pc main_process sample_base.
Proof.
  split; [exact main_starts|reflexivity|reflexivity|by exists ""| |done|intros Htls; discriminate Htls].
  unfold own_files. simpl. set_solver.
Qed.

Lemma process_routes_witness :
  ∃ t text, covers t (u_routingTable (shared (sys_updater day_end))) ∧
    files (cs_os (u_conf (shared (sys_updater day_end)))) !! "/cfg" = Some text ∧
    route_to (read_config text) 80 "" = server_texts (mkBackendTLSConfig false "" "") <$> table_serving plain_range t 80 "".
Proof.
  destruct (process_routes plain_marshal plain_range (main_flags false) main_os main_pc main_process sample_now sample_base
    plain_marshal_ok plain_range_ok main_api_plain day day_end sample_faultless day_plain day_run day_settled)
    as [[Hnone _]|(t & text & Hc & _ & Hf & Hroute)].
  - exfalso. apply (f_equal length) in Hnone. vm_compute in Hnone. discriminate Hnone.
  - exists t, text. split; [exact Hc|]. split; [exact Hf|]. exact (Hroute 80 "" (sample_base_leaves 80)).
Defined.

Lemma interrupted_after_drain_witness :
  u_isDraining (shared (sys_updater day_end)) = true ∧
  rl_force <$> head (cs_reloads (u_conf (shared (sys_updater day_end)))) = Some true.
Proof.
  destruct (interrupted_after_drain plain_marshal plain_range (main_flags false) main_os main_pc main_process sample_now
    sample_base day day_end sample_faultless day_run ltac:(vm_compute; lia) ltac:(vm_compute; lia))
    as (Hd & r & rs & Hr & Hf & _).
  split; [exact Hd|]. etrans; [exact (f_equal (λ l, rl_force <$> head l) Hr)|]. simpl. by rewrite Hf.
Defined.

(** A sync alone, then two events; the second one is still on its way. *)
Definition morning : list slabel := SyncTick true :: replicate 7 (SyncGoes 0).
Definition noon : list slabel :=
  [Subscriber Sub_check; Subscriber (Sub_token (Ok "t")); Subscriber (Sub_subscribe (Ok tt));
   Subscriber (Sub_next (Ok ev1)); Deliver; SyncTick false; Subscriber (Sub_next (Ok ev2))].
Definition morning_end : @system _ main_api sample_rc := default day_start (system_run sample_now day_start morning).
Definition noon_end : @system _ main_api sample_rc := default day_start (system_run sample_now morning_end noon).
Lemma morning_run : system_run sample_now day_start morning = Some morning_end.
Proof.
  assert ((λ sys : @system _ main_api sample_rc, syncs (sys_updater sys)) <$> system_run sample_now day_start morning
    = Some [SyncDone]) as Hs by (vm_compute; reflexivity).
  unfold morning_end. destruct (system_run sample_now day_start morning); [reflexivity|discriminate Hs].
Qed.
Lemma noon_run : system_run sample_now morning_end noon = Some noon_end.
Proof.
  assert ((λ sys : @system _ main_api sample_rc, length (w_handled (sys_watcher sys))) <$> system_run sample_now morning_end noon
    = Some 1%nat) as Hs by (vm_compute; reflexivity).
  unfold noon_end. destruct (system_run sample_now morning_end noon); [reflexivity|discriminate Hs].
Qed.
Lemma noon_plain : Forall plain_step (morning ++ noon).
Proof.
  assert (∀ e, e = ev1 ∨ e = ev2 → plain_event e) as He by (intros e [-> | ->] Hp; vm_compute in Hp; discriminate Hp).
  unfold morning, noon. repeat (apply List.Forall_app; split); repeat (apply List.Forall_cons; [simpl; auto|]); apply List.Forall_nil.
Qed.
Lemma events_between_syncs_witness :
  w_handled (sys_watcher noon_end) = [ev1] ∧
  u_routingTable (shared (sys_updater noon_end)) =
    (foldl (apply_event sample_now) (u_routingTable (shared (sys_updater morning_end)), u_readings (shared (sys_updater morning_end)))
      [ev1]).1.
Proof.
  destruct (events_between_syncs plain_marshal plain_range (main_flags false) main_os main_pc main_process sample_now sample_base
    plain_marshal_ok plain_range_ok main_api_plain morning noon morning_end noon_end sample_faultless noon_plain)
    as (given & Hg & Hh & Ht & _);
    [|exact morning_run| |exact noon_run|].
  - unfold noon. repeat (apply List.Forall_cons; [exact I|]). apply List.Forall_nil.
  - assert (syncs (sys_updater morning_end) = [SyncDone]) as Hs by (vm_compute; reflexivity).
    assert (Forall (eq SyncDone) [SyncDone]) as Hone by repeat constructor.
    exact (eq_ind_r (Forall (eq SyncDone)) Hone Hs).
  - assert (given = [ev1]) as ->; [|split; [exact Hh|exact Ht]].
    assert (in_flight (sys_watcher noon_end) = [ev2]) as Hf by (vm_compute; reflexivity).
    assert (in_flight (sys_watcher morning_end) ++ events_read (noon ≫= watcher_label) = [ev1] ++ [ev2]) as Hr
      by (vm_compute; reflexivity).
    pose proof (eq_trans (eq_sym Hr) Hg) as Heq. pose proof (eq_trans Heq (f_equal (app given) Hf)) as Hend.
    by apply app_inj_tail in Hend as [<- _].
Defined.

(** One sync, then the pruner: one of the two backends has expired and leaves
    the table, the other is still there and served. *)
Definition quick_now (i : nat) : Z := Z.of_nat i * 20 * Second.
Definition pruned_day : list slabel := [SyncTick true] ++ replicate 7 (SyncGoes 0) ++ [PruneTick plain_range].
Definition pruned_end : @system _ main_api sample_rc := default day_start (system_run quick_now day_start pruned_day).
Lemma pruned_run : system_run quick_now day_start pruned_day = Some pruned_end.
Proof.
  assert ((λ sys : @system _ main_api sample_rc, syncs (sys_updater sys)) <$> system_run quick_now day_start pruned_day
    = Some [SyncDone]) as Hs by (vm_compute; reflexivity).
  unfold pruned_end. destruct (system_run quick_now day_start pruned_day); [reflexivity|discriminate Hs].
Qed.
Definition live_backend : BackendServerKey := mkBackendServerKey "host-2.internal" 8080 0 "".
Example one_is_pruned :
  (map_to_list (route_backends (u_routingTable (shared (sys_updater pruned_end))) key80)).*1 = [live_backend].
Proof. vm_compute. reflexivity. Qed.

Lemma pruned_plain : Forall plain_step pruned_day.
Proof.
  unfold pruned_day. repeat (apply List.Forall_app; split);
    repeat (apply List.Forall_cons; [first [exact I | exact plain_range_ok]|]); apply List.Forall_nil.
Qed.
Lemma pruned_settled : settled (sys_updater pruned_end).
Proof.
  assert (syncs (sys_updater pruned_end) = [SyncDone] ∧ drains (sys_updater pruned_end) = []) as [Hs Hd]
    by (vm_compute; split; reflexivity).
  unfold settled. rewrite Hs, Hd. split; [constructor; [intros []|constructor]|constructor].
Qed.

Lemma live_routes_served_witness :
  ∃ text servers,
    files (cs_os (u_conf (shared (sys_updater pruned_end)))) !! "/cfg" = Some text ∧
    route_to (read_config text) 80 "" = Some servers ∧
    ["server"; "server_host-2.internal_8080"; "host-2.internal:8080"] ∈ servers.
Proof.
  exact (live_routes_served plain_marshal plain_range (main_flags false) main_os main_pc main_process quick_now sample_base
    plain_marshal_ok plain_range_ok main_api_plain pruned_day pruned_end key80 live_backend _ sample_faultless pruned_plain
    pruned_run pruned_settled ltac:(vm_compute; by eexists) eq_refl eq_refl (sample_base_leaves 80) eq_refl).
Defined.

Definition fetched : @UState _ main_api sample_rc :=
  (@Sync_fetch _ main_api sample_rc 2 true None (Sync_begin (pr_updater main_process))).2.
Lemma first_sync_serves_listing_witness :
  ∃ n sys t,
    system_run sample_now day_start (SyncTick true :: replicate n (SyncGoes 0)) = Some sys ∧
    syncs (sys_updater sys) = [SyncDone] ∧ is_Some (lookup_backend t key80 live_backend).
Proof.
  destruct (first_sync_serves_listing plain_marshal plain_range (main_flags false) main_os main_pc main_process
    sample_now sample_base plain_marshal_ok plain_range_ok main_api_plain [mapping1; mapping2] fetched sample_faultless
    ltac:(done) eq_refl) as (n & sys & t & text & Hr & Hs & Ht & _).
  exists n, sys, t. split; [exact Hr|]. split; [exact Hs|]. apply Ht. right. left.
Defined.

(** The next sync brings the pruned backend back. *)
Definition fetched_again : @UState _ main_api sample_rc :=
  (@Sync_fetch _ main_api sample_rc 2 true None (Sync_begin (shared (sys_updater pruned_end)))).2.
Lemma sync_catches_up_witness :
  ∃ n sys' text servers,
    system_run quick_now pruned_end (SyncTick true :: replicate n (SyncGoes 1)) = Some sys' ∧
    files (cs_os (u_conf (shared (sys_updater sys')))) !! "/cfg" = Some text ∧
    route_to (read_config text) 80 "" = Some servers ∧
    ["server"; "server_host-1.internal_8080"; "host-1.internal:8080"] ∈ servers.
Proof.
  destruct (sync_catches_up plain_marshal plain_range (main_flags false) main_os main_pc main_process
    quick_now sample_base plain_marshal_ok plain_range_ok main_api_plain pruned_day pruned_end [mapping1; mapping2]
    fetched_again sample_faultless pruned_plain pruned_run pruned_settled ltac:(vm_compute; reflexivity)
    ltac:(vm_compute; reflexivity) eq_refl) as (n & sys' & Hr & _ & _ & Hserved).
  destruct (Hserved key80 (mkBackendServerKey "host-1.internal" 8080 0 "") _ ltac:(left) eq_refl eq_refl
    (sample_base_leaves 80) eq_refl) as (text & servers & Htext & Hroute & Hin).
  exists n, sys', text, servers. split; [exact Hr|]. split; [exact Htext|]. split; [exact Hroute|exact Hin].
Defined.

(** The disk is full while the first configuration is written; the second one
    gets through. *)
Definition faulty_os : OSState :=
  mkOS {[ "/base" := sample_base; "/cfg" := "old"; "/yml" := "/pid" ]} 0
    (replicate 9 None ++ [Some (mkFault "no space left on device" false 3)]) [].
Definition faulty_process : process plain_marshal plain_range :=
  match main plain_marshal plain_range (main_flags false) faulty_os main_pc with
  | Runs p => p
  | Stops _ => main_process
  end.
Lemma faulty_starts : main plain_marshal plain_range (main_flags false) faulty_os main_pc = Runs faulty_process.
Proof. reflexivity. Qed.
#[local] Abbreviation faulty_system :=
  (@system _ main_api (haproxy_configurer plain_marshal plain_range (pr_configurer faulty_process))).
Definition faulty_start : faulty_system :=
  started plain_marshal plain_range (main_flags false) faulty_process.
Definition first_event : list slabel :=
  [Subscriber Sub_check; Subscriber (Sub_token (Ok "t")); Subscriber (Sub_subscribe (Ok tt));
   Subscriber (Sub_next (Ok ev1)); Deliver].
Definition faulty_day : list slabel := first_event ++ [Subscriber (Sub_next (Ok ev2)); Deliver].
Definition faulty_end := default faulty_start (system_run sample_now faulty_start faulty_day).
Lemma faulty_run : system_run sample_now faulty_start faulty_day = Some faulty_end.
Proof.
  assert ((λ sys, length (w_handled (sys_watcher sys))) <$> system_run sample_now faulty_start faulty_day = Some 2%nat)
    as Hs by (vm_compute; reflexivity).
  unfold faulty_end. destruct (system_run sample_now faulty_start faulty_day); [reflexivity|discriminate Hs].
Qed.
Lemma file_always_complete_witness :
  ∃ new, history (cs_os (u_conf (shared (sys_updater faulty_end)))) =
      new ++ history (cs_os (u_conf (pr_updater faulty_process))) ∧
    Forall (λ fs, fs !! "/cfg" = Some "old" ∨
      ∃ t drain, (t, drain) ∈ u_configured (shared (sys_updater faulty_end)) ∧
        fs !! "/cfg" = Some (@config_text _ (haproxy_marshaller plain_marshal) (pr_configurer faulty_process) plain_range t sample_base))
      (files (cs_os (u_conf (shared (sys_updater faulty_end)))) :: new).
Proof.
  assert (baseConfigFilePath (pr_configurer faulty_process) ∉ own_files (pr_configurer faulty_process)) as Hown.
  { change (pr_configurer faulty_process) with main_configurer. unfold own_files. simpl. set_solver. }
  exact (file_always_complete plain_marshal plain_range (main_flags false) faulty_os main_pc faulty_process sample_now
    faulty_day faulty_end sample_base faulty_starts eq_refl Hown faulty_run).
Defined.
Example the_disk_was_full :
  (λ sys : faulty_system,
     let fs := files (cs_os (u_conf (shared (sys_updater sys)))) in (fs !! "/cfg", fs !! "/cfg.tmp")) <$>
    system_run sample_now faulty_start first_event = Some (Some "old", Some "def").
Proof. vm_compute. reflexivity. Qed.

(** A drain hides a route: [Drain] copies the table's struct before it waits for
    the configurer's lock, a sync replaces the map in between, and an event adds
    port 91.  The drain then writes the old map, and when everything is done
    HAProxy serves port 90, which the table has not, and not port 91, which it
    has. *)
Definition on_port (port : Z) : TcpEvent :=
  mkTcpEvent (mkTcpRouteMapping port None "host-9.internal" 9000 0 "" (mkTag "ghi" 1) None) "Upsert".
Definition one_event (e : TcpEvent) : list slabel := [Subscriber (Sub_next (Ok e)); Deliver].
Definition stale_day : list slabel :=
  [Subscriber Sub_check; Subscriber (Sub_token (Ok "t")); Subscriber (Sub_subscribe (Ok tt))]
  ++ one_event (on_port 90) ++ WatcherSignal SIGUSR2 :: replicate 4 (DrainGoes 0)
  ++ SyncTick true :: replicate 7 (SyncGoes 0) ++ one_event (on_port 91) ++ [DrainGoes 0].
Theorem drain_hides_route :
  (λ sys : @system _ main_api sample_rc,
     let s := shared (sys_updater sys) in
     let served := read_config (default "" (files (cs_os (u_conf s)) !! "/cfg")) in
     (syncs (sys_updater sys), handed_stale <$> drains (sys_updater sys),
      (λ port, bool_decide (is_Some (Entries (u_routingTable s) !! mkRoutingKey port ""))) <$> [80; 90; 91],
      (λ port, bool_decide (is_Some (route_to served port ""))) <$> [80; 90; 91])) <$>
    system_run sample_now day_start stale_day =
  Some ([SyncDone], [true], [true; false; true], [true; true; false]).
Proof. vm_compute. reflexivity. Qed.

(** A second [SIGUSR2] cuts a drain short: the second drain finds the flag set
    and returns at once, and the process is interrupted before HAProxy was told
    anything. *)
Theorem second_drain_interrupts_at_once :
  (λ sys : @system _ main_api sample_rc,
     (w_interrupts (sys_watcher sys), drains (sys_updater sys), length (u_configured (shared (sys_updater sys))))) <$>
    system_run sample_now day_start
      [ProcessSet; WatcherSignal SIGUSR2; WatcherSignal SIGUSR2; DrainGoes 0; DrainGoes 0; DrainGoes 0;
       DrainGoes 1; DrainGoes 1; DrainEnds] =
  Some (1%nat, [DrainConfiguring; DrainDone None], 0%nat).
Proof. vm_compute. reflexivity. Qed.

(** A drain that is over before [main] has called [SetProcess] is forgotten:
    the process goes on. *)
Example early_drain_forgotten :
  (λ sys : @system _ main_api sample_rc, (w_interrupts (sys_watcher sys), w_running (sys_watcher sys))) <$>
    system_run sample_now day_start
      (WatcherSignal SIGUSR2 :: replicate 6 (DrainGoes 0) ++ [DrainEnds; ProcessSet]) = Some (0%nat, true).
Proof. vm_compute. reflexivity. Qed.

End Sample.
