(* ===== verification/Group.v ===== *)
(** What [main.go] hands to the members of its group: the timers of the syncer
    and of the metrics reporter, and the monitor, whose flag the configurer
    turns off and on while the process runs. *)
From S2P Require Import Prelude GoStrings RoutingTable HAProxyConfig Config HAProxyReader.
From S2P Require Import Marshaller MarshallerCorrect OS FileUtils Monitor Configurer ConfigureConc Updater System Metrics.
From S2P Require Import Concurrency Interleaving Watcher Runners PortChecker Main Process.
#[local] Open Scope Z_scope.

(** * The runners *)

Definition statsConnectionTimeout : Z := 10 * Second.
Record runners := mkRunners { ru_syncer : Syncer.Syncer; ru_reporter : Reporter.MetricsReporter }.
Definition main_runners (flags : Flags) : runners :=
  let syncRunner := Syncer.Syncer_New (syncInterval flags) in
  let haproxyClient := NewClient (tcpLoadBalancerStatsUnixSocket flags) statsConnectionTimeout in
  mkRunners syncRunner (Reporter.NewMetricsReporter haproxyClient (statsCollectionInterval flags)).

(** The flags with other intervals for the two timers. *)
Definition with_intervals (sync_d stats_d : Z) (flags : Flags) : Flags :=
  mkFlags (tcpLoadBalancer flags) (tcpLoadBalancerBaseCfg flags) (tcpLoadBalancerCfg flags)
    (tcpLoadBalancerStatsUnixSocket flags) (subscriptionRetryInterval flags) (configFile flags)
    (routingGroupCheckExit flags) (haproxyReloader flags) sync_d (tokenFetchMaxRetries flags)
    (tokenFetchRetryInterval flags) (tokenFetchExpirationBufferTime flags) stats_d (dropsondePort flags)
    (staleRouteCheckInterval flags) (defaultRouteExpiry flags).

Section group.
Context `{ConfigLibraries} `{MainLibraries} `{ProcessTable} (mr : MarshalRange) (tr : TableRange).

(** The start checks neither interval; a ticker that panics ends the goroutine
    of its timer, whatever it would receive, and with it the process. *)
Theorem intervals_unchecked (flags : Flags) (os : OSState) (s : pc_state) (d d' : Z) (what : string) :
  main mr tr (with_intervals d d' flags) os s = main mr tr flags os s ∧
  (NewTicker d = Some what → ∀ receiving es,
    Syncer.Syncer_Run NewTicker (ru_syncer (main_runners (with_intervals d d' flags))) receiving es = Panicked what) ∧
  (NewTicker d' = Some what → ∀ range_proxies range_routes es,
    Reporter.Reporter_Run range_proxies range_routes NewTicker (ru_reporter (main_runners (with_intervals d d' flags))) es =
      Panicked what).
Proof.
  split; [done|]. split; intros Ht; intros; [unfold Syncer.Syncer_Run|unfold Reporter.Reporter_Run]; cbn; by rewrite Ht.
Qed.

(** * The monitor on duty *)

Section monitor.
Context (h : Configurer) (base pid_file : string).
Context (Hown : baseConfigFilePath h ∉ own_files h) (Hsr : script_succeeds h) (Hrun : is_Some (scriptRunner h)).
#[local] Abbreviation U := (@UState tags api (haproxy_configurer mr tr h)).

Definition on_duty (s : U) : Prop := quiet h base (u_conf s) ∧ cs_monitor (u_conf s) = New pid_file.

Lemma on_duty_invariant : conf_invariant on_duty.
Proof.
  split; [unfold on_duty; by intros s s' -> _ _|].
  intros t draining s [Hq Hm]. rewrite call_configurer_with_state. unfold on_duty. cbn [u_conf].
  destruct (Configure_quiet mr tr h base t draining (u_conf s) Hown Hsr Hq) as (c' & Hc & Hq').
  simpl. rewrite Hc. simpl. split; [done|].
  apply Configure_cases in Hc as (rw & os' & _ & Hr). destruct rw as [u|e]; [|by destruct Hr].
  destruct Hrun as [sr Hsc]. rewrite Hsc in Hr. destruct Hr as [_ ->]. rewrite (Hsr sr _ _ Hsc). simpl. by rewrite Hm.
Qed.

(** The steps of a call succeed as well. *)
Lemma write_quiet t o :
  quiet h base (mkCState o (New "") []) →
  ∃ u o', @Configure_write tags (haproxy_marshaller mr) h tr t o = (Ok u, o') ∧ quiet h base (mkCState o' (New "") []).
Proof.
  intros Hq. destruct (Configure_quiet mr tr h base t false _ Hown Hsr Hq) as (c' & Hc & [Hq1 Hq2 Hq3]).
  apply Configure_cases in Hc as (rw & o' & Hw & Hr). destruct rw as [u|e]; [|by destruct Hr].
  assert (cs_os c' = o') as Ho by (destruct (scriptRunner h); by destruct Hr as [_ ->]).
  exists u, o'. split; [exact Hw|]. split; simpl; by rewrite <-Ho.
Qed.

End monitor.

Lemma process_on_duty (flags : Flags) (os : OSState) (s : pc_state) (p : process mr tr)
    (time_Now : nat → Z) (base : string) (ls : list slabel) (sys : system) :
  faultless mr tr flags os s p base → system_run time_Now (started mr tr flags p) ls = Some sys →
  on_duty (pr_configurer p) base (cfg_HaProxyPidFile (pr_config p)) (shared (sys_updater sys)) ∧
  is_Some (scriptRunner (pr_configurer p)) ∧ script_succeeds (pr_configurer p).
Proof.
  intros [Hm Hfl Hbase Hcfg Hown Hexec Htls] Hr.
  destruct (started_invariant mr tr _ _ _ _ false base Hm Hfl Hbase Hcfg) as ([[_ Hq _ _] _ _ _] & _ & Hsr).
  apply main_runs in Hm as (os1 & os2 & s1 & _ & (_ & Hc & _)%NewConfigurer_returned & _ & _ & _ & _ & Hu).
  apply system_run_parts in Hr as [_ Hrun].
  assert (is_Some (scriptRunner (pr_configurer p))) as Hsc by (rewrite Hc; by eexists).
  split; [|split; [done|by apply Hsr]].
  eapply (run_conf time_Now _ (on_duty_invariant (pr_configurer p) base _ Hown (Hsr Hexec) Hsc));
    [by intros ? Hs|exact Hrun|]. split; [exact Hq|]. cbn. by rewrite Hu.
Qed.

Lemma monitor_ticks m oss os' e :
  stopWatching m = 0 → Forall (λ os, (watchPID (haproxyPIDFile m) os).1 = Ok tt) oss →
  (watchPID (haproxyPIDFile m) os').1 = Err e →
  Monitor.Run m ((OnTick <$> oss) ++ [OnTick os']) = (m, Some (Some e)).
Proof.
  intros Hm Hoss He. induction Hoss as [|os oss Hos _ IH]; cbn.
  - by rewrite Hm, He.
  - by rewrite Hm, Hos.
Qed.

(** C8. The monitor is off duty only during a reload.  Take a process that
    starts without faults, on a file system without faults and with reloads
    that succeed; from any moment it reaches, let any calls of [Configure]
    run, cut at the lock and at the monitor's flag and interleaved in any way.
    At every step of these calls the monitor has the configured pid file, and
    it watches, or one of the calls is between its [StopWatching] and its
    [StartWatching].  So whenever none is, the first tick that finds HAProxy dead
    makes the monitor return that error, after any ticks that found it alive. *)
Theorem monitor_on_duty (flags : Flags) (os : OSState) (s : pc_state) (p : process mr tr)
    (time_Now : nat → Z) (base : string) (ls : list slabel) (sys : system)
    (jobs : list (RoutingTable * bool)) (steps : list nat) (c : calls) :
  faultless mr tr flags os s p base →
  system_run time_Now (started mr tr flags p) ls = Some sys →
  run_calls (H0 := haproxy_marshaller mr) (pr_configurer p) tr jobs
    (calls_start jobs (u_conf (shared (sys_updater sys)))) steps = Some c →
  let pid_file := cfg_HaProxyPidFile (pr_config p) in
  let m := cs_monitor (c_state c) in
  haproxyPIDFile m = pid_file ∧
  (stopWatching m = 0 ∨ Exists under_way (c_pcs c)) ∧
  (Forall (λ pc, ¬ under_way pc) (c_pcs c) →
   ∀ oss os' e, Forall (λ o, (watchPID pid_file o).1 = Ok tt) oss → (watchPID pid_file os').1 = Err e →
     Monitor.Run m ((OnTick <$> oss) ++ [OnTick os']) = (m, Some (Some e))).
Proof.
  intros Hfl Hr Hcalls. cbv zeta. destruct (process_on_duty _ _ _ _ _ _ _ _ Hfl Hr) as ([Hq Hmon] & Hrun & Hsr).
  destruct (run_calls_watched (pr_configurer p) tr jobs (λ o, quiet (pr_configurer p) base (mkCState o (New "") [])) Hrun
    (λ t o, write_quiet (pr_configurer p) base (fl_paths mr tr flags os s p base Hfl) Hsr Hrun t o) Hsr steps (u_conf (shared (sys_updater sys))) c)
    as [Hfile Hwatch]; [|by rewrite Hmon|exact Hcalls|].
  { destruct Hq. by split. }
  rewrite Hmon in Hfile. simpl in Hfile. split; [done|]. split; [done|].
  intros Hnone oss os' e Hoss He. apply monitor_ticks; rewrite ?Hfile; [|done..].
  destruct Hwatch as [?|Hex]; [done|]. by apply (Forall_not_Exists _ _ Hnone) in Hex.
Qed.

End group.

(** * Concrete runs *)
Module Sample.
Import RoutingTable.Sample HAProxyConfig.Sample MarshallerCorrect.Sample Updater.Sample System.Sample
  PortChecker.Sample Watcher.Sample Main.Sample Process.Sample Monitor.Sample.

(** Two calls overlap after a day's work. *)
#[local] Abbreviation sample_calls := (run_calls (H0 := haproxy_marshaller plain_marshal) main_configurer plain_range).
Definition late_jobs : list (RoutingTable * bool) := [(table2, false); (NewRoutingTable, true)].
Definition late_start : calls := calls_start late_jobs (u_conf (shared (sys_updater day_end))).
Definition late_steps : list nat := [0; 0; 1; 0; 0; 0; 0; 1; 1; 1; 1; 1]%nat.
Definition late_end : calls := default late_start (sample_calls late_jobs late_start late_steps).
Lemma late_pcs : c_pcs <$> sample_calls late_jobs late_start late_steps = Some [CDone (Ok tt); CDone (Ok tt)].
Proof. vm_compute. reflexivity. Qed.
Lemma late_run : sample_calls late_jobs late_start late_steps = Some late_end.
Proof. unfold late_end. pose proof late_pcs as Hs. destruct (sample_calls late_jobs late_start late_steps); [reflexivity|discriminate Hs]. Qed.

Lemma monitor_on_duty_witness :
  Monitor.Run (cs_monitor (c_state late_end)) [OnTick (pid_os "4711"); OnTick (pid_os "4712")] =
  (cs_monitor (c_state late_end), Some (Some "PID 4712 not found")).
Proof.
  destruct (monitor_on_duty plain_marshal plain_range (main_flags false) main_os main_pc main_process sample_now sample_base
    day day_end late_jobs late_steps late_end sample_faultless day_run late_run) as (_ & _ & Hticks).
  apply (Hticks) with (oss := [pid_os "4711"]); [|repeat constructor|reflexivity].
  assert (c_pcs late_end = [CDone (Ok tt); CDone (Ok tt)]) as -> by (vm_compute; reflexivity).
  repeat (constructor; [intros []|]). constructor.
Defined.
(** A sync interval of zero passes the start and panics right after it. *)
Example zero_interval_panics :
  main plain_marshal plain_range (with_intervals 0 Minute (main_flags false)) main_os main_pc = Runs main_process ∧
  Syncer.Syncer_Run NewTicker (ru_syncer (main_runners (with_intervals 0 Minute (main_flags false)))) false [] =
    Panicked "non-positive interval for NewTicker".
Proof. split; reflexivity. Qed.

End Sample.
