(* ===== verification/Spies.v ===== *)
(** What the generated test doubles share: a method that records its calls and
    answers as it was told to, and the record of all invocations. *)
From S2P Require Import Prelude.
#[local] Open Scope Z_scope.

(** * A method

    [F] stands for the func values a test can give as a stub, [A] for the
    arguments of the method and [R] for what it returns. *)

Section spy.
Context {A R F : Type}.

Record spy := mkSpy {
  Stub : option F;
  argsForCall : list A;
  returns : R;
  returnsOnCall : option (gmap Z R)
}.

(** A call, once the lock is released, runs the stub or gives a result. *)
Inductive answer :=
  | RunsStub (stub : F)
  | Gives (r : R).

Definition spy_new (zero : R) : spy := mkSpy None [] zero None.

Definition spy_call (arg : A) (m : spy) : answer * spy :=
  let specificReturn := default ∅ (returnsOnCall m) !! Z.of_nat (length (argsForCall m)) in
  let m' := mkSpy (Stub m) (argsForCall m ++ [arg]) (returns m) (returnsOnCall m) in
  let stub := Stub m' in
  let fakeReturns := returns m' in
  (match stub with
   | Some stub => RunsStub stub
   | None => match specificReturn with Some ret => Gives ret | None => Gives fakeReturns end
   end, m').

Definition spy_CallCount (m : spy) : nat := length (argsForCall m).
Definition spy_Calls (stub : option F) (m : spy) : spy :=
  mkSpy stub (argsForCall m) (returns m) (returnsOnCall m).
Definition spy_ArgsForCall (i : Z) (m : spy) : outcome A :=
  match (if i <? 0 then None else argsForCall m !! Z.to_nat i) with
  | Some arg => Returned arg
  | None => Panicked "index out of range"
  end.
Definition spy_Returns (result1 : R) (m : spy) : spy :=
  mkSpy None (argsForCall m) result1 (returnsOnCall m).
Definition spy_ReturnsOnCall (i : Z) (result1 : R) (m : spy) : spy :=
  let onCall := match returnsOnCall m with None => ∅ | Some onCall => onCall end in
  mkSpy None (argsForCall m) (returns m) (Some (<[i := result1]> onCall)).

(** ** A method without a result

    It reads the stub under the lock to see whether there is one, and again
    without the lock to call it. *)
Record procedure := mkProcedure { proc_Stub : option F; proc_argsForCall : list A }.
Definition procedure_new : procedure := mkProcedure None [].
Definition procedure_locked (arg : A) (m : procedure) : bool * procedure :=
  let m' := mkProcedure (proc_Stub m) (proc_argsForCall m ++ [arg]) in
  (match proc_Stub m' with Some _ => true | None => false end, m').
Definition procedure_unlocked (hasStub : bool) (m : procedure) : outcome (option F) :=
  if hasStub then
    match proc_Stub m with
    | Some stub => Returned (Some stub)
    | None => Panicked "invalid memory address or nil pointer dereference"
    end
  else Returned None.
Definition procedure_call (arg : A) (m : procedure) : outcome (option F) * procedure :=
  let '(hasStub, m') := procedure_locked arg m in (procedure_unlocked hasStub m', m').
Definition procedure_CallCount (m : procedure) : nat := length (proc_argsForCall m).
Definition procedure_Calls (stub : option F) (m : procedure) : procedure :=
  mkProcedure stub (proc_argsForCall m).

End spy.
Arguments spy : clear implicits.
Arguments procedure : clear implicits.
Arguments answer : clear implicits.

(** * All invocations *)

Section invocations.
Context {any : Type}.

(** The map from the name of a method to the arguments of its calls; it is nil
    until the first call. *)
Definition Invocations_map : Type := option (gmap string (list (list any))).

Definition record_invocation (key : string) (args : list any) (invocations : Invocations_map) : Invocations_map :=
  let m := match invocations with None => ∅ | Some m => m end in
  let m := match m !! key with None => <[key := []]> m | Some _ => m end in
  Some (<[key := default [] (m !! key) ++ [args]]> m).

(** The copy [Invocations] returns, made in the order of one range. *)
Definition copy_invocations (r : range_order string (list (list any))) (invocations : Invocations_map) :
    gmap string (list (list any)) :=
  foldl (λ copied kv, <[kv.1 := kv.2]> copied) ∅ (r (default ∅ invocations)).

Definition invoked (invocations : Invocations_map) (key : string) : list (list any) :=
  default [] (default ∅ invocations !! key).

Lemma invoked_record key args inv key' :
  invoked (record_invocation key args inv) key' =
  if decide (key' = key) then invoked inv key ++ [args] else invoked inv key'.
Proof.
  unfold invoked, record_invocation. set (m := match inv with None => ∅ | Some m => m end).
  assert (default ∅ inv = m) as -> by by destruct inv. simpl.
  destruct (decide (key' = key)) as [->|Hne].
  - rewrite lookup_insert_eq. simpl. destruct (m !! key) as [l|] eqn:Hm; [by rewrite Hm|by rewrite lookup_insert_eq].
  - rewrite lookup_insert_ne by done. destruct (m !! key); [done|]. by rewrite lookup_insert_ne.
Qed.

Lemma copy_invocations_eq r inv : IsRange r → copy_invocations r inv = default ∅ inv.
Proof.
  intros Hr. unfold copy_invocations. set (m := default ∅ inv).
  assert (∀ l acc, NoDup l.*1 → foldl (λ copied kv, <[kv.1 := kv.2]> copied) acc l =
    (list_to_map l : gmap string (list (list any))) ∪ acc) as Hfold.
  { induction l as [|[k v] l IH]; intros acc Hnd; simpl; [by rewrite (left_id_L ∅ (∪))|].
    inversion_clear Hnd as [|?? Hk Hnd']. rewrite IH by done.
    rewrite <-insert_union_r by (by apply not_elem_of_list_to_map_1). by rewrite insert_union_l. }
  rewrite Hfold by apply NoDup_range_keys, Hr. rewrite (right_id_L ∅ (∪)).
  apply map_eq. intros k. apply option_eq. intros v.
  rewrite <-(elem_of_list_to_map _ k v) by apply NoDup_range_keys, Hr. apply (elem_of_range r).
Qed.

End invocations.
Arguments Invocations_map : clear implicits.

(** * What a spy promises *)

Section contract.
Context {A R F : Type}.

(** What a test does with a method, and the program under test. *)
Inductive use :=
  | Call (arg : A)
  | Calls (stub : option F)
  | Returns (result1 : R)
  | ReturnsOnCall (i : Z) (result1 : R).

Definition use_step (m : spy A R F) (u : use) : spy A R F :=
  match u with
  | Call arg => (spy_call arg m).2
  | Calls stub => spy_Calls stub m
  | Returns r => spy_Returns r m
  | ReturnsOnCall i r => spy_ReturnsOnCall i r m
  end.

(** The specification: what was called, and what the instructions, the latest
    first, say about the next call: the last one decides whether a stub is in
    force, the last result for the index of the call precedes the last general
    one. *)
Definition called (us : list use) : list A := omap (λ u, match u with Call a => Some a | _ => None end) us.
Fixpoint stub_in_force (latest : list use) : option F :=
  match latest with
  | [] => None
  | Calls stub :: _ => stub
  | Call _ :: us => stub_in_force us
  | (Returns _ | ReturnsOnCall _ _) :: _ => None
  end.
Fixpoint specific_result (i : Z) (latest : list use) : option R :=
  match latest with
  | [] => None
  | ReturnsOnCall j r :: us => if decide (j = i) then Some r else specific_result i us
  | _ :: us => specific_result i us
  end.
Fixpoint general_result (zero : R) (latest : list use) : R :=
  match latest with
  | [] => zero
  | Returns r :: _ => r
  | _ :: us => general_result zero us
  end.
Definition promised (zero : R) (us : list use) : answer R F :=
  match stub_in_force (reverse us) with
  | Some stub => RunsStub stub
  | None => Gives (default (general_result zero (reverse us)) (specific_result (Z.of_nat (length (called us))) (reverse us)))
  end.

Lemma spy_uses zero us :
  let m := foldl use_step (spy_new zero) us in
  argsForCall m = called us ∧ Stub m = stub_in_force (reverse us) ∧
  returns m = general_result zero (reverse us) ∧
  ∀ i, default ∅ (returnsOnCall m) !! i = specific_result i (reverse us).
Proof.
  induction us as [|u us (H1 & H2 & H3 & H4)] using rev_ind; [done|].
  cbv zeta in *. rewrite foldl_app, reverse_app. cbn [foldl]. change (reverse [u] ++ ?l) with (u :: l).
  unfold called in *. rewrite omap_app. destruct u as [arg|stub|r|j r]; simpl;
    rewrite ?H1, ?H2, ?H3, ?app_nil_r; repeat split; auto; intros i; [apply H4..|].
  rewrite <-H4. destruct (returnsOnCall _) as [c|]; simpl; rewrite lookup_insert;
    repeat case_decide; by rewrite ?lookup_empty.
Qed.

(** A test double does what the test tells it: after any calls and
    instructions it has recorded the arguments of every call in order, and the
    next call runs the stub if the last instruction set one, and otherwise
    gives the last result set for that very call, or else the last general
    one, or else the zero value. *)
Theorem spy_contract (zero : R) (us : list use) (arg : A) :
  let m := foldl use_step (spy_new zero) us in
  (spy_call arg m).1 = promised zero us ∧
  spy_CallCount m = length (called us) ∧
  (∀ n a, called us !! n = Some a → spy_ArgsForCall (Z.of_nat n) m = Returned a) ∧
  (∀ i, i < 0 ∨ Z.of_nat (length (called us)) ≤ i → spy_ArgsForCall i m = Panicked "index out of range").
Proof.
  cbv zeta. destruct (spy_uses zero us) as (H1 & H2 & H3 & H4). cbv zeta in *.
  unfold spy_call, promised, spy_CallCount, spy_ArgsForCall. simpl.
  rewrite H1, H2, H3, H4. split; [by case_match; [|case_match]|]. split; [done|].
  split.
  - intros n a Hn. rewrite (proj2 (Z.ltb_ge _ 0)) by lia. by rewrite Nat2Z.id, Hn.
  - intros i Hi. destruct (i <? 0) eqn:Hneg; [done|]. apply Z.ltb_ge in Hneg.
    rewrite lookup_ge_None_2 by lia. done.
Qed.

End contract.
Arguments use : clear implicits.

(** ** The unlocked second look at a stub *)

(** A call of a method without a result runs the stub that is set when it was
    made, unless it is changed in the meantime; if it is taken away between the
    two looks the call panics. *)
Lemma procedure_undisturbed {A F} (arg : A) (m : procedure A F) :
  procedure_call arg m = (Returned (proc_Stub m), mkProcedure (proc_Stub m) (proc_argsForCall m ++ [arg])).
Proof. unfold procedure_call, procedure_locked, procedure_unlocked. simpl. by destruct (proc_Stub m). Qed.
Lemma procedure_disturbed {A F} (arg : A) (stub : F) (m : procedure A F) :
  proc_Stub m = Some stub →
  let '(hasStub, m') := procedure_locked arg m in
  procedure_unlocked hasStub (procedure_Calls None m') = Panicked "invalid memory address or nil pointer dereference".
Proof. intros Hs. unfold procedure_locked. simpl. by rewrite Hs. Qed.
