(* ===== verification/Fakes.v ===== *)
(** The generated test doubles of the repository, one for each interface the
    components have towards each other. *)
From S2P Require Import Prelude GoStrings RoutingTable HAProxyConfig Config Metrics Updater Concurrency Spies.
#[local] Open Scope Z_scope.

(** * The doubles

    Each has a spy for every method, and the record of all invocations.  [F]
    stands for the func values of the stubs, [chan] for channels. *)

Section fakes.
Context {tags : ModificationTags} (F chan : Type).

(** What the arguments become in the record of invocations. *)
Inductive any :=
  | AnyTable (t : RoutingTable)
  | AnyBool (b : bool)
  | AnyConfig (c : HAProxyConfig)
  | AnyTLS (c : BackendTLSConfig)
  | AnyEvent (e : TcpEvent)
  | AnyChan (c : chan).

(** ** [FakeRouterConfigurer] *)

Record FakeRouterConfigurer := mkFakeRouterConfigurer {
  frc_configure : spy (RoutingTable * bool) (option error) F;
  frc_invocations : Invocations_map any
}.
Definition new_FakeRouterConfigurer : FakeRouterConfigurer := mkFakeRouterConfigurer (spy_new None) None.
Definition FakeRouterConfigurer_recordInvocation (key : string) (args : list any) (fake : FakeRouterConfigurer) :
    FakeRouterConfigurer :=
  mkFakeRouterConfigurer (frc_configure fake) (record_invocation key args (frc_invocations fake)).
Definition FakeRouterConfigurer_Invocations (r : range_order string (list (list any))) (fake : FakeRouterConfigurer) :
    gmap string (list (list any)) := copy_invocations r (frc_invocations fake).
Definition frc_put_configure (m : spy (RoutingTable * bool) (option error) F) (fake : FakeRouterConfigurer) :
    FakeRouterConfigurer :=
  mkFakeRouterConfigurer m (frc_invocations fake).
Definition FakeRouterConfigurer_Configure (arg1 : RoutingTable) (arg2 : bool) (fake : FakeRouterConfigurer) :
    answer (option error) F * FakeRouterConfigurer :=
  let '(ans, m) := spy_call (arg1, arg2) (frc_configure fake) in
  (ans, FakeRouterConfigurer_recordInvocation "Configure" [AnyTable arg1; AnyBool arg2] (frc_put_configure m fake)).
Definition FakeRouterConfigurer_ConfigureCallCount (fake : FakeRouterConfigurer) :
    nat := spy_CallCount (frc_configure fake).
Definition FakeRouterConfigurer_ConfigureCalls (stub : option F) (fake : FakeRouterConfigurer) :
    FakeRouterConfigurer :=
  frc_put_configure (spy_Calls stub (frc_configure fake)) fake.
Definition FakeRouterConfigurer_ConfigureArgsForCall (i : Z) (fake : FakeRouterConfigurer) :
    outcome (RoutingTable * bool) :=
  spy_ArgsForCall i (frc_configure fake).
Definition FakeRouterConfigurer_ConfigureReturns (result1 : option error) (fake : FakeRouterConfigurer) :
    FakeRouterConfigurer :=
  frc_put_configure (spy_Returns result1 (frc_configure fake)) fake.
Definition FakeRouterConfigurer_ConfigureReturnsOnCall (i : Z) (result1 : option error) (fake : FakeRouterConfigurer) :
    FakeRouterConfigurer :=
  frc_put_configure (spy_ReturnsOnCall i result1 (frc_configure fake)) fake.

(** ** [FakeConfigMarshaller] *)

Record FakeConfigMarshaller := mkFakeConfigMarshaller {
  fcm_marshal : spy (HAProxyConfig * BackendTLSConfig) string F;
  fcm_invocations : Invocations_map any
}.
Definition new_FakeConfigMarshaller : FakeConfigMarshaller := mkFakeConfigMarshaller (spy_new "") None.
Definition FakeConfigMarshaller_recordInvocation (key : string) (args : list any) (fake : FakeConfigMarshaller) :
    FakeConfigMarshaller :=
  mkFakeConfigMarshaller (fcm_marshal fake) (record_invocation key args (fcm_invocations fake)).
Definition FakeConfigMarshaller_Invocations (r : range_order string (list (list any))) (fake : FakeConfigMarshaller) :
    gmap string (list (list any)) := copy_invocations r (fcm_invocations fake).
Definition fcm_put_marshal (m : spy (HAProxyConfig * BackendTLSConfig) string F) (fake : FakeConfigMarshaller) :
    FakeConfigMarshaller :=
  mkFakeConfigMarshaller m (fcm_invocations fake).
Definition FakeConfigMarshaller_Marshal (arg1 : HAProxyConfig) (arg2 : BackendTLSConfig) (fake : FakeConfigMarshaller) :
    answer string F * FakeConfigMarshaller :=
  let '(ans, m) := spy_call (arg1, arg2) (fcm_marshal fake) in
  (ans, FakeConfigMarshaller_recordInvocation "Marshal" [AnyConfig arg1; AnyTLS arg2] (fcm_put_marshal m fake)).
Definition FakeConfigMarshaller_MarshalCallCount (fake : FakeConfigMarshaller) :
    nat := spy_CallCount (fcm_marshal fake).
Definition FakeConfigMarshaller_MarshalCalls (stub : option F) (fake : FakeConfigMarshaller) :
    FakeConfigMarshaller :=
  fcm_put_marshal (spy_Calls stub (fcm_marshal fake)) fake.
Definition FakeConfigMarshaller_MarshalArgsForCall (i : Z) (fake : FakeConfigMarshaller) :
    outcome (HAProxyConfig * BackendTLSConfig) :=
  spy_ArgsForCall i (fcm_marshal fake).
Definition FakeConfigMarshaller_MarshalReturns (result1 : string) (fake : FakeConfigMarshaller) :
    FakeConfigMarshaller :=
  fcm_put_marshal (spy_Returns result1 (fcm_marshal fake)) fake.
Definition FakeConfigMarshaller_MarshalReturnsOnCall (i : Z) (result1 : string) (fake : FakeConfigMarshaller) :
    FakeConfigMarshaller :=
  fcm_put_marshal (spy_ReturnsOnCall i result1 (fcm_marshal fake)) fake.

(** ** [FakeScriptRunner] *)

Record FakeScriptRunner := mkFakeScriptRunner {
  fsr_run : spy bool (option error) F;
  fsr_invocations : Invocations_map any
}.
Definition new_FakeScriptRunner : FakeScriptRunner := mkFakeScriptRunner (spy_new None) None.
Definition FakeScriptRunner_recordInvocation (key : string) (args : list any) (fake : FakeScriptRunner) :
    FakeScriptRunner :=
  mkFakeScriptRunner (fsr_run fake) (record_invocation key args (fsr_invocations fake)).
Definition FakeScriptRunner_Invocations (r : range_order string (list (list any))) (fake : FakeScriptRunner) :
    gmap string (list (list any)) := copy_invocations r (fsr_invocations fake).
Definition fsr_put_run (m : spy bool (option error) F) (fake : FakeScriptRunner) : FakeScriptRunner :=
  mkFakeScriptRunner m (fsr_invocations fake).
Definition FakeScriptRunner_Run (arg1 : bool) (fake : FakeScriptRunner) :
    answer (option error) F * FakeScriptRunner :=
  let '(ans, m) := spy_call arg1 (fsr_run fake) in
  (ans, FakeScriptRunner_recordInvocation "Run" [AnyBool arg1] (fsr_put_run m fake)).
Definition FakeScriptRunner_RunCallCount (fake : FakeScriptRunner) : nat := spy_CallCount (fsr_run fake).
Definition FakeScriptRunner_RunCalls (stub : option F) (fake : FakeScriptRunner) : FakeScriptRunner :=
  fsr_put_run (spy_Calls stub (fsr_run fake)) fake.
Definition FakeScriptRunner_RunArgsForCall (i : Z) (fake : FakeScriptRunner) : outcome (bool) :=
  spy_ArgsForCall i (fsr_run fake).
Definition FakeScriptRunner_RunReturns (result1 : option error) (fake : FakeScriptRunner) :
    FakeScriptRunner :=
  fsr_put_run (spy_Returns result1 (fsr_run fake)) fake.
Definition FakeScriptRunner_RunReturnsOnCall (i : Z) (result1 : option error) (fake : FakeScriptRunner) :
    FakeScriptRunner :=
  fsr_put_run (spy_ReturnsOnCall i result1 (fsr_run fake)) fake.

(** ** [FakeHaproxyClient] *)

Record FakeHaproxyClient := mkFakeHaproxyClient {
  fhc_getStats : spy unit (list HaproxyStat) F;
  fhc_invocations : Invocations_map any
}.
Definition new_FakeHaproxyClient : FakeHaproxyClient := mkFakeHaproxyClient (spy_new []) None.
Definition FakeHaproxyClient_recordInvocation (key : string) (args : list any) (fake : FakeHaproxyClient) :
    FakeHaproxyClient :=
  mkFakeHaproxyClient (fhc_getStats fake) (record_invocation key args (fhc_invocations fake)).
Definition FakeHaproxyClient_Invocations (r : range_order string (list (list any))) (fake : FakeHaproxyClient) :
    gmap string (list (list any)) := copy_invocations r (fhc_invocations fake).
Definition fhc_put_getStats (m : spy unit (list HaproxyStat) F) (fake : FakeHaproxyClient) :
    FakeHaproxyClient :=
  mkFakeHaproxyClient m (fhc_invocations fake).
Definition FakeHaproxyClient_GetStats (fake : FakeHaproxyClient) :
    answer (list HaproxyStat) F * FakeHaproxyClient :=
  let '(ans, m) := spy_call tt (fhc_getStats fake) in
  (ans, FakeHaproxyClient_recordInvocation "GetStats" [] (fhc_put_getStats m fake)).
Definition FakeHaproxyClient_GetStatsCallCount (fake : FakeHaproxyClient) :
    nat := spy_CallCount (fhc_getStats fake).
Definition FakeHaproxyClient_GetStatsCalls (stub : option F) (fake : FakeHaproxyClient) : FakeHaproxyClient :=
  fhc_put_getStats (spy_Calls stub (fhc_getStats fake)) fake.
Definition FakeHaproxyClient_GetStatsReturns (result1 : list HaproxyStat) (fake : FakeHaproxyClient) :
    FakeHaproxyClient :=
  fhc_put_getStats (spy_Returns result1 (fhc_getStats fake)) fake.
Definition FakeHaproxyClient_GetStatsReturnsOnCall (i : Z) (result1 : list HaproxyStat) (fake : FakeHaproxyClient) :
    FakeHaproxyClient :=
  fhc_put_getStats (spy_ReturnsOnCall i result1 (fhc_getStats fake)) fake.

(** ** [FakeUpdater] *)

Record FakeUpdater := mkFakeUpdater {
  fu_drain : spy unit (option error) F;
  fu_handleEvent : spy TcpEvent (option error) F;
  fu_pruneStaleRoutes : procedure unit F;
  fu_sync : procedure unit F;
  fu_syncing : spy unit bool F;
  fu_invocations : Invocations_map any
}.
Definition new_FakeUpdater : FakeUpdater :=
  mkFakeUpdater (spy_new None) (spy_new None) procedure_new procedure_new (spy_new false) None.
Definition FakeUpdater_recordInvocation (key : string) (args : list any) (fake : FakeUpdater) : FakeUpdater :=
  mkFakeUpdater (fu_drain fake) (fu_handleEvent fake) (fu_pruneStaleRoutes fake) (fu_sync fake) (fu_syncing fake)
    (record_invocation key args (fu_invocations fake)).
Definition FakeUpdater_Invocations (r : range_order string (list (list any))) (fake : FakeUpdater) :
    gmap string (list (list any)) := copy_invocations r (fu_invocations fake).
Definition fu_put_drain (m : spy unit (option error) F) (fake : FakeUpdater) : FakeUpdater :=
  mkFakeUpdater m (fu_handleEvent fake) (fu_pruneStaleRoutes fake) (fu_sync fake) (fu_syncing fake) (fu_invocations fake).
Definition FakeUpdater_Drain (fake : FakeUpdater) : answer (option error) F * FakeUpdater :=
  let '(ans, m) := spy_call tt (fu_drain fake) in
  (ans, FakeUpdater_recordInvocation "Drain" [] (fu_put_drain m fake)).
Definition FakeUpdater_DrainCallCount (fake : FakeUpdater) : nat := spy_CallCount (fu_drain fake).
Definition FakeUpdater_DrainCalls (stub : option F) (fake : FakeUpdater) : FakeUpdater :=
  fu_put_drain (spy_Calls stub (fu_drain fake)) fake.
Definition FakeUpdater_DrainReturns (result1 : option error) (fake : FakeUpdater) : FakeUpdater :=
  fu_put_drain (spy_Returns result1 (fu_drain fake)) fake.
Definition FakeUpdater_DrainReturnsOnCall (i : Z) (result1 : option error) (fake : FakeUpdater) :
    FakeUpdater :=
  fu_put_drain (spy_ReturnsOnCall i result1 (fu_drain fake)) fake.
Definition fu_put_handleEvent (m : spy TcpEvent (option error) F) (fake : FakeUpdater) : FakeUpdater :=
  mkFakeUpdater (fu_drain fake) m (fu_pruneStaleRoutes fake) (fu_sync fake) (fu_syncing fake) (fu_invocations fake).
Definition FakeUpdater_HandleEvent (arg1 : TcpEvent) (fake : FakeUpdater) :
    answer (option error) F * FakeUpdater :=
  let '(ans, m) := spy_call arg1 (fu_handleEvent fake) in
  (ans, FakeUpdater_recordInvocation "HandleEvent" [AnyEvent arg1] (fu_put_handleEvent m fake)).
Definition FakeUpdater_HandleEventCallCount (fake : FakeUpdater) : nat := spy_CallCount (fu_handleEvent fake).
Definition FakeUpdater_HandleEventCalls (stub : option F) (fake : FakeUpdater) : FakeUpdater :=
  fu_put_handleEvent (spy_Calls stub (fu_handleEvent fake)) fake.
Definition FakeUpdater_HandleEventArgsForCall (i : Z) (fake : FakeUpdater) : outcome (TcpEvent) :=
  spy_ArgsForCall i (fu_handleEvent fake).
Definition FakeUpdater_HandleEventReturns (result1 : option error) (fake : FakeUpdater) : FakeUpdater :=
  fu_put_handleEvent (spy_Returns result1 (fu_handleEvent fake)) fake.
Definition FakeUpdater_HandleEventReturnsOnCall (i : Z) (result1 : option error) (fake : FakeUpdater) :
    FakeUpdater :=
  fu_put_handleEvent (spy_ReturnsOnCall i result1 (fu_handleEvent fake)) fake.
Definition fu_put_pruneStaleRoutes (m : procedure unit F) (fake : FakeUpdater) : FakeUpdater :=
  mkFakeUpdater (fu_drain fake) (fu_handleEvent fake) m (fu_sync fake) (fu_syncing fake) (fu_invocations fake).
Definition FakeUpdater_PruneStaleRoutes (fake : FakeUpdater) : outcome (option F) * FakeUpdater :=
  let '(hasStub, m) := procedure_locked tt (fu_pruneStaleRoutes fake) in
  let fake := FakeUpdater_recordInvocation "PruneStaleRoutes" [] (fu_put_pruneStaleRoutes m fake) in
  (procedure_unlocked hasStub (fu_pruneStaleRoutes fake), fake).
Definition FakeUpdater_PruneStaleRoutesCallCount (fake : FakeUpdater) :
    nat := procedure_CallCount (fu_pruneStaleRoutes fake).
Definition FakeUpdater_PruneStaleRoutesCalls (stub : option F) (fake : FakeUpdater) : FakeUpdater :=
  fu_put_pruneStaleRoutes (procedure_Calls stub (fu_pruneStaleRoutes fake)) fake.
Definition fu_put_sync (m : procedure unit F) (fake : FakeUpdater) : FakeUpdater :=
  mkFakeUpdater (fu_drain fake) (fu_handleEvent fake) (fu_pruneStaleRoutes fake) m (fu_syncing fake) (fu_invocations fake).
Definition FakeUpdater_Sync (fake : FakeUpdater) : outcome (option F) * FakeUpdater :=
  let '(hasStub, m) := procedure_locked tt (fu_sync fake) in
  let fake := FakeUpdater_recordInvocation "Sync" [] (fu_put_sync m fake) in
  (procedure_unlocked hasStub (fu_sync fake), fake).
Definition FakeUpdater_SyncCallCount (fake : FakeUpdater) : nat := procedure_CallCount (fu_sync fake).
Definition FakeUpdater_SyncCalls (stub : option F) (fake : FakeUpdater) : FakeUpdater :=
  fu_put_sync (procedure_Calls stub (fu_sync fake)) fake.
Definition fu_put_syncing (m : spy unit bool F) (fake : FakeUpdater) : FakeUpdater :=
  mkFakeUpdater (fu_drain fake) (fu_handleEvent fake) (fu_pruneStaleRoutes fake) (fu_sync fake) m (fu_invocations fake).
Definition FakeUpdater_Syncing (fake : FakeUpdater) : answer bool F * FakeUpdater :=
  let '(ans, m) := spy_call tt (fu_syncing fake) in
  (ans, FakeUpdater_recordInvocation "Syncing" [] (fu_put_syncing m fake)).
Definition FakeUpdater_SyncingCallCount (fake : FakeUpdater) : nat := spy_CallCount (fu_syncing fake).
Definition FakeUpdater_SyncingCalls (stub : option F) (fake : FakeUpdater) : FakeUpdater :=
  fu_put_syncing (spy_Calls stub (fu_syncing fake)) fake.
Definition FakeUpdater_SyncingReturns (result1 : bool) (fake : FakeUpdater) : FakeUpdater :=
  fu_put_syncing (spy_Returns result1 (fu_syncing fake)) fake.
Definition FakeUpdater_SyncingReturnsOnCall (i : Z) (result1 : bool) (fake : FakeUpdater) : FakeUpdater :=
  fu_put_syncing (spy_ReturnsOnCall i result1 (fu_syncing fake)) fake.

(** ** [FakeMonitor] *)

Record FakeMonitor := mkFakeMonitor {
  fm_run : spy (chan * chan) (option error) F;
  fm_startWatching : procedure unit F;
  fm_stopWatching : procedure unit F;
  fm_invocations : Invocations_map any
}.
Definition new_FakeMonitor : FakeMonitor := mkFakeMonitor (spy_new None) procedure_new procedure_new None.
Definition FakeMonitor_recordInvocation (key : string) (args : list any) (fake : FakeMonitor) : FakeMonitor :=
  mkFakeMonitor (fm_run fake) (fm_startWatching fake) (fm_stopWatching fake) (record_invocation key args (fm_invocations fake)).
Definition FakeMonitor_Invocations (r : range_order string (list (list any))) (fake : FakeMonitor) :
    gmap string (list (list any)) := copy_invocations r (fm_invocations fake).
Definition fm_put_run (m : spy (chan * chan) (option error) F) (fake : FakeMonitor) : FakeMonitor :=
  mkFakeMonitor m (fm_startWatching fake) (fm_stopWatching fake) (fm_invocations fake).
Definition FakeMonitor_Run (arg1 : chan) (arg2 : chan) (fake : FakeMonitor) :
    answer (option error) F * FakeMonitor :=
  let '(ans, m) := spy_call (arg1, arg2) (fm_run fake) in
  (ans, FakeMonitor_recordInvocation "Run" [AnyChan arg1; AnyChan arg2] (fm_put_run m fake)).
Definition FakeMonitor_RunCallCount (fake : FakeMonitor) : nat := spy_CallCount (fm_run fake).
Definition FakeMonitor_RunCalls (stub : option F) (fake : FakeMonitor) : FakeMonitor :=
  fm_put_run (spy_Calls stub (fm_run fake)) fake.
Definition FakeMonitor_RunArgsForCall (i : Z) (fake : FakeMonitor) : outcome (chan * chan) :=
  spy_ArgsForCall i (fm_run fake).
Definition FakeMonitor_RunReturns (result1 : option error) (fake : FakeMonitor) : FakeMonitor :=
  fm_put_run (spy_Returns result1 (fm_run fake)) fake.
Definition FakeMonitor_RunReturnsOnCall (i : Z) (result1 : option error) (fake : FakeMonitor) : FakeMonitor :=
  fm_put_run (spy_ReturnsOnCall i result1 (fm_run fake)) fake.
Definition fm_put_startWatching (m : procedure unit F) (fake : FakeMonitor) : FakeMonitor :=
  mkFakeMonitor (fm_run fake) m (fm_stopWatching fake) (fm_invocations fake).
Definition FakeMonitor_StartWatching (fake : FakeMonitor) : outcome (option F) * FakeMonitor :=
  let '(hasStub, m) := procedure_locked tt (fm_startWatching fake) in
  let fake := FakeMonitor_recordInvocation "StartWatching" [] (fm_put_startWatching m fake) in
  (procedure_unlocked hasStub (fm_startWatching fake), fake).
Definition FakeMonitor_StartWatchingCallCount (fake : FakeMonitor) :
    nat := procedure_CallCount (fm_startWatching fake).
Definition FakeMonitor_StartWatchingCalls (stub : option F) (fake : FakeMonitor) : FakeMonitor :=
  fm_put_startWatching (procedure_Calls stub (fm_startWatching fake)) fake.
Definition fm_put_stopWatching (m : procedure unit F) (fake : FakeMonitor) : FakeMonitor :=
  mkFakeMonitor (fm_run fake) (fm_startWatching fake) m (fm_invocations fake).
Definition FakeMonitor_StopWatching (fake : FakeMonitor) : outcome (option F) * FakeMonitor :=
  let '(hasStub, m) := procedure_locked tt (fm_stopWatching fake) in
  let fake := FakeMonitor_recordInvocation "StopWatching" [] (fm_put_stopWatching m fake) in
  (procedure_unlocked hasStub (fm_stopWatching fake), fake).
Definition FakeMonitor_StopWatchingCallCount (fake : FakeMonitor) :
    nat := procedure_CallCount (fm_stopWatching fake).
Definition FakeMonitor_StopWatchingCalls (stub : option F) (fake : FakeMonitor) : FakeMonitor :=
  fm_put_stopWatching (procedure_Calls stub (fm_stopWatching fake)) fake.

(** ** [FakeMetricsEmitter]

    Made by an older generator: it has no results and no record of invocations,
    and looks at its stub without the lock. *)

Record FakeMetricsEmitter := mkFakeMetricsEmitter { fme_emit : procedure (option MetricsReport) F }.
Definition new_FakeMetricsEmitter : FakeMetricsEmitter := mkFakeMetricsEmitter procedure_new.
Definition FakeMetricsEmitter_Emit (arg1 : option MetricsReport) (fake : FakeMetricsEmitter) :
    outcome (option F) * FakeMetricsEmitter :=
  let '(hasStub, m) := procedure_locked arg1 (fme_emit fake) in
  (procedure_unlocked hasStub m, mkFakeMetricsEmitter m).
Definition FakeMetricsEmitter_EmitCallCount (fake : FakeMetricsEmitter) :
    nat := procedure_CallCount (fme_emit fake).
Definition FakeMetricsEmitter_EmitArgsForCall (i : Z) (fake : FakeMetricsEmitter) :
    outcome (option MetricsReport) :=
  match (if i <? 0 then None else proc_argsForCall (fme_emit fake) !! Z.to_nat i) with
  | Some arg => Returned arg
  | None => Panicked "index out of range"
  end.

End fakes.

(** * The methods of a double do not disturb each other *)

Section fake_updater.
Context {tags : ModificationTags} {F chan : Type}.
#[local] Abbreviation FakeUpdater := (FakeUpdater F chan).

(** A use of a method without a result. *)
Inductive proc_use := CallProc | SetStub (stub : option F).
Inductive updater_use :=
  | UseDrain (u : use unit (option error) F)
  | UseHandleEvent (u : use TcpEvent (option error) F)
  | UsePruneStaleRoutes (u : proc_use)
  | UseSync (u : proc_use)
  | UseSyncing (u : use unit bool F).

Definition proc_step (m : procedure unit F) (u : proc_use) : procedure unit F :=
  match u with CallProc => (procedure_call tt m).2 | SetStub stub => procedure_Calls stub m end.
Definition updater_use_step (fake : FakeUpdater) (u : updater_use) : FakeUpdater :=
  match u with
  | UseDrain (Call _) => (FakeUpdater_Drain F chan fake).2
  | UseDrain (Calls stub) => FakeUpdater_DrainCalls F chan stub fake
  | UseDrain (Returns r) => FakeUpdater_DrainReturns F chan r fake
  | UseDrain (ReturnsOnCall i r) => FakeUpdater_DrainReturnsOnCall F chan i r fake
  | UseHandleEvent (Call e) => (FakeUpdater_HandleEvent F chan e fake).2
  | UseHandleEvent (Calls stub) => FakeUpdater_HandleEventCalls F chan stub fake
  | UseHandleEvent (Returns r) => FakeUpdater_HandleEventReturns F chan r fake
  | UseHandleEvent (ReturnsOnCall i r) => FakeUpdater_HandleEventReturnsOnCall F chan i r fake
  | UsePruneStaleRoutes CallProc => (FakeUpdater_PruneStaleRoutes F chan fake).2
  | UsePruneStaleRoutes (SetStub stub) => FakeUpdater_PruneStaleRoutesCalls F chan stub fake
  | UseSync CallProc => (FakeUpdater_Sync F chan fake).2
  | UseSync (SetStub stub) => FakeUpdater_SyncCalls F chan stub fake
  | UseSyncing (Call _) => (FakeUpdater_Syncing F chan fake).2
  | UseSyncing (Calls stub) => FakeUpdater_SyncingCalls F chan stub fake
  | UseSyncing (Returns r) => FakeUpdater_SyncingReturns F chan r fake
  | UseSyncing (ReturnsOnCall i r) => FakeUpdater_SyncingReturnsOnCall F chan i r fake
  end.

(** The uses of one method among all. *)
Definition drain_uses (us : list updater_use) : list (use unit (option error) F) :=
  omap (λ u, match u with UseDrain u => Some u | _ => None end) us.
Definition event_uses (us : list updater_use) : list (use TcpEvent (option error) F) :=
  omap (λ u, match u with UseHandleEvent u => Some u | _ => None end) us.
Definition prune_uses (us : list updater_use) : list (proc_use) :=
  omap (λ u, match u with UsePruneStaleRoutes u => Some u | _ => None end) us.
Definition sync_uses (us : list updater_use) : list (proc_use) :=
  omap (λ u, match u with UseSync u => Some u | _ => None end) us.
Definition syncing_uses (us : list updater_use) : list (use unit bool F) :=
  omap (λ u, match u with UseSyncing u => Some u | _ => None end) us.
Definition proc_calls (us : list proc_use) : list unit :=
  omap (λ u, match u with CallProc => Some tt | SetStub _ => None end) us.

(** C39. Whatever a test and the program do with a [FakeUpdater], in whatever
    order, each of its methods is as if it had been used alone, and
    [Invocations] lists under the name of each method the arguments of its
    calls, in order. *)
Theorem fake_updater_methods (r : range_order string (list (list (any chan)))) (us : list updater_use) :
  IsRange r →
  let fake := foldl updater_use_step (new_FakeUpdater F chan) us in
  fu_drain F chan fake = foldl use_step (spy_new None) (drain_uses us) ∧
  fu_handleEvent F chan fake = foldl use_step (spy_new None) (event_uses us) ∧
  fu_pruneStaleRoutes F chan fake = foldl proc_step procedure_new (prune_uses us) ∧
  fu_sync F chan fake = foldl proc_step procedure_new (sync_uses us) ∧
  fu_syncing F chan fake = foldl use_step (spy_new false) (syncing_uses us) ∧
  let listed name := default [] (FakeUpdater_Invocations F chan r fake !! name) in
  listed "Drain" = (λ _, []) <$> called (drain_uses us) ∧
  listed "HandleEvent" = (λ e, [AnyEvent chan e]) <$> called (event_uses us) ∧
  listed "PruneStaleRoutes" = (λ _, []) <$> proc_calls (prune_uses us) ∧
  listed "Sync" = (λ _, []) <$> proc_calls (sync_uses us) ∧
  listed "Syncing" = (λ _, []) <$> called (syncing_uses us).
Proof.
  intros Hr. cbv zeta. unfold FakeUpdater_Invocations. rewrite copy_invocations_eq by done.
  change (default [] (default ∅ ?inv !! ?name)) with (invoked inv name).
  induction us as [|u us IH] using rev_ind; [done|].
  unfold drain_uses, event_uses, prune_uses, sync_uses, syncing_uses in *. rewrite !omap_app, !foldl_app. cbn [foldl].
  destruct IH as (H1 & H2 & H3 & H4 & H5 & H6 & H7 & H8 & H9 & H10).
  set (fake := foldl updater_use_step (new_FakeUpdater F chan) us) in *.
  unfold called, proc_calls in *.
  destruct u as [u|u|u|u|u]; destruct u; try match goal with a : () |- _ => destruct a end;
    cbn [omap list_omap foldl updater_use_step use_step proc_step]; rewrite ?app_nil_r, ?omap_app, ?fmap_app;
    cbn [omap list_omap fmap list_fmap]; rewrite <-?H1, <-?H2, <-?H3, <-?H4, <-?H5, ?app_nil_r;
    repeat split; try done; cbn; rewrite ?invoked_record; repeat (rewrite decide_False by done); try rewrite decide_True by done;
    (done || by f_equal).
Qed.

End fake_updater.

(** * A double in the place of the configurer *)

(** The updater on a [FakeRouterConfigurer].  A stub is a func of the test: it
    acts on whatever the test keeps in [W], and its result is the call's. *)
Section updater_on_fake.
Context {tags : ModificationTags} {api : RoutingAPI} (F chan W : Type) (time_Now : nat → Z).
Context (run_stub : F → RoutingTable → bool → W → option error * W).

#[local] Instance fake_configurer : RouterConfigurer := {|
  conf_state := FakeRouterConfigurer F chan * W;
  router_Configure := λ t draining st,
    let '(ans, fake) := FakeRouterConfigurer_Configure F chan t draining st.1 in
    match ans with
    | RunsStub stub => let '(err, w) := run_stub stub t draining st.2 in (err, (fake, w))
    | Gives err => (err, (fake, st.2))
    end
|}.

Definition fake_of (s : UState) : FakeRouterConfigurer F chan := fst (u_conf s).

Lemma fake_after_call t draining st :
  fst (router_Configure t draining st).2 = (FakeRouterConfigurer_Configure F chan t draining st.1).2.
Proof.
  destruct st as [fake w]. cbn [router_Configure fake_configurer fst snd].
  destruct (FakeRouterConfigurer_Configure F chan t draining fake) as [[stub|err] fake']; simpl; [|done].
  by destruct (run_stub stub t draining w).
Qed.

(** What the double has recorded is what the updater called. *)
Definition recorded (s : UState) : Prop :=
  FakeRouterConfigurer_ConfigureCallCount F chan (fake_of s) = length (u_configured s) ∧
  (argsForCall (frc_configure F chan (fake_of s))).*2 = reverse (u_configured s).*2 ∧
  length (invoked (frc_invocations F chan (fake_of s)) "Configure") = length (u_configured s).

Lemma recorded_invariant : conf_invariant recorded.
Proof.
  split.
  - unfold recorded, fake_of. intros s s' -> -> _. done.
  - intros t draining s (H1 & H2 & H3). rewrite call_configurer_with_state. unfold recorded, fake_of. cbn [u_conf u_configured].
    rewrite fake_after_call. unfold fake_of, FakeRouterConfigurer_ConfigureCallCount, spy_CallCount in *.
    unfold FakeRouterConfigurer_Configure, spy_call, FakeRouterConfigurer_recordInvocation, frc_put_configure.
    cbn [frc_configure frc_invocations argsForCall fst snd]. rewrite length_app, H1, fmap_app, H2, invoked_record.
    rewrite decide_True by done. rewrite length_app, H3. simpl. rewrite reverse_cons. repeat split; (done || lia).
Qed.

(** A double sees every call: whatever the goroutines of the updater do,
    the number of calls a [FakeRouterConfigurer] reports, the draining flags
    it recorded, in order, and the invocations it lists are those of the
    updater's calls. *)
Theorem fake_sees_every_call (routingTable : RoutingTable) (defaultTTL : Z) (a : api_state)
    (us : list (use (RoutingTable * bool) (option error) F)) (w : W) (ls : list label) (st : state) :
  called us = [] →
  let fake := mkFakeRouterConfigurer F chan (foldl use_step (spy_new None) us) None in
  run time_Now (mkState (NewUpdater routingTable defaultTTL a (fake, w)) [] []) ls = Some st →
  let s := shared st in
  FakeRouterConfigurer_ConfigureCallCount F chan (fake_of s) = length (u_configured s) ∧
  (argsForCall (frc_configure F chan (fake_of s))).*2 = reverse (u_configured s).*2 ∧
  length (invoked (frc_invocations F chan (fake_of s)) "Configure") = length (u_configured s).
Proof.
  intros Hus fake Hr. cbv zeta.
  eapply (run_conf time_Now recorded recorded_invariant); [|exact Hr|].
  - intros s Hs. exact Hs.
  - unfold recorded, fake_of, FakeRouterConfigurer_ConfigureCallCount, spy_CallCount. simpl.
    destruct (spy_uses (R := option error) (F := F) None us) as (-> & _). by rewrite Hus.
Qed.

End updater_on_fake.

(** * Concrete runs *)
Module Sample.
Import RoutingTable.Sample Updater.Sample.

(** The first call fails, the second one runs a stub, which counts. *)
Definition told_uses : list (use (RoutingTable * bool) (option error) unit) := [ReturnsOnCall 0 (Some "no")].
Definition count_stub (_ : unit) (_ : RoutingTable) (_ : bool) (w : nat) : option error * nat := (None, S w).
Definition fake_start : FakeRouterConfigurer unit unit :=
  mkFakeRouterConfigurer unit unit (foldl use_step (spy_new None) told_uses) None.
Definition fake_labels : list label :=
  [DoEvent (mkTcpEvent mapping1 "Upsert"); SpawnDrain; StepDrain 0; StepDrain 0; StepDrain 0; StepDrain 0; StepDrain 0].
#[local] Existing Instance fake_configurer.
#[local] Abbreviation sample_fake_rc := (fake_configurer unit unit nat count_stub).
Definition fake_begin : @state _ sample_api sample_fake_rc :=
  mkState (@NewUpdater _ sample_api sample_fake_rc NewRoutingTable 120 ([], []) (fake_start, 0%nat)) [] [].
Definition fake_end : @state _ sample_api sample_fake_rc := default fake_begin (run sample_now fake_begin fake_labels).
Lemma fake_run : run sample_now fake_begin fake_labels = Some fake_end.
Proof.
  assert ((λ st : @state _ sample_api sample_fake_rc, drains st) <$> run sample_now fake_begin fake_labels = Some [DrainSleeping None])
    as Hs by (vm_compute; reflexivity).
  unfold fake_end. destruct (run sample_now fake_begin fake_labels); [reflexivity|discriminate Hs].
Qed.
Lemma fake_sees_every_call_witness :
  (argsForCall (frc_configure unit unit (fake_of unit unit nat count_stub (shared fake_end)))).*2 = [false; true].
Proof.
  destruct (@fake_sees_every_call _ sample_api unit unit nat sample_now count_stub NewRoutingTable 120 ([], []) told_uses 0%nat
    fake_labels fake_end eq_refl fake_run) as (_ & H & _).
  etrans; [exact H|]. vm_compute. reflexivity.
Defined.

(** Calls and instructions of two methods mixed. *)
Definition mixed_uses : list (@updater_use _ unit) :=
  [UseDrain (Calls (Some tt)); UseHandleEvent (Call (mkTcpEvent mapping1 "Upsert")); UseDrain (Call tt);
   UseSync CallProc; UseHandleEvent (Returns (Some "no")); UseHandleEvent (Call (mkTcpEvent mapping2 "Delete"))].
Lemma fake_updater_methods_witness :
  FakeUpdater_Invocations unit unit map_to_list (foldl updater_use_step (new_FakeUpdater unit unit) mixed_uses)
    !! "HandleEvent" =
  Some [[AnyEvent unit (mkTcpEvent mapping1 "Upsert")]; [AnyEvent unit (mkTcpEvent mapping2 "Delete")]].
Proof.
  destruct (fake_updater_methods (chan := unit) map_to_list mixed_uses _) as (_ & _ & _ & _ & _ & _ & H & _).
  cbv zeta in H. destruct (FakeUpdater_Invocations _ _ _ _ !! _) as [l|]; simpl in H; [by rewrite H|discriminate H].
Defined.

(** A stub that is taken away while a call of [Sync] is on its way. *)
Example sync_stub_taken_away :
  let fake := FakeUpdater_SyncCalls unit unit (Some tt) (new_FakeUpdater unit unit) in
  let '(hasStub, m) := procedure_locked tt (fu_sync unit unit fake) in
  procedure_unlocked hasStub (procedure_Calls None m) = Panicked "invalid memory address or nil pointer dereference".
Proof. reflexivity. Qed.

End Sample.
