(* ===== verification/TestSupport.v ===== *)
(** [testrunner/runner.go] and [testutil/test_helpers.go]: the command line the
    tests start the program with, and their comparison of routing table entries. *)
From Stdlib Require Import Ascii.
From S2P Require Import Prelude GoStrings RoutingTable.
#[local] Open Scope Z_scope.

(** * The command line *)

Record Args := mkArgs {
  BaseLoadBalancerConfigFilePath : string;
  LoadBalancerConfigFilePath : string;
  ConfigFilePath : string;
  RoutingGroupCheckExit : bool
}.
Definition FormatBool (b : bool) : string := if b then "true" else "false".
Definition ArgSlice (args : Args) : list string :=
  ["-tcpLoadBalancerConfig=" +:+ LoadBalancerConfigFilePath args;
   "-tcpLoadBalancerBaseConfig=" +:+ BaseLoadBalancerConfigFilePath args;
   "-haproxyReloader=fixtures/fake_haproxy_reloader";
   "-config=" +:+ ConfigFilePath args;
   "-tokenFetchRetryInterval"; "1s";
   "-staleRouteCheckInterval"; "5s";
   "-logLevel=debug";
   "-syncInterval"; "1s";
   "-routingGroupCheckExit=" +:+ FormatBool (RoutingGroupCheckExit args);
   "-timeFormat"; "rfc3339"].

(** [New]: what the test's process runner is told. *)
Record runner_config := mkRunnerConfig {
  Name : string;
  AnsiColorCode : string;
  StartCheck : string;
  StartCheckTimeout : Z;
  Command : string * list string
}.
Definition New (binPath : string) (args : Args) : runner_config := {|
  Name := "tcp-router";
  AnsiColorCode := "1;97m";
  StartCheck := "tcp-router.started";
  StartCheckTimeout := 10 * Second;
  Command := (binPath, ArgSlice args)
|}.

(** [RandomFileName], with the guid it was given. *)
Definition RandomFileName (guid prefix suffix : string) : string := prefix +:+ guid +:+ suffix.

(** The flags [main.go] defines, with whether they are boolean, and the two of
    its logging library the tests use. *)
Definition main_flag_names : list (string * bool) :=
  [("tcpLoadBalancer", false); ("tcpLoadBalancerBaseConfig", false); ("tcpLoadBalancerConfig", false);
   ("tcpLoadBalancerStatsUnixSocket", false); ("subscriptionRetryInterval", false); ("config", false);
   ("routingGroupCheckExit", true); ("haproxyReloader", false); ("syncInterval", false);
   ("tokenFetchMaxRetries", false); ("tokenFetchRetryInterval", false); ("tokenFetchExpirationBufferTime", false);
   ("statsCollectionInterval", false); ("dropsondePort", false); ("staleRouteCheckInterval", false);
   ("defaultRouteExpiry", false)].
Definition log_flag_names : list (string * bool) := [("logLevel", false); ("timeFormat", false)].

(** [flag.Parse]: the names and the texts of the values of the flags, and the
    arguments that are left; [None] where it fails because an argument is
    malformed or a flag is not defined or lacks its value.  What the texts mean
    for the type of a flag is left to the flag. *)
Fixpoint cut_equals (s : string) : string * option string :=
  match s with
  | "" => ("", None)
  | String c s' =>
      if decide (c = "="%char) then ("", Some s')
      else let '(name, v) := cut_equals s' in (String c name, v)
  end.
(** An argument: not a flag, the end of the flags, malformed, or a flag. *)
Inductive argument := NotFlag | EndOfFlags | Malformed | Flag (name : string) (value : option string).
Definition read_name (s : string) : argument :=
  match s with
  | "" | String "-" _ | String "=" _ => Malformed
  | String c s' => let '(name, v) := cut_equals s' in Flag (String c name) v
  end.
Definition read_argument (s : string) : argument :=
  match s with
  | String "-" (String "-" "") => EndOfFlags
  | String "-" (String "-" s') => read_name s'
  | String "-" (String c s') => read_name (String c s')
  | _ => NotFlag
  end.
Fixpoint parse_flags (defined : list (string * bool)) (args : list string) :
    option (list (string * string) * list string) :=
  match args with
  | [] => Some ([], [])
  | s :: args' =>
      match read_argument s with
      | NotFlag => Some ([], args)
      | EndOfFlags => Some ([], args')
      | Malformed => None
      | Flag name value =>
          match list_find (λ d, d.1 = name) defined with
          | None => None
          | Some (_, (_, is_bool)) =>
              match value, (is_bool : bool), args' with
              | Some v, _, _ => '(fs, rest) ← parse_flags defined args'; Some ((name, v) :: fs, rest)
              | None, true, _ => '(fs, rest) ← parse_flags defined args'; Some ((name, "true") :: fs, rest)
              | None, false, v :: args'' => '(fs, rest) ← parse_flags defined args''; Some ((name, v) :: fs, rest)
              | None, false, [] => None
              end
          end
      end
  end.

(** The program takes every argument the tests give it, and reads back the
    values they were made of, whatever the paths contain. *)
Theorem ArgSlice_parses (args : Args) :
  parse_flags (main_flag_names ++ log_flag_names) (ArgSlice args) =
  Some ([("tcpLoadBalancerConfig", LoadBalancerConfigFilePath args);
         ("tcpLoadBalancerBaseConfig", BaseLoadBalancerConfigFilePath args);
         ("haproxyReloader", "fixtures/fake_haproxy_reloader"); ("config", ConfigFilePath args);
         ("tokenFetchRetryInterval", "1s"); ("staleRouteCheckInterval", "5s"); ("logLevel", "debug");
         ("syncInterval", "1s"); ("routingGroupCheckExit", FormatBool (RoutingGroupCheckExit args));
         ("timeFormat", "rfc3339")], []).
Proof. destruct args as [base cfg config []]; reflexivity. Qed.

(** * The external address

    [net.IP] is a slice of 4 or 16 bytes; the 16 bytes of an IPv4 address are
    ten zeros, two 255 and its four bytes. *)
Definition To4 (ip : list Z) : option (list Z) :=
  match ip with
  | [_; _; _; _] => Some ip
  | _ =>
      if bool_decide (length ip = 16%nat ∧ take 12 ip = replicate 10 0 ++ [255; 255]) then Some (drop 12 ip) else None
  end.
Definition IsLoopback (ipv4 : list Z) : bool := match ipv4 with b :: _ => b =? 127 | [] => false end.
Definition IP_String (ipv4 : list Z) : string := Join (Sprintf_d <$> ipv4) ".".

(** [GetExternalIP] on the addresses that [net.ParseCIDR] makes of the texts of
    the interfaces' addresses (none where it fails, which [To4] turns down). *)
Fixpoint GetExternalIP (ips : list (list Z)) : string :=
  match ips with
  | [] => ""
  | ip :: ips' =>
      match To4 ip with
      | Some ipv4 => if negb (IsLoopback ipv4) then IP_String ipv4 else GetExternalIP ips'
      | None => GetExternalIP ips'
      end
  end.

Definition external (ipv4 : list Z) : bool := negb (IsLoopback ipv4).

(** It is the first IPv4 address that is not a loopback address, in either
    form, and empty without one. *)
Theorem GetExternalIP_first (ips : list (list Z)) :
  GetExternalIP ips = default "" (IP_String <$> head (base.filter (λ ip, external ip = true) (omap To4 ips))).
Proof.
  induction ips as [|ip ips IH]; [done|]. cbn [GetExternalIP omap list_omap].
  destruct (To4 ip) as [ipv4|]; [|exact IH]. rewrite filter_cons. change (negb (IsLoopback ipv4)) with (external ipv4).
  destruct (external ipv4) eqn:He.
  - by rewrite decide_True.
  - by rewrite decide_False.
Qed.
Example external_address :
  GetExternalIP [[127; 0; 0; 1]; replicate 15 0 ++ [1]; []; replicate 10 0 ++ [255; 255; 10; 0; 16; 4]; [8; 8; 8; 8]]
  = "10.0.16.4".
Proof. vm_compute. reflexivity. Qed.

(** * Entries *)

Section entries.
Context {tags : ModificationTags}.

Definition backendServerDetailsMatches (actualDetails expectedDetails : BackendServerDetails) : bool :=
  bool_decide (bd_ModificationTag actualDetails = bd_ModificationTag expectedDetails) &&
  (bd_TTL actualDetails =? bd_TTL expectedDetails).
Definition RoutingTableEntryMatches (r : range_order BackendServerKey BackendServerDetails)
    (actualEntry expectedEntry : RoutingTableEntry) : bool :=
  (size (Backends actualEntry) =? size (Backends expectedEntry))%nat &&
  forallb (λ kd, match Backends expectedEntry !! kd.1 with
    | Some expectedDetails => backendServerDetailsMatches kd.2 expectedDetails
    | None => false
    end) (r (Backends actualEntry)).

(** What is compared of the details: not the time of the update. *)
Definition compared (d : BackendServerDetails) : ModificationTag * Z := (bd_ModificationTag d, bd_TTL d).

(** Entries match when they have the same backends with the same tags and
    times to live. *)
Theorem entries_match (r : range_order BackendServerKey BackendServerDetails) (e1 e2 : RoutingTableEntry) :
  IsRange r →
  RoutingTableEntryMatches r e1 e2 = true ↔ compared <$> Backends e1 = compared <$> Backends e2.
Proof.
  intros Hr. unfold RoutingTableEntryMatches. rewrite andb_true_iff, Nat.eqb_eq, forallb_forall.
  assert ((∀ kd, kd ∈ r (Backends e1) → match Backends e2 !! kd.1 with
      | Some d2 => backendServerDetailsMatches kd.2 d2 | None => false end = true) ↔
    (compared <$> Backends e1) ⊆ (compared <$> Backends e2)) as Hsub.
  { rewrite map_subseteq_spec. split.
    - intros Hall k x Hk. rewrite lookup_fmap in Hk. destruct (Backends e1 !! k) as [d|] eqn:Hd; simplify_eq/=.
      specialize (Hall (k, d) (proj2 (elem_of_range r _ k d) Hd)). simpl in Hall. rewrite lookup_fmap.
      destruct (Backends e2 !! k) as [d2|]; [|done]. unfold backendServerDetailsMatches in Hall.
      simpl. unfold compared. bool_simpl. congruence.
    - intros Hincl [k d] Hk. apply (elem_of_range r) in Hk. specialize (Hincl k (compared d)).
      rewrite !lookup_fmap, Hk in Hincl. specialize (Hincl eq_refl). simpl.
      destruct (Backends e2 !! k) as [d2|]; simplify_eq/=. unfold backendServerDetailsMatches.
      unfold compared in *. simplify_eq. rewrite andb_true_iff, bool_decide_eq_true, Z.eqb_eq. split; congruence. }
  split.
  - intros [Hsz Hall]. assert (compared <$> Backends e1 ⊆ compared <$> Backends e2) as Hincl.
    { apply Hsub. intros kd Hkd. apply Hall. by apply list_elem_of_In. }
    apply map_subseteq_size_eq; [done|]. by rewrite !map_size_fmap, Hsz.
  - intros Heq. split; [by rewrite <-(map_size_fmap compared), Heq, map_size_fmap|].
    intros kd Hkd. apply list_elem_of_In in Hkd. revert kd Hkd. apply Hsub. by rewrite Heq.
Qed.

End entries.

(** * A concrete instance *)
Module Sample.
Import RoutingTable.Sample.

Lemma entries_match_witness :
  RoutingTableEntryMatches map_to_list (Get table1 key80) (NewRoutingTableEntry (λ _, 5) [info1]) = true.
Proof. apply (entries_match map_to_list _ _ _). apply map_eq. intros k. vm_compute. reflexivity. Defined.

End Sample.
